(* ===== verification/_CoqProject ===== *)
-Q . S2P
Prelude.v
CString.v
Text.v
Numerals.v
CMem.v
Dll.v
LevelList.v
SortedInsert.v
ListSort.v
Threads.v
Objects.v
TidList.v
Exchange.v
PathNode.v
LinkedList.v
FileSys.v
FileSearch.v
Listing.v
PathList.v
Dirlist.v
Pardirlist.v
ParThreads.v
ParMain.v
Sdll.v
SdllDirlist.v
SdllSearch.v
SeqSearch.v
SdllThreads.v
ItemOrder.v
Project2Main.v
Rev1Main.v
Segment.v
ReqQueue.v
AddSteps.v
MainSteps.v
SharedQueue.v
ClientTurns.v
Processes.v
Client.v
ServerSearch.v
Server.v
Serving.v
OutputLock.v
BoundedBuffer.v
BufferRuns.v
BufExercise.v
Printers.v
BufferMemory.v
Child.v
System.v
SystemRev1.v
Paging.v
Arrays.v
AddNums.v
RaceCounter.v
Tax.v
Lecture.v
Forks.v
