(* ===== verification/Prelude.v ===== *)
(** * Verification of the cse420 operating-systems programs

    The repository holds the programs of an operating-systems course, in C: programs that
    list a directory tree and count a keyword in its files, with and without threads;
    clients and servers that pass search requests through shared memory; and exercises on
    lists, arrays, page replacement and digits. This development translates them into Rocq
    functions and transition systems, and proves what they compute, what they leave in
    memory, how their processes and threads interact, and on which inputs they have no
    defined behaviour.

    ** How a C program is modelled

    - [outcome] (this file): a run gives a value, has no meaning in C ([Ub], with the reason),
      ends the process ([Exits]), or is still running when the fuel of a loop is used up
      ([NoFuel]). [M St] is the monad of runs over a state [St]; [loop] runs a loop body that
      says whether it goes on. Fuel is a number of rounds. Where a loop ends, the fuel is
      computed from the state (live blocks for a traversal of a list, the length of a string
      for a scan), and the theorems show that the run ends with a value. The depth of the
      recursion of open_dir is bounded by 256 levels, because a path of 255 characters overflows
      its buffer before.
    - Memory: CMem.v is a heap of typed blocks with malloc, free, load and store; Dll.v has
      doubly linked lists in it, over an interface [NodeData] for what a node carries;
      Objects.v has strings, items, counters and thread identifiers. The shared memory of the
      servers is an array of bytes (Segment.v), the arrays of the exercises are lists with
      an index check (Arrays.v).
    - Strings are lists of characters without the final NUL, except in Segment.v and in the
      buffers of Client.v and ReqQueue.v, where the NUL is a character of the array. An
      [int] is a [Z] that [to_int] checks; the result of an addition that cannot leave the
      type (a counter of entries or lines) is not checked.
    - The outside: a file system is a record of functions ([FileSys.fsys]), arguments are
      lists of strings, ftok, the bytes that malloc leaves in new memory ([junk]) and the room of
      a block ([usable]) are parameters: the theorems about runs hold
      for all of them, or say what happens in either case. Memory is not
      exhausted unless a heap says so ([budget]); fork and pthread_create succeed.
    - Threads of the directory programs run from start to end at the points where main may
      be preempted, as an arbitrary schedule says (Threads.v). The threads of the servers are
      transition systems with a step for every semaphore operation and every write
      (OutputLock.v, BoundedBuffer.v, Printers.v), those of clients and server with a step for every
      access of the segment (SharedQueue.v). Processes.v puts all of these into one transition
      system: clients, main of the server, a child for every request taken, the semaphores of
      the directories, and the threads of all children, in any order.

    ** The files

    - Prelude, CString, Text, Numerals: the monad and its automation ([mstep] with the hint
      database [crun]), strcmp, strcpy, fgets, strtok_r, atoi, the rws of the repository, and
      the decimal numerals that [%d] prints.
    - CMem, Dll, LevelList, SortedInsert, ListSort, Exchange, Objects, TidList, Threads: the heap,
      the pointer code that the list programs share, and its refinement of pure list
      functions (sorted insertion, exchange sort, numbering by level, printing, destroying).
    - PathNode, PathList, LinkedList: nodes that hold a path; buffer/linkedlist.c and DLL/main.c.
    - FileSys, FileSearch, Listing: the recursive walk, the search of a file for a keyword, and
      the specification of a listing, which every directory program is proved against.
    - Dirlist: Lin/dirlist/dirlist.c ([LinDirlist]) and its copy ([DirlistCopy]).
      Pardirlist, ParThreads, ParMain: Lin/pardirlist/pardirlist.c, in sequence and with
      threads. Sdll, SdllDirlist: dirlist/BlackBoxTesting/dirlist.c.
    - SdllSearch: Project2-5243528/pardirlist.c ([Project2]) and Lin/pardirlist/pardirlist_rev1.c
      ([Rev1]). SeqSearch: their lists when they run in sequence; SdllThreads: the invariant
      of the list while the searches run, as an instance of [Steady] (Threads.v); ItemOrder:
      sorting and numbering the items while a thread still may come. Project2Main, Rev1Main:
      their main in both modes.
    - Segment, ReqQueue: the request queue in shared memory, AddReq, charcount, dequeueItem.
      AddSteps, MainSteps: AddReq and main of the server as machines with a step for every
      access of the segment. SharedQueue: a client and the server at the same time;
      ClientTurns: several clients under SEMrq. Processes: clients, server and children as
      one transition system, with what the threads of a child do behind the interface
      [Writers]. Client: client.c and client-rev1.c.
      ServerSearch, Server, Serving: server.c in its two versions and server-rev1.c: polling,
      forking a child for a request, the threads of a child. OutputLock: fileWriter under
      SEMbuf. BoundedBuffer: put, getitem and the Printer; BufferRuns: a scheduler for them, and
      what their runs come to; BufExercise: the functions of buffer/buf.c, the exercise that
      the buffer comes from; Printers: the buffers and Printers of
      all children, which write to one file; BufferMemory: the strings of a buffer in the
      heap, destroyBuffer. Child: ChildsPlay from the lock of the directory to output.txt.
      System: Processes with the threads of server.c, which write blocks under SEMbuf;
      SystemRev1: with the threads and Printers of server-rev1.c.
    - Paging: Virtual Memory/algo.c. Arrays: calc/LeetCode/rotate.c, rob.c and 2darray/arr.c.
      AddNums: calc/LeetCode/addNums.c. Tax: calc/main.c. RaceCounter: the counter of all
      matches that the search threads share.
    - Lecture: the programs of LectureExample with a thread ([ThrdPosix]), shared memory
      ([ShmPosix]) and a message queue ([Messages]). Forks: those that fork, as trees of system
      calls, and a pool of processes in which they run in any order.

    ** What the theorems show

    - Directory programs: the file that is written is the listing of the tree (the entries of
      the walk, ordered by level and path, numbered within a level, with their counts); it
      does not depend on the order of readdir; main ends on every file system; what is left in
      memory. The runs with threads of Lin/pardirlist/pardirlist.c and pardirlist_rev1.c give
      the same file under every schedule that runs the thread that is not joined in time, and
      other files under other schedules; Project2 joins an identifier that was never written,
      under every schedule.
    - totalMatches: where several threads count in it without a lock (pardirlist_rev1.c) main
      is proved for whatever values their loads give: the total can then be too small. RaceCounter
      has the loads and stores themselves, and a run that loses a match.
    - Searches: keyword_search counts the words that are the keyword when no line is longer
      than the buffer, and misses one that is cut.
    - Queue: AddReq and dequeueItem refine a first-in-first-out queue of requests; a file of
      requests that a client reads is what the server takes, if malloc gives the copies the
      bytes that the code does not ask for. main of the server gives the
      requests to children in order, until "exit" appears, which overtakes them: once it is in
      the segment no child is forked any more, whatever the clients do. The server
      takes no lock: AddReq and dequeueItem are a queue under every interleaving all the same,
      but charcount can run behind the segment, and strdup behind a copy that no NUL follows.
    - From end to end, for both versions, and under every schedule of all processes and
      threads: the server forks a child for the requests of the clients, in their order and
      client by client; the children and threads come to an end, and then output.txt has what the requests
      of the children that did their work ask for, with server.c in whole blocks, with
      server-rev1.c in whole lines; a child that sees "exit" does nothing, and a client can
      be left waiting for SEMrq when the server has ended.
    - Children: the blocks of all files are appended to output.txt, whole and once, in some
      order. The bounded buffer loses nothing, always ends and never blocks when the
      semaphore starts at BUFFERSIZE or less, and loses a line when it starts at 10 and
      BUFFERSIZE is smaller, as in the source.
    - Exercises: round trips, exact results and the inputs on which they fail.
    - Lecture: the sum that thrd-posix.c prints, and where it overflows; what a consumer prints
      after the producer and while the producer writes; that the receiver loses the second
      message; that quiz4.c comes to six processes with three lines each under every schedule;
      that the child of newproc-posix.c has no defined behaviour.

    ** Not modelled

    - main of buffer/buf.c, which is not C. The trees under files/, testdir/ and searchdir/, which
      are data for the programs. What /bin/ls does when newproc-posix.c calls it.
    - printSHM and logging, which only write to the terminal; get_shm and shmget, which attach
      the segment. The identifier that semget gives is the key itself.
    - SEM_UNDO and the end of a process are in Processes.v only; in Server.v, where a
      process runs by itself, sem_ini(0, ...) of server-rev1.c meets no semaphore in use.
    - A search is one step of its thread (Threads.v); of the increments of totalMatches in
      pardirlist_rev1.c the loads are arbitrary, those of Project2-5243528/pardirlist.c are
      not interleaved: its PARALLEL mode has no defined behaviour before it reports a total.
      The files that a search reads do not change meanwhile; output.txt is not among them.
    - ChildsPlay in Server.v calls fileWriter for its files one after the other, in any order;
      that the calls interleave is in OutputLock.v and System.v. *)

From stdpp Require Import base list gmap fin_maps strings pretty sorting relations.
From Stdlib Require Import Ascii.

(** ** Outcomes of a C computation *)

(** The reasons for which the C standard gives a run no meaning. *)
Inductive ub :=
  | NullDeref   (** a NULL pointer is dereferenced *)
  | BadAccess   (** an access outside every live object, or through a wrong type *)
  | Overflow    (** a write past the end of a buffer *)
  | BadFree     (** free of something that is not a live block *)
  | Uninit      (** the value of an uninitialised object is used *)
  | IntOverflow (** a signed integer computation leaves its type *).

#[export] Instance ub_eq_dec : EqDecision ub.
Proof. solve_decision. Defined.

(** A run returns a value, has no meaning, ends the process, or is still
    running when the fuel of a loop is used up. *)
Inductive outcome (A : Type) :=
  | Ok (a : A)
  | Ub (u : ub)
  | Exits (code : Z)
  | NoFuel.
Arguments Ok {_} _.
Arguments Ub {_} _.
Arguments Exits {_} _.
Arguments NoFuel {_}.

#[export] Instance outcome_eq_dec {A} `{EqDecision A} : EqDecision (outcome A).
Proof. solve_decision. Defined.

#[export] Instance outcome_ret : MRet outcome := λ A, Ok.
#[export] Instance outcome_bind : MBind outcome := λ A B k m,
  match m with
  | Ok a => k a
  | Ub u => Ub u
  | Exits c => Exits c
  | NoFuel => NoFuel
  end.

(** ** The state and error monad *)

Definition M (St A : Type) : Type := St → outcome (A * St).

#[export] Instance M_ret {St} : MRet (M St) := λ A a s, Ok (a, s).
#[export] Instance M_bind {St} : MBind (M St) := λ A B k m s,
  match m s with
  | Ok (a, s') => k a s'
  | Ub u => Ub u
  | Exits c => Exits c
  | NoFuel => NoFuel
  end.

Definition fail_ub {St A} (u : ub) : M St A := λ _, Ub u.
Definition exit {St A} (code : Z) : M St A := λ _, Exits code.
Definition no_fuel {St A} : M St A := λ _, NoFuel.
Definition get_state {St} : M St St := λ s, Ok (s, s).
Definition put_state {St} (s : St) : M St unit := λ _, Ok (tt, s).

(** A loop: the body either continues with a new loop state or leaves with a
    result. *)
Fixpoint loop {St A R} (fuel : nat) (body : A → M St (A + R)) (a : A) : M St R :=
  match fuel with
  | O => no_fuel
  | S fuel' =>
      r ← body a;
      match r with
      | inl a' => loop fuel' body a'
      | inr v => mret v
      end
  end.

Lemma bind_Ok {St A B} (m : M St A) (k : A → M St B) s a s' :
  m s = Ok (a, s') → (m ≫= k) s = k a s'.
Proof. intros H. unfold mbind, M_bind. by rewrite H. Qed.

Lemma bind_Ub {St A B} (m : M St A) (k : A → M St B) s u :
  m s = Ub u → (m ≫= k) s = Ub u.
Proof. intros H. unfold mbind, M_bind. by rewrite H. Qed.

Lemma bind_Exits {St A B} (m : M St A) (k : A → M St B) s c :
  m s = Exits c → (m ≫= k) s = Exits c.
Proof. intros H. unfold mbind, M_bind. by rewrite H. Qed.

(** What a successful sequence says about its parts. *)
Lemma bind_inv {St A B} (m : M St A) (k : A → M St B) s b s'' :
  (m ≫= k) s = Ok (b, s'') → ∃ a s', m s = Ok (a, s') ∧ k a s' = Ok (b, s'').
Proof.
  unfold mbind, M_bind. destruct (m s) as [[a s']|?|?|] eqn:E; intros H; try done.
  by exists a, s'.
Qed.

Lemma bind_assoc {St A B C} (m : M St A) (k : A → M St B) (k' : B → M St C) s :
  ((m ≫= k) ≫= k') s = (m ≫= (λ a, k a ≫= k')) s.
Proof. unfold mbind, M_bind. by destruct (m s) as [[]| | |]. Qed.

Lemma loop_step {St A R} fuel (body : A → M St (A + R)) a a' s s' :
  body a s = Ok (inl a', s') → loop (S fuel) body a s = loop fuel body a' s'.
Proof. intros H. simpl. by rewrite (bind_Ok _ _ _ _ _ H). Qed.

Lemma loop_done {St A R} fuel (body : A → M St (A + R)) a r s s' :
  body a s = Ok (inr r, s') → loop (S fuel) body a s = Ok (r, s').
Proof. intros H. simpl. by rewrite (bind_Ok _ _ _ _ _ H). Qed.

(** The result of a run without its final state. *)
Definition result {St A} (o : outcome (A * St)) : outcome A :=
  match o with
  | Ok (a, _) => Ok a
  | Ub u => Ub u
  | Exits c => Exits c
  | NoFuel => NoFuel
  end.

(** [mstep] executes the first call of a sequence by a lemma of the
    database [crun] (or by the given one). *)
Create HintDb crun.
Ltac mstep :=
  erewrite bind_Ok; [ | solve [ eauto 6 with crun ] ]; cbv beta iota.
Tactic Notation "mstep" "by" uconstr(H) :=
  erewrite bind_Ok; [ | first [ eapply H | refine H ]; eauto with crun ]; cbv beta iota.

(** ** Bytes *)

Notation bytes := (list ascii).

Declare Scope c_scope.
Delimit Scope c_scope with c.

(** String literals of the source. *)
Definition lit (s : string) : bytes := String.list_ascii_of_string s.
Definition NUL : ascii := Ascii.zero.

(** [%d] of a C integer. *)
Definition fmt_d (z : Z) : bytes := String.list_ascii_of_string (pretty z).

(** ** Lists *)

Lemma mjoin_cons {A} (x : list A) (xs : list (list A)) : mjoin (x :: xs) = x ++ mjoin xs.
Proof. done. Qed.

(** An invariant holds after any number of steps. *)
Lemma rtc_preserves {A} (R : relation A) (P : A → Prop) x y :
  (∀ a b, P a → R a b → P b) → rtc R x y → P x → P y.
Proof. intros HP. induction 1 as [|a b c Hab _ IH]; [done|]. intros Ha. apply IH. by eapply HP. Qed.

(** Somebody can do [Q], or all have [R]. *)
Lemma some_or_all {A} (Q : Prop) (R : A → Prop) (l : list A) :
  (∀ x, x ∈ l → Q ∨ R x) → Q ∨ ∀ x, x ∈ l → R x.
Proof.
  induction l as [|x l IH]; intros H; [right; by intros x ?%elem_of_nil|].
  destruct (H x ltac:(by left)) as [?|Hx]; [by left|].
  destruct IH as [?|Hl]; [intros y Hy; apply H; by right|by left|].
  right. intros y [->|Hy]%elem_of_cons; [done|by apply Hl].
Qed.

Lemma mjoin_app {A} (xs ys : list (list A)) : mjoin (xs ++ ys) = mjoin xs ++ mjoin ys.
Proof. induction xs as [|x xs IH]; [done|]. cbn [app]. by rewrite !mjoin_cons, IH, app_assoc. Qed.

(** The elements at all places, in order. *)
Lemma fmap_lookup_seq {A} (d : A) l : (λ i, default d (l !! i)) <$> seq 0 (length l) = l.
Proof.
  apply list_eq. intros i. rewrite list_lookup_fmap. destruct (decide (i < length l)) as [Hi|Hi].
  - rewrite lookup_seq_lt by done. simpl. by destruct (lookup_lt_is_Some_2 l i Hi) as [x ->].
  - rewrite (lookup_ge_None_2 l) by lia. by rewrite lookup_seq_ge by lia.
Qed.

Lemma not_elem_of_take {A} (x : A) n l : x ∉ l → x ∉ take n l.
Proof. rewrite <- (take_drop n l) at 1. by intros [? _]%not_elem_of_app. Qed.
Lemma not_elem_of_drop {A} (x : A) n l : x ∉ l → x ∉ drop n l.
Proof. rewrite <- (take_drop n l) at 1. by intros [_ ?]%not_elem_of_app. Qed.

(** [for] over the elements of a list, in order. *)
Fixpoint for_each {St A} (f : A → M St unit) (l : list A) : M St unit :=
  match l with
  | [] => mret tt
  | a :: l' => f a;; for_each f l'
  end.

Lemma for_each_app {St A} (f : A → M St unit) l1 l2 s :
  for_each f (l1 ++ l2) s = (for_each f l1;; for_each f l2) s.
Proof.
  revert s. induction l1 as [|a l1 IH]; intros s; [done|]. simpl. rewrite bind_assoc.
  destruct (f a s) as [[[] s1]|u|c|] eqn:E.
  - by rewrite !(bind_Ok _ _ _ _ _ E).
  - by rewrite !(bind_Ub _ _ _ _ E).
  - by rewrite !(bind_Exits _ _ _ _ E).
  - unfold mbind, M_bind. by rewrite E.
Qed.

Lemma filter_all {A} (P : A → Prop) `{!∀ x, Decision (P x)} (l : list A) :
  (∀ x, x ∈ l → P x) → filter P l = l.
Proof.
  induction l as [|a l IH]; intros Hl; [done|]. rewrite filter_cons_True by (apply Hl; left).
  f_equal. apply IH. intros x ?. apply Hl. by right.
Qed.

Lemma elem_of_concat {A} (x : A) (ls : list (list A)) : x ∈ concat ls ↔ ∃ l, x ∈ l ∧ l ∈ ls.
Proof.
  rewrite list_elem_of_In, in_concat. setoid_rewrite <- list_elem_of_In. naive_solver.
Qed.

Lemma concat_perm {A} (xs ys : list (list A)) : Forall2 (≡ₚ) xs ys → concat xs ≡ₚ concat ys.
Proof. induction 1 as [|x y xs ys Hxy _ IH]; [done|]. simpl. by rewrite Hxy, IH. Qed.

Lemma concat_concat {A} (xss : list (list (list A))) : concat (concat xss) = concat ((λ xs, concat xs) <$> xss).
Proof. induction xss as [|xs xss IH]; [done|]. simpl. by rewrite concat_app, IH. Qed.

(** What belongs to one key, in order. *)
Definition by_key {K A} `{EqDecision K} (k : K) (l : list (K * A)) : list A := (filter (λ p, p.1 = k) l).*2.

Lemma by_key_snoc {K A} `{EqDecision K} (k j : K) (l : list (K * A)) x :
  by_key j (l ++ [(k, x)]) = by_key j l ++ (if decide (k = j) then [x] else []).
Proof.
  unfold by_key. rewrite filter_app, fmap_app. f_equal. case_decide as E.
  - by rewrite filter_cons_True.
  - by rewrite filter_cons_False.
Qed.

Lemma filter_sublist {A} (P : A → Prop) `{!∀ x, Decision (P x)} (l k : list A) :
  l `sublist_of` k → filter P l `sublist_of` filter P k.
Proof.
  induction 1 as [|x l k _ IH|x l k _ IH]; [done|rewrite !filter_cons|rewrite filter_cons]; case_decide;
    by try constructor.
Qed.

(** The elements with [P], by their positions in any order. *)
Lemma pick_perm {A} (P : A → Prop) `{∀ x, Decision (P x)} (l : list A) (o : list nat) :
  NoDup o → (∀ i, i ∈ o ↔ ∃ x, l !! i = Some x ∧ P x) → omap (λ i, l !! i) o ≡ₚ filter P l.
Proof.
  revert o. induction l as [|x l IH] using rev_ind; intros o Hnd Ho.
  - destruct o as [|i o]; [done|]. destruct (proj1 (Ho i)) as (x & Hx & _); [left|done].
  - assert (Hgen : ∀ o', NoDup o' → (∀ i, i ∈ o' ↔ ∃ y, l !! i = Some y ∧ P y) →
      omap (λ i, (l ++ [x]) !! i) o' ≡ₚ filter P l).
    { intros o' Hnd' Ho'. rewrite <- (IH o') by done. apply reflexive_eq.
      assert (Hlt : Forall (λ i, i < length l) o').
      { apply Forall_forall. intros i (y & Hy & _)%Ho'. by eapply lookup_lt_Some. }
      clear Hnd' Ho'. induction Hlt as [|i o' Hi _ IHo]; [done|]. cbn. rewrite lookup_app_l by done.
      destruct (l !! i); by rewrite IHo. }
    assert (Hlast : (l ++ [x]) !! length l = Some x) by by rewrite lookup_app_r, Nat.sub_diag.
    assert (Hsplit : ∀ i, i ∈ o ↔ (∃ y, l !! i = Some y ∧ P y) ∨ i = length l ∧ P x).
    { intros i. rewrite Ho. split.
      - intros (y & [Hy|[Hle Hy]]%lookup_app_Some & Py); [left; eauto|right].
        apply list_lookup_singleton_Some in Hy as [Hi ->]. split; [lia|done].
      - intros [(y & Hy & Py)|[-> Px]]; [|eauto]. exists y. split; [by apply lookup_app_l_Some|done]. }
    rewrite filter_app. destruct (decide (P x)) as [Px|Px].
    + assert (Hin : length l ∈ o) by (apply Hsplit; auto).
      apply elem_of_Permutation in Hin as [o' Hp]. rewrite Hp in Hnd. apply NoDup_cons in Hnd as [Hni Hnd].
      rewrite Hp. cbn. rewrite Hlast, decide_True by done.
      rewrite (Hgen o'); [by rewrite Permutation_app_comm|done|]. intros i. split.
      * intros Hi. destruct (proj1 (Hsplit i)) as [?|[-> _]]; [rewrite Hp; by right|done|done].
      * intros (y & Hy & Py). assert (i ∈ o) as Hio by (apply Hsplit; eauto). rewrite Hp in Hio.
        apply elem_of_cons in Hio as [->|?]; [|done]. apply lookup_lt_Some in Hy. lia.
    + cbn. rewrite decide_False, app_nil_r by done. apply Hgen; [done|]. intros i. rewrite Hsplit. naive_solver.
Qed.

Lemma sum_list_fmap_insert {A} (f : A → nat) (l : list A) i x x' :
  l !! i = Some x → sum_list (f <$> <[i:=x']> l) + f x = sum_list (f <$> l) + f x'.
Proof.
  intros Hi. rewrite <- (take_drop_middle l i x Hi) at 2.
  rewrite insert_take_drop by by eapply lookup_lt_Some.
  rewrite !fmap_app, !fmap_cons, !sum_list_with_app. simpl. lia.
Qed.

Lemma sum_list_insert (l : list nat) i x x' :
  l !! i = Some x → sum_list (<[i:=x']> l) + x = sum_list l + x'.
Proof. intros Hi. pose proof (sum_list_fmap_insert id l i x x' Hi) as H. by rewrite !list_fmap_id in H. Qed.

Lemma NoDup_fmap_filter {A B} (f : A → B) (P : A → Prop) `{!∀ x, Decision (P x)} (l : list A) :
  NoDup (f <$> l) → NoDup (f <$> filter P l).
Proof.
  induction l as [|a l IH]; [done|]. rewrite fmap_cons. intros [Ha Hl]%NoDup_cons.
  rewrite filter_cons. case_decide; [|by apply IH]. rewrite fmap_cons. apply NoDup_cons.
  split; [|by apply IH]. intros (x & E & Hx)%list_elem_of_fmap. apply Ha. rewrite E.
  apply list_elem_of_filter in Hx as [_ Hx]. by apply list_elem_of_fmap_2.
Qed.

(** A computation without effect on the state. *)
Definition lift {St A} (o : outcome A) : M St A := λ s, o ≫= λ a, Ok (a, s).

Lemma lift_Ok {St A} (o : outcome A) (a : A) (s : St) : o = Ok a → lift o s = Ok (a, s).
Proof. by intros ->. Qed.

Lemma lift_bind {St A B} (o : outcome A) (k : A → M St B) (s : St) :
  (lift o ≫= k) s = (o ≫= λ a, k a s).
Proof. by destruct o. Qed.
