(* ===== verification/CString.v ===== *)
(** * The string functions of the C library that the programs call

    A C string is the list of its bytes before the terminating NUL. *)

From stdpp Require Import base list strings pretty.
From Stdlib Require Import Ascii.
From S2P Require Import Prelude.

Implicit Types (c : ascii) (s t : bytes).

(** ** Characters *)

(** The value of a byte as an [unsigned char], which is how [strcmp] compares. *)
Definition byte_val c : nat := nat_of_ascii c.

Lemma byte_val_inj c c' : byte_val c = byte_val c' → c = c'.
Proof.
  intros E. rewrite <- (ascii_nat_embedding c), <- (ascii_nat_embedding c').
  unfold byte_val in E. by rewrite E.
Qed.

Definition SP : ascii := " "%char.
Definition TAB : ascii := "009"%char.
Definition NL : ascii := "010"%char.

(** ** strcmp *)

(** The sign of [strcmp(s,t)], all that the programs look at. *)
Fixpoint strcmp s t : Z :=
  match s, t with
  | [], [] => 0
  | [], _ :: _ => -1
  | _ :: _, [] => 1
  | c :: s', c' :: t' =>
      if decide (c = c') then strcmp s' t'
      else if decide (byte_val c < byte_val c') then -1 else 1
  end.

Lemma strcmp_refl s : strcmp s s = 0%Z.
Proof. induction s as [|c s IH]; simpl; [done|]. by rewrite decide_True. Qed.

Lemma strcmp_0 s t : strcmp s t = 0%Z ↔ s = t.
Proof.
  split; [|intros ->; apply strcmp_refl].
  revert t. induction s as [|c s IH]; intros [|c' t]; simpl; try done.
  repeat case_decide; naive_solver.
Qed.

Lemma strcmp_cases s t : strcmp s t = (-1)%Z ∨ strcmp s t = 0%Z ∨ strcmp s t = 1%Z.
Proof.
  revert t. induction s as [|c s IH]; intros [|c' t]; simpl; auto.
  repeat case_decide; auto.
Qed.

Lemma strcmp_opp s t : strcmp t s = (- strcmp s t)%Z.
Proof.
  revert t. induction s as [|c s IH]; intros [|c' t]; simpl; try done.
  repeat case_decide; subst; try done; try lia; try (by exfalso; lia).
  assert (byte_val c = byte_val c') as ?%byte_val_inj by lia. done.
Qed.

Lemma strcmp_le_trans s t u :
  (strcmp s t ≤ 0)%Z → (strcmp t u ≤ 0)%Z → (strcmp s u ≤ 0)%Z.
Proof.
  revert t u. induction s as [|c s IH]; intros [|c' t] [|c'' u]; simpl; try lia.
  repeat case_decide; subst; try lia; try done; eauto.
Qed.

(** ** Writes into a buffer of [cap] bytes *)

(** [strcpy(buf, s)]: the string and its NUL must fit. *)
Definition strcpy (cap : nat) s : outcome bytes :=
  if decide (length s < cap) then Ok s else Ub Overflow.

(** [strcat(buf, t)] on a buffer that holds [s]. *)
Definition strcat (cap : nat) s t : outcome bytes := strcpy cap (s ++ t).
