(* ===== verification/Text.v ===== *)
(** * Text: lines, words and numbers

    [fgets], [strtok_r], [strstr], [strchr] and [atoi] of the C library, and the
    repository's own [rws], on strings as lists of bytes. *)

From stdpp Require Import base list strings.
From Stdlib Require Import Ascii.
From S2P Require Import Prelude CString.

Implicit Types (c : ascii) (s t w l r : bytes).

(** ** Strings in a buffer *)

(** The C string at the start of a buffer: the bytes before the first NUL. *)
Fixpoint c_str s : bytes :=
  match s with
  | [] => []
  | c :: s' => if decide (c = NUL) then [] else c :: c_str s'
  end.

Lemma c_str_app s r : NUL ∉ s → c_str (s ++ NUL :: r) = s.
Proof.
  induction s as [|c s IH]; simpl; [done|]. intros [? ?]%not_elem_of_cons.
  rewrite decide_False by done. by rewrite IH.
Qed.

Lemma c_str_no_nul s : NUL ∉ s → c_str s = s.
Proof.
  induction s as [|c s IH]; simpl; [done|]. intros [? ?]%not_elem_of_cons.
  rewrite decide_False by done. by rewrite IH.
Qed.

Lemma c_str_clean s : NUL ∉ c_str s.
Proof.
  induction s as [|c s IH]; simpl; [apply not_elem_of_nil|].
  case_decide; [apply not_elem_of_nil|]. by apply not_elem_of_cons.
Qed.

(** ** Words *)
Section words.
Context (delim : bytes).

Abbreviation sep := (λ c, bool_decide (c ∈ delim)).

Fixpoint skip_delim s : bytes :=
  match s with
  | [] => []
  | c :: s' => if sep c then skip_delim s' else s
  end.

Fixpoint span_word s : bytes * bytes :=
  match s with
  | [] => ([], [])
  | c :: s' => if sep c then ([], s') else let r := span_word s' in (c :: r.1, r.2)
  end.

(** [strtok_r(str, delim, &ptr)]: the token and the string that [ptr] is left at. *)
Definition strtok_r s : option (bytes * bytes) :=
  match skip_delim s with
  | [] => None
  | s' => Some (span_word s')
  end.

(** The words of a text: its maximal runs without a delimiter. *)
Definition flush w : list bytes := match w with [] => [] | _ => [w] end.
Fixpoint words_from w s : list bytes :=
  match s with
  | [] => flush w
  | c :: s' => if sep c then flush w ++ words_from [] s' else words_from (w ++ [c]) s'
  end.
Definition words s : list bytes := words_from [] s.

Lemma words_span w s :
  words_from w s = flush (w ++ (span_word s).1) ++ words (span_word s).2.
Proof.
  unfold words. revert w. induction s as [|c s IH]; intros w; simpl.
  { by rewrite !app_nil_r. }
  case_bool_decide; simpl; [by rewrite app_nil_r|].
  by rewrite IH, <- app_assoc.
Qed.

Lemma words_skip s : words s = words (skip_delim s).
Proof. unfold words. induction s as [|c s IH]; simpl; [done|]. case_bool_decide; [done|]. simpl. by rewrite bool_decide_false. Qed.

Lemma skip_delim_length s : length (skip_delim s) ≤ length s.
Proof. induction s as [|c s IH]; simpl; [done|]. case_bool_decide; simpl; lia. Qed.

Lemma skip_delim_head s c s' : skip_delim s = c :: s' → c ∉ delim.
Proof.
  induction s as [|c0 s IH]; simpl; [done|]. case_bool_decide; [done|]. by intros [= <- _].
Qed.

Lemma span_word_length s : length (span_word s).2 ≤ length s.
Proof. induction s as [|c s IH]; simpl; [done|]. case_bool_decide; simpl; lia. Qed.

Lemma span_word_clean s : Forall (λ c, c ∉ delim) (span_word s).1.
Proof. induction s as [|c s IH]; simpl; [constructor|]. case_bool_decide; simpl; by constructor. Qed.

(** A call of [strtok_r] gives the first word, and the next calls the others. *)
Lemma strtok_words s :
  match strtok_r s with
  | None => words s = []
  | Some (w, r) => words s = w :: words r ∧ length r < length s ∧ Forall (λ c, c ∉ delim) w
  end.
Proof.
  rewrite (words_skip s). unfold strtok_r. pose proof (skip_delim_length s) as Hl.
  destruct (skip_delim s) as [|c s'] eqn:E; [done|]. apply skip_delim_head in E.
  unfold words. rewrite (words_span [] (c :: s')). pose proof (span_word_clean (c :: s')) as Hc.
  simpl in *. pose proof (span_word_length s'). case_bool_decide; [done|]. simpl in *.
  split; [done|]. split; [lia|done].
Qed.

Lemma skip_delim_elem s c : c ∈ skip_delim s → c ∈ s.
Proof.
  induction s as [|c0 s IH]; simpl; [done|]. case_bool_decide; [|done].
  intros ?. right. by apply IH.
Qed.

Lemma span_word_elem s c : c ∈ (span_word s).1 ∨ c ∈ (span_word s).2 → c ∈ s.
Proof.
  induction s as [|c0 s IH]; simpl; [tauto|]. case_bool_decide; simpl.
  - intros [?%elem_of_nil|?]; [done|by right].
  - rewrite elem_of_cons. intros [[->|?]|?]; [left|right; apply IH; auto..].
Qed.

Lemma strtok_elem s w r c : strtok_r s = Some (w, r) → c ∈ w ∨ c ∈ r → c ∈ s.
Proof.
  unfold strtok_r. destruct (skip_delim s) as [|c0 s'] eqn:E; [done|].
  intros Hw%(inj Some) Hc. apply skip_delim_elem. rewrite E. apply span_word_elem. by rewrite Hw.
Qed.

(** A text can be cut where it has a delimiter. *)
Lemma words_from_app w l c r : c ∈ delim → words_from w (l ++ c :: r) = words_from w (l ++ [c]) ++ words r.
Proof.
  intros Hc. revert w. induction l as [|a l IH]; intros w; simpl.
  - rewrite bool_decide_true by done. unfold words. simpl. by rewrite app_nil_r.
  - case_bool_decide; simpl; [by rewrite IH, app_assoc|apply IH].
Qed.

Lemma words_app l c r : c ∈ delim → words (l ++ c :: r) = words (l ++ [c]) ++ words r.
Proof. apply words_from_app. Qed.
End words.

(** ** Lines *)

(** The bytes up to a newline, at most [n] of them, and the rest. *)
Fixpoint take_line (n : nat) s : bytes * bytes :=
  match n, s with
  | O, _ => ([], s)
  | S _, [] => ([], [])
  | S n', c :: s' =>
      if decide (c = NL) then ([c], s')
      else let r := take_line n' s' in (c :: r.1, r.2)
  end.

(** [fgets(buf, n, file)] on a stream with [s] left: what it stores before the
    NUL, and the rest of the stream; [None] at the end of the file. *)
Definition fgets (n : nat) s : option (bytes * bytes) :=
  match s with
  | [] => None
  | _ => Some (take_line (n - 1) s)
  end.

Lemma take_line_app n s : s = (take_line n s).1 ++ (take_line n s).2.
Proof.
  revert s. induction n as [|n IH]; intros [|c s]; simpl; try done.
  case_decide; simpl; [done|]. by rewrite <- IH.
Qed.

Lemma take_line_length n s : length (take_line n s).1 ≤ n.
Proof.
  revert s. induction n as [|n IH]; intros [|c s]; simpl; try lia.
  case_decide; simpl; [lia|]. specialize (IH s). lia.
Qed.

Lemma fgets_Some n s l r :
  2 ≤ n → fgets n s = Some (l, r) → s = l ++ r ∧ l ≠ [] ∧ length l < n ∧ length r < length s.
Proof.
  intros Hn Hf. destruct s as [|c s]; [done|]. unfold fgets in Hf. injection Hf as Hf.
  pose proof (take_line_app (n - 1) (c :: s)) as E.
  pose proof (take_line_length (n - 1) (c :: s)) as Hl. rewrite Hf in E, Hl. simpl in E, Hl.
  assert (l ≠ []) as Hne.
  { intros ->. destruct n as [|[|n]]; [lia..|]. simpl in Hf. case_decide; simplify_eq. }
  split; [done|]. split; [done|]. split; [lia|].
  rewrite E, length_app. destruct l; [done|]. simpl. lia.
Qed.

(** All words of a file that is read line by line through a buffer of [n] bytes. *)
Fixpoint line_words (fuel n : nat) (delim : bytes) s : list bytes :=
  match fuel with
  | O => []
  | S fuel' =>
      match fgets n s with
      | None => []
      | Some (l, r) => words delim (c_str l) ++ line_words fuel' n delim r
      end
  end.
Definition file_words (n : nat) (delim s : bytes) : list bytes := line_words (S (length s)) n delim s.

Lemma line_words_fuel fuel1 fuel2 n delim s :
  2 ≤ n → length s < fuel1 → length s < fuel2 →
  line_words fuel1 n delim s = line_words fuel2 n delim s.
Proof.
  intros Hn. revert fuel2 s. induction fuel1 as [|fuel1 IH]; intros [|fuel2] s H1 H2; [lia..|].
  simpl. destruct (fgets n s) as [[l r]|] eqn:E; [|done].
  apply fgets_Some in E as (_ & _ & _ & ?); [|done]. f_equal. apply IH; lia.
Qed.

Lemma file_words_step n delim s l r :
  2 ≤ n → fgets n s = Some (l, r) →
  file_words n delim s = words delim (c_str l) ++ file_words n delim r.
Proof.
  intros Hn E. unfold file_words. cbn [line_words]. rewrite E. f_equal.
  apply fgets_Some in E as (_ & _ & _ & ?); [|done].
  by apply (line_words_fuel (length s) (S (length r))); lia.
Qed.

(** Every line has at most [n] bytes with its newline; [room] is what the
    current line may still have. *)
Fixpoint lines_fit (n room : nat) s : bool :=
  match s with
  | [] => true
  | c :: s' =>
      match room with
      | O => false
      | S room' => if decide (c = NL) then lines_fit n n s' else lines_fit n room' s'
      end
  end.

Lemma take_line_fit n room s :
  lines_fit n room s = true →
  lines_fit n n (take_line room s).2 = true ∧
  ((take_line room s).2 = [] ∨ ∃ l, (take_line room s).1 = l ++ [NL]).
Proof.
  revert room. induction s as [|c s IH]; intros [|room] Hf; simpl in *; try done; auto.
  case_decide as Hc; simpl; [subst; split; [done|]; right; by exists []|].
  destruct (IH room Hf) as [? [?|[l El]]]; auto.
  split; [done|]. right. exists (c :: l). by rewrite El.
Qed.

Lemma file_words_words n delim s :
  2 ≤ n → NL ∈ delim → NUL ∉ s → lines_fit (n - 1) (n - 1) s = true →
  file_words n delim s = words delim s.
Proof.
  intros Hn Hd. induction (well_founded_ltof _ length s) as [s _ IH]. unfold ltof in IH. intros H0 Hf.
  destruct (fgets n s) as [[l r]|] eqn:E.
  2:{ by destruct s. }
  rewrite (file_words_step _ _ _ _ _ Hn E).
  pose proof (fgets_Some _ _ _ _ Hn E) as (Es & _ & _ & Hl).
  assert (take_line (n - 1) s = (l, r)) as Ht by (destruct s; [done|by injection E]).
  destruct (take_line_fit _ _ _ Hf) as [Hfit Hend]. rewrite Ht in Hfit, Hend. simpl in *.
  rewrite Es in H0. apply not_elem_of_app in H0 as [H0l H0r].
  rewrite c_str_no_nul, (IH r) by done. rewrite Es.
  destruct Hend as [->|[l' ->]]; [by rewrite !app_nil_r|].
  rewrite <- app_assoc. simpl. by rewrite (words_app delim l' NL r).
Qed.

(** ** rws *)

(** [rws(str)] in place on a buffer: copies every byte but blanks to the front. *)
Fixpoint rws_loop (fuel : nat) (str : bytes) (i j : nat) : outcome bytes :=
  match fuel with
  | O => NoFuel
  | S fuel' =>
      match str !! i with
      | None => Ub BadAccess
      | Some c =>
          if decide (c = NUL) then Ok (<[j:=NUL]> str)
          else if decide (c = SP) then rws_loop fuel' str (S i) j
          else rws_loop fuel' (<[j:=c]> str) (S i) (S j)
      end
  end.
Definition rws (str : bytes) : outcome bytes := rws_loop (S (length str)) str 0 0.

(** A string without its blanks. *)
Definition no_blanks s : bytes := filter (λ c, c ≠ SP) s.

Lemma rws_loop_ok fuel done mid s rest :
  NUL ∉ s → length s < fuel → (length done ≤ length done + length mid)%nat →
  rws_loop fuel (done ++ mid ++ s ++ NUL :: rest) (length done + length mid) (length done) =
  Ok (take (S (length (done ++ no_blanks s))) (done ++ no_blanks s ++ [NUL]) ++
      drop (S (length (done ++ no_blanks s))) (done ++ mid ++ s ++ NUL :: rest)).
Proof.
  revert done mid fuel. induction s as [|c s IH]; intros done mid fuel H0 Hf _;
    (destruct fuel as [|fuel]; [simpl in Hf; lia|]); cbn [rws_loop].
  - assert (Hat : (done ++ mid ++ [] ++ NUL :: rest) !! (length done + length mid) = Some NUL).
    { rewrite app_nil_l, app_assoc, lookup_app_r by (rewrite length_app; lia).
      rewrite length_app. by rewrite Nat.sub_diag. }
    rewrite Hat, decide_True by done. f_equal. simpl. rewrite app_nil_r.
    rewrite firstn_all2 by (rewrite length_app; simpl; lia).
    rewrite <- (Nat.add_0_r (length done)) at 1. rewrite insert_app_r.
    rewrite <- app_assoc. f_equal.
    rewrite drop_app_ge by lia. replace (S (length done) - length done) with 1 by lia.
    by destruct mid.
  - apply not_elem_of_cons in H0 as [Hc H0]. simpl in Hf.
    assert (Hat : (done ++ mid ++ (c :: s) ++ NUL :: rest) !! (length done + length mid) = Some c).
    { rewrite app_assoc, lookup_app_r by (rewrite length_app; lia).
      rewrite length_app. by rewrite Nat.sub_diag. }
    rewrite Hat, decide_False by done. case_decide as Hs.
    + unfold no_blanks. rewrite filter_cons_False by tauto. fold (no_blanks s).
      replace (done ++ mid ++ (c :: s) ++ NUL :: rest)
        with (done ++ (mid ++ [c]) ++ s ++ NUL :: rest) by (by rewrite <- !app_assoc).
      replace (S (length done + length mid)) with (length done + length (mid ++ [c]))
        by (rewrite length_app; simpl; lia).
      apply IH; [done|lia|lia].
    + unfold no_blanks. rewrite filter_cons_True by done. fold (no_blanks s).
      assert (Hset : <[length done:=c]> (done ++ mid ++ (c :: s) ++ NUL :: rest) =
        (done ++ [c]) ++ (drop 1 (mid ++ [c])) ++ s ++ NUL :: rest).
      { rewrite <- (Nat.add_0_r (length done)) at 1. rewrite insert_app_r, <- app_assoc.
        f_equal. destruct mid as [|m mid]; [done|].
        simpl. by rewrite drop_0, <- app_assoc. }
      rewrite Hset.
      replace (S (length done + length mid))
        with (length (done ++ [c]) + length (drop 1 (mid ++ [c])))
        by (rewrite length_drop, !length_app; simpl; lia).
      replace (S (length done)) with (length (done ++ [c])) by (rewrite length_app; simpl; lia).
      rewrite IH by (done || lia). f_equal.
      rewrite <- Hset, drop_insert_lt by (rewrite !length_app; simpl; lia).
      by rewrite <- !app_assoc.
Qed.

(** [rws] leaves the string without its blanks, in a buffer of the same size. *)
Lemma rws_ok s rest :
  NUL ∉ s → ∃ str, rws (s ++ NUL :: rest) = Ok str ∧ c_str str = no_blanks s ∧
    length str = length (s ++ NUL :: rest).
Proof.
  intros H0. set (n := S (length (no_blanks s))).
  exists (take n (no_blanks s ++ [NUL]) ++ drop n (s ++ NUL :: rest)).
  assert (Hle : length (no_blanks s) ≤ length s) by apply length_filter.
  split; [|split].
  - apply (rws_loop_ok (S (length (s ++ NUL :: rest))) [] [] s rest H0); [|done].
    rewrite length_app. simpl. lia.
  - subst n. rewrite firstn_all2 by (rewrite length_app; simpl; lia).
    rewrite <- app_assoc. apply c_str_app. unfold no_blanks. rewrite list_elem_of_filter. tauto.
  - subst n. rewrite length_app, length_take, length_drop, !length_app. cbn [length]. lia.
Qed.

(** The string that [rws] leaves. *)
Definition rws_str s : outcome bytes := str ← rws (s ++ [NUL]); Ok (c_str str).

Lemma rws_str_ok s : NUL ∉ s → rws_str s = Ok (no_blanks s).
Proof. intros H. unfold rws_str. destruct (rws_ok s [] H) as (str & -> & E & _). simpl. by rewrite E. Qed.

Lemma no_blanks_id s : SP ∉ s → no_blanks s = s.
Proof.
  intros H. unfold no_blanks. induction s as [|c s IH]; [done|].
  apply not_elem_of_cons in H as [? ?]. rewrite filter_cons_True by done. by rewrite IH.
Qed.

(** ** Numbers *)

Definition is_space c : bool := bool_decide (c ∈ [SP; TAB; NL; "011"%char; "012"%char; "013"%char]).

Definition digit c : option Z :=
  let n := (Z.of_nat (nat_of_ascii c) - 48)%Z in
  if decide (0 ≤ n ∧ n < 10)%Z then Some n else None.

Fixpoint digits (acc : Z) s : Z :=
  match s with
  | [] => acc
  | c :: s' => match digit c with Some n => digits (10 * acc + n)%Z s' | None => acc end
  end.

Fixpoint skip_space s : bytes :=
  match s with
  | [] => []
  | c :: s' => if is_space c then skip_space s' else s
  end.

Definition int_min : Z := (- 2 ^ 31)%Z.
Definition int_max : Z := (2 ^ 31 - 1)%Z.

(** The value as an [int]; a result that an [int] cannot hold has no meaning. *)
Definition to_int (z : Z) : outcome Z :=
  if decide (int_min ≤ z ≤ int_max)%Z then Ok z else Ub IntOverflow.

(** [atoi(s)] *)
Definition atoi s : outcome Z :=
  match skip_space s with
  | "-"%char :: s' => to_int (- digits 0 s')
  | "+"%char :: s' => to_int (digits 0 s')
  | s' => to_int (digits 0 s')
  end.
