(* ===== verification/Numerals.v ===== *)
(** * Decimal numerals

    What [%d] prints is what [atoi] reads. *)

From stdpp Require Import base list strings pretty numbers.
From Stdlib Require Import Ascii.
From S2P Require Import Prelude CString Text.

Definition is_digit (c : ascii) : Prop := is_Some (digit c).

Lemma digit_char x : (x < 10)%N → digit (pretty_N_char x) = Some (Z.of_N x).
Proof.
  intros Hx.
  assert (x = 0 ∨ x = 1 ∨ x = 2 ∨ x = 3 ∨ x = 4 ∨ x = 5 ∨ x = 6 ∨ x = 7 ∨ x = 8 ∨ x = 9)%N as H by lia.
  by repeat destruct H as [->|H]; [..|rewrite H].
Qed.

(** The characters of a numeral in front of [s]. *)
Lemma pretty_go_spec x s :
  (∀ a, a = 0%Z → digits a (String.list_ascii_of_string (pretty_N_go x s)) =
                  digits (Z.of_N x) (String.list_ascii_of_string s)) ∧
  ∃ ds, String.list_ascii_of_string (pretty_N_go x s) = ds ++ String.list_ascii_of_string s ∧
    Forall is_digit ds ∧ (ds = [] ↔ x = 0%N).
Proof.
  revert s. induction (N.lt_wf_0 x) as [x _ IH]; intros s.
  assert (x = 0 ∨ 0 < x)%N as [->|Hx] by lia.
  { rewrite pretty_N_go_0. split; [by intros ? ->|]. by exists []. }
  rewrite pretty_N_go_step by done.
  destruct (IH (x `div` 10)%N ltac:(by apply N.div_lt) (String (pretty_N_char (x `mod` 10)) s))
    as [Hd (ds & E & Hds & _)].
  assert (Hm : digit (pretty_N_char (x `mod` 10)) = Some (Z.of_N (x `mod` 10))).
  { apply digit_char. by apply N.mod_lt. }
  split.
  - intros a Ha. rewrite Hd by done. simpl. rewrite Hm. f_equal.
    pose proof (N.div_mod x 10 ltac:(done)). lia.
  - rewrite E. exists (ds ++ [pretty_N_char (x `mod` 10)]). simpl. rewrite <- app_assoc. split_and!; [done| |].
    + apply Forall_app. split; [done|]. apply Forall_singleton. by exists (Z.of_N (x `mod` 10)).
    + split; [|lia]. by destruct ds.
Qed.

(** A numeral without sign: digits, at least one. *)
Lemma pretty_N_spec x :
  let s := String.list_ascii_of_string (pretty x) in
  digits 0 s = Z.of_N x ∧ Forall is_digit s ∧ s ≠ [].
Proof.
  simpl. unfold pretty, pretty_N. destruct (decide (x = 0)%N) as [->|Hx].
  { split_and!; [done| |done]. repeat constructor. by eexists. }
  destruct (pretty_go_spec x "") as [Hd (ds & E & Hds & Hne)]. rewrite Hd by done.
  simpl in E. rewrite app_nil_r in E. rewrite E. split_and!; [done|done|tauto].
Qed.

Lemma digit_code c n : digit c = Some n → nat_of_ascii c = Z.to_nat (n + 48) ∧ (0 ≤ n < 10)%Z.
Proof. unfold digit. case_decide; [|done]. intros [= <-]. lia. Qed.

Lemma digit_not c : is_digit c → is_space c = false ∧ c ≠ "-"%char ∧ c ≠ "+"%char ∧ c ≠ ","%char.
Proof.
  intros [n Hn]. apply digit_code in Hn as [Hc Hn].
  assert (Hne : ∀ d, nat_of_ascii d < 48 → c ≠ d) by (intros d Hd ->; lia).
  split_and!; try (apply Hne; vm_compute; lia). apply bool_decide_false.
  intros Hin. assert (nat_of_ascii c < 48); [|lia].
  apply list_elem_of_In in Hin. simpl in Hin.
  repeat (destruct Hin as [<-|Hin]; [vm_compute; lia|]). done.
Qed.

(** [atoi] of a numeral *)
Lemma atoi_digits s : Forall is_digit s → s ≠ [] → atoi s = to_int (digits 0 s).
Proof.
  intros [|c s' Hc _]; [done|intros _]. unfold atoi.
  destruct (digit_not c Hc) as (Hs & Hm & Hp & _). cbn [skip_space]. rewrite Hs.
  destruct c as [[] [] [] [] [] [] [] []]; done.
Qed.

Lemma fmt_d_nonneg n : (0 ≤ n)%Z → fmt_d n = String.list_ascii_of_string (pretty (Z.to_N n)).
Proof. by destruct n. Qed.

Lemma fmt_d_neg n : (n < 0)%Z → fmt_d n = "-"%char :: String.list_ascii_of_string (pretty (Z.to_N (- n))).
Proof. by destruct n. Qed.

(** Reading what was printed. *)
Lemma atoi_fmt_d n : (int_min ≤ n ≤ int_max)%Z → atoi (fmt_d n) = Ok n.
Proof.
  intros Hn. destruct (decide (0 ≤ n)%Z) as [Hp|Hp].
  - rewrite fmt_d_nonneg by done. destruct (pretty_N_spec (Z.to_N n)) as (Hd & Hf & Hne).
    rewrite atoi_digits, Hd by done. rewrite Z2N.id by done. unfold to_int. by rewrite decide_True.
  - rewrite fmt_d_neg by lia. destruct (pretty_N_spec (Z.to_N (- n))) as (Hd & _).
    unfold atoi. cbn [skip_space]. change (is_space "-") with false. cbv iota.
    rewrite Hd. rewrite Z2N.id by lia. rewrite Z.opp_involutive. unfold to_int. by rewrite decide_True.
Qed.

Lemma digit_or s : Forall is_digit s → Forall (λ c, c = "-"%char ∨ is_digit c) s.
Proof. induction 1; constructor; [by right|done]. Qed.

Lemma fmt_d_chars n : fmt_d n ≠ [] ∧ Forall (λ c, c = "-"%char ∨ is_digit c) (fmt_d n).
Proof.
  destruct (decide (0 ≤ n)%Z).
  - rewrite fmt_d_nonneg by done. destruct (pretty_N_spec (Z.to_N n)) as (_ & Hf & Hne).
    split; [done|]. by apply digit_or.
  - rewrite fmt_d_neg by lia. destruct (pretty_N_spec (Z.to_N (- n))) as (_ & Hf & _).
    split; [done|]. constructor; [by left|]. by apply digit_or.
Qed.
