(* ===== verification/CMem.v ===== *)
(** * The C heap

    [malloc], [free] and typed accesses through pointers, as operations of the
    monad of Prelude.v over a finite map from locations to blocks.  A block is
    one object of the source: a struct, or a NUL-terminated string made by
    [strdup].  The type [B] of blocks is chosen by each program. *)

From stdpp Require Import base list gmap fin_maps strings.
From S2P Require Import Prelude.

Definition loc : Type := positive.

(** A C pointer to an object: [None] is NULL. *)
Abbreviation ptr := (option loc).

(** [budget] is the number of allocations that still succeed; [None] when
    memory is never exhausted. *)
Record heap (B : Type) := Heap { cells : gmap loc B; budget : option nat }.
Arguments Heap {_} _ _.
Arguments cells {_} _.
Arguments budget {_} _.

Section ops.
Context {B : Type}.
Implicit Types (h : heap B) (b : B) (l : loc) (p : ptr).

Definition empty_heap : heap B := Heap ∅ None.

Definition hset l b h : heap B := Heap (<[l:=b]> (cells h)) (budget h).
Definition hdel l h : heap B := Heap (delete l (cells h)) (budget h).

(** The location the allocator picks: any one that is not live. *)
Definition fresh_loc h : loc := fresh (dom (cells h) : gset positive).

Definition malloc b : M (heap B) ptr := λ h,
  match budget h with
  | Some O => Ok (None, h)
  | n => let l := fresh_loc h in
         Ok (Some l, Heap (<[l:=b]> (cells h)) (pred <$> n))
  end.

Definition load p : M (heap B) B := λ h,
  match p with
  | None => Ub NullDeref
  | Some l => match cells h !! l with
              | Some b => Ok (b, h)
              | None => Ub BadAccess
              end
  end.

Definition store p b : M (heap B) unit := λ h,
  match p with
  | None => Ub NullDeref
  | Some l => match cells h !! l with
              | Some _ => Ok (tt, hset l b h)
              | None => Ub BadAccess
              end
  end.

(** [free(NULL)] does nothing. *)
Definition free p : M (heap B) unit := λ h,
  match p with
  | None => Ok (tt, h)
  | Some l => match cells h !! l with
              | Some _ => Ok (tt, hdel l h)
              | None => Ub BadFree
              end
  end.

(** The number of live blocks bounds the steps of a traversal that visits
    each block at most once. *)
Definition live : M (heap B) nat := λ h, Ok (size (cells h), h).

Lemma fresh_loc_fresh h : cells h !! fresh_loc h = None.
Proof. apply not_elem_of_dom, (is_fresh (dom (cells h))). Qed.

Lemma malloc_ok h b :
  budget h = None →
  malloc b h = Ok (Some (fresh_loc h), hset (fresh_loc h) b h).
Proof. intros E. unfold malloc, hset. by rewrite E. Qed.

Lemma malloc_fails h b : budget h = Some 0 → malloc b h = Ok (None, h).
Proof. intros E. unfold malloc. by rewrite E. Qed.

Lemma load_ok h l b : cells h !! l = Some b → load (Some l) h = Ok (b, h).
Proof. intros E. unfold load. by rewrite E. Qed.

Lemma store_ok h l b b0 :
  cells h !! l = Some b0 → store (Some l) b h = Ok (tt, hset l b h).
Proof. intros E. unfold store. by rewrite E. Qed.

Lemma free_ok h l b : cells h !! l = Some b → free (Some l) h = Ok (tt, hdel l h).
Proof. intros E. unfold free. by rewrite E. Qed.

Lemma live_ok h : live h = Ok (size (cells h), h).
Proof. done. Qed.
End ops.

(** Lookups in an updated heap. *)
Ltac mem_norm := cbn [cells budget hset hdel] in *.
Ltac mem_solve := cbn [cells budget hset hdel]; first [eassumption | by simplify_map_eq].

#[export] Hint Resolve malloc_ok load_ok store_ok free_ok live_ok : crun.
#[export] Hint Extern 1 (cells _ !! _ = _) => mem_solve : crun.
#[export] Hint Extern 1 (budget _ = _) => cbn [cells budget hset hdel]; eassumption : crun.

(** The locations of a set of pairwise distinct live locations are no more
    than the live blocks: the fuel [live] is enough for a traversal. *)
Lemma NoDup_le_size {B} (m : gmap loc B) (ls : list loc) :
  NoDup ls → (∀ l, l ∈ ls → is_Some (m !! l)) → length ls ≤ size m.
Proof.
  intros Hnd Hin. rewrite <- (size_dom m), <- (size_list_to_set (C:=gset loc) ls) by done.
  apply subseteq_size. intros l Hl. apply elem_of_dom, Hin. by apply elem_of_list_to_set in Hl.
Qed.
