(* ===== verification/Dll.v ===== *)
(** * Doubly linked lists on the C heap

    Every list program of the repository keeps a header with head and tail and
    nodes with next and prev; they differ in what a node carries.  This file
    has the pointer code that is the same in all of them, over an interface
    [NodeData] that each program implements, the predicate [dlrep] that says
    which list a header stands for, and what the pointer code does to it. *)

From stdpp Require Import base list gmap fin_maps strings.
From S2P Require Import Prelude CMem.

(** A block is a list node (links and a payload [P]), a list header (head, tail
    and what else the header keeps, [H]), or any other object ([X]). *)
Inductive block (P H X : Type) :=
  | Node (next prev : ptr) (data : P)
  | Hdr (head tail : ptr) (extra : H)
  | Other (x : X).
Arguments Node {_ _ _} _ _ _.
Arguments Hdr {_ _ _} _ _ _.
Arguments Other {_ _ _} _.

(** ** Field accesses *)
Section fields.
Context {P H X : Type}.
Abbreviation C := (M (heap (block P H X))).
Implicit Types (p q l : ptr) (d : P).

Definition load_node p : C (ptr * ptr * P) :=
  b ← load p;
  match b with Node n r d => mret (n, r, d) | _ => fail_ub BadAccess end.
Definition get_next p : C ptr := n ← load_node p; mret n.1.1.
Definition get_prev p : C ptr := n ← load_node p; mret n.1.2.
Definition get_data p : C P := n ← load_node p; mret n.2.
Definition set_next p q : C unit :=
  n ← load_node p; store p (Node q n.1.2 n.2).
Definition set_prev p q : C unit :=
  n ← load_node p; store p (Node n.1.1 q n.2).
Definition set_data p d : C unit :=
  n ← load_node p; store p (Node n.1.1 n.1.2 d).

Definition load_hdr p : C (ptr * ptr * H) :=
  b ← load p;
  match b with Hdr a t x => mret (a, t, x) | _ => fail_ub BadAccess end.
Definition get_head p : C ptr := n ← load_hdr p; mret n.1.1.
Definition get_tail p : C ptr := n ← load_hdr p; mret n.1.2.
Definition set_head p q : C unit :=
  n ← load_hdr p; store p (Hdr q n.1.2 n.2).
Definition set_tail p q : C unit :=
  n ← load_hdr p; store p (Hdr n.1.1 q n.2).

Section specs.
Context (h : heap (block P H X)) (l : loc).
Lemma load_node_ok n r d :
  cells h !! l = Some (Node n r d) → load_node (Some l) h = Ok ((n, r, d), h).
Proof. intros E. unfold load_node. by mstep. Qed.
Lemma get_next_ok n r d :
  cells h !! l = Some (Node n r d) → get_next (Some l) h = Ok (n, h).
Proof. intros E. unfold get_next. by mstep by load_node_ok. Qed.
Lemma get_prev_ok n r d :
  cells h !! l = Some (Node n r d) → get_prev (Some l) h = Ok (r, h).
Proof. intros E. unfold get_prev. by mstep by load_node_ok. Qed.
Lemma get_data_ok n r d :
  cells h !! l = Some (Node n r d) → get_data (Some l) h = Ok (d, h).
Proof. intros E. unfold get_data. by mstep by load_node_ok. Qed.
Lemma set_next_ok n r d q :
  cells h !! l = Some (Node n r d) →
  set_next (Some l) q h = Ok (tt, hset l (Node q r d) h).
Proof. intros E. unfold set_next. mstep by load_node_ok. by eapply store_ok. Qed.
Lemma set_prev_ok n r d q :
  cells h !! l = Some (Node n r d) →
  set_prev (Some l) q h = Ok (tt, hset l (Node n q d) h).
Proof. intros E. unfold set_prev. mstep by load_node_ok. by eapply store_ok. Qed.
Lemma set_data_ok n r d d' :
  cells h !! l = Some (Node n r d) →
  set_data (Some l) d' h = Ok (tt, hset l (Node n r d') h).
Proof. intros E. unfold set_data. mstep by load_node_ok. by eapply store_ok. Qed.
Lemma load_hdr_ok a t x :
  cells h !! l = Some (Hdr a t x) → load_hdr (Some l) h = Ok ((a, t, x), h).
Proof. intros E. unfold load_hdr. by mstep. Qed.
Lemma get_head_ok a t x :
  cells h !! l = Some (Hdr a t x) → get_head (Some l) h = Ok (a, h).
Proof. intros E. unfold get_head. by mstep by load_hdr_ok. Qed.
Lemma get_tail_ok a t x :
  cells h !! l = Some (Hdr a t x) → get_tail (Some l) h = Ok (t, h).
Proof. intros E. unfold get_tail. by mstep by load_hdr_ok. Qed.
Lemma set_head_ok a t x q :
  cells h !! l = Some (Hdr a t x) →
  set_head (Some l) q h = Ok (tt, hset l (Hdr q t x) h).
Proof. intros E. unfold set_head. mstep by load_hdr_ok. by eapply store_ok. Qed.
Lemma set_tail_ok a t x q :
  cells h !! l = Some (Hdr a t x) →
  set_tail (Some l) q h = Ok (tt, hset l (Hdr a q x) h).
Proof. intros E. unfold set_tail. mstep by load_hdr_ok. by eapply store_ok. Qed.
End specs.
End fields.

#[export] Hint Resolve load_node_ok get_next_ok get_prev_ok get_data_ok set_next_ok
  set_prev_ok set_data_ok load_hdr_ok get_head_ok get_tail_ok set_head_ok set_tail_ok : crun.

(** ** The interface of a node's payload *)

(** [value_at m d v fp]: in memory [m] the payload [d] stands for the value [v],
    with the objects at [fp] (strings, items) as its private parts. *)
Class NodeData (P H X V : Type) := {
  value_at : gmap loc (block P H X) → P → V → list loc → Prop;
  lev : V → Z;
  pth : V → bytes;
  level_of : P → M (heap (block P H X)) Z;
  path_of : P → M (heap (block P H X)) bytes;
  level_of_ok h d v fp : value_at (cells h) d v fp → level_of d h = Ok (lev v, h);
  path_of_ok h d v fp : value_at (cells h) d v fp → path_of d h = Ok (pth v, h);
  value_at_frame m m' d v fp :
    value_at m d v fp → (∀ l, l ∈ fp → m' !! l = m !! l) → value_at m' d v fp;
  value_at_other m d v fp l :
    value_at m d v fp → l ∈ fp → ∃ x, m !! l = Some (Other x);
}.

(** ** What a header stands for *)
Section rep.
Context {P H X V : Type} `{!NodeData P H X V}.
Abbreviation mem := (gmap loc (block P H X)).

(** One node of a list: where it is, its payload, the value the payload
    stands for and the payload's private parts. *)
Record ent := Ent { e_loc : loc; e_dat : P; e_val : V; e_fp : list loc }.

Definition foot (e : ent) : list loc := e_loc e :: e_fp e.

Definition hd_ptr (es : list ent) (nxt : ptr) : ptr :=
  match es with [] => nxt | e :: _ => Some (e_loc e) end.
Fixpoint last_ptr (es : list ent) (prv : ptr) : ptr :=
  match es with [] => prv | e :: es' => last_ptr es' (Some (e_loc e)) end.

(** A segment of linked nodes between a predecessor and a successor. *)
Fixpoint seg (m : mem) (prv : ptr) (es : list ent) (nxt : ptr) : Prop :=
  match es with
  | [] => True
  | e :: es' =>
      m !! e_loc e = Some (Node (hd_ptr es' nxt) prv (e_dat e)) ∧
      seg m (Some (e_loc e)) es' nxt
  end.

Definition vals (m : mem) (es : list ent) : Prop :=
  Forall (λ e, value_at m (e_dat e) (e_val e) (e_fp e)) es.

Record dlrep (m : mem) (hp : loc) (hx : H) (es : list ent) : Prop := {
  dl_hdr : m !! hp = Some (Hdr (hd_ptr es None) (last_ptr es None) hx);
  dl_seg : seg m None es None;
  dl_vals : vals m es;
  dl_sep : NoDup (hp :: (es ≫= foot));
}.

Lemma hd_ptr_app es1 es2 nxt : hd_ptr (es1 ++ es2) nxt = hd_ptr es1 (hd_ptr es2 nxt).
Proof. by destruct es1. Qed.
Lemma last_ptr_app es1 es2 prv : last_ptr (es1 ++ es2) prv = last_ptr es2 (last_ptr es1 prv).
Proof. revert prv. by induction es1; simpl. Qed.
Lemma last_ptr_snoc es e prv : last_ptr (es ++ [e]) prv = Some (e_loc e).
Proof. by rewrite last_ptr_app. Qed.

Lemma seg_app m es1 es2 prv nxt :
  seg m prv (es1 ++ es2) nxt ↔
  seg m prv es1 (hd_ptr es2 nxt) ∧ seg m (last_ptr es1 prv) es2 nxt.
Proof.
  revert prv. induction es1 as [|e es1 IH]; intros prv; simpl; [tauto|].
  rewrite IH, hd_ptr_app. tauto.
Qed.

Lemma seg_frame m m' es prv nxt :
  seg m prv es nxt → (∀ e, e ∈ es → m' !! e_loc e = m !! e_loc e) → seg m' prv es nxt.
Proof.
  revert prv. induction es as [|e es IH]; intros prv; simpl; [done|].
  intros [He Hs] Hf. split; [rewrite Hf by left; done|].
  apply IH; [done|]. intros e' ?. apply Hf. by right.
Qed.

Lemma seg_lookup m es prv nxt e :
  seg m prv es nxt → e ∈ es → ∃ n r, m !! e_loc e = Some (Node n r (e_dat e)).
Proof.
  revert prv. induction es as [|e' es IH]; intros prv; simpl; [by intros _ ?%elem_of_nil|].
  intros [He Hs] [->|?]%elem_of_cons; eauto.
Qed.

Lemma vals_frame m m' es :
  vals m es → (∀ l, l ∈ es ≫= e_fp → m' !! l = m !! l) → vals m' es.
Proof.
  unfold vals. rewrite !Forall_forall. intros Hv Hf e He.
  eapply value_at_frame; [by apply Hv|]. intros l Hl. apply Hf.
  apply list_elem_of_bind. eauto.
Qed.

(** A private part is never a node or a header, so changing links or headers
    leaves every value alone. *)
Lemma vals_insert m es l b b' :
  vals m es → m !! l = Some b → (∀ x, b ≠ Other x) → vals (<[l:=b']> m) es.
Proof.
  intros Hv Hl Hb. eapply vals_frame; [done|]. intros l' (e & Hin & He)%list_elem_of_bind.
  apply lookup_insert_ne. intros <-.
  unfold vals in Hv. rewrite Forall_forall in Hv.
  destruct (value_at_other _ _ _ _ l (Hv e He) Hin) as [x Hx]. naive_solver.
Qed.

Lemma vals_app m es1 es2 : vals m (es1 ++ es2) ↔ vals m es1 ∧ vals m es2.
Proof. apply Forall_app. Qed.

Lemma foot_locs es l : l ∈ e_loc <$> es → l ∈ es ≫= foot.
Proof.
  intros (e & -> & He)%list_elem_of_fmap. apply list_elem_of_bind.
  exists e. split; [left|done].
Qed.
Lemma foot_parts es l : l ∈ es ≫= e_fp → l ∈ es ≫= foot.
Proof.
  intros (e & ? & ?)%list_elem_of_bind. apply list_elem_of_bind.
  exists e. split; [by right|done].
Qed.

Lemma NoDup_locs hp es : NoDup (hp :: (es ≫= foot)) → NoDup (e_loc <$> es).
Proof.
  intros [_ Hn]%NoDup_cons. induction es as [|e es IH]; simpl in *; [constructor|].
  apply NoDup_cons in Hn as [H1 H2]. apply NoDup_app in H2 as (_ & _ & H2).
  constructor; [|by apply IH]. intros ?. apply H1. rewrite elem_of_app. right.
  by apply foot_locs.
Qed.

Lemma dlrep_hd_None m hp hx es : dlrep m hp hx es → hd_ptr es None = None ↔ es = [].
Proof. intros _. by destruct es. Qed.

Lemma seg_lookup_at m es1 e es2 :
  seg m None (es1 ++ e :: es2) None →
  m !! e_loc e = Some (Node (hd_ptr es2 None) (last_ptr es1 None) (e_dat e)).
Proof. rewrite seg_app. simpl. tauto. Qed.

Lemma dlrep_lookup m hp hx es1 e es2 :
  dlrep m hp hx (es1 ++ e :: es2) →
  m !! e_loc e = Some (Node (hd_ptr es2 None) (last_ptr es1 None) (e_dat e)).
Proof. intros [_ Hs _ _]. by eapply seg_lookup_at. Qed.

Lemma dlrep_value m hp hx es e :
  dlrep m hp hx es → e ∈ es → value_at m (e_dat e) (e_val e) (e_fp e).
Proof. intros [_ _ Hv _]. unfold vals in Hv. rewrite Forall_forall in Hv. auto. Qed.

Lemma dlrep_length m hp hx es : dlrep m hp hx es → length es < size m.
Proof.
  intros [Hh Hs Hv Hn].
  assert (Hl : length (hp :: (e_loc <$> es)) ≤ size m).
  { apply NoDup_le_size.
    - apply NoDup_cons in Hn as [H1 H2]. constructor.
      + intros ?. apply H1. by apply foot_locs.
      + clear -H2. induction es as [|e es IH]; simpl in *; [constructor|].
        apply NoDup_cons in H2 as [H1 H2]. apply NoDup_app in H2 as (_ & _ & H2).
        constructor; [|by apply IH]. intros ?. apply H1. rewrite elem_of_app. right.
        by apply foot_locs.
    - intros l [->|Hl]%elem_of_cons; [by eexists|].
      apply list_elem_of_fmap in Hl as (e & -> & He).
      destruct (seg_lookup _ _ _ _ _ Hs He) as (? & ? & ->). by eexists. }
  simpl in Hl. rewrite length_fmap in Hl. lia.
Qed.

(** The part of the memory outside some locations. *)
Definition outside (m : mem) (ls : list loc) : mem :=
  filter (λ kv : loc * block P H X, kv.1 ∉ ls) m.

Lemma lookup_outside m ls l :
  outside m ls !! l = if decide (l ∈ ls) then None else m !! l.
Proof.
  unfold outside. rewrite map_lookup_filter. case_decide as Hl; destruct (m !! l); simpl;
    try done; [by rewrite option_guard_False by tauto|by rewrite option_guard_True].
Qed.

Lemma outside_nil m : outside m [] = m.
Proof.
  apply map_eq. intros l. by rewrite lookup_outside, decide_False by (by apply not_elem_of_nil).
Qed.

Lemma outside_ext m m' ls ls' :
  (∀ l, l ∈ ls' ↔ l ∈ ls) → (∀ l, l ∉ ls → m' !! l = m !! l) →
  outside m' ls' = outside m ls.
Proof.
  intros Hls Hm. apply map_eq. intros l. rewrite !lookup_outside.
  repeat case_decide; naive_solver.
Qed.

(** A new block outside of the list joins the list's part. *)
Lemma outside_alloc m ls l b :
  m !! l = None → outside (<[l:=b]> m) (l :: ls) = outside m ls.
Proof.
  intros Hl. apply map_eq. intros l'. rewrite !lookup_outside.
  destruct (decide (l' = l)) as [->|].
  - rewrite decide_True by left. rewrite Hl. by case_decide.
  - rewrite lookup_insert_ne by done. repeat case_decide; set_solver.
Qed.

Lemma outside_insert m ls l b : l ∈ ls → outside (<[l:=b]> m) ls = outside m ls.
Proof.
  intros Hl. apply outside_ext; [done|]. intros l' ?. apply lookup_insert_ne. by intros <-.
Qed.

Definition own_locs (hp : loc) (es : list ent) : list loc := hp :: (es ≫= foot).

Lemma elem_of_own_locs hp es es' l :
  es ≡ₚ es' → l ∈ own_locs hp es ↔ l ∈ own_locs hp es'.
Proof.
  intros E. unfold own_locs. rewrite !elem_of_cons, !list_elem_of_bind.
  by setoid_rewrite E.
Qed.

(** The list at [hp] stands for [es], the rest of the memory is [R], and
    memory is not exhausted. *)
Record dlown (h : heap (block P H X)) (hp : loc) (hx : H) (es : list ent) (R : mem) : Prop := {
  do_rep : dlrep (cells h) hp hx es;
  do_rest : outside (cells h) (own_locs hp es) = R;
  do_budget : budget h = None;
}.

Lemma locs_seg_update m m' es1 a es2 a' prv nxt :
  seg m prv (es1 ++ a :: es2) nxt →
  e_loc a' = e_loc a →
  NoDup (e_loc <$> es1 ++ a :: es2) →
  m' !! e_loc a = Some (Node (hd_ptr es2 nxt) (last_ptr es1 prv) (e_dat a')) →
  (∀ x, x ∈ es1 ++ es2 → m' !! e_loc x = m !! e_loc x) →
  seg m' prv (es1 ++ a' :: es2) nxt.
Proof.
  rewrite !seg_app. simpl. intros [H1 [_ H2]] Hloc Hn Ha Hf. rewrite Hloc.
  split; [|split]; [|done|]; (eapply seg_frame; [done|]; intros x Hx; apply Hf, elem_of_app; auto).
Qed.

Lemma dlrep_frame m m' hp hx es :
  dlrep m hp hx es → (∀ l, l ∈ own_locs hp es → m' !! l = m !! l) → dlrep m' hp hx es.
Proof.
  intros [Hh Hs Hv Hn] Hf. constructor; [|eapply seg_frame|eapply vals_frame|]; try done.
  - rewrite Hf by left. done.
  - intros e He. apply Hf. right. apply foot_locs. by apply list_elem_of_fmap_2.
  - intros l Hl. apply Hf. right. by apply foot_parts.
Qed.

Lemma own_locs_split hp es1 a es2 :
  own_locs hp (es1 ++ a :: es2) ≡ₚ hp :: foot a ++ ((es1 ++ es2) ≫= foot).
Proof.
  unfold own_locs. rewrite bind_app, bind_cons, bind_app.
  by rewrite (Permutation_app_swap_app (es1 ≫= foot) (foot a)).
Qed.

Lemma dlrep_live m hp hx es l : dlrep m hp hx es → l ∈ own_locs hp es → m !! l ≠ None.
Proof.
  intros [Hh Hs Hv Hn] [->|(e & Hl & He)%list_elem_of_bind]%elem_of_cons; [by rewrite Hh|].
  apply elem_of_cons in Hl as [->|Hl].
  - by destruct (seg_lookup _ _ _ _ e Hs He) as (? & ? & ->).
  - unfold vals in Hv. rewrite Forall_forall in Hv.
    by destruct (value_at_other _ _ _ _ l (Hv e He) Hl) as [? ->].
Qed.

(** One node of a list gets a new payload: its private parts may move to
    fresh locations and the old ones are freed. *)
Section replace.
Context (h h' : heap (block P H X)) (hp : loc) (hx : H).
Context (es1 es2 : list ent) (a a' : ent) (R : mem).
Abbreviation rest := ((es1 ++ es2) ≫= foot).
Context (Hown : dlown h hp hx (es1 ++ a :: es2) R).
Context (Hbudget : budget h' = None).
Context (Hloc : e_loc a' = e_loc a).
Context (Hnode : cells h' !! e_loc a = Some (Node (hd_ptr es2 None) (last_ptr es1 None) (e_dat a'))).
Context (Hval : value_at (cells h') (e_dat a') (e_val a') (e_fp a')).
Context (Hnd : NoDup (e_fp a')).
Context (Hfp : ∀ l, l ∈ e_fp a' → l ∈ e_fp a ∨ cells h !! l = None).
Context (Hsame : ∀ l, l ≠ e_loc a → l ∉ e_fp a → l ∉ e_fp a' → cells h' !! l = cells h !! l).
Context (Hgone : ∀ l, l ∈ e_fp a → l ∉ e_fp a' → cells h' !! l = None).

Lemma replace_sep : NoDup (hp :: foot a ++ rest).
Proof using Hown.
  destruct Hown as [[_ _ _ Hn] _ _]. by rewrite <- own_locs_split.
Qed.

Lemma replace_fresh l : l ∈ e_fp a' → l ≠ hp ∧ l ≠ e_loc a ∧ l ∉ rest.
Proof using Hown Hfp.
  intros Hl. pose proof replace_sep as [Hhp (Hna & Hcross & _)%NoDup_app]%NoDup_cons.
  destruct (Hfp l Hl) as [Hin|Hnone].
  - apply NoDup_cons in Hna as [Hna _].
    split; [|split]; [intros ->; apply Hhp|by intros ->|];
      [apply elem_of_app; left; by right|apply Hcross; by right].
  - assert (Hno : l ∉ hp :: foot a ++ rest).
    { rewrite <- own_locs_split. intros Hin. by eapply dlrep_live, Hnone; [apply Hown|]. }
    apply not_elem_of_cons in Hno as [? [Hno ?]%not_elem_of_app].
    by apply not_elem_of_cons in Hno as [? _].
Qed.

Lemma replace_other l : l ∈ hp :: rest → cells h' !! l = cells h !! l.
Proof using Hown Hfp Hsame.
  intros Hl. pose proof replace_sep as [Hhp (Hna & Hcross & _)%NoDup_app]%NoDup_cons.
  assert (Hno : l ∉ foot a).
  { intros Hin. apply elem_of_cons in Hl as [->|Hl]; [|by apply (Hcross l Hin)].
    apply Hhp, elem_of_app. by left. }
  apply not_elem_of_cons in Hno as [? ?]. apply Hsame; [done|done|].
  intros Hin. destruct (replace_fresh l Hin) as (? & ? & ?).
  by apply elem_of_cons in Hl as [->|Hl].
Qed.

Lemma replace_sep' : NoDup (hp :: foot a' ++ rest).
Proof using Hown Hfp Hloc Hnd.
  pose proof replace_sep as [Hhp (Hna & Hcross & Hno)%NoDup_app]%NoDup_cons.
  apply NoDup_cons. split; [|apply NoDup_app; split; [|split; [|done]]]; unfold foot at 1.
  - intros [[->|Hin]%elem_of_cons|Hin]%elem_of_app.
    + apply Hhp. rewrite Hloc. apply elem_of_app. left. left.
    + by destruct (replace_fresh _ Hin).
    + apply Hhp, elem_of_app. by right.
  - constructor; [|done]. rewrite Hloc. intros Hin. by destruct (replace_fresh _ Hin) as (_ & ? & _).
  - intros l [->|Hin]%elem_of_cons; [rewrite Hloc; apply Hcross; left|].
    by destruct (replace_fresh _ Hin) as (_ & _ & ?).
Qed.

Lemma replace_rest : outside (cells h') (own_locs hp (es1 ++ a' :: es2)) = R.
Proof using Hown Hfp Hsame Hgone Hloc.
  destruct Hown as [_ <- _]. apply map_eq. intros l. rewrite !lookup_outside.
  assert (Hsplit : ∀ x, l ∈ own_locs hp (es1 ++ x :: es2) ↔
                   l ∈ hp :: rest ∨ l = e_loc x ∨ l ∈ e_fp x).
  { intros x. rewrite own_locs_split, !elem_of_cons, elem_of_app.
    unfold foot at 1. rewrite elem_of_cons. tauto. }
  case_decide as Hd'; case_decide as Hd; rewrite Hsplit in Hd, Hd'; rewrite Hloc in Hd'.
  - done.
  - destruct Hd' as [?|[?|Hin]]; [tauto..|]. destruct (Hfp l Hin) as [?|Hn]; [tauto|done].
  - apply Hgone; tauto.
  - apply Hsame; tauto.
Qed.

Lemma dlown_replace : dlown h' hp hx (es1 ++ a' :: es2) R.
Proof using All.
  constructor; [constructor|apply replace_rest|done]; simpl.
  - rewrite replace_other by left. destruct Hown as [[-> _ _ _] _ _].
    rewrite !hd_ptr_app, !last_ptr_app. simpl. by rewrite Hloc.
  - destruct Hown as [[_ Hs _ Hn] _ _].
    eapply locs_seg_update; [done|done|by apply NoDup_locs in Hn|done|].
    intros x Hx. apply replace_other. right. apply foot_locs. by apply list_elem_of_fmap_2.
  - destruct Hown as [[_ _ Hv _] _ _]. unfold vals in *. rewrite Forall_app, Forall_cons in *.
    destruct Hv as (Hv1 & _ & Hv2). rewrite Forall_forall in Hv1, Hv2. rewrite !Forall_forall.
    split; [|split; [done|]]; intros x Hx; eapply value_at_frame; eauto; intros l Hl;
      apply replace_other; right; apply foot_parts, list_elem_of_bind; exists x;
      (split; [done|]); apply elem_of_app; auto.
  - change (NoDup (own_locs hp (es1 ++ a' :: es2))). rewrite own_locs_split.
    apply replace_sep'.
Qed.
End replace.
End rep.
Arguments ent _ _ : clear implicits.

#[export] Hint Resolve foot_locs foot_parts : crun.
