(* ===== verification/LevelList.v ===== *)
(** * Lists ordered by level: the pure side of the directory lists

    What the sorted insertion, the exchange sort and the numbering loop of the
    directory programs compute, as functions on Rocq lists, and what makes
    their results right: permutation, order, uniqueness, termination. *)

From stdpp Require Import base list sorting.

(** ** Sorted insertion *)
Section place.
Context {A : Type} (key : A → Z).
Implicit Types (a e t : A) (l rest pre post : list A).

(** The scan [while (tmp->next && tmp->next->level < level) tmp = tmp->next]
    from node [a]: the nodes passed, the node it stops at, the nodes after. *)
Fixpoint scan_split (k : Z) a rest : list A * A * list A :=
  match rest with
  | [] => ([], a, [])
  | b :: rest' =>
      if decide (key b < k)%Z
      then let r := scan_split k b rest' in (a :: r.1.1, r.1.2, r.2)
      else ([], a, rest)
  end.

(** Where a new element goes: before everything when the node reached has a
    greater level, else after that node. *)
Definition place e l : list A :=
  match l with
  | [] => [e]
  | a :: rest =>
      let r := scan_split (key e) a rest in
      if decide (key e < key r.1.2)%Z then e :: l else r.1.1 ++ r.1.2 :: e :: r.2
  end.

Definition key_le (a b : A) : Prop := (key a ≤ key b)%Z.
#[export] Instance key_le_trans : Transitive key_le.
Proof. intros a b c; unfold key_le; lia. Qed.

Lemma scan_split_app k a rest :
  a :: rest = (scan_split k a rest).1.1 ++ (scan_split k a rest).1.2 :: (scan_split k a rest).2.
Proof.
  revert a. induction rest as [|b rest IH]; intros a; simpl; [done|].
  case_decide; simpl; [|done]. by rewrite <- IH.
Qed.

(** The node reached is the first one, or it has a smaller level. *)
Lemma scan_split_reached k a rest :
  (scan_split k a rest).1.2 = a ∧ (scan_split k a rest).1.1 = []
  ∨ (key (scan_split k a rest).1.2 < k)%Z.
Proof.
  revert a. induction rest as [|b rest IH]; intros a; simpl; [by left|].
  case_decide; simpl; [|by left]. right.
  destruct (IH b) as [[-> _]|?]; done.
Qed.

(** The nodes after the one reached do not start below the level. *)
Lemma scan_split_post k a rest b post :
  (scan_split k a rest).2 = b :: post → (k ≤ key b)%Z.
Proof.
  revert a. induction rest as [|c rest IH]; intros a; simpl; [done|].
  case_decide; simpl; [by apply IH|]. intros [= -> _]. lia.
Qed.

Lemma place_perm e l : place e l ≡ₚ e :: l.
Proof.
  destruct l as [|a rest]; [done|]. unfold place.
  case_decide; [done|]. rewrite (scan_split_app (key e) a rest).
  rewrite Permutation_middle. apply Permutation_app_head, perm_swap.
Qed.

Lemma place_sorted e l :
  StronglySorted key_le l → StronglySorted key_le (place e l).
Proof.
  destruct l as [|a rest]; intros Hs; [repeat constructor|]. unfold place.
  destruct (scan_split_reached (key e) a rest) as [[Ht Hp]|Hlt].
  - rewrite Ht, Hp. simpl. case_decide as Hk.
    + constructor; [done|]. apply StronglySorted_inv in Hs as [_ Hall].
      constructor; [unfold key_le; lia|].
      eapply Forall_impl; [done|]. unfold key_le. intros x ?. lia.
    + pose proof (scan_split_app (key e) a rest) as E.
      rewrite Ht, Hp in E. simpl in E. injection E as E.
      pose proof (scan_split_post (key e) a rest) as Hpost.
      rewrite <- E in Hpost |- *.
      apply StronglySorted_inv in Hs as [Hs Hall].
      constructor; [constructor|constructor]; [done| |unfold key_le; lia|done].
      destruct rest as [|b rest]; [constructor|].
      specialize (Hpost _ _ eq_refl). apply StronglySorted_inv in Hs as [_ Hb].
      constructor; [done|]. eapply Forall_impl; [done|]. unfold key_le. intros; lia.
  - rewrite decide_False by lia.
    pose proof (scan_split_app (key e) a rest) as E.
    pose proof (scan_split_post (key e) a rest) as Hpost.
    set (r := scan_split (key e) a rest) in *. rewrite E in Hs.
    apply StronglySorted_app in Hs as (Hcross & Hpre & Htpost).
    apply StronglySorted_inv in Htpost as [Hs2 Ht].
    rewrite Forall_forall in Ht.
    assert (He : Forall (key_le e) r.2).
    { destruct r.2 as [|b post]; [constructor|]. specialize (Hpost _ _ eq_refl).
      apply StronglySorted_inv in Hs2 as [_ Hb].
      constructor; [done|]. eapply Forall_impl; [done|]. unfold key_le. intros; lia. }
    apply StronglySorted_app. repeat split.
    + intros x y Hx [->|[->|Hy]%elem_of_cons]%elem_of_cons.
      * apply Hcross; [done|left].
      * assert (key_le x r.1.2) by (apply Hcross; [done|left]). unfold key_le in *. lia.
      * apply Hcross; [done|by right].
    + done.
    + constructor; [by constructor|]. constructor; [unfold key_le; lia|].
      by apply Forall_forall.
Qed.
End place.

(** The place depends on nothing but the level. *)
Lemma place_at {A} (key : A → Z) k l :
  ∃ l1 l2, l = l1 ++ l2 ∧ ∀ e, key e = k → place key e l = l1 ++ e :: l2.
Proof.
  destruct l as [|a rest]; [by exists [], []|]. unfold place.
  pose proof (scan_split_app key k a rest) as E.
  destruct (decide (k < key (scan_split key k a rest).1.2)%Z) as [Hk|Hk].
  - exists [], (a :: rest). split; [done|]. intros e ->. by rewrite decide_True.
  - exists ((scan_split key k a rest).1.1 ++ [(scan_split key k a rest).1.2]), (scan_split key k a rest).2.
    split; [by rewrite <- app_assoc|]. intros e ->. rewrite decide_False by done. by rewrite <- app_assoc.
Qed.

Lemma key_sorted {A} (key : A → Z) l :
  Sorted (key_le key) l ↔ Sorted Z.le (key <$> l).
Proof.
  induction l as [|a l IH]; simpl; [by split; constructor|].
  split; intros [Hl Ha]%Sorted_inv; constructor; try by apply IH.
  - destruct l; constructor. by apply HdRel_inv in Ha.
  - destruct l; constructor. by apply HdRel_inv in Ha.
Qed.

Lemma Zle_sorted l : Sorted Z.le l ↔ StronglySorted Z.le l.
Proof.
  split; [apply Sorted_StronglySorted; intros ???; apply Z.le_trans|].
  apply StronglySorted_Sorted.
Qed.

Lemma scan_split_fmap {A B} (f : A → B) (key : B → Z) k (a : A) rest :
  let r := scan_split (key ∘ f) k a rest in
  scan_split key k (f a) (f <$> rest) = (f <$> r.1.1, f r.1.2, f <$> r.2).
Proof.
  revert a. induction rest as [|b rest IH]; intros a; simpl; [done|].
  case_decide; simpl; [|done]. by rewrite IH.
Qed.

Lemma place_fmap {A B} (f : A → B) (key : B → Z) (e : A) l :
  f <$> place (key ∘ f) e l = place key (f e) (f <$> l).
Proof.
  destruct l as [|a rest]; [done|]. simpl. unfold compose. rewrite scan_split_fmap. simpl.
  unfold compose. case_decide; simpl; [done|]. by rewrite fmap_app.
Qed.

(** ** The exchange sort *)
Section bubble.
Context {A : Type} (gtb : A → A → bool).
Implicit Types (a b : A) (l rest : list A).

(** One scan: neighbours in the wrong order are exchanged; the flag says
    whether that happened. *)
Fixpoint pass a rest : list A * bool :=
  match rest with
  | [] => ([a], false)
  | b :: rest' =>
      if gtb a b then (b :: (pass a rest').1, true)
      else (a :: (pass b rest').1, (pass b rest').2)
  end.

Definition scan l : list A * bool :=
  match l with [] => ([], false) | a :: rest => pass a rest end.

(** Scans until one of them exchanges nothing. *)
Fixpoint bubble (fuel : nat) l : option (list A) :=
  match fuel with
  | O => None
  | S fuel' => if (scan l).2 then bubble fuel' (scan l).1 else Some (scan l).1
  end.

(** The pairs in the wrong order. *)
Fixpoint inversions l : nat :=
  match l with
  | [] => 0
  | a :: rest => length (filter (λ b, gtb a b = true) rest) + inversions rest
  end.

Lemma pass_perm a rest : (pass a rest).1 ≡ₚ a :: rest.
Proof.
  revert a. induction rest as [|b rest IH]; intros a; simpl; [done|].
  destruct (gtb a b); simpl; rewrite IH; [|done]. apply perm_swap.
Qed.

Lemma scan_perm l : (scan l).1 ≡ₚ l.
Proof. destruct l; [done|]. apply pass_perm. Qed.

Lemma pass_length a rest : length (pass a rest).1 = S (length rest).
Proof. by rewrite pass_perm. Qed.

Lemma pass_no_swap a rest : (pass a rest).2 = false → (pass a rest).1 = a :: rest.
Proof.
  revert a. induction rest as [|b rest IH]; intros a; simpl; [done|].
  destruct (gtb a b); simpl; [done|]. intros ?. by rewrite IH.
Qed.

(** Neighbours are in order after a scan without exchange. *)
Lemma pass_no_swap_sorted a rest :
  (pass a rest).2 = false → Sorted (λ x y, gtb x y = false) (a :: rest).
Proof.
  revert a. induction rest as [|b rest IH]; intros a; simpl; [by repeat constructor|].
  destruct (gtb a b) eqn:E; simpl; [done|]. intros ?. constructor; [by apply IH|].
  by constructor.
Qed.

Lemma filter_length_perm (P : A → Prop) `{!∀ x, Decision (P x)} l1 l2 :
  l1 ≡ₚ l2 → length (filter P l1) = length (filter P l2).
Proof. intros E. by rewrite E. Qed.

Section asym.
Context (gtb_asym : ∀ a b, gtb a b = true → gtb b a = false).

Lemma pass_inversions a rest :
  inversions (pass a rest).1 + (if (pass a rest).2 then 1 else 0)
  ≤ inversions (a :: rest).
Proof.
  revert a. induction rest as [|b rest IH]; intros a; simpl; [done|].
  destruct (gtb a b) eqn:E; simpl.
  - specialize (IH a). simpl in IH.
    rewrite (filter_length_perm _ _ _ (pass_perm a rest)).
    rewrite filter_cons_False by (by rewrite (gtb_asym a b)).
    rewrite filter_cons_True by done. simpl. destruct (pass a rest).2; lia.
  - specialize (IH b). simpl in IH.
    rewrite (filter_length_perm _ _ _ (pass_perm b rest)). lia.
Qed.

Lemma inversions_bound l : inversions l ≤ length l * length l.
Proof.
  induction l as [|a l IH]; simpl; [done|].
  pose proof (length_filter (λ b, gtb a b = true) l). nia.
Qed.

(** More scans than inversions are never needed. *)
Lemma bubble_terminates fuel l :
  inversions l < fuel → ∃ l', bubble fuel l = Some l'.
Proof.
  revert l. induction fuel as [|fuel IH]; intros l Hl; [lia|]. simpl.
  destruct (scan l).2 eqn:E; [|by eexists]. apply IH.
  destruct l as [|a rest]; [done|]. unfold scan in *.
  pose proof (pass_inversions a rest) as H. rewrite E in H. lia.
Qed.
End asym.

Lemma bubble_perm fuel l l' : bubble fuel l = Some l' → l' ≡ₚ l.
Proof.
  revert l. induction fuel as [|fuel IH]; intros l; simpl; [done|].
  destruct (scan l).2.
  - intros ->%IH. apply scan_perm.
  - intros [= <-]. apply scan_perm.
Qed.

Lemma bubble_sorted fuel l l' :
  bubble fuel l = Some l' → Sorted (λ x y, gtb x y = false) l'.
Proof.
  revert l. induction fuel as [|fuel IH]; intros l; simpl; [done|].
  destruct (scan l).2 eqn:E; [by apply IH|]. intros [= <-].
  destruct l as [|a rest]; [constructor|]. simpl in *.
  rewrite pass_no_swap by done. by apply pass_no_swap_sorted.
Qed.

(** A scan that only exchanges elements with equal keys keeps the keys. *)
Lemma pass_keys {K} (key : A → K) a rest :
  (∀ x y, gtb x y = true → key x = key y) →
  key <$> (pass a rest).1 = key <$> a :: rest.
Proof.
  intros Hk. revert a. induction rest as [|b rest IH]; intros a; simpl; [done|].
  destruct (gtb a b) eqn:E; simpl; rewrite IH; simpl; [|done]. by rewrite (Hk a b E).
Qed.

Lemma bubble_keys {K} (key : A → K) fuel l l' :
  (∀ x y, gtb x y = true → key x = key y) →
  bubble fuel l = Some l' → key <$> l' = key <$> l.
Proof.
  intros Hk. revert l. induction fuel as [|fuel IH]; intros l; simpl; [done|].
  assert (Hs : key <$> (scan l).1 = key <$> l)
    by (destruct l; [done|by apply pass_keys]).
  destruct (scan l).2; [intros ->%IH; done|]. by intros [= <-].
Qed.
End bubble.

(** ** The numbering loop *)
Section number.
Context {A : Type} (key : A → Z) (setnum : A → Z → A).
Context (key_setnum : ∀ a n, key (setnum a n) = key a).

(** [n] is the counter when the loop stands on element [a]. *)
Fixpoint number_from (n : Z) (a : A) (rest : list A) : list A :=
  match rest with
  | [] => [a]
  | b :: rest' =>
      if decide (key b = key a)
      then a :: number_from (n + 1) (setnum b (n + 1)) rest'
      else a :: number_from 1 b rest'
  end.

Definition number (l : list A) : list A :=
  match l with [] => [] | a :: rest => number_from 1 a rest end.

Lemma number_from_keys n a rest : key <$> number_from n a rest = key <$> a :: rest.
Proof.
  revert n a. induction rest as [|b rest IH]; intros n a; simpl; [done|].
  case_decide; simpl; rewrite IH; simpl; [by rewrite key_setnum|done].
Qed.

Lemma number_from_Forall (Q : A → Prop) n a rest :
  (∀ a n, Q a → Q (setnum a n)) → Forall Q (a :: rest) → Forall Q (number_from n a rest).
Proof.
  intros HQ. revert n a. induction rest as [|b rest IH]; intros n a Hall; [done|].
  apply Forall_cons in Hall as [Ha [Hb Hr]%Forall_cons]. simpl.
  case_decide; (constructor; [done|]); apply IH; constructor; auto.
Qed.

Lemma number_Forall (Q : A → Prop) l :
  (∀ a n, Q a → Q (setnum a n)) → Forall Q l → Forall Q (number l).
Proof. intros HQ Hl. destruct l; [done|]. by apply number_from_Forall. Qed.

(** Only the numbers change. *)
Lemma number_Forall2 (P : A → A → Prop) l :
  (∀ a, P a a) → (∀ a b n, P a b → P a (setnum b n)) → Forall2 P l (number l).
Proof.
  intros HP Hs. destruct l as [|a rest]; [constructor|]. unfold number. generalize 1%Z as n.
  assert (Hgo : ∀ rest n a0 a, P a0 a → Forall2 P (a0 :: rest) (number_from n a rest)); [|intros n; by apply Hgo].
  clear rest a. induction rest as [|b rest IH]; intros n a0 a Ha; simpl; [by repeat constructor|].
  case_decide; (constructor; [done|]); apply IH; [by apply Hs|done].
Qed.

Lemma number_keys l : key <$> number l = key <$> l.
Proof. destruct l; [done|apply number_from_keys]. Qed.
End number.

(** How many times [k] occurs. *)
Definition count (k : Z) (ks : list Z) : nat := length (filter (λ x, x = k) ks).

Lemma count_app k ks1 ks2 : count k (ks1 ++ ks2) = count k ks1 + count k ks2.
Proof. unfold count. by rewrite filter_app, length_app. Qed.

Lemma count_absent k ks : k ∉ ks → count k ks = 0.
Proof.
  unfold count. induction ks as [|x ks IH]; [done|]. intros [? ?]%not_elem_of_cons.
  rewrite filter_cons_False by done. auto.
Qed.

Section number_rank.
Context {A : Type} (key num : A → Z) (setnum : A → Z → A).
Context (key_setnum : ∀ a n, key (setnum a n) = key a)
        (num_setnum : ∀ a n, num (setnum a n) = n).

Lemma number_from_rank pre n a rest i x :
  StronglySorted Z.le (pre ++ (key <$> a :: rest)) →
  Forall (λ y, num y = 1%Z) rest →
  num a = n → n = Z.of_nat (1 + count (key a) pre) →
  number_from key setnum n a rest !! i = Some x →
  num x = Z.of_nat (1 + count (key x) (pre ++ take i (key <$> a :: rest))).
Proof using key_setnum num_setnum.
  revert pre n a i. induction rest as [|b rest IH];
    intros pre n a i Hs Hall Ha Hn Hx; simpl in Hx.
  { destruct i; simplify_eq/=; by rewrite app_nil_r. }
  apply Forall_cons in Hall as [Hb Hall]. rewrite !fmap_cons in *.
  rewrite cons_middle, app_assoc in Hs.
  assert (Hpre : ∀ j, pre ++ take (S j) (key a :: key b :: (key <$> rest)) =
                      (pre ++ [key a]) ++ take j (key b :: (key <$> rest)))
    by (intros j; by rewrite <- app_assoc).
  case_decide as Hk; (destruct i as [|i]; [simplify_eq/=; by rewrite app_nil_r|]);
    simpl in Hx; rewrite Hpre.
  - rewrite <- (key_setnum b (n + 1)), <- fmap_cons. eapply IH; [|done| |..|done].
    + by rewrite fmap_cons, key_setnum.
    + apply num_setnum.
    + rewrite key_setnum, Hk, count_app, Hn. unfold count at 3.
      rewrite filter_cons_True by done. simpl. lia.
  - rewrite <- fmap_cons. eapply IH; [|done| |..|done]; [done|done|].
    rewrite count_absent; [done|].
    apply StronglySorted_app in Hs as (Hx1 & Hs1 & _).
    apply StronglySorted_app in Hs1 as (Hx2 & _ & _).
    intros [Hin|Hin%list_elem_of_singleton]%elem_of_app; [|by subst].
    assert (key a ≤ key b)%Z by (apply Hx1; [apply elem_of_app; right; left|left]).
    assert (key b ≤ key a)%Z by (apply Hx2; [done|left]). lia.
Qed.

(** In a list ordered by level, whose numbers are all 1, the loop gives each
    element its rank among the elements of its level. *)
Lemma number_rank l i x :
  StronglySorted Z.le (key <$> l) → Forall (λ y, num y = 1%Z) l →
  number key setnum l !! i = Some x →
  num x = Z.of_nat (1 + count (key x) (take i (key <$> l))).
Proof using key_setnum num_setnum.
  destruct l as [|a rest]; [done|]. intros Hs [Ha Hall]%Forall_cons Hx.
  by apply (number_from_rank [] 1 a rest i x).
Qed.
End number_rank.
