(* ===== verification/SortedInsert.v ===== *)
(** * Sorted insertion into a doubly linked list

    The pointer code of [insert_sorted] (dirlist.c, pardirlist.c) and of
    [AddPath] once the new node exists, and its refinement of [place]. *)

From stdpp Require Import base list gmap fin_maps strings.
From S2P Require Import Prelude CString CMem Dll LevelList.

Section insert.
Context {P H X V : Type} `{!NodeData P H X V}.
Abbreviation mem := (gmap loc (block P H X)).
Abbreviation C := (M (heap (block P H X))).
Implicit Types (h : heap (block P H X)) (m : mem) (es : list (ent P V)) (e t : ent P V).

(** [p->level], through the payload of the node. *)
Definition node_level (p : ptr) : C Z := d ← get_data p; level_of d.
Definition node_path (p : ptr) : C bytes := d ← get_data p; path_of d.

(** [while (tmp->next != NULL && tmp->next->level < node->level) tmp = tmp->next;] *)
Definition scan_body (node tmp : ptr) : C (ptr + ptr) :=
  nx ← get_next tmp;
  match nx with
  | None => mret (inr tmp)
  | Some _ =>
      lv ← node_level nx;
      k ← node_level node;
      if decide (lv < k)%Z then mret (inl nx) else mret (inr tmp)
  end.

(** The new node becomes the head. *)
Definition link_head (node list : ptr) : C unit :=
  hd ← get_head list; set_next node hd;;
  set_prev node None;;
  hd ← get_head list; set_prev hd node;;
  set_head list node.

(** The new node becomes the tail. *)
Definition link_tail (node list : ptr) : C unit :=
  tl ← get_tail list; set_prev node tl;;
  set_next node None;;
  tl ← get_tail list; set_next tl node;;
  set_tail list node.

(** The new node goes between [tmp] and its successor. *)
Definition link_middle (node tmp : ptr) : C unit :=
  nx ← get_next tmp; set_next node nx;;
  set_prev node tmp;;
  nx ← get_next tmp; set_prev nx node;;
  set_next tmp node.

(** The insertion into a list that is not empty. *)
Definition link_sorted (node list : ptr) : C unit :=
  fuel ← live;
  first ← get_head list;
  tmp ← loop fuel (scan_body node) first;
  k ← node_level node;
  lv ← node_level tmp;
  if decide (k < lv)%Z then link_head node list
  else
    nx ← get_next tmp;
    match nx with
    | None => link_tail node list
    | Some _ => link_middle node tmp
    end.

(** The new node goes behind the tail. *)
Definition push_back (node list : ptr) : C unit :=
  hd ← get_head list;
  tl ← get_tail list;
  match hd, tl with
  | None, None => set_head list node;; set_tail list node
  | _, _ =>
      tl ← get_tail list; set_next tl node;;
      tl ← get_tail list; set_prev node tl;;
      set_tail list node
  end.

(** The new node goes before the head. *)
Definition push_front (node list : ptr) : C unit :=
  hd ← get_head list;
  tl ← get_tail list;
  match hd, tl with
  | None, None => set_head list node;; set_tail list node
  | _, _ =>
      hd ← get_head list; set_prev hd node;;
      set_prev node None;;
      hd ← get_head list; set_next node hd;;
      set_head list node
  end.

Lemma node_level_ok h l n r d v fp :
  cells h !! l = Some (Node n r d) → value_at (cells h) d v fp →
  node_level (Some l) h = Ok (lev v, h).
Proof. intros E Hv. unfold node_level. mstep. by eapply level_of_ok. Qed.

Lemma node_path_ok h l n r d v fp :
  cells h !! l = Some (Node n r d) → value_at (cells h) d v fp →
  node_path (Some l) h = Ok (pth v, h).
Proof. intros E Hv. unfold node_path. mstep. by eapply path_of_ok. Qed.
Hint Resolve node_level_ok node_path_ok : crun.

(** A new node that is not in the list yet, with its value. *)
Record detached m hp es e : Prop := {
  det_node : ∃ n r, m !! e_loc e = Some (Node n r (e_dat e));
  det_val : value_at m (e_dat e) (e_val e) (e_fp e);
  det_sep : NoDup (hp :: foot e ++ (es ≫= foot));
}.

Abbreviation elev := (λ e, lev (e_val e)).

Lemma scan_loop_ok h es1 a rest e fuel n r :
  seg (cells h) None (es1 ++ a :: rest) None → vals (cells h) (es1 ++ a :: rest) →
  cells h !! e_loc e = Some (Node n r (e_dat e)) →
  value_at (cells h) (e_dat e) (e_val e) (e_fp e) →
  length rest < fuel →
  loop fuel (scan_body (Some (e_loc e))) (Some (e_loc a)) h =
  Ok (Some (e_loc (scan_split elev (elev e) a rest).1.2), h).
Proof.
  revert es1 a fuel. induction rest as [|b rest IH]; intros es1 a fuel Hs Hv He Hval Hf;
    (destruct fuel as [|fuel]; [simpl in Hf; lia|]);
    pose proof (seg_lookup_at _ _ _ _ Hs) as Ha; simpl in Ha.
  { apply loop_done. unfold scan_body. by mstep. }
  rewrite cons_middle, app_assoc in Hs, Hv.
  pose proof (seg_lookup_at _ _ _ _ Hs) as Hb.
  assert (value_at (cells h) (e_dat b) (e_val b) (e_fp b)) as Hvb.
  { unfold vals in Hv. rewrite Forall_forall in Hv. apply Hv.
    apply elem_of_app. right. left. }
  cbn [scan_split]. case_decide as Hk; cbn [fst snd].
  - erewrite loop_step; [|unfold scan_body; do 3 mstep; by rewrite decide_True].
    apply (IH (es1 ++ [a])); [done..|]. simpl in Hf. lia.
  - apply loop_done. unfold scan_body. do 3 mstep. by rewrite decide_False.
Qed.

(** What a memory must look like for [e] to have been linked in between [es1]
    and [es2]. *)
Lemma seg_insert m m' es1 e es2 :
  seg m None (es1 ++ es2) None →
  NoDup (e_loc <$> es1 ++ e :: es2) →
  m' !! e_loc e = Some (Node (hd_ptr es2 None) (last_ptr es1 None) (e_dat e)) →
  (∀ pre t, es1 = pre ++ [t] →
     m' !! e_loc t = Some (Node (Some (e_loc e)) (last_ptr pre None) (e_dat t))) →
  (∀ a post, es2 = a :: post →
     m' !! e_loc a = Some (Node (hd_ptr post None) (Some (e_loc e)) (e_dat a))) →
  (∀ x, x ∈ es1 ++ es2 → Some (e_loc x) ≠ last_ptr es1 None →
     Some (e_loc x) ≠ hd_ptr es2 None → m' !! e_loc x = m !! e_loc x) →
  seg m' None (es1 ++ e :: es2) None.
Proof.
  rewrite !seg_app, fmap_app. intros [H1 H2] (Hn1 & Hn12 & Hn2)%NoDup_app He Hl Hr Hf.
  simpl in *. repeat split; [|done|].
  - destruct es1 as [|t pre _] using rev_ind; [done|].
    rewrite seg_app in H1 |- *. destruct H1 as [H1 _]. split.
    + eapply seg_frame; [done|]. intros x Hx. rewrite last_ptr_snoc in Hf.
      rewrite fmap_app in Hn1. apply NoDup_app in Hn1 as (_ & Hn1 & _). apply Hf.
      * rewrite !elem_of_app. by left; left.
      * intros [= E]. apply (Hn1 (e_loc x)); [by apply list_elem_of_fmap_2|].
        rewrite E. left.
      * intros E. destruct es2 as [|a post]; [done|]. injection E as E.
        apply (Hn12 (e_loc x)).
        { rewrite fmap_app, elem_of_app. left. by apply list_elem_of_fmap_2. }
        rewrite E. simpl. right. left.
    + simpl. by rewrite (Hl pre t).
  - destruct es2 as [|a post]; [done|]. simpl in *. destruct H2 as [_ H2].
    split; [by apply Hr|]. eapply seg_frame; [done|]. intros x Hx.
    apply NoDup_cons in Hn2 as [_ (Hn2 & _)%NoDup_cons]. apply Hf.
    + apply elem_of_app. by right; right.
    + destruct es1 as [|t pre _] using rev_ind; [done|]. rewrite last_ptr_snoc. intros [= E].
      apply (Hn12 (e_loc x)).
      * rewrite E, fmap_app, elem_of_app. right. left.
      * right. right. by apply list_elem_of_fmap_2.
    + intros [= E]. apply Hn2. rewrite <- E. by apply list_elem_of_fmap_2.
Qed.

Lemma insert_sep hp es1 e es2 :
  NoDup (hp :: foot e ++ ((es1 ++ es2) ≫= foot)) →
  NoDup (hp :: ((es1 ++ e :: es2) ≫= foot)).
Proof.
  intros Hn. rewrite bind_app in *. rewrite bind_cons.
  by rewrite (Permutation_app_swap_app (es1 ≫= foot) (foot e) (es2 ≫= foot)).
Qed.

(** The frame of an operation on the list at [hp] and the locations [ls]. *)
Definition same_outside (ls : list loc) h h' : Prop :=
  budget h' = budget h ∧ ∀ l, l ∉ ls → cells h' !! l = cells h !! l.

Lemma dlrep_insert m m' hp hx es1 e es2 :
  dlrep m hp hx (es1 ++ es2) → detached m hp (es1 ++ es2) e →
  m' !! hp = Some (Hdr (hd_ptr (es1 ++ e :: es2) None)
                       (last_ptr (es1 ++ e :: es2) None) hx) →
  m' !! e_loc e = Some (Node (hd_ptr es2 None) (last_ptr es1 None) (e_dat e)) →
  (∀ pre t, es1 = pre ++ [t] →
     m' !! e_loc t = Some (Node (Some (e_loc e)) (last_ptr pre None) (e_dat t))) →
  (∀ a post, es2 = a :: post →
     m' !! e_loc a = Some (Node (hd_ptr post None) (Some (e_loc e)) (e_dat a))) →
  (∀ l, l ≠ hp → l ≠ e_loc e → Some l ≠ last_ptr es1 None →
     Some l ≠ hd_ptr es2 None → m' !! l = m !! l) →
  dlrep m' hp hx (es1 ++ e :: es2).
Proof.
  intros [Hh Hs Hv Hn] [(n & r & He) Hval Hsep] Hh' He' Hl Hr Hf.
  apply insert_sep in Hsep. pose proof (NoDup_locs _ _ Hsep) as Hlocs.
  assert (Hother : ∀ l x, m !! l = Some (Other x) → m' !! l = m !! l).
  { intros l x Hx. apply Hf.
    - naive_solver.
    - naive_solver.
    - destruct es1 as [|t pre _] using rev_ind; [done|]. rewrite last_ptr_snoc.
      intros [= ->]. rewrite <- app_assoc in Hs. apply seg_lookup_at in Hs. naive_solver.
    - destruct es2 as [|a post]; [done|]. intros [= ->].
      apply seg_lookup_at in Hs. naive_solver. }
  assert (Hvm : ∀ x, value_at m (e_dat x) (e_val x) (e_fp x) →
                     value_at m' (e_dat x) (e_val x) (e_fp x)).
  { intros x Hx. eapply value_at_frame; [done|]. intros l Hin.
    destruct (value_at_other _ _ _ _ l Hx Hin) as [y Hy]. eauto. }
  constructor; [done| |  |done].
  - eapply seg_insert; [done..|]. intros x Hx Hx1 Hx2. apply Hf; [| |done|done].
    + intros E. destruct (seg_lookup _ _ _ _ x Hs Hx) as (? & ? & Hl'). naive_solver.
    + rewrite fmap_app in Hlocs. apply NoDup_app in Hlocs as (_ & H1 & H2).
      simpl in *. apply NoDup_cons in H2 as [H2 _]. intros E.
      apply elem_of_app in Hx as [Hx|Hx]; apply (list_elem_of_fmap_2 e_loc) in Hx.
      * apply (H1 _ Hx). rewrite E. left.
      * apply H2. by rewrite <- E.
  - unfold vals in *. rewrite Forall_app, Forall_cons in *. destruct Hv as [Hv1 Hv2].
    split; [exact (Forall_impl _ _ _ Hv1 Hvm)|].
    split; [by apply Hvm|exact (Forall_impl _ _ _ Hv2 Hvm)].
Qed.

Lemma detached_ne m hp es e :
  detached m hp es e → hp ≠ e_loc e ∧ ∀ x, x ∈ es → e_loc e ≠ e_loc x.
Proof.
  intros [_ _ Hs]. rewrite NoDup_cons in Hs. destruct Hs as [H1 [H2 _]%NoDup_cons].
  split; [intros ->; apply H1; left|]. intros x Hx E. apply H2.
  rewrite elem_of_app. right. rewrite E. apply foot_locs. by apply list_elem_of_fmap_2.
Qed.

Lemma dlrep_locs_ne m hp hx es1 a es2 x :
  dlrep m hp hx (es1 ++ a :: es2) → x ∈ es1 ++ es2 → e_loc a ≠ e_loc x.
Proof.
  intros [_ _ _ Hs] Hx E. apply NoDup_locs in Hs.
  rewrite fmap_app, NoDup_app, fmap_cons, NoDup_cons in Hs.
  destruct Hs as (_ & H1 & H2 & _). apply elem_of_app in Hx as [Hx|Hx];
    apply (list_elem_of_fmap_2 e_loc) in Hx.
  - apply (H1 _ Hx). rewrite E. left.
  - apply H2. by rewrite E.
Qed.

Lemma link_head_ok h hp hx es e :
  es ≠ [] →
  dlrep (cells h) hp hx es → detached (cells h) hp es e →
  ∃ h', link_head (Some (e_loc e)) (Some hp) h = Ok (tt, h') ∧
    dlrep (cells h') hp hx (e :: es) ∧ same_outside (hp :: e_loc e :: (e_loc <$> es)) h h'.
Proof.
  destruct es as [|a es]; [done|]. intros _ Hd He.
  pose proof (det_node _ _ _ _ He) as (n & r & Hn).
  pose proof (dl_hdr _ _ _ _ Hd) as Hh. simpl in Hh.
  pose proof (dlrep_lookup _ _ _ [] _ _ Hd) as Ha. simpl in Ha.
  destruct (detached_ne _ _ _ _ He) as [? Hne]. assert (e_loc e ≠ e_loc a) by (apply Hne; left).
  assert (hp ≠ e_loc a) by congruence.
  unfold link_head. do 5 mstep.
  eexists; split; [by eapply set_head_ok; mem_solve|]. split.
  - apply (dlrep_insert (cells h) _ hp hx [] e (a :: es)); try done.
    + cbn [cells hset]; by simplify_map_eq.
    + cbn [cells hset]; by simplify_map_eq.
    + cbn [cells hset]; intros; by destruct pre.
    + cbn [cells hset]; intros; by simplify_map_eq.
    + cbn [cells hset]; intros; simpl in *. rewrite !lookup_insert_ne by congruence. done.
  - split; [done|]. cbn [cells hset]. intros l Hl. rewrite !lookup_insert_ne by set_solver. done.
Qed.

Lemma link_tail_ok h hp hx pre t e :
  dlrep (cells h) hp hx (pre ++ [t]) → detached (cells h) hp (pre ++ [t]) e →
  ∃ h', link_tail (Some (e_loc e)) (Some hp) h = Ok (tt, h') ∧
    dlrep (cells h') hp hx (pre ++ t :: [e]) ∧
    same_outside (hp :: e_loc e :: (e_loc <$> pre ++ [t])) h h'.
Proof.
  intros Hd He. pose proof (det_node _ _ _ _ He) as (n & r & Hn).
  pose proof (dl_hdr _ _ _ _ Hd) as Hh. rewrite last_ptr_snoc in Hh.
  pose proof (dlrep_lookup _ _ _ _ _ _ Hd) as Ht. simpl in Ht.
  destruct (detached_ne _ _ _ _ He) as [? Hne].
  assert (e_loc e ≠ e_loc t) by (apply Hne, elem_of_app; right; left).
  assert (hp ≠ e_loc t) by congruence.
  unfold link_tail. do 5 mstep.
  eexists; split; [by eapply set_tail_ok; mem_solve|].
  replace (pre ++ [t; e]) with ((pre ++ [t]) ++ [e]) by by rewrite <- app_assoc. split.
  - apply (dlrep_insert (cells h) _ hp hx (pre ++ [t]) e []);
      rewrite ?app_nil_r, ?last_ptr_snoc; cbn [cells hset]; try done.
    + rewrite !hd_ptr_app. simpl. by simplify_map_eq.
    + by simplify_map_eq.
    + intros pre' t' [-> [= ->]]%app_inj_tail. by simplify_map_eq.
    + intros l ? ? ? _. rewrite !lookup_insert_ne by congruence. done.
  - split; [done|]. cbn [cells hset]. rewrite fmap_app. intros l Hl.
    rewrite !lookup_insert_ne by set_solver. done.
Qed.

Lemma link_middle_ok h hp hx pre t b post e :
  dlrep (cells h) hp hx (pre ++ t :: b :: post) →
  detached (cells h) hp (pre ++ t :: b :: post) e →
  ∃ h', link_middle (Some (e_loc e)) (Some (e_loc t)) h = Ok (tt, h') ∧
    dlrep (cells h') hp hx (pre ++ t :: e :: b :: post) ∧
    same_outside (hp :: e_loc e :: (e_loc <$> pre ++ t :: b :: post)) h h'.
Proof.
  intros Hd He. pose proof (det_node _ _ _ _ He) as (n & r & Hn).
  pose proof (dl_hdr _ _ _ _ Hd) as Hh.
  pose proof (dlrep_lookup _ _ _ _ _ _ Hd) as Ht. simpl in Ht.
  assert (e_loc t ≠ e_loc b).
  { eapply dlrep_locs_ne; [done|]. apply elem_of_app. right. left. }
  rewrite cons_middle, app_assoc in Hd, He.
  pose proof (dlrep_lookup _ _ _ _ _ _ Hd) as Hb.
  destruct (detached_ne _ _ _ _ He) as [? Hne].
  assert (e_loc e ≠ e_loc t) by (apply Hne; rewrite !elem_of_app; left; right; left).
  assert (e_loc e ≠ e_loc b) by (apply Hne; rewrite !elem_of_app; right; left).
  assert (hp ≠ e_loc t) by congruence. assert (hp ≠ e_loc b) by congruence.
  rewrite last_ptr_snoc in Hb.
  unfold link_middle. do 5 mstep.
  eexists; split; [by eapply set_next_ok; mem_solve|].
  replace (pre ++ t :: e :: b :: post) with ((pre ++ [t]) ++ e :: b :: post)
    by by rewrite <- app_assoc. split.
  - apply (dlrep_insert (cells h) _ hp hx (pre ++ [t]) e (b :: post));
      rewrite ?last_ptr_snoc; cbn [cells hset]; try done.
    + rewrite !hd_ptr_app, !last_ptr_app in *. simpl in *. by simplify_map_eq.
    + by simplify_map_eq.
    + intros pre' t' [-> [= ->]]%app_inj_tail. by simplify_map_eq.
    + intros a post' [= -> ->]. by simplify_map_eq.
    + intros l ? ? ? ?. simpl in *. rewrite !lookup_insert_ne by congruence. done.
  - split; [done|]. cbn [cells hset]. rewrite fmap_app. intros l Hl.
    rewrite !lookup_insert_ne by set_solver. done.
Qed.

(** The pointer code refines [place]. *)
Lemma link_sorted_ok h hp hx es e :
  es ≠ [] →
  dlrep (cells h) hp hx es → detached (cells h) hp es e →
  ∃ h', link_sorted (Some (e_loc e)) (Some hp) h = Ok (tt, h') ∧
    dlrep (cells h') hp hx (place elev e es) ∧
    same_outside (hp :: e_loc e :: (e_loc <$> es)) h h'.
Proof.
  destruct es as [|a rest]; [done|]. intros Hne Hd He.
  pose proof (det_node _ _ _ _ He) as (n & r & Hn).
  pose proof (dl_hdr _ _ _ _ Hd) as Hh. pose proof (dlrep_length _ _ _ _ Hd) as Hlen.
  unfold link_sorted. do 2 mstep. simpl hd_ptr.
  erewrite bind_Ok by (apply (scan_loop_ok h [] a rest e _ n r);
    [apply Hd|apply Hd|done|apply He|simpl in Hlen; lia]).
  pose proof (det_val _ _ _ _ He) as Hval.
  pose proof (scan_split_app elev (elev e) a rest) as Hsplit.
  change (place elev e (a :: rest)) with
    (let r := scan_split elev (elev e) a rest in
     if decide (elev e < elev r.1.2)%Z then e :: a :: rest else r.1.1 ++ r.1.2 :: e :: r.2).
  cbv zeta. set (s := scan_split elev (elev e) a rest) in *.
  rewrite Hsplit in Hd, He |- *. pose proof (dlrep_lookup _ _ _ _ _ _ Hd) as Ht.
  assert (Hvt : value_at (cells h) (e_dat s.1.2) (e_val s.1.2) (e_fp s.1.2)).
  { eapply dlrep_value; [done|]. apply elem_of_app. right. left. }
  do 2 mstep. case_decide as Hk.
  - apply link_head_ok; [by destruct s.1.1|done..].
  - mstep. destruct s.2 as [|b post]; simpl hd_ptr; cbv iota.
    + by apply link_tail_ok.
    + by apply link_middle_ok.
Qed.

(** The same with the rest of the memory. *)
Lemma link_sorted_own h hp hx es e R :
  es ≠ [] →
  dlrep (cells h) hp hx es → detached (cells h) hp es e → budget h = None →
  outside (cells h) (hp :: foot e ++ (es ≫= foot)) = R →
  ∃ h', link_sorted (Some (e_loc e)) (Some hp) h = Ok (tt, h') ∧
    dlown h' hp hx (place elev e es) R.
Proof.
  intros Hne Hd He Hb <-. destruct (link_sorted_ok h hp hx es e Hne Hd He) as (h' & -> & Hd' & Hf).
  exists h'. split; [done|]. destruct Hf as [Hb' Hf]. constructor; [done| |congruence].
  apply outside_ext.
  - intros l. apply (elem_of_own_locs hp _ (e :: es)), place_perm.
  - intros l Hl. apply Hf. intros Hin. apply Hl.
    apply elem_of_cons in Hin as [->|[->|Hin]%elem_of_cons]; [left|right; left|right].
    apply elem_of_app. right. by apply foot_locs.
Qed.

(** A node among the blocks beside a list is ready to be linked in. *)
Lemma own_detached h hp hx es e R1 n r :
  dlown h hp hx es R1 → R1 !! e_loc e = Some (Node n r (e_dat e)) →
  value_at R1 (e_dat e) (e_val e) (e_fp e) → NoDup (foot e) →
  detached (cells h) hp es e ∧
  outside (cells h) (hp :: foot e ++ (es ≫= foot)) = outside R1 (foot e) ∧
  (∀ l, l ∈ foot e → cells h !! l = R1 !! l).
Proof.
  intros [Hd HR Hb] Hn Hv Hnd.
  assert (Hin : ∀ l, l ∈ foot e → ∃ x, R1 !! l = Some x).
  { intros l [->|Hl]%elem_of_cons; [eauto|]. destruct (value_at_other _ _ _ _ _ Hv Hl). eauto. }
  assert (Hout : ∀ l, l ∈ foot e → l ∉ own_locs hp es ∧ cells h !! l = R1 !! l).
  { intros l Hl. destruct (Hin l Hl) as [x Hx]. rewrite <- HR, lookup_outside in Hx |- *.
    by case_decide. }
  split; [|split; [|intros l Hl; by apply Hout]].
  - constructor.
    + exists n, r. by rewrite (proj2 (Hout _ ltac:(left))).
    + eapply value_at_frame; [done|]. intros l Hl. by apply Hout; right.
    + destruct Hd as [_ _ _ Hs]. apply NoDup_cons in Hs as [Hhp Hs]. apply NoDup_cons. split.
      * intros [Hl|Hl]%elem_of_app; [|done]. apply (proj1 (Hout _ Hl)). left.
      * apply NoDup_app. split; [done|]. split; [|done]. intros l Hl Hl'.
        apply (proj1 (Hout _ Hl)). by right.
  - rewrite <- HR. apply map_eq. intros l. rewrite !lookup_outside. unfold own_locs.
    repeat case_decide; set_solver.
Qed.

(** The first node of an empty list. *)
Lemma link_first_own h hp hx e R :
  dlrep (cells h) hp hx [] → detached (cells h) hp [] e → budget h = None →
  cells h !! e_loc e = Some (Node None None (e_dat e)) →
  outside (cells h) (hp :: foot e ++ []) = R →
  ∃ h', (set_head (Some hp) (Some (e_loc e));; set_tail (Some hp) (Some (e_loc e))) h = Ok (tt, h') ∧
    dlown h' hp hx [e] R.
Proof.
  intros Hd He Hb Hn HR. pose proof (dl_hdr _ _ _ _ Hd) as Hh. simpl in Hh.
  assert (hp ≠ e_loc e) by (by apply detached_ne in He as [? _]).
  mstep. eexists _. split; [by eapply set_tail_ok; mem_solve|].
  constructor; [|simpl|done].
  - apply (dlrep_insert (cells h) _ hp hx [] e []); simpl; try done; intros; simplify_map_eq; try done.
    by destruct pre.
  - rewrite <- HR. apply outside_ext; [done|]. intros x Hx. rewrite !lookup_insert_ne; set_solver.
Qed.
(** A node is linked in at an end. *)
Section ends.
Context (h : heap (block P H X)) (hp : loc) (hx : H) (es : list (ent P V)) (e : ent P V) (R : mem).
Context (Hd : dlrep (cells h) hp hx es) (He : detached (cells h) hp es e) (Hb : budget h = None).
Context (Hn : cells h !! e_loc e = Some (Node None None (e_dat e))).
Context (HR : outside (cells h) (hp :: foot e ++ (es ≫= foot)) = R).

Lemma push_back_own :
  ∃ h', push_back (Some (e_loc e)) (Some hp) h = Ok (tt, h') ∧ dlown h' hp hx (es ++ [e]) R.
Proof using All.
  pose proof (dl_hdr _ _ _ _ Hd) as Hh. destruct (detached_ne _ _ _ _ He) as [? Hne].
  assert (Hloc : ∀ l, l ∈ own_locs hp (es ++ [e]) ↔ l ∈ hp :: foot e ++ (es ≫= foot)).
  { intros l. apply (elem_of_own_locs hp _ (e :: es)). by rewrite Permutation_app_comm. }
  unfold push_back. do 2 mstep.
  destruct es as [|t pre _] eqn:Ees using rev_ind; cbn [hd_ptr last_ptr] in *.
  { by apply link_first_own. }
  rewrite last_ptr_snoc in *.
  pose proof (dlrep_lookup _ _ _ _ _ _ Hd) as Ht. simpl in Ht.
  assert (e_loc e ≠ e_loc t) by (apply Hne, elem_of_app; right; left).
  assert (hp ≠ e_loc t) by congruence.
  assert (∃ a, hd_ptr (pre ++ [t]) None = Some a) as [a Ea] by (destruct pre; simpl; eauto).
  rewrite Ea in *. cbv beta iota. do 4 mstep.
  eexists. split; [by eapply set_tail_ok; mem_solve|].
  constructor; [|simpl|done].
  - apply (dlrep_insert (cells h) _ hp hx (pre ++ [t]) e []); rewrite ?app_nil_r, ?last_ptr_snoc;
      cbn [cells hset]; try done.
    + rewrite hd_ptr_app. simpl. rewrite hd_ptr_app in *. simpl in *. rewrite Ea. by simplify_map_eq.
    + by simplify_map_eq.
    + intros pre' t' [-> [= ->]]%app_inj_tail. by simplify_map_eq.
    + intros l ? ? ? _. rewrite !lookup_insert_ne by congruence. done.
  - rewrite <- HR. apply outside_ext; [done|]. intros l Hl.
    rewrite bind_app in Hl. rewrite !lookup_insert_ne; set_solver.
Qed.

Lemma push_front_own :
  ∃ h', push_front (Some (e_loc e)) (Some hp) h = Ok (tt, h') ∧ dlown h' hp hx (e :: es) R.
Proof using All.
  pose proof (dl_hdr _ _ _ _ Hd) as Hh. destruct (detached_ne _ _ _ _ He) as [? Hne].
  unfold push_front. do 2 mstep. destruct es as [|a post]; cbn [hd_ptr last_ptr] in *.
  { by apply link_first_own. }
  pose proof (dlrep_lookup _ _ _ [] _ _ Hd) as Ha. simpl in Ha.
  assert (e_loc e ≠ e_loc a) by (apply Hne; left). assert (hp ≠ e_loc a) by congruence.
  cbv beta iota. do 5 mstep.
  eexists. split; [by eapply set_head_ok; mem_solve|].
  constructor; [|simpl|done].
  - apply (dlrep_insert (cells h) _ hp hx [] e (a :: post)); cbn [cells hset]; try done.
    + by simplify_map_eq.
    + by simplify_map_eq.
    + intros; by destruct pre.
    + intros; by simplify_map_eq.
    + intros; simpl in *. rewrite !lookup_insert_ne by congruence. done.
  - rewrite <- HR. apply outside_ext; [done|]. intros l Hl. rewrite !lookup_insert_ne; set_solver.
Qed.
End ends.
End insert.
#[export] Hint Resolve node_level_ok node_path_ok : crun.
