(* ===== verification/ListSort.v ===== *)
(** * The exchange sort, the numbering loop and the other traversals

    [node_swap] / [SortHelper], [sub_level] / [NumberChildren], [print_list] /
    [fileWriter] and [destroy_list] / [destroySDLL] over the interface of
    Dll.v; the programs differ in how two neighbours are exchanged, where the
    number is kept and what is printed and freed. *)

From stdpp Require Import base list gmap fin_maps strings sorting.
From S2P Require Import Prelude CString CMem Dll LevelList SortedInsert.

Section order.
Context {V : Type} (lev : V → Z) (pth : V → bytes).

(** [a->level == b->level && strcmp(a->path, b->path) > 0] *)
Definition path_gtb (a b : V) : bool :=
  bool_decide (lev a = lev b) && bool_decide (0 < strcmp (pth a) (pth b))%Z.

(** By level, then by path. *)
Definition lp_le (a b : V) : Prop :=
  (lev a < lev b ∨ lev a = lev b ∧ strcmp (pth a) (pth b) ≤ 0)%Z.

#[export] Instance lp_le_trans : Transitive lp_le.
Proof.
  intros a b c; unfold lp_le. intros [?|[? ?]] [?|[? ?]]; try (left; lia).
  right. split; [lia|]. by eapply strcmp_le_trans.
Qed.

Lemma lp_le_antisym_key a b : lp_le a b → lp_le b a → lev a = lev b ∧ pth a = pth b.
Proof.
  unfold lp_le. rewrite (strcmp_opp (pth a)). intros H1 H2.
  split; [lia|]. apply strcmp_0. lia.
Qed.

Lemma path_gtb_asym a b : path_gtb a b = true → path_gtb b a = false.
Proof.
  unfold path_gtb. rewrite (strcmp_opp (pth a) (pth b)), !andb_true_iff, !bool_decide_eq_true.
  intros [_ ?]. rewrite andb_false_iff, !bool_decide_eq_false. right. lia.
Qed.

Lemma path_gtb_lev a b : path_gtb a b = true → lev a = lev b.
Proof. unfold path_gtb. by rewrite andb_true_iff, bool_decide_eq_true; intros []. Qed.

(** Levels in order and no neighbours in the wrong order: the list is in
    order by level and path. *)
Lemma sorted_lp l :
  Sorted (key_le lev) l → Sorted (λ a b, path_gtb a b = false) l → StronglySorted lp_le l.
Proof.
  intros Hl Hp. apply Sorted_StronglySorted; [apply _|].
  induction Hl as [|a l Hl IH Ha]; [constructor|].
  apply Sorted_inv in Hp as [Hp Hpa]. constructor; [by apply IH|].
  destruct l as [|b l]; constructor. apply HdRel_inv in Ha, Hpa.
  unfold key_le, path_gtb, lp_le in *.
  rewrite andb_false_iff, !bool_decide_eq_false in Hpa. lia.
Qed.
End order.

Section loops.
Context {P H X V : Type} `{!NodeData P H X V}.
Abbreviation mem := (gmap loc (block P H X)).
Abbreviation C := (M (heap (block P H X))).
Implicit Types (h : heap (block P H X)) (es : list (ent P V)) (R : mem).

(** ** The exchange sort *)
Section sort.
(** The exchange of the contents of two neighbour nodes. *)
Context (swap : ptr → ptr → C unit).

Definition sort_inner (st : ptr * bool) : C (ptr * bool + ptr * bool) :=
  let '(tmp, sw) := st in
  nx ← get_next tmp;
  match nx with
  | None => mret (inr (tmp, sw))
  | Some _ =>
      l1 ← node_level tmp;
      l2 ← node_level nx;
      p1 ← node_path tmp;
      p2 ← node_path nx;
      if decide (l1 = l2 ∧ 0 < strcmp p1 p2)%Z
      then swap tmp nx;; nx' ← get_next tmp; mret (inl (nx', true))
      else nx' ← get_next tmp; mret (inl (nx', sw))
  end.

Definition sort_outer (fuel : nat) (list tmp : ptr) : C (ptr + unit) :=
  nx ← get_next tmp;
  match nx with
  | None => mret (inr tt)
  | Some _ =>
      r ← loop (St:=heap (block P H X)) (R:=ptr * bool) fuel sort_inner (tmp, false);
      if r.2 : bool then hd ← get_head list; mret (inl hd) else mret (inl r.1)
  end.

(** [node_swap(tmp, list)] / [SortHelper(curNode, list)], which return 0. *)
Definition sort_loop (tmp list : ptr) : C Z :=
  n ← live;
  loop (S (S (n * n))) (sort_outer n list) tmp;;
  mret 0%Z.

(** What an exchange must do. [Q] is what the sort may assume of all values. *)
Context (Q : V → Prop).
Definition swap_spec : Prop :=
  ∀ h hp hx es1 a b es2 R,
    dlown h hp hx (es1 ++ a :: b :: es2) R →
    lev (e_val a) = lev (e_val b) → Q (e_val a) → Q (e_val b) →
    ∃ h' a' b',
      swap (Some (e_loc a)) (Some (e_loc b)) h = Ok (tt, h') ∧
      dlown h' hp hx (es1 ++ a' :: b' :: es2) R ∧
      e_loc a' = e_loc a ∧ e_loc b' = e_loc b ∧
      e_val a' = e_val b ∧ e_val b' = e_val a.
Context (swap_ok : swap_spec).

Abbreviation gtb := (path_gtb lev pth).
Abbreviation evals := (fmap (M:=list) (B:=V) (@e_val P V)).

Lemma dlown_value h hp hx es R e :
  dlown h hp hx es R → e ∈ es → value_at (cells h) (e_dat e) (e_val e) (e_fp e).
Proof. intros Ho. eapply dlrep_value, Ho. Qed.

Lemma dlown_lookup h hp hx es1 e es2 R :
  dlown h hp hx (es1 ++ e :: es2) R →
  cells h !! e_loc e = Some (Node (hd_ptr es2 None) (last_ptr es1 None) (e_dat e)).
Proof. intros Ho. eapply dlrep_lookup, Ho. Qed.

Lemma inner_ok fuel h hp hx es1 a rest R sw :
  dlown h hp hx (es1 ++ a :: rest) R →
  Forall Q (evals (a :: rest)) → length rest < fuel →
  ∃ h' pre t,
    loop fuel sort_inner (Some (e_loc a), sw) h =
      Ok ((Some (e_loc t), sw || (pass gtb (e_val a) (evals rest)).2), h') ∧
    dlown h' hp hx (es1 ++ pre ++ [t]) R ∧
    evals (pre ++ [t]) = (pass gtb (e_val a) (evals rest)).1.
Proof using swap_ok.
  revert h es1 a rest sw. induction fuel as [|fuel IH]; intros h es1 a rest sw Ho HQ Hf; [lia|].
  pose proof (dlown_lookup _ _ _ _ _ _ _ Ho) as Ha.
  destruct rest as [|b rest]; simpl in Ha.
  { exists h, [], a. split; [|done]. rewrite orb_false_r.
    apply loop_done. unfold sort_inner. by mstep. }
  pose proof (dlown_value _ _ _ _ _ a Ho ltac:(apply elem_of_app; right; left)) as Hva.
  pose proof (dlown_value _ _ _ _ _ b Ho
    ltac:(apply elem_of_app; right; right; left)) as Hvb.
  assert (Hb : cells h !! e_loc b =
               Some (Node (hd_ptr rest None) (Some (e_loc a)) (e_dat b))).
  { rewrite cons_middle, app_assoc in Ho. apply dlown_lookup in Ho.
    by rewrite last_ptr_snoc in Ho. }
  rewrite !fmap_cons in HQ. pose proof HQ as [HQa [HQb HQr]%Forall_cons]%Forall_cons.
  rewrite fmap_cons. cbn [pass]. destruct (gtb (e_val a) (e_val b)) eqn:Hg.
  - pose proof (path_gtb_lev _ _ _ _ Hg) as Hlev.
    destruct (swap_ok h hp hx es1 a b rest R Ho Hlev HQa HQb)
      as (h1 & a' & b' & Hsw & Ho1 & La & Lb & Va & Vb).
    rewrite cons_middle, app_assoc in Ho1.
    assert (Ha1 : cells h1 !! e_loc a = Some (Node (Some (e_loc b')) (last_ptr es1 None) (e_dat a'))).
    { rewrite <- La. rewrite <- app_assoc in Ho1. apply dlown_lookup in Ho1. done. }
    destruct (IH h1 (es1 ++ [a']) b' rest true) as (h' & pre & t & Hl & Ho' & He);
      [done|rewrite fmap_cons, Vb; by constructor|simpl in Hf; lia|].
    exists h', (a' :: pre), t. split; [|split].
    + erewrite loop_step.
      2:{ unfold sort_inner. do 5 mstep. rewrite decide_True; [by do 2 mstep|].
          unfold path_gtb in Hg. by rewrite andb_true_iff, !bool_decide_eq_true in Hg. }
      rewrite Hl, Vb. simpl. by rewrite orb_true_r.
    + by rewrite <- app_assoc in Ho'.
    + simpl. rewrite fmap_app in He |- *. by rewrite <- Vb, <- He, Va.
  - rewrite cons_middle, app_assoc in Ho.
    destruct (IH h (es1 ++ [a]) b rest sw) as (h' & pre & t & Hl & Ho' & He);
      [done|by constructor|simpl in Hf; lia|].
    exists h', (a :: pre), t. split; [|split].
    + erewrite loop_step.
      2:{ unfold sort_inner. do 5 mstep. rewrite decide_False; [by mstep|].
          unfold path_gtb in Hg. rewrite andb_false_iff, !bool_decide_eq_false in Hg. tauto. }
      by rewrite Hl.
    + by rewrite <- app_assoc in Ho'.
    + simpl. rewrite fmap_app in He |- *. by rewrite <- He.
Qed.

Lemma scan_evals a rest : scan gtb (evals (a :: rest)) = pass gtb (e_val a) (evals rest).
Proof. done. Qed.

Lemma outer_ok fuel n h hp hx es R vs :
  dlown h hp hx es R → Forall Q (evals es) → es ≠ [] → length es ≤ n →
  bubble gtb fuel (evals es) = Some vs →
  ∃ h' es',
    loop (S fuel) (sort_outer n (Some hp)) (hd_ptr es None) h = Ok (tt, h') ∧
    dlown h' hp hx es' R ∧ evals es' = vs.
Proof using swap_ok.
  revert h es. induction fuel as [|fuel IH]; intros h es Ho HQ Hne Hn Hb; [done|].
  destruct es as [|a rest]; [done|]. simpl hd_ptr.
  pose proof (dlown_lookup _ _ _ [] _ _ _ Ho) as Ha.
  cbn [bubble] in Hb. rewrite scan_evals in Hb.
  destruct rest as [|b rest].
  { injection Hb as <-. exists h, [a]. split; [|done].
    apply loop_done. unfold sort_outer. by mstep. }
  destruct (inner_ok n h hp hx [] a (b :: rest) R false Ho HQ) as (h1 & pre & t & Hl & Ho1 & He).
  { simpl in Hn |- *. lia. }
  simpl in Ha. simpl app in Ho1.
  assert (Hlen : length (pre ++ [t]) = length (a :: b :: rest)).
  { rewrite <- (length_fmap e_val), He, pass_length. by rewrite !length_fmap. }
  assert (HQ1 : Forall Q (evals (pre ++ [t]))) by (by rewrite He, pass_perm).
  set (r := pass gtb (e_val a) (evals (b :: rest))) in *. clearbody r.
  destruct r as [vs' []]; simpl in Hl, He, Hb.
  - destruct (IH h1 (pre ++ [t])) as (h2 & es' & Hl2 & Ho2 & He2);
      [done|done|by destruct pre|by rewrite Hlen|by rewrite He|].
    exists h2, es'. split; [|done].
    pose proof (dl_hdr _ _ _ _ (do_rep _ _ _ _ _ Ho1)) as Hh1.
    erewrite loop_step; [exact Hl2|].
    unfold sort_outer. mstep. erewrite bind_Ok by exact Hl.
    cbv beta iota. cbn [snd]. by mstep.
  - injection Hb as <-. exists h1, (pre ++ [t]). split; [|done].
    pose proof (dlown_lookup _ _ _ _ _ _ _ Ho1) as Ht.
    erewrite loop_step.
    2:{ unfold sort_outer. mstep. erewrite bind_Ok by exact Hl. done. }
    simpl in Ht. apply loop_done. unfold sort_outer. by mstep.
Qed.

(** The sort ends, in a list in order by level and path that holds the same
    values; the rest of the memory is as before. *)
Lemma sort_loop_ok h hp hx es R :
  dlown h hp hx es R → Forall Q (evals es) → es ≠ [] →
  Sorted (key_le lev) (evals es) →
  ∃ h' es',
    sort_loop (hd_ptr es None) (Some hp) h = Ok (0%Z, h') ∧
    dlown h' hp hx es' R ∧
    evals es' ≡ₚ evals es ∧ StronglySorted (lp_le lev pth) (evals es').
Proof using swap_ok.
  intros Ho HQ Hne Hs. set (n := size (cells h)).
  assert (Hlen : length es < n) by (eapply dlrep_length, Ho).
  destruct (bubble_terminates gtb (path_gtb_asym lev pth) (S (n * n)) (evals es)) as [vs Hb].
  { pose proof (inversions_bound gtb (evals es)) as Hi. rewrite length_fmap in Hi. nia. }
  destruct (outer_ok (S (n * n)) n h hp hx es R vs) as (h' & es' & Hl & Ho' & <-);
    [done..|lia|done|].
  exists h', es'. split; [|split; [done|]].
  { unfold sort_loop. mstep. fold n. by erewrite bind_Ok by exact Hl. }
  split; [by eapply bubble_perm|].
  apply sorted_lp; [|by eapply bubble_sorted].
  pose proof (bubble_keys gtb lev _ _ _ (path_gtb_lev lev pth) Hb) as Hk.
  rewrite key_sorted, Hk. by rewrite <- key_sorted.
Qed.
End sort.

Abbreviation evals := (fmap (M:=list) (B:=V) (@e_val P V)).

(** ** The numbering loop *)
Section numbering.
(** The write of a node's number. *)
Context (write_num : ptr → Z → C unit) (setnum : V → Z → V).

(** The part the two loops share: [if (next->level == tmp->level)
    next->num = ++n; else n = 1;] and the step to the next node. *)
Definition number_one (tmp nx : ptr) (n : Z) : C (ptr * Z) :=
  l2 ← node_level nx;
  l1 ← node_level tmp;
  n' ← (if decide (l2 = l1) then write_num nx (n + 1)%Z;; mret (n + 1)%Z else mret 1%Z);
  tmp' ← get_next tmp;
  mret (tmp', n').

(** [sub_level]: it walks until the last node; [i] counts and is not used. *)
Definition sub_body (st : ptr * Z * Z) : C (ptr * Z * Z + unit) :=
  let '(tmp, n, i) := st in
  nx ← get_next tmp;
  match nx with
  | None => mret (inr tt)
  | Some _ =>
      r ← number_one tmp nx n;
      mret (inl (r.1, r.2, (i + 1)%Z))
  end.

Definition sub_level_loop (list : ptr) : C unit :=
  fuel ← live;
  hd ← get_head list;
  loop fuel sub_body (hd, 1%Z, 0%Z).

(** [NumberChildren]: it counts up to the size that the header keeps. *)
Definition children_body (size_of : H → Z) (list : ptr) (st : ptr * Z * Z) :
    C (ptr * Z * Z + unit) :=
  let '(cur, inum, i) := st in
  hd ← load_hdr list;
  if decide (i < size_of hd.2 - 1)%Z then
    nx ← get_next cur;
    r ← number_one cur nx inum;
    mret (inl (r.1, r.2, (i + 1)%Z))
  else mret (inr tt).

Definition number_children_loop (size_of : H → Z) (list : ptr) : C unit :=
  fuel ← live;
  hd ← get_head list;
  loop fuel (children_body size_of list) (hd, 1%Z, 0%Z).

Definition write_num_spec : Prop :=
  ∀ h hp hx es1 a es2 R n,
    dlown h hp hx (es1 ++ a :: es2) R →
    ∃ h' a', write_num (Some (e_loc a)) n h = Ok (tt, h') ∧
      dlown h' hp hx (es1 ++ a' :: es2) R ∧
      e_loc a' = e_loc a ∧ e_val a' = setnum (e_val a) n.
Context (write_num_ok : write_num_spec).
Context (lev_setnum : ∀ v n, lev (setnum v n) = lev v).

(** One step over two neighbours, shared by the two loops. *)
Lemma number_step h hp hx es1 a b rest R n :
  dlown h hp hx (es1 ++ a :: b :: rest) R →
  ∃ h' b' n',
    number_one (Some (e_loc a)) (Some (e_loc b)) n h = Ok ((Some (e_loc b'), n'), h') ∧
    dlown h' hp hx ((es1 ++ [a]) ++ b' :: rest) R ∧
    number_from lev setnum n (e_val a) (evals (b :: rest)) =
      e_val a :: number_from lev setnum n' (e_val b') (evals rest).
Proof using write_num_ok lev_setnum.
  intros Ho.
  pose proof (dlown_lookup _ _ _ _ _ _ _ Ho) as Ha.
  pose proof (dlown_value _ _ _ _ _ a Ho ltac:(apply elem_of_app; right; left)) as Hva.
  pose proof (dlown_value _ _ _ _ _ b Ho
    ltac:(apply elem_of_app; right; right; left)) as Hvb.
  rewrite cons_middle, app_assoc in Ho.
  pose proof (dlown_lookup _ _ _ _ _ _ _ Ho) as Hb. simpl in Ha.
  rewrite fmap_cons. cbn [number_from].
  destruct (decide (lev (e_val b) = lev (e_val a))) as [E|E].
  - destruct (write_num_ok _ _ _ _ _ _ _ (n + 1)%Z Ho) as (h' & b' & Hw & Ho' & Lb & Vb).
    exists h', b', (n + 1)%Z. split; [|split; [done|]].
    + unfold number_one. do 2 mstep. rewrite decide_True by done. rewrite bind_assoc.
      erewrite bind_Ok by exact Hw. cbv beta. cbn [mret M_ret].
      pose proof Ho' as Ho2. rewrite <- app_assoc in Ho2. apply dlown_lookup in Ho2.
      erewrite bind_Ok by done. cbv beta iota. simpl in Ho2. by mstep.
    + by rewrite Vb.
  - exists h, b, 1%Z. split; [|done].
    unfold number_one. do 2 mstep. rewrite decide_False by done. erewrite bind_Ok by done. cbv beta. by mstep.
Qed.

Lemma sub_loop_ok fuel h hp hx es1 a rest R n i :
  dlown h hp hx (es1 ++ a :: rest) R → length rest < fuel →
  ∃ h' es',
    loop fuel sub_body (Some (e_loc a), n, i) h = Ok (tt, h') ∧
    dlown h' hp hx (es1 ++ es') R ∧
    evals es' = number_from lev setnum n (e_val a) (evals rest).
Proof using write_num_ok lev_setnum.
  revert fuel h es1 a n i. induction rest as [|b rest IH]; intros fuel h es1 a n i Ho Hf;
    (destruct fuel as [|fuel]; [simpl in Hf; lia|]);
    pose proof (dlown_lookup _ _ _ _ _ _ _ Ho) as Ha; simpl in Ha.
  - exists h, [a]. split; [|done]. apply loop_done. unfold sub_body. by mstep.
  - destruct (number_step h hp hx es1 a b rest R n Ho) as (h1 & b' & n' & H1 & Ho1 & E).
    destruct (IH fuel h1 (es1 ++ [a]) b' n' (i + 1)%Z Ho1) as (h' & es' & Hl & Ho' & He);
      [simpl in Hf; lia|].
    exists h', (a :: es'). split; [|split].
    + erewrite loop_step; [exact Hl|]. unfold sub_body. mstep. by erewrite bind_Ok by exact H1.
    + by rewrite <- app_assoc in Ho'.
    + by rewrite E, fmap_cons, He.
Qed.

(** [sub_level] ends and numbers the nodes as [number] does. *)
Lemma sub_level_ok h hp hx es R :
  dlown h hp hx es R → es ≠ [] →
  ∃ h' es', sub_level_loop (Some hp) h = Ok (tt, h') ∧
    dlown h' hp hx es' R ∧ evals es' = number lev setnum (evals es).
Proof using write_num_ok lev_setnum.
  intros Ho Hne. destruct es as [|a rest]; [done|].
  pose proof (dl_hdr _ _ _ _ (do_rep _ _ _ _ _ Ho)) as Hh.
  pose proof (dlrep_length _ _ _ _ (do_rep _ _ _ _ _ Ho)) as Hlen.
  destruct (sub_loop_ok (size (cells h)) h hp hx [] a rest R 1 0 Ho)
    as (h' & es' & Hl & Ho' & He); [simpl in Hlen; lia|].
  exists h', es'. split; [|done]. unfold sub_level_loop. by do 2 mstep.
Qed.

Lemma children_loop_ok size_of fuel h hp hx es1 a rest R n :
  dlown h hp hx (es1 ++ a :: rest) R → length rest < fuel →
  size_of hx = Z.of_nat (length (es1 ++ a :: rest)) →
  ∃ h' es',
    loop fuel (children_body size_of (Some hp)) (Some (e_loc a), n, Z.of_nat (length es1)) h
      = Ok (tt, h') ∧
    dlown h' hp hx (es1 ++ es') R ∧
    evals es' = number_from lev setnum n (e_val a) (evals rest).
Proof using write_num_ok lev_setnum.
  revert fuel h es1 a n. induction rest as [|b rest IH]; intros fuel h es1 a n Ho Hf Hsz;
    (destruct fuel as [|fuel]; [simpl in Hf; lia|]);
    pose proof (dlown_lookup _ _ _ _ _ _ _ Ho) as Ha; simpl in Ha;
    pose proof (dl_hdr _ _ _ _ (do_rep _ _ _ _ _ Ho)) as Hh;
    rewrite length_app in Hsz; simpl in Hsz.
  - exists h, [a]. split; [|done]. apply loop_done. unfold children_body. mstep.
    cbn [snd]. by rewrite decide_False by lia.
  - destruct (number_step h hp hx es1 a b rest R n Ho) as (h1 & b' & n' & H1 & Ho1 & E).
    destruct (IH fuel h1 (es1 ++ [a]) b' n' Ho1) as (h' & es' & Hl & Ho' & He);
      [simpl in Hf; lia|rewrite !length_app; simpl; lia|].
    exists h', (a :: es'). split; [|split].
    + rewrite length_app, Nat2Z.inj_add in Hl. erewrite loop_step; [exact Hl|].
      unfold children_body. mstep. cbn [snd]. rewrite decide_True by lia. mstep.
      by erewrite bind_Ok by exact H1.
    + by rewrite <- app_assoc in Ho'.
    + by rewrite E, fmap_cons, He.
Qed.

(** [NumberChildren] does the same when the header's size is right. *)
Lemma number_children_ok size_of h hp hx es R :
  dlown h hp hx es R → es ≠ [] → size_of hx = Z.of_nat (length es) →
  ∃ h' es', number_children_loop size_of (Some hp) h = Ok (tt, h') ∧
    dlown h' hp hx es' R ∧ evals es' = number lev setnum (evals es).
Proof using write_num_ok lev_setnum.
  intros Ho Hne Hsz. destruct es as [|a rest]; [done|].
  pose proof (dl_hdr _ _ _ _ (do_rep _ _ _ _ _ Ho)) as Hh.
  pose proof (dlrep_length _ _ _ _ (do_rep _ _ _ _ _ Ho)) as Hlen.
  destruct (children_loop_ok size_of (size (cells h)) h hp hx [] a rest R 1 Ho)
    as (h' & es' & Hl & Ho' & He); [simpl in Hlen; lia|done|].
  exists h', es'. split; [|done]. unfold number_children_loop. by do 2 mstep.
Qed.
End numbering.

(** ** Printing *)
Section printing.
(** The line printed for a node. *)
Context (line : ptr → C bytes) (fmt : V → bytes).
Context (Q : V → Prop).
Context (line_ok : ∀ h l n r d v fp,
  cells h !! l = Some (Node n r d) → value_at (cells h) d v fp → Q v →
  line (Some l) h = Ok (fmt v, h)).

Definition print_body (st : ptr * bytes) : C (ptr * bytes + bytes) :=
  let '(p, out) := st in
  match p with
  | None => mret (inr out)
  | Some _ => s ← line p; nx ← get_next p; mret (inl (nx, out ++ s))
  end.

(** [while (ptr != NULL) { fprintf(...); ptr = ptr->next; }]: the text written. *)
Definition print_loop (list : ptr) : C bytes :=
  fuel ← live;
  hd ← get_head list;
  loop (S fuel) print_body (hd, []).

Lemma print_loop_from fuel h hp hx es1 es R out :
  dlown h hp hx (es1 ++ es) R → Forall Q (evals es) → length es < fuel →
  loop fuel print_body (hd_ptr es None, out) h = Ok (out ++ mjoin (fmt <$> evals es), h).
Proof using line_ok.
  revert fuel es1 out. induction es as [|e es IH]; intros fuel es1 out Ho HQ Hf;
    (destruct fuel as [|fuel]; [simpl in Hf; lia|]).
  - apply loop_done. simpl. by rewrite app_nil_r.
  - pose proof (dlown_lookup _ _ _ _ _ _ _ Ho) as He.
    pose proof (dlown_value _ _ _ _ _ e Ho ltac:(apply elem_of_app; right; left)) as Hv.
    rewrite fmap_cons in HQ. apply Forall_cons in HQ as [HQe HQ].
    erewrite loop_step.
    2:{ simpl. erewrite bind_Ok by (by eapply line_ok). by mstep. }
    rewrite cons_middle, app_assoc in Ho. erewrite IH by (done || simpl in Hf; lia).
    simpl. by rewrite app_assoc.
Qed.

Lemma print_loop_ok h hp hx es R :
  dlown h hp hx es R → Forall Q (evals es) →
  print_loop (Some hp) h = Ok (mjoin (fmt <$> evals es), h).
Proof using line_ok.
  intros Ho HQ. unfold print_loop.
  pose proof (dl_hdr _ _ _ _ (do_rep _ _ _ _ _ Ho)) as Hh.
  pose proof (dlrep_length _ _ _ _ (do_rep _ _ _ _ _ Ho)) as Hlen.
  do 2 mstep. by rewrite (print_loop_from _ h hp hx [] es R) by (done || lia).
Qed.
End printing.

(** ** Destruction *)
Section destroying.
(** [free] of what a node owns besides itself. *)
Context (free_parts : ptr → C unit).
Definition free_parts_spec : Prop :=
  ∀ h l n r d v fp,
    cells h !! l = Some (Node n r d) → value_at (cells h) d v fp → NoDup (l :: fp) →
    free_parts (Some l) h = Ok (tt, Heap (outside (cells h) fp) (budget h)).
Context (free_parts_ok : free_parts_spec).

Definition destroy_body (p : ptr) : C (ptr + unit) :=
  match p with
  | None => mret (inr tt)
  | Some _ => free_parts p;; nx ← get_next p; free p;; mret (inl nx)
  end.

(** [while (ptr) { free parts; tmp = ptr; ptr = ptr->next; free(tmp); } free(list);] *)
Definition destroy_loop (list : ptr) : C unit :=
  fuel ← live;
  hd ← get_head list;
  loop (S fuel) destroy_body hd;;
  free list.

Lemma destroy_from fuel h hp es prv :
  seg (cells h) prv es None → vals (cells h) es → NoDup (own_locs hp es) →
  length es < fuel →
  loop fuel destroy_body (hd_ptr es None) h =
    Ok (tt, Heap (outside (cells h) (es ≫= foot)) (budget h)).
Proof using free_parts_ok.
  revert fuel h prv. induction es as [|e es IH]; intros fuel h prv Hs Hv Hn Hf;
    (destruct fuel as [|fuel]; [simpl in Hf; lia|]).
  { apply loop_done. simpl. rewrite outside_nil. by destruct h. }
  destruct Hs as [He Hs]. apply Forall_cons in Hv as [Hve Hv]. unfold own_locs in Hn.
  rewrite bind_cons in Hn. apply NoDup_cons in Hn as [Hhp Hn].
  apply NoDup_app in Hn as (Hn1 & Hn2 & Hn3).
  set (h1 := Heap (outside (cells h) (e_fp e)) (budget h)).
  assert (He1 : cells h1 !! e_loc e = Some (Node (hd_ptr es None) prv (e_dat e))).
  { simpl. rewrite lookup_outside, decide_False; [done|].
    unfold foot in Hn1. by apply NoDup_cons in Hn1 as [? _]. }
  set (h2 := hdel (e_loc e) h1).
  assert (Hsame : ∀ l, l ∉ foot e → cells h2 !! l = cells h !! l).
  { intros l Hl. unfold foot in Hl. apply not_elem_of_cons in Hl as [? Hl]. simpl.
    rewrite lookup_delete_ne by done. by rewrite lookup_outside, decide_False by done. }
  assert (Hstep : destroy_body (Some (e_loc e)) h = Ok (inl (hd_ptr es None), h2)).
  { simpl. erewrite bind_Ok by (by eapply free_parts_ok). cbv beta iota. by do 2 mstep. }
  simpl hd_ptr. rewrite (loop_step _ _ _ _ _ _ Hstep). erewrite (IH fuel h2 (Some (e_loc e))).
  - f_equal. f_equal. f_equal. apply map_eq. intros l. rewrite bind_cons, !lookup_outside.
    destruct (decide (l ∈ foot e)) as [Hin|Hin].
    + rewrite (decide_True (P:=l ∈ foot e ++ _)) by (apply elem_of_app; by left).
      case_decide; [done|]. unfold foot in Hin. simpl.
      destruct (decide (l = e_loc e)) as [->|]; [by rewrite lookup_delete_eq|].
      rewrite lookup_delete_ne by done. rewrite lookup_outside, decide_True; [done|].
      by apply elem_of_cons in Hin as [->|].
    + rewrite Hsame by done. repeat case_decide; set_solver.
  - eapply seg_frame; [done|]. intros x Hx. apply Hsame. intros Hin.
    apply (Hn2 _ Hin). apply foot_locs. by apply list_elem_of_fmap_2.
  - eapply vals_frame; [done|]. intros l Hl. apply Hsame. intros Hin.
    apply (Hn2 _ Hin). by apply foot_parts.
  - constructor; [|done]. intros Hin. apply Hhp. apply elem_of_app. by right.
  - simpl in Hf. lia.
Qed.

(** Destroying a list frees exactly the list. *)
Lemma destroy_loop_ok h hp hx es R :
  dlown h hp hx es R →
  destroy_loop (Some hp) h = Ok (tt, Heap R None).
Proof using free_parts_ok.
  intros [[Hh Hs Hv Hn] Hr Hb]. unfold destroy_loop.
  assert (Hlen : length es < size (cells h)).
  { by apply (dlrep_length (cells h) hp hx). }
  do 2 mstep. erewrite bind_Ok by (eapply destroy_from; [done|done|done|lia]).
  cbv beta. unfold free. simpl.
  rewrite lookup_outside, decide_False, Hh by (by apply NoDup_cons in Hn as [? _]).
  rewrite Hb. f_equal. f_equal. unfold hdel. simpl. f_equal.
  rewrite <- Hr. apply map_eq. intros l. rewrite lookup_delete, !lookup_outside.
  unfold own_locs. repeat case_decide; set_solver.
Qed.
End destroying.
End loops.
