(* ===== verification/Threads.v ===== *)
(** * Threads under an arbitrary schedule

    The state of a process with worker threads that each run one function on one
    argument.  A schedule says, for every point where the main thread can be
    preempted, which threads then run to their end. *)

From stdpp Require Import base list gmap.
From S2P Require Import Prelude CMem.

(** Memory, the threads that have been created and not finished (identifier and
    argument), the next identifier, and what the scheduler will do. *)
Record proc (B : Type) := Proc {
  p_heap : heap B;
  p_pending : list (nat * ptr);
  p_next : nat;
  p_sched : list (list nat);
}.
Arguments Proc {_} _ _ _ _.
Arguments p_heap {_} _.
Arguments p_pending {_} _.
Arguments p_next {_} _.
Arguments p_sched {_} _.

Section threads.
Context {B : Type}.
Abbreviation C := (M (heap B)).
Abbreviation T := (M (proc B)).

(** A step of the main thread on memory. *)
Definition on_heap {A} (m : C A) : T A := λ s,
  match m (p_heap s) with
  | Ok (a, h) => Ok (a, Proc h (p_pending s) (p_next s) (p_sched s))
  | Ub u => Ub u
  | Exits c => Exits c
  | NoFuel => NoFuel
  end.

Lemma on_heap_ok {A} (m : C A) s a h :
  m (p_heap s) = Ok (a, h) → on_heap m s = Ok (a, Proc h (p_pending s) (p_next s) (p_sched s)).
Proof. intros E. unfold on_heap. by rewrite E. Qed.

(** The function that the threads run. *)
Context (start_routine : ptr → C unit).

(** A thread that has not finished runs. *)
Definition run_thread (tid : nat) : T unit := λ s,
  match list_find (λ t, t.1 = tid) (p_pending s) with
  | None => Ok (tt, s)
  | Some (_, (_, arg)) =>
      on_heap (start_routine arg)
        (Proc (p_heap s) (filter (λ t, t.1 ≠ tid) (p_pending s)) (p_next s) (p_sched s))
  end.

(** The scheduler's turn. *)
Definition yield : T unit := λ s,
  match p_sched s with
  | [] => Ok (tt, s)
  | ts :: rest => for_each run_thread ts (Proc (p_heap s) (p_pending s) (p_next s) rest)
  end.

(** [pthread_create(&tid, &attr, start_routine, arg)] gives the identifier. *)
Definition pthread_create (arg : ptr) : T nat := λ s,
  Ok (p_next s, Proc (p_heap s) (p_pending s ++ [(p_next s, arg)]) (S (p_next s)) (p_sched s)).

(** [pthread_join(tid, NULL)] returns when the thread has finished. *)
Definition pthread_join (tid : nat) : T unit := run_thread tid.

(** ** What the threads keep *)

(** A property of the process that no thread destroys when it runs: what the proofs of a
    program show of its start routine, and what the scheduler and the joins rely on. *)
Class Steady (Inv : proc B → Prop) := {
  steady_ids s : Inv s → NoDup (p_pending s).*1;
  steady_sched h pend n sch sch' : Inv (Proc h pend n sch) → Inv (Proc h pend n sch');
  steady_start h pend1 tid arg pend2 n sch :
    Inv (Proc h (pend1 ++ (tid, arg) :: pend2) n sch) →
    ∃ h', start_routine arg h = Ok (tt, h') ∧ Inv (Proc h' (pend1 ++ pend2) n sch);
}.

Lemma forget_thread pend1 (tid : nat) (arg : ptr) pend2 :
  NoDup (pend1 ++ (tid, arg) :: pend2).*1 →
  filter (λ t, t.1 ≠ tid) (pend1 ++ (tid, arg) :: pend2) = pend1 ++ pend2.
Proof.
  rewrite fmap_app, fmap_cons. intros (_ & H1 & [H2 _]%NoDup_cons)%NoDup_app. cbn [fst] in *.
  rewrite filter_app, filter_cons_False by (simpl; tauto).
  rewrite !filter_all; [done|intros t Ht E..].
  - apply H2. rewrite <- E. by apply list_elem_of_fmap_2.
  - apply (H1 t.1); [by apply list_elem_of_fmap_2|]. rewrite E. left.
Qed.

Section steady.
Context {Inv : proc B → Prop} `{!Steady Inv}.

Lemma run_thread_keeps s tid :
  Inv s → ∃ s', run_thread tid s = Ok (tt, s') ∧ Inv s' ∧ p_next s' = p_next s ∧
    p_sched s' = p_sched s ∧ (∀ t, t ∈ p_pending s' ↔ t ∈ p_pending s ∧ t.1 ≠ tid).
Proof using Steady0.
  intros Hi. unfold run_thread. destruct s as [h pend n sch]. cbn [p_pending].
  destruct (list_find _ pend) as [[i [t arg]]|] eqn:Hf.
  - apply list_find_Some in Hf as (Hl & E & _). simpl in E. subst t.
    rewrite <- (take_drop_middle _ _ _ Hl) in Hi |- *. set (p1 := take i pend) in *. set (p2 := drop (S i) pend) in *.
    pose proof (steady_ids _ Hi) as Hnd. cbn [p_pending] in Hnd.
    destruct (steady_start _ _ _ _ _ _ _ Hi) as (h' & H1 & Hi').
    eexists. split; [apply on_heap_ok; exact H1|]. cbn [p_pending p_next p_sched].
    rewrite <- (forget_thread p1 tid arg p2 Hnd) in Hi'. split; [exact Hi'|]. split; [done|]. split; [done|].
    intros t. rewrite list_elem_of_filter. tauto.
  - eexists. split; [reflexivity|]. split; [done|]. split; [done|]. split; [done|]. intros t. cbn [p_pending].
    apply list_find_None in Hf. rewrite Forall_forall in Hf. split; [|tauto]. intros Ht. split; [done|by apply Hf].
Qed.

Lemma run_threads_keep ts s :
  Inv s → ∃ s', for_each run_thread ts s = Ok (tt, s') ∧ Inv s' ∧ p_next s' = p_next s ∧
    p_sched s' = p_sched s ∧ (∀ t, t ∈ p_pending s' ↔ t ∈ p_pending s ∧ t.1 ∉ ts).
Proof using Steady0.
  revert s. induction ts as [|tid ts IH]; intros s Hi.
  { exists s. split_and!; try done. intros t. rewrite elem_of_nil. tauto. }
  destruct (run_thread_keeps s tid Hi) as (s1 & H1 & Hi1 & Hn1 & Hc1 & Hp1).
  destruct (IH s1 Hi1) as (s' & H2 & Hi2 & Hn2 & Hc2 & Hp2).
  exists s'. split; [simpl; by erewrite bind_Ok by exact H1|]. split; [done|]. split; [congruence|].
  split; [congruence|]. intros t. rewrite Hp2, Hp1, not_elem_of_cons. tauto.
Qed.

(** What the schedule does at one point. *)
Lemma yield_keeps s :
  Inv s → ∃ s', yield s = Ok (tt, s') ∧ Inv s' ∧ p_next s' = p_next s ∧ p_sched s' = tail (p_sched s) ∧
    (∀ t, t ∈ p_pending s' ↔ t ∈ p_pending s ∧ t.1 ∉ default [] (head (p_sched s))).
Proof using Steady0.
  intros Hi. unfold yield. destruct s as [h pend n [|ts rest]].
  - eexists. split; [reflexivity|]. split_and!; try done. intros t. cbn. rewrite elem_of_nil. tauto.
  - exact (run_threads_keep ts (Proc h pend n rest) (steady_sched _ _ _ _ _ Hi)).
Qed.
End steady.

(** ** Whether the first thread runs in time *)

(** While threads are created, with the scheduler's turn after each: [sched0] is the schedule at
    the beginning. When the part that was used has the first thread, it has finished. *)
Definition in_time (sched0 : list (list nat)) (s : proc B) : Prop :=
  ∃ used, sched0 = used ++ p_sched s ∧ length used ≤ p_next s ∧
    (length used = p_next s ∨ p_sched s = []) ∧
    (0 ∈ mjoin used → ∀ t, t ∈ p_pending s → t.1 ≠ 0).

Lemma in_time_start s : p_next s = 0 → in_time (p_sched s) s.
Proof using.
  intros Hn. exists []. rewrite Hn. split_and!; [done|done|by left|]. by intros []%elem_of_nil.
Qed.

Lemma in_time_create sched0 (s : proc B) arg (s1 s' : proc B) :
  in_time sched0 s →
  p_next s1 = S (p_next s) → p_sched s1 = p_sched s → p_pending s1 = p_pending s ++ [(p_next s, arg)] →
  p_next s' = p_next s1 → p_sched s' = tail (p_sched s1) →
  (∀ t, t ∈ p_pending s' ↔ t ∈ p_pending s1 ∧ t.1 ∉ default [] (head (p_sched s1))) →
  in_time sched0 s'.
Proof using.
  intros (used & Hs0 & Hle & Hor & H0) En Ec Ep En' Ec' Hp'. rewrite Ec, Ep in *. unfold in_time.
  setoid_rewrite En'. setoid_rewrite En.
  destruct (p_sched s) as [|ts rest] eqn:Esch; simpl in Ec', Hp'.
  - exists used. rewrite Ec'. split; [done|]. split; [lia|]. split; [by right|].
    intros Hz t [[Ht|Ht]%elem_of_app _]%Hp'; [by apply H0|].
    apply list_elem_of_singleton in Ht as ->. simpl. intros E. rewrite E in Hle.
    destruct used; [by apply elem_of_nil in Hz|simpl in Hle; lia].
  - assert (length used = p_next s) as Hu by by destruct Hor.
    exists (used ++ [ts]). rewrite Ec', length_app. simpl.
    split; [by rewrite Hs0, <- app_assoc|]. split; [lia|]. split; [left; lia|].
    intros Hz t [Ht Hts]%Hp'. rewrite mjoin_app, mjoin_cons, app_nil_r in Hz.
    apply elem_of_app in Hz as [Hz|Hz]; [|by intros E; rewrite E in Hts].
    apply elem_of_app in Ht as [Ht|Ht]; [by apply H0|].
    apply list_elem_of_singleton in Ht as ->. simpl. intros E. rewrite E in Hu.
    by destruct used; [apply elem_of_nil in Hz|].
Qed.

Lemma in_time_first sched0 s :
  in_time sched0 s → 0 ∈ mjoin (take (p_next s) sched0) → ∀ t, t ∈ p_pending s → t.1 ≠ 0.
Proof using.
  intros (used & -> & Hle & Hor & H0) Hin. apply H0. destruct Hor as [Hu|Hnil].
  - by rewrite <- Hu, take_app_length in Hin.
  - rewrite Hnil, app_nil_r, firstn_all2 in Hin by lia. done.
Qed.

(** With nothing pending the other threads do nothing. *)
Lemma yield_idle s :
  p_pending s = [] → yield s = Ok (tt, Proc (p_heap s) [] (p_next s) (tail (p_sched s))).
Proof.
  intros Hp. unfold yield. destruct s as [h pend n [|ts rest]]; simpl in *; subst; [done|].
  induction ts as [|t ts IH]; [done|]. simpl. by erewrite bind_Ok by done.
Qed.

Lemma bind_idle {A D} (m : C A) (k : A → T D) s a h :
  p_pending s = [] → m (p_heap s) = Ok (a, h) →
  (yield;; x ← on_heap m; k x) s = k a (Proc h [] (p_next s) (tail (p_sched s))).
Proof.
  intros Hp Hm. erewrite bind_Ok by by apply yield_idle.
  erewrite bind_Ok by (unfold on_heap; cbn [p_heap]; by rewrite Hm). done.
Qed.

(** A process that starts: no threads, and memory that does not run out. *)
Definition starting (s : proc B) : Prop :=
  budget (p_heap s) = None ∧ p_pending s = [] ∧ p_next s = 0.
End threads.
