(* ===== verification/Objects.v ===== *)
(** * The objects beside the lists

    Strings, items, thread identifiers and global variables: the blocks of the
    directory programs that are neither list nodes nor list headers, and what
    happens to a list when such blocks come and go. *)

From stdpp Require Import base list gmap fin_maps strings.
From S2P Require Import Prelude CString CMem Dll.

(** [Str]: a string made by [strdup]. [Item]: the [struct Item] of the SDLL
    programs; a field without a value is not initialised. [TidNode], [TidList]:
    [struct Node_TID] and [struct LL]. [Int]: a global [int]. [Stream]: a stream
    that is written to, with the text so far. *)
Inductive aobj :=
  | Str (s : bytes)
  | Item (level num : Z) (count : option Z) (tid : option nat) (path : ptr)
  | TidNode (tid : nat) (next : ptr)
  | TidList (head tail : ptr) (size : Z)
  | Int (n : Z)
  | Stream (text : bytes).

Section objects.
Context {P H : Type}.
Abbreviation blk := (block P H aobj).
Abbreviation C := (M (heap blk)).
Implicit Types (h : heap blk) (R : gmap loc blk).

Definition strdup (s : bytes) : C ptr := malloc (Other (Str s)).

(** The string a [char *] points to. *)
Definition read_str (p : ptr) : C bytes :=
  b ← load p; match b with Other (Str s) => mret s | _ => fail_ub BadAccess end.

Lemma read_str_ok h l s :
  cells h !! l = Some (Other (Str s)) → read_str (Some l) h = Ok (s, h).
Proof. intros E. unfold read_str. by mstep. Qed.

(** A string that is made, used and freed leaves nothing behind. *)
Lemma strdup_free {A} h s (use : ptr → C A) a :
  budget h = None →
  (∀ l h', cells h' !! l = Some (Other (Str s)) → use (Some l) h' = Ok (a, h')) →
  (p ← strdup s; r ← use p; free p;; mret r) h = Ok (a, h).
Proof.
  intros Hb Hu. unfold strdup. mstep. pose proof (fresh_loc_fresh h) as Hf.
  erewrite bind_Ok by (apply Hu; simpl; by rewrite lookup_insert_eq). cbv beta.
  erewrite bind_Ok by (eapply free_ok; simpl; by rewrite lookup_insert_eq). cbv beta.
  unfold hdel. simpl. rewrite delete_insert_id by done. by destruct h.
Qed.

(** A global counter. *)
Definition read_int (p : ptr) : C Z :=
  b ← load p; match b with Other (Int n) => mret n | _ => fail_ub BadAccess end.
Definition incr (p : ptr) : C unit := n ← read_int p; store p (Other (Int (n + 1))).

(** [x++] when other threads run between its load, which gives [v], and its store. *)
Definition incr_from (v : Z) (p : ptr) : C unit := _ ← read_int p; store p (Other (Int (v + 1))).

Lemma read_int_ok h l n : cells h !! l = Some (Other (Int n)) → read_int (Some l) h = Ok (n, h).
Proof. intros E. unfold read_int. by mstep. Qed.

Lemma incr_ok h l n :
  cells h !! l = Some (Other (Int n)) →
  incr (Some l) h = Ok (tt, hset l (Other (Int (n + 1))) h).
Proof. intros E. unfold incr. mstep by read_int_ok. by eapply store_ok. Qed.

Lemma incr_from_ok h l n v :
  cells h !! l = Some (Other (Int n)) →
  incr_from v (Some l) h = Ok (tt, hset l (Other (Int (v + 1))) h).
Proof. intros E. unfold incr_from. mstep by read_int_ok. by eapply store_ok. Qed.

(** [printf]: the text goes to a stream. *)
Definition read_stream (p : ptr) : C bytes :=
  b ← load p; match b with Other (Stream t) => mret t | _ => fail_ub BadAccess end.
Definition fputs (p : ptr) (s : bytes) : C unit := t ← read_stream p; store p (Other (Stream (t ++ s))).

Lemma read_stream_ok h l t :
  cells h !! l = Some (Other (Stream t)) → read_stream (Some l) h = Ok (t, h).
Proof. intros E. unfold read_stream. by mstep. Qed.

(** [R'] is [R] and [n] more blocks that nothing refers to. *)
Definition leaked (n : nat) R R' : Prop := R ⊆ R' ∧ size R' = size R + n.

Lemma leaked_0 R : leaked 0 R R.
Proof. split; [done|lia]. Qed.

Lemma leaked_insert n R R' l b : leaked n R R' → R' !! l = None → leaked (S n) R (<[l:=b]> R').
Proof.
  intros [Hs Hn] Hl. split; [etrans; [done|by apply insert_subseteq]|].
  rewrite map_size_insert_None by done. lia.
Qed.

Lemma leaked_trans n n' R R' R'' : leaked n R R' → leaked n' R' R'' → leaked (n + n') R R''.
Proof. intros [? ?] [? ?]. split; [by etrans|lia]. Qed.

Lemma leaked_0_eq R R' : leaked 0 R R' → R' = R.
Proof. intros [Hs Hn]. symmetry. apply map_subseteq_size_eq; [done|lia]. Qed.

(** One block that was there before is freed, or is counted with the rest. *)
Lemma leaked_delete n R R' l b : leaked n R R' → R !! l = Some b → leaked n (delete l R) (delete l R').
Proof.
  intros [Hs Hn] Hl. split; [by apply delete_mono|].
  pose proof (lookup_weaken _ _ _ _ Hl Hs) as Hl'.
  rewrite !map_size_delete, Hl, Hl'. simpl.
  assert (size R ≠ 0) by (intros E%map_size_empty_inv; by rewrite E in Hl). lia.
Qed.

Lemma leaked_uninsert n R R' l b : leaked n (<[l:=b]> R) R' → R !! l = None → leaked (S n) R R'.
Proof.
  intros [Hs Hn] Hl. rewrite map_size_insert_None in Hn by done.
  split; [|lia]. etrans; [|exact Hs]. by apply insert_subseteq.
Qed.

Lemma outside_cons R l ls : outside R (l :: ls) = delete l (outside R ls).
Proof.
  apply map_eq. intros x. rewrite lookup_delete, !lookup_outside.
  repeat case_decide; try done; set_solver.
Qed.

Lemma outside_delete R l ls : outside (delete l R) ls = outside R (l :: ls).
Proof.
  apply map_eq. intros x. rewrite !lookup_outside, lookup_delete.
  repeat case_decide; try done; set_solver.
Qed.

Lemma leaked_outside n R R' ls :
  leaked n R R' → NoDup ls → Forall (λ l, is_Some (R !! l)) ls → leaked n (outside R ls) (outside R' ls).
Proof.
  intros Hl. induction ls as [|l ls IH]; [by rewrite !outside_nil|].
  intros [Hn Hnd]%NoDup_cons [[b Hb] Hls]%Forall_cons. rewrite !outside_cons.
  eapply leaked_delete; [by apply IH|]. by rewrite lookup_outside, decide_False by done.
Qed.

Lemma strings_stay (l : loc) (x : blk) n R R' : R !! l = Some x → leaked n R R' → R' !! l = Some x.
Proof. intros Hl [Hs _]. by eapply lookup_weaken. Qed.

Context {V : Type} `{!NodeData P H aobj V}.

Lemma dlown_rest h hp hx es R l x :
  dlown h hp hx es R → R !! l = Some x → cells h !! l = Some (x : blk).
Proof. intros [_ <- _]. rewrite lookup_outside. by case_decide. Qed.

Lemma dlown_rest_sub h hp hx es R : dlown h hp hx es R → R ⊆ cells h.
Proof. intros Ho. apply map_subseteq_spec. intros l x. by apply (dlown_rest _ _ _ _ _ _ _ Ho). Qed.

(** A block next to the list joins or leaves the rest of the memory. *)
Lemma dlown_malloc h hp hx es R b :
  dlown h hp hx es R →
  ∃ h' l, malloc b h = Ok (Some l, h') ∧ R !! l = None ∧ cells h' !! l = Some b ∧
    dlown h' hp hx es (<[l:=b]> R).
Proof.
  intros [Hd HR Hb]. pose proof (fresh_loc_fresh h) as Hf. set (l := fresh_loc h) in *.
  assert (Hout : ∀ x, x ∈ own_locs hp es → x ≠ l).
  { intros x Hx ->. by eapply dlrep_live. }
  exists (hset l b h), l. split; [by apply malloc_ok|].
  split; [rewrite <- HR, lookup_outside; by case_decide|].
  split; [simpl; by rewrite lookup_insert_eq|].
  constructor; simpl; [| |done].
  - eapply dlrep_frame; [done|]. intros x Hx. rewrite lookup_insert_ne; [done|].
    intros <-. by eapply Hout.
  - rewrite <- HR. apply map_eq. intros x. rewrite lookup_outside, !lookup_insert, lookup_outside.
    repeat case_decide; subst; try done. exfalso. by eapply Hout.
Qed.

Lemma dlown_free h hp hx es R l b :
  dlown h hp hx es R → R !! l = Some b →
  ∃ h', free (Some l) h = Ok (tt, h') ∧ dlown h' hp hx es (delete l R).
Proof.
  intros [Hd HR Hb] Hl. rewrite <- HR, lookup_outside in Hl. case_decide as Hout; [done|].
  exists (hdel l h). split; [by eapply free_ok|]. constructor; simpl; [| |done].
  - eapply dlrep_frame; [done|]. intros x Hx. rewrite lookup_delete_ne; [done|]. by intros <-.
  - rewrite <- HR. apply map_eq. intros x. rewrite lookup_outside, !lookup_delete, lookup_outside.
    repeat case_decide; by subst.
Qed.

(** A block of the rest gets a new content. *)
Lemma dlown_store h hp hx es R l b b' :
  dlown h hp hx es R → R !! l = Some b →
  ∃ h', store (Some l) b' h = Ok (tt, h') ∧ dlown h' hp hx es (<[l:=b']> R) ∧
    h' = hset l b' h.
Proof.
  intros [Hd HR Hb] Hl. rewrite <- HR, lookup_outside in Hl. case_decide as Hout; [done|].
  exists (hset l b' h). split; [by eapply store_ok|]. split; [|done]. constructor; simpl; [| |done].
  - eapply dlrep_frame; [done|]. intros x Hx. rewrite lookup_insert_ne; [done|]. by intros <-.
  - rewrite <- HR. apply map_eq. intros x. rewrite lookup_outside, !lookup_insert, lookup_outside.
    repeat case_decide; by subst.
Qed.

Lemma fputs_ok h hp hx es R l t s :
  dlown h hp hx es R → R !! l = Some (Other (Stream t)) →
  ∃ h', fputs (Some l) s h = Ok (tt, h') ∧ dlown h' hp hx es (<[l:=Other (Stream (t ++ s))]> R).
Proof.
  intros Ho Hl. destruct (dlown_store h hp hx es R l _ (Other (Stream (t ++ s))) Ho Hl)
    as (h' & H1 & Ho' & _).
  exists h'. split; [|done]. unfold fputs.
  by erewrite bind_Ok by (apply read_stream_ok; by eapply dlown_rest).
Qed.

(** Two strings kept beside the list. *)
Lemma keep_strings h hp hx es R s1 s2 :
  dlown h hp hx es R →
  ∃ h' p1 p2 R',
    (a ← strdup s1; b ← strdup s2; mret (a, b)) h = Ok ((Some p1, Some p2), h') ∧
    dlown h' hp hx es R' ∧ leaked 2 R R' ∧
    R' !! p1 = Some (Other (Str s1) : blk) ∧ R' !! p2 = Some (Other (Str s2)).
Proof.
  intros Ho. destruct (dlown_malloc h hp hx es R (Other (Str s1)) Ho) as (h1 & p1 & H1 & HR1 & _ & Ho1).
  destruct (dlown_malloc h1 hp hx es _ (Other (Str s2)) Ho1) as (h2 & p2 & H2 & HR2 & _ & Ho2).
  eexists h2, p1, p2, _. split.
  { unfold strdup. erewrite bind_Ok by exact H1. cbv beta. by erewrite bind_Ok by exact H2. }
  split; [exact Ho2|]. split; [by do 2 (apply leaked_insert; [|done]); apply leaked_0|].
  apply lookup_insert_None in HR2 as [? ?]. by simplify_map_eq.
Qed.
End objects.
#[export] Hint Resolve read_str_ok read_int_ok incr_ok : crun.
