(* ===== verification/TidList.v ===== *)
(** * The list of thread identifiers

    [struct LL] of the two pardirlist.c that keep the identifiers of their
    threads in a list, and the loop that joins them. *)

From stdpp Require Import base list gmap fin_maps.
From S2P Require Import Prelude CMem Dll Objects Threads.

Section tids.
Context {P H : Type}.
Abbreviation blk := (block P H aobj).
Abbreviation C := (M (heap blk)).
Abbreviation T := (M (proc blk)).

(** [init_LinkedList] *)
Definition init_LinkedList : C ptr := malloc (Other (TidList None None 0)).

Definition load_tids (list : ptr) : C (ptr * ptr * Z) :=
  b ← load list;
  match b with Other (TidList hd tl n) => mret (hd, tl, n) | _ => fail_ub BadAccess end.

Definition load_tid (p : ptr) : C (nat * ptr) :=
  b ← load p;
  match b with Other (TidNode tid nx) => mret (tid, nx) | _ => fail_ub BadAccess end.

(** [addTID(list, tid)]: the new identifier becomes the head; in an empty list its
    [next], which is NULL, is set to NULL again. *)
Definition addTID (list : ptr) (tid : nat) : C unit :=
  newTID ← malloc (Other (TidNode tid None));
  l ← load_tids list;
  match l.1.1 with
  | None =>
      store list (Other (TidList newTID l.1.2 l.2));;
      store newTID (Other (TidNode tid None))
  | Some _ =>
      store newTID (Other (TidNode tid l.1.1));;
      store list (Other (TidList newTID l.1.2 l.2))
  end;;
  l ← load_tids list;
  store list (Other (TidList l.1.1 l.1.2 (l.2 + 1))).

(** [destroyLL(list)]; the last [free] is of NULL. *)
Definition destroy_tids_body (n : ptr) : C (ptr + unit) :=
  match n with
  | None => mret (inr tt)
  | Some _ => t ← load_tid n; free n;; mret (inl t.2)
  end.
Definition destroyLL (list : ptr) : C unit :=
  fuel ← live;
  l ← load_tids list;
  loop (S fuel) destroy_tids_body l.1.1;;
  free list.

(** [joinThreads(list)], [MakeAllThreadsJoin(list)]: [while (curNode->next != NULL)]
    joins [curNode]. *)
Context (start_routine : ptr → C unit).

Definition join_body (cur : ptr) : T (ptr + unit) :=
  n ← on_heap (load_tid cur);
  match n.2 with
  | None => mret (inr tt)
  | Some _ => pthread_join start_routine n.1;; mret (inl n.2)
  end.
Definition join_all_but_last (list : ptr) : T unit :=
  fuel ← on_heap live;
  l ← on_heap (load_tids list);
  loop (S fuel) join_body l.1.1.

Lemma load_tids_ok h l hd tl n :
  cells h !! l = Some (Other (TidList hd tl n)) → load_tids (Some l) h = Ok ((hd, tl, n), h).
Proof. intros E. unfold load_tids. by mstep. Qed.
End tids.

(** ** What the list stands for *)
Section registered.
Context {P H V : Type} `{!NodeData P H aobj V}.
Abbreviation blk := (block P H aobj).
Abbreviation mem := (gmap loc blk).
Abbreviation C := (M (heap blk)).
Abbreviation T := (M (proc blk)).

(** The nodes from [p] on: where they are, and their identifiers. *)
Fixpoint chain (m : mem) (p : ptr) (ns : list (loc * nat)) : Prop :=
  match ns with
  | [] => p = None
  | n :: ns' => ∃ nx, p = Some n.1 ∧ m !! n.1 = Some (Other (TidNode n.2 nx)) ∧ chain m nx ns'
  end.

(** The list at [tl] has the [k] identifiers that were given, the last one first. *)
Definition registered (m : mem) (tl : loc) (ns : list (loc * nat)) (k : nat) : Prop :=
  ns.*2 = rev (seq 0 k) ∧ ∃ hd, m !! tl = Some (Other (TidList hd None (Z.of_nat k))) ∧ chain m hd ns.

Lemma chain_frame m m' p ns :
  chain m p ns → (∀ l b, l ∈ ns.*1 → m !! l = Some b → m' !! l = Some b) → chain m' p ns.
Proof using.
  revert p. induction ns as [|n ns IH]; intros p; simpl; [done|].
  intros (nx & -> & Hl & Hc) Hf. exists nx. split; [done|]. split; [apply Hf; [left|done]|].
  apply IH; [done|]. intros l b ? ?. apply Hf; [by right|done].
Qed.

Lemma registered_frame m m' tl ns k :
  registered m tl ns k → (∀ l b, l ∈ tl :: ns.*1 → m !! l = Some b → m' !! l = Some b) →
  registered m' tl ns k.
Proof using.
  intros (Hk & hd & Hl & Hc) Hf. split; [done|]. exists hd. split; [apply Hf; [left|done]|].
  eapply chain_frame; [exact Hc|]. intros l b ? ?. apply Hf; [by right|done].
Qed.

Lemma chain_node m p ns l t : chain m p ns → (l, t) ∈ ns → ∃ nx, m !! l = Some (Other (TidNode t nx)).
Proof using.
  revert p. induction ns as [|n ns IH]; intros p; simpl; [by intros _ ?%elem_of_nil|].
  intros (nx & _ & Hl & Hc) [<-|Hin]%elem_of_cons; [by exists nx|by eapply IH].
Qed.

(** The nodes are different ones, since they have different identifiers. *)
Lemma chain_nodup m p ns : chain m p ns → NoDup ns.*2 → NoDup ns.*1.
Proof using.
  intros Hc Hn. apply NoDup_alt. intros i j l Hi Hj.
  rewrite list_lookup_fmap in Hi, Hj.
  destruct (ns !! i) as [[l1 t1]|] eqn:Ei; [|done]. destruct (ns !! j) as [[l2 t2]|] eqn:Ej; [|done].
  simpl in Hi, Hj. injection Hi as ->. injection Hj as ->.
  destruct (chain_node _ _ _ _ _ Hc (list_elem_of_lookup_2 _ _ _ Ei)) as [n1 E1].
  destruct (chain_node _ _ _ _ _ Hc (list_elem_of_lookup_2 _ _ _ Ej)) as [n2 E2].
  rewrite E1 in E2. injection E2 as -> _.
  eapply NoDup_lookup; [exact Hn|..]; by rewrite list_lookup_fmap, ?Ei, ?Ej.
Qed.

Lemma registered_nodup m tl ns k : registered m tl ns k → NoDup (tl :: ns.*1).
Proof using.
  intros (Hk & hd & Hl & Hc). apply NoDup_cons. split.
  - intros ([l t] & -> & Hin)%list_elem_of_fmap. destruct (chain_node _ _ _ _ _ Hc Hin). simpl in *. congruence.
  - eapply chain_nodup; [exact Hc|]. rewrite Hk. apply NoDup_ListNoDup, NoDup_rev, seq_NoDup.
Qed.

Lemma registered_live m tl ns k l : registered m tl ns k → l ∈ tl :: ns.*1 → is_Some (m !! l).
Proof using.
  intros (Hk & hd & Hl & Hc) [->|Hin]%elem_of_cons; [by rewrite Hl|].
  apply list_elem_of_fmap in Hin as ([l' t] & -> & Hin).
  destruct (chain_node _ _ _ _ _ Hc Hin) as [nx E]. simpl. by rewrite E.
Qed.

Lemma registered_str m tl ns k l x :
  registered m tl ns k → m !! l = Some (Other (Str x)) → l ∉ tl :: ns.*1.
Proof using.
  intros (_ & hd & Htl & Hc) Hl [->|Hin]%elem_of_cons; [congruence|].
  apply list_elem_of_fmap in Hin as ([l' t] & -> & Hin).
  destruct (chain_node _ _ _ _ _ Hc Hin). simpl in *. congruence.
Qed.

Lemma registered_length m tl ns k : registered m tl ns k → length ns = k.
Proof using. intros [E _]. apply (f_equal length) in E. by rewrite length_fmap, length_rev, length_seq in E. Qed.

Lemma registered_nil (m : mem) tl : m !! tl = Some (Other (TidList None None 0)) → registered m tl [] 0.
Proof using. intros Hl. split; [done|]. by exists None. Qed.

(** *** addTID *)

(** The new block becomes the head of the list, whichever of the two is written first. *)
Lemma tid_linked_ok h hp hx es R l tl hd n tid :
  dlown h hp hx es R → l ≠ tl → R !! tl = Some (Other (TidList hd None n)) →
  R !! l = Some (Other (TidNode tid None)) →
  ∃ h', match hd with
        | None => store (Some tl) (Other (TidList (Some l) None n));; store (Some l) (Other (TidNode tid None))
        | Some _ => store (Some l) (Other (TidNode tid hd));; store (Some tl) (Other (TidList (Some l) None n))
        end h = Ok (tt, h') ∧
    dlown h' hp hx es (<[tl:=Other (TidList (Some l) None n) : blk]> (<[l:=Other (TidNode tid hd)]> R)).
Proof using.
  intros Ho Hne Ht Hl.
  assert (Htwo : ∀ x y bx by_ bx' by_', x ≠ y → R !! x = Some bx → R !! y = Some by_ →
    ∃ h', (store (Some x) bx';; store (Some y) by_') h = Ok (tt, h') ∧
      dlown h' hp hx es (<[y:=by_' : blk]> (<[x:=bx']> R))).
  { intros x y bx by_ bx' by_' Hxy Hx Hy.
    destruct (dlown_store h hp hx es R x _ bx' Ho Hx) as (h1 & H1 & Ho1 & _).
    destruct (dlown_store h1 hp hx es _ y by_ by_' Ho1) as (h2 & H2 & Ho2 & _).
    { by rewrite lookup_insert_ne. }
    exists h2. split; [by erewrite bind_Ok by exact H1|done]. }
  destruct hd as [l0|]; [by eapply Htwo|].
  destruct (Htwo tl l _ _ (Other (TidList (Some l) None n)) (Other (TidNode tid None)) (not_eq_sym Hne) Ht Hl)
    as (h' & H' & Ho'). exists h'. split; [exact H'|]. by rewrite insert_insert_ne.
Qed.

(** A new identifier goes to the front of the list. *)
Lemma addTID_ok h hp hx es R tl ns k :
  dlown h hp hx es R → registered R tl ns k →
  ∃ h' R' l, addTID (Some tl) k h = Ok (tt, h') ∧ dlown h' hp hx es R' ∧ R !! l = None ∧
    registered R' tl ((l, k) :: ns) (S k) ∧ (∀ x, x ≠ tl → x ≠ l → R' !! x = R !! x).
Proof using.
  intros Ho Hreg. pose proof Hreg as (Hk & hd & Htl & Hc).
  destruct (dlown_malloc h hp hx es R (Other (TidNode k None)) Ho) as (h1 & l & H1 & HRl & _ & Ho1).
  assert (l ≠ tl) as Hne by (intros ->; congruence).
  destruct (tid_linked_ok h1 hp hx es _ l tl hd (Z.of_nat k) k Ho1 Hne) as (h2 & H2 & Ho2).
  { by rewrite lookup_insert_ne. }
  { apply lookup_insert_eq. }
  destruct (dlown_store h2 hp hx es _ tl (Other (TidList (Some l) None (Z.of_nat k)))
    (Other (TidList (Some l) None (Z.of_nat k + 1))) Ho2) as (h3 & H3 & Ho3 & _); [apply lookup_insert_eq|].
  eexists h3, _, l. split; [|split; [exact Ho3|split; [done|split; [split|]]]].
  - unfold addTID. erewrite bind_Ok by exact H1. cbv beta.
    erewrite bind_Ok.
    2:{ apply load_tids_ok. eapply dlown_rest; [exact Ho1|]. by rewrite lookup_insert_ne. }
    cbv beta. cbn [fst snd]. erewrite bind_Ok by exact H2. cbv beta.
    assert (Ht2 : load_tids (Some tl) h2 = Ok (Some l, None, Z.of_nat k, h2)).
    { apply load_tids_ok. eapply dlown_rest; [exact Ho2|]. apply lookup_insert_eq. }
    by erewrite bind_Ok by exact Ht2.
  - by rewrite fmap_cons, Hk, seq_S, rev_app_distr.
  - exists (Some l). split; [by rewrite lookup_insert_eq, Nat2Z.inj_succ|].
    exists hd. split; [done|]. split; [by rewrite !(lookup_insert_ne _ tl l) by done; apply lookup_insert_eq|].
    eapply chain_frame; [exact Hc|]. intros x b Hx Hb. pose proof (registered_nodup _ _ _ _ Hreg) as [Hn _]%NoDup_cons.
    rewrite !lookup_insert_ne; [done|congruence..].
  - intros x Hx Hxl. by rewrite !lookup_insert_ne by done.
Qed.

(** *** joinThreads *)
Section join.
Context (start_routine : ptr → C unit) (Inv : proc blk → Prop) `{!Steady start_routine Inv}.
Context (R : mem) (rest : ∀ s, Inv s → R ⊆ cells (p_heap s)).

Lemma join_loop_keeps fuel ns p s :
  chain R p ns → Inv s → ns ≠ [] → length ns ≤ fuel →
  ∃ s', loop fuel (join_body start_routine) p s = Ok (tt, s') ∧ Inv s' ∧ p_next s' = p_next s ∧
    (∀ t, t ∈ p_pending s' → t ∈ p_pending s ∧ t.1 ∉ removelast ns.*2).
Proof using Steady0 rest.
  revert p s fuel. induction ns as [|n ns IH]; intros p s fuel Hc Hi Hne Hf; [done|].
  destruct Hc as (nx & -> & Hl & Hc). destruct fuel as [|fuel]; [simpl in Hf; lia|].
  pose proof (lookup_weaken _ _ _ _ Hl (rest s Hi)) as Hcell.
  assert (Hload : on_heap (load_tid (Some n.1)) s = Ok ((n.2, nx), s)).
  { destruct s. apply on_heap_ok. unfold load_tid. by mstep. }
  destruct ns as [|n2 ns].
  - simpl in Hc. subst nx. exists s. split; [apply loop_done; unfold join_body; by erewrite bind_Ok by exact Hload|].
    split; [done|]. split; [done|]. intros u ?. split; [done|apply not_elem_of_nil].
  - destruct (run_thread_keeps start_routine s n.2 Hi) as (s1 & H1 & Hi1 & Hn1 & _ & Hp1).
    destruct (IH nx s1 fuel Hc Hi1 ltac:(done) ltac:(simpl in *; lia)) as (s' & H2 & Hi2 & Hn2 & Hp2).
    exists s'. split.
    { erewrite loop_step; [exact H2|]. unfold join_body. erewrite bind_Ok by exact Hload.
      destruct Hc as (? & -> & _). cbn [fst snd]. unfold pthread_join. by erewrite bind_Ok by exact H1. }
    split; [done|]. split; [congruence|]. intros u [Hu Hr]%Hp2. apply Hp1 in Hu as [? ?]. split; [done|].
    change (removelast (n :: n2 :: ns).*2) with (n.2 :: removelast (n2 :: ns).*2). by apply not_elem_of_cons.
Qed.

(** Joining all but the last element, the thread that was created first: when that one has
    finished, so have all. *)
Lemma join_all_keeps tl ns k s :
  registered R tl ns k → Inv s → p_next s = k → 0 < k →
  (∀ t, t ∈ p_pending s → t.1 < k ∧ t.1 ≠ 0) →
  ∃ s', join_all_but_last start_routine (Some tl) s = Ok (tt, s') ∧ Inv s' ∧ p_next s' = k ∧
    p_pending s' = [].
Proof using Steady0 rest.
  intros Hreg Hi Hnx Hk Hp. pose proof (registered_length _ _ _ _ Hreg) as Hlen.
  pose proof (registered_nodup _ _ _ _ Hreg) as [_ Hnd]%NoDup_cons.
  pose proof (registered_live R tl ns k) as Hlive. pose proof Hreg as (Hids & hd & Htl & Hc).
  assert (Hsize : length ns ≤ size (cells (p_heap s))).
  { rewrite <- (length_fmap fst). apply NoDup_le_size; [done|]. intros l Hl.
    destruct (Hlive l Hreg ltac:(by right)) as [b Hb]. exists b. by eapply lookup_weaken, rest. }
  destruct (join_loop_keeps (S (size (cells (p_heap s)))) ns hd s Hc Hi) as (s' & H1 & Hi' & Hn' & Hp');
    [intros ->; simpl in Hlen; lia|lia|].
  exists s'. split; [|split; [done|split; [congruence|]]].
  - unfold join_all_but_last. pose proof (lookup_weaken _ _ _ _ Htl (rest s Hi)) as Hcell.
    destruct s as [h pend n sch]. simpl in *. erewrite bind_Ok by (by apply on_heap_ok). cbv beta.
    erewrite bind_Ok by (apply on_heap_ok, load_tids_ok; exact Hcell). exact H1.
  - destruct (p_pending s') as [|t ts] eqn:E; [done|]. destruct (Hp' t ltac:(left)) as [Hin Hnr].
    destruct (Hp t Hin) as [Hlt H0]. exfalso. apply Hnr. rewrite Hids.
    replace k with (S (k - 1)) by lia. cbn [seq rev]. rewrite removelast_last.
    apply list_elem_of_In, in_rev. rewrite rev_involutive. apply in_seq. lia.
Qed.
End join.

(** With no thread there is no head to begin with. *)
Lemma join_nobody start_routine (R : mem) tl ns s :
  registered R tl ns 0 → R ⊆ cells (p_heap s) → join_all_but_last start_routine (Some tl) s = Ub NullDeref.
Proof using.
  intros Hreg Hsub. pose proof (registered_length _ _ _ _ Hreg) as Hlen.
  destruct Hreg as (_ & hd & Htl & Hc). destruct ns; [|done]. simpl in Hc. subst hd.
  pose proof (lookup_weaken _ _ _ _ Htl Hsub) as Hcell. unfold join_all_but_last.
  destruct s as [h pend nx sch]. erewrite bind_Ok by (by apply on_heap_ok). cbv beta.
  by erewrite bind_Ok by (by apply on_heap_ok, load_tids_ok).
Qed.

(** *** destroyLL *)
Lemma destroy_tids_ok fuel ns p (m : mem) :
  chain m p ns → NoDup ns.*1 → length ns < fuel →
  loop fuel destroy_tids_body p (Heap m None) = Ok (tt, Heap (outside m ns.*1) None).
Proof using.
  revert m p fuel. induction ns as [|n ns IH]; intros m p fuel Hc Hn Hf; (destruct fuel as [|fuel]; [simpl in Hf; lia|]).
  - simpl in Hc. subst p. apply loop_done. simpl. by rewrite outside_nil.
  - destruct Hc as (nx & -> & Hl & Hc). simpl in Hn. apply NoDup_cons in Hn as [Hnl Hn].
    erewrite loop_step.
    2:{ unfold destroy_tids_body, load_tid.
        erewrite bind_Ok by (erewrite bind_Ok by (by apply load_ok); done). cbv beta. cbn [snd].
        by erewrite bind_Ok by (by eapply free_ok). }
    unfold hdel. cbn [cells budget]. rewrite IH; [|eapply chain_frame; [exact Hc|]|done|simpl in Hf; lia].
    + do 3 f_equal. apply map_eq. intros x. rewrite !lookup_outside, lookup_delete, fmap_cons.
      repeat case_decide; try done; set_solver.
    + intros x b Hx Hb. cbn. rewrite lookup_delete_ne; [done|]. by intros <-.
Qed.

Lemma destroyLL_ok (m : mem) tl ns k :
  registered m tl ns k →
  destroyLL (Some tl) (Heap m None) = Ok (tt, Heap (outside m (tl :: ns.*1)) None).
Proof using.
  intros Hreg. pose proof (registered_nodup _ _ _ _ Hreg) as [Htl Hnd]%NoDup_cons.
  pose proof (registered_live m tl ns k) as Hlive. pose proof Hreg as (Hids & hd & Hl & Hc).
  unfold destroyLL. mstep. mstep by load_tids_ok. cbn [fst].
  erewrite bind_Ok.
  2:{ apply (destroy_tids_ok _ ns _ m Hc Hnd). simpl. apply Nat.lt_succ_r. rewrite <- (length_fmap fst).
      apply NoDup_le_size; [done|]. intros l Hin. apply (Hlive l Hreg). by right. }
  cbv beta. erewrite free_ok.
  2:{ simpl. rewrite lookup_outside, decide_False by done. exact Hl. }
  unfold hdel. simpl. do 3 f_equal. apply map_eq. intros x.
  rewrite lookup_delete, !lookup_outside. repeat case_decide; try done; set_solver.
Qed.
End registered.
