(* ===== verification/Exchange.v ===== *)
(** * Exchanging the paths of two neighbours

    What the exchanges of all the sorts need: neighbours do not share their
    parts, and a path that is saved in a string of its own survives the
    replacement of the other one. *)

From stdpp Require Import base list gmap fin_maps strings sorting.
From S2P Require Import Prelude CString CMem Dll LevelList SortedInsert ListSort Objects.

Section exchange.
Context {P H V : Type} `{!NodeData P H aobj V}.
Abbreviation blk := (block P H aobj).
Implicit Types (h : heap blk) (R : gmap loc blk) (hx : H).

(** Neighbours do not share their parts. *)
Lemma neighbour_parts h hp hx es1 a b es2 R l :
  dlown h hp hx (es1 ++ a :: b :: es2) R → l ∈ foot b → l ∉ e_fp a.
Proof.
  intros [[_ _ _ Hn] _ _] Hb Ha. apply NoDup_cons in Hn as [_ Hn].
  rewrite bind_app, bind_cons, bind_cons in Hn.
  apply NoDup_app in Hn as (_ & _ & (_ & Hn & _)%NoDup_app).
  apply (Hn l); [by right|]. apply elem_of_app. by left.
Qed.

Lemma rest_parts h hp hx es1 a es2 R l x :
  dlown h hp hx (es1 ++ a :: es2) R → R !! l = Some x → l ∉ e_fp a ∧ cells h !! l = Some x.
Proof.
  intros [_ <- _]. rewrite lookup_outside. case_decide as Hl; [done|]. intros E. split; [|done].
  intros Hin. apply Hl. right. apply foot_parts, list_elem_of_bind. exists a.
  split; [done|]. apply elem_of_app. right. left.
Qed.

Lemma read_neighbour h hp hx es1 a b es2 R :
  dlown h hp hx (es1 ++ a :: b :: es2) R →
  ∀ h', budget h' = None → (∀ l, l ∉ e_fp a → cells h' !! l = cells h !! l) →
  node_path (Some (e_loc b)) h' = Ok (pth (e_val b), h').
Proof.
  intros Ho h' _ Hf.
  pose proof (dlown_value _ _ _ _ _ b Ho
    ltac:(apply elem_of_app; right; right; left)) as Hv.
  assert (Hb : cells h !! e_loc b = Some (Node (hd_ptr es2 None) (Some (e_loc a)) (e_dat b))).
  { rewrite cons_middle, app_assoc in Ho. apply dlown_lookup in Ho. by rewrite last_ptr_snoc in Ho. }
  eapply (node_path_ok h').
  - rewrite Hf; [exact Hb|]. eapply neighbour_parts; [done|left].
  - eapply value_at_frame; [done|]. intros l Hl. apply Hf. eapply neighbour_parts; [done|by right].
Qed.

(** The first half of both exchanges: the left path is saved, then replaced. *)
Lemma save_path h hp hx es1 a es2 R :
  dlown h hp hx (es1 ++ a :: es2) R →
  ∃ h1 t, (s ← node_path (Some (e_loc a)); strdup s) h = Ok (Some t, h1) ∧
    R !! t = None ∧
    dlown h1 hp hx (es1 ++ a :: es2) (<[t:=Other (Str (pth (e_val a)))]> R).
Proof.
  intros Ho. pose proof (dlown_lookup _ _ _ _ _ _ _ Ho) as Ha.
  pose proof (dlown_value _ _ _ _ _ a Ho ltac:(apply elem_of_app; right; left)) as Hva.
  destruct (dlown_malloc h hp hx _ R (Other (Str (pth (e_val a)))) Ho)
    as (h1 & t & Hm & HRt & Hct & Ho1).
  exists h1, t. split; [|done]. mstep. exact Hm.
Qed.

Lemma read_saved h hp hx es1 b es2 R t s :
  dlown h hp hx (es1 ++ b :: es2) R → R !! t = Some (Other (Str s)) →
  ∀ h', budget h' = None → (∀ l, l ∉ e_fp b → cells h' !! l = cells h !! l) →
  read_str (Some t) h' = Ok (s, h').
Proof.
  intros Ho Ht h' _ Hf. destruct (rest_parts _ _ _ _ _ _ _ _ _ Ho Ht) as [Hn Hc].
  apply read_str_ok. by rewrite Hf.
Qed.

Lemma free_saved h hp hx es R t b :
  R !! t = None → dlown h hp hx es (<[t:=b]> R) →
  ∃ h', free (Some t) h = Ok (tt, h') ∧ dlown h' hp hx es R.
Proof.
  intros HR Ho. destruct (dlown_free h hp hx es _ t b Ho) as (h' & ? & Ho').
  { by rewrite lookup_insert_eq. }
  exists h'. split; [done|]. by rewrite delete_insert_id in Ho'.
Qed.

End exchange.
