(* ===== verification/PathNode.v ===== *)
(** * Nodes that hold a path inline

    The node of buffer/linkedlist.c, DLL/main.c, the three dirlist.c of the
    Lin and "copy" directories and Lin/pardirlist/pardirlist.c: a string made
    by strdup, a level, and per-program extra fields [D], inline in the node. *)

From stdpp Require Import base list gmap fin_maps strings.
From S2P Require Import Prelude CString CMem Dll LevelList SortedInsert ListSort Objects.

Record apay (D : Type) := APay { ap_path : ptr; ap_level : Z; ap_data : D }.
Arguments APay {_} _ _ _.
Arguments ap_path {_} _.
Arguments ap_level {_} _.
Arguments ap_data {_} _.

(** What a node stands for. *)
Record aval (D : Type) := AVal { av_level : Z; av_path : bytes; av_data : D }.
Arguments AVal {_} _ _ _.
Arguments av_level {_} _.
Arguments av_path {_} _.
Arguments av_data {_} _.

Section pathnode.
Context {D : Type}.
Abbreviation blk := (block (apay D) unit aobj).
Abbreviation C := (M (heap blk)).
Implicit Types (h : heap blk) (m : gmap loc blk).

Definition a_value_at (m : gmap loc blk) (d : apay D) (v : aval D) (fp : list loc) : Prop :=
  ∃ pp, d = APay (Some pp) (av_level v) (av_data v) ∧ fp = [pp] ∧
        m !! pp = Some (Other (Str (av_path v))).

#[export] Instance path_node_data : NodeData (apay D) unit aobj (aval D).
Proof.
  refine {| value_at := a_value_at; lev := av_level; pth := av_path;
            level_of d := mret (ap_level d); path_of d := read_str (ap_path d) |}.
  - abstract (by intros h d v fp (pp & -> & _)).
  - abstract (intros h d v fp (pp & -> & _ & E); by apply read_str_ok).
  - abstract (intros m m' d v fp (pp & -> & -> & E) Hf; exists pp; rewrite Hf; [done|left]).
  - abstract (intros m d v fp l (pp & -> & -> & E) ->%list_elem_of_singleton; eauto).
Defined.

(** [create_node]; the extra fields get the values [d]. *)
Definition create_node (path : bytes) (level : Z) (d : D) : C ptr :=
  node ← malloc (Node None None (APay None 0 d));
  match node with
  | None => exit (-1)
  | Some _ =>
      pp ← strdup path;
      set_data node (APay pp level d);;
      set_next node None;;
      set_prev node None;;
      mret node
  end.

Definition create_list : C ptr :=
  list ← malloc (Hdr None None tt);
  match list with
  | None => exit (-1)
  | Some _ => mret list
  end.

Definition insert_tail (node list : ptr) : C unit := push_back node list.

(** [free(ptr->path)] *)
Definition free_path (p : ptr) : C unit := d ← get_data p; free (ap_path d).

Definition destroy_list (list : ptr) : C unit := destroy_loop free_path list.

Lemma free_path_ok : free_parts_spec free_path.
Proof.
  intros h l n r d v fp E (pp & -> & -> & Hp) Hn. unfold free_path. mstep.
  simpl. rewrite Hp. unfold hdel. do 3 f_equal. apply map_eq. intros l'.
  rewrite lookup_outside, lookup_delete.
  repeat case_decide; subst; set_solver.
Qed.

(** The list made by [create_list]. *)
Lemma create_list_ok h :
  budget h = None →
  ∃ h' hp, create_list h = Ok (Some hp, h') ∧ dlown h' hp tt [] (cells h).
Proof.
  intros Hb. unfold create_list. mstep. pose proof (fresh_loc_fresh h) as Hf.
  eexists _, _. split; [done|]. simpl. constructor; [|simpl|done].
  - constructor; simpl; [by rewrite lookup_insert_eq|done|constructor|].
    apply NoDup_singleton.
  - unfold own_locs. simpl. by rewrite outside_alloc, outside_nil.
Qed.

(** A new node next to a list: what the insertions start from. *)
Record ready h hp es (e : ent (apay D) (aval D)) (R : gmap loc blk) : Prop := {
  rd_rep : dlrep (cells h) hp tt es;
  rd_det : detached (cells h) hp es e;
  rd_budget : budget h = None;
  rd_rest : outside (cells h) (hp :: foot e ++ (es ≫= foot)) = R;
}.

Lemma create_node_ok h hp es R path level d :
  dlown h hp tt es R →
  ∃ h' e, create_node path level d h = Ok (Some (e_loc e), h') ∧
    ready h' hp es e R ∧ e_val e = AVal level path d ∧
    cells h' !! e_loc e = Some (Node None None (e_dat e)).
Proof.
  intros [Hd HR Hb]. set (l := fresh_loc h).
  set (h1 := hset l (Node None None (APay None 0 d)) h). set (l2 := fresh_loc h1).
  assert (Hl : cells h !! l = None) by apply fresh_loc_fresh.
  assert (Hl2' : cells h1 !! l2 = None) by apply fresh_loc_fresh.
  assert (l ≠ l2 ∧ cells h !! l2 = None) as [Hne Hl2].
  { simpl in Hl2'. apply lookup_insert_None in Hl2'. tauto. }
  assert (Hout : ∀ x, x ∈ own_locs hp es → x ≠ l ∧ x ≠ l2).
  { intros x Hx. pose proof (dlrep_live _ _ _ _ _ Hd Hx). split; by intros ->. }
  unfold create_node. mstep. fold l. fold h1.
  unfold strdup. mstep. fold l2. do 3 mstep.
  eexists _, (Ent l (APay (Some l2) level d) (AVal level path d) [l2]).
  split; [done|]. subst h1. split; [|split; [done|simpl; by simplify_map_eq]].
  constructor; simpl; [| |done|].
  - eapply dlrep_frame; [done|]. intros x Hx. destruct (Hout x Hx).
    by rewrite !lookup_insert_ne.
  - constructor; simpl.
    + rewrite lookup_insert_eq. eauto.
    + exists l2. by simplify_map_eq.
    + destruct Hd as [_ _ _ Hn]. change (hp :: (es ≫= foot)) with (own_locs hp es) in Hn.
      assert (E : hp :: l :: l2 :: (es ≫= foot) ≡ₚ l :: l2 :: own_locs hp es) by
        (unfold own_locs; rewrite perm_swap; f_equiv; apply perm_swap).
      rewrite E, !NoDup_cons, not_elem_of_cons.
      repeat split; [done| | |done]; intros Hx; by destruct (Hout _ Hx).
  - rewrite <- HR. apply map_eq. intros x. rewrite !lookup_outside.
    unfold foot at 1. simpl.
    destruct (decide (x = l)) as [->|]; [|destruct (decide (x = l2)) as [->|]].
    + rewrite decide_True by set_solver. by case_decide.
    + rewrite decide_True by set_solver. by case_decide.
    + unfold own_locs. rewrite !lookup_insert_ne by done.
      repeat case_decide; set_solver.
Qed.

Lemma insert_tail_ok h hp es e R :
  ready h hp es e R →
  cells h !! e_loc e = Some (Node None None (e_dat e)) →
  ∃ h', insert_tail (Some (e_loc e)) (Some hp) h = Ok (tt, h') ∧
    dlown h' hp tt (es ++ [e]) R.
Proof. intros [Hd He Hb HR] Hn. by apply push_back_own. Qed.

(** [free(p->path); p->path = strdup(rd);] *)
Definition set_path (p : ptr) (rd : C bytes) : C unit :=
  d ← get_data p; free (ap_path d);;
  s ← rd;
  pp ← strdup s;
  d ← get_data p; set_data p (APay pp (ap_level d) (ap_data d)).

Definition set_extra (p : ptr) (upd : D → D) : C unit :=
  d ← get_data p; set_data p (APay (ap_path d) (ap_level d) (upd (ap_data d))).

Lemma set_path_ok h hp es1 a es2 R rd s :
  dlown h hp tt (es1 ++ a :: es2) R →
  (∀ h', budget h' = None →
     (∀ l, l ∉ e_fp a → cells h' !! l = cells h !! l) → rd h' = Ok (s, h')) →
  ∃ h' a', set_path (Some (e_loc a)) rd h = Ok (tt, h') ∧
    dlown h' hp tt (es1 ++ a' :: es2) R ∧ e_loc a' = e_loc a ∧
    e_val a' = AVal (av_level (e_val a)) s (av_data (e_val a)).
Proof.
  intros Ho Hrd. pose proof (do_budget _ _ _ _ _ Ho) as Hb.
  pose proof (dlown_lookup _ _ _ _ _ _ _ Ho) as Ha.
  pose proof (dlown_value _ _ _ _ _ a Ho ltac:(apply elem_of_app; right; left))
    as (pp & Ed & Ef & Ep).
  assert (e_loc a ≠ pp) by congruence.
  set (h1 := hdel pp h). set (p2 := fresh_loc h1).
  assert (Hf : cells h1 !! p2 = None) by apply fresh_loc_fresh.
  assert (e_loc a ≠ p2).
  { intros E. subst h1. simpl in Hf. rewrite <- E, lookup_delete_ne in Hf by done. congruence. }
  rewrite Ed in Ha. unfold set_path. do 2 mstep. fold h1.
  erewrite bind_Ok.
  2:{ apply Hrd; [done|]. intros l Hl. subst h1. simpl. rewrite lookup_delete_ne; [done|].
      rewrite Ef in Hl. by apply not_elem_of_cons in Hl as [? _]. }
  cbv beta. unfold strdup. mstep. fold p2.
  assert (Ha1 : cells (hset p2 (Other (Str s)) h1) !! e_loc a =
    Some (Node (hd_ptr es2 None) (last_ptr es1 None)
               (APay (Some pp) (av_level (e_val a)) (av_data (e_val a))))).
  { subst h1. simpl. rewrite !lookup_insert_ne by done. by rewrite lookup_delete_ne. }
  mstep. eexists _, (Ent (e_loc a) (APay (Some p2) (av_level (e_val a)) (av_data (e_val a)))
                     (AVal (av_level (e_val a)) s (av_data (e_val a))) [p2]).
  split; [by eapply set_data_ok|]. split; [|done].
  eapply (dlown_replace h _ hp tt es1 es2 a); try done; simpl.
  - by rewrite lookup_insert_eq.
  - exists p2. by simplify_map_eq.
  - apply NoDup_singleton.
  - intros l ->%list_elem_of_singleton. destruct (decide (p2 = pp)) as [->|].
    + left. rewrite Ef. left.
    + right. subst h1. simpl in Hf. by rewrite lookup_delete_ne in Hf.
  - rewrite Ef. intros l ? ? ?. rewrite !lookup_insert_ne by set_solver.
    by rewrite lookup_delete_ne by set_solver.
  - rewrite Ef. intros l ->%list_elem_of_singleton ?. rewrite !lookup_insert_ne by set_solver.
    by rewrite lookup_delete_eq.
Qed.

Lemma set_extra_ok h hp es1 a es2 R upd :
  dlown h hp tt (es1 ++ a :: es2) R →
  ∃ h' a', set_extra (Some (e_loc a)) upd h = Ok (tt, h') ∧
    dlown h' hp tt (es1 ++ a' :: es2) R ∧ e_loc a' = e_loc a ∧
    e_val a' = AVal (av_level (e_val a)) (av_path (e_val a)) (upd (av_data (e_val a))).
Proof.
  intros Ho. pose proof (do_budget _ _ _ _ _ Ho) as Hb.
  pose proof (dlown_lookup _ _ _ _ _ _ _ Ho) as Ha.
  pose proof (dlown_value _ _ _ _ _ a Ho ltac:(apply elem_of_app; right; left))
    as (pp & Ed & Ef & Ep).
  assert (e_loc a ≠ pp) by congruence.
  rewrite Ed in Ha. unfold set_extra. mstep.
  eexists _, (Ent (e_loc a) (APay (Some pp) (av_level (e_val a)) (upd (av_data (e_val a))))
              (AVal (av_level (e_val a)) (av_path (e_val a)) (upd (av_data (e_val a)))) [pp]).
  split; [by eapply set_data_ok|]. split; [|done].
  eapply (dlown_replace h _ hp tt es1 es2 a); try done; simpl; rewrite ?Ef.
  - by rewrite lookup_insert_eq.
  - exists pp. by simplify_map_eq.
  - apply NoDup_singleton.
  - intros l Hl. by left.
  - intros l ? ? ?. by rewrite lookup_insert_ne.
  - done.
Qed.

End pathnode.
