(* ===== verification/LinkedList.v ===== *)
(** * buffer/linkedlist.c and DLL/main.c

    The two exercise programs: a list of named records, appended at the tail,
    printed and destroyed.  DLL/main.c is the same program with the fields
    called [path] and [level]. *)

From stdpp Require Import base list gmap fin_maps strings pretty.
From S2P Require Import Prelude CString CMem Dll LevelList SortedInsert ListSort Objects PathNode.

Module LList.
(** [struct Node]: name, id, next, prev; [struct List]: head, tail. *)
Abbreviation blk := (block (apay unit) unit aobj).
Abbreviation C := (M (heap blk)).
Abbreviation rec := (aval unit).
Definition mk_rec (name : bytes) (id : Z) : rec := AVal id name tt.

Definition create_node (name : bytes) (id : Z) : C ptr := PathNode.create_node name id tt.
Definition create_list : C ptr := PathNode.create_list.
Definition insert_tail (node list : ptr) : C unit := PathNode.insert_tail node list.
Definition destroy_list (list : ptr) : C unit := PathNode.destroy_list list.

(** [printf("(%s,%d)", ptr->name, ptr->id)] *)
Definition print_node (p : ptr) : C bytes :=
  d ← get_data p; s ← read_str (ap_path d);
  mret (lit "(" ++ s ++ lit "," ++ fmt_d (ap_level d) ++ lit ")").

Definition print_step (list : ptr) (st : ptr * bytes) : C (ptr * bytes + bytes) :=
  let '(p, out) := st in
  match p with
  | None => mret (inr (out ++ [NL]))
  | Some _ =>
      hd ← get_head list;
      s ← print_node p;
      nx ← get_next p;
      mret (inl (nx, out ++ (if decide (p = hd) then [] else lit "->") ++ s))
  end.

(** [print_list]: the text it prints. *)
Definition print_list (list : ptr) : C bytes :=
  fuel ← live;
  hd ← get_head list;
  loop (S fuel) (print_step list) (hd, []).

(** [main]: its exit status and what it prints. *)
Definition main : C (Z * bytes) :=
  list ← create_list;
  tmp ← create_node (lit "Kelly") 12;
  insert_tail tmp list;;
  out ← print_list list;
  destroy_list list;;
  mret (0%Z, lit "Unsorted List: " ++ out).

(** The calls [tmp = create_node(name, id); insert_tail(tmp, list);] that main
    makes (and shows more of in comments), one for each record. *)
Fixpoint append_all (lst : ptr) (rs : list (bytes * Z)) : C unit :=
  match rs with
  | [] => mret tt
  | (name, id) :: rs' =>
      tmp ← create_node name id; insert_tail tmp lst;; append_all lst rs'
  end.

(** ** What they do *)

Definition show_rec (v : rec) : bytes :=
  lit "(" ++ av_path v ++ lit "," ++ fmt_d (av_level v) ++ lit ")".
Definition show_list (vs : list rec) : bytes :=
  match vs with
  | [] => [NL]
  | v :: vs' => show_rec v ++ mjoin ((λ v, lit "->" ++ show_rec v) <$> vs') ++ [NL]
  end.

Abbreviation evals := (fmap (M:=list) (@e_val (apay unit) rec)).

Lemma append_all_ok h hp es R rs :
  dlown h hp tt es R →
  ∃ h' es', append_all (Some hp) rs h = Ok (tt, h') ∧ dlown h' hp tt es' R ∧
    evals es' = evals es ++ ((λ r, mk_rec r.1 r.2) <$> rs).
Proof.
  revert h es. induction rs as [|[name id] rs IH]; intros h es Ho.
  { exists h, es. split; [done|]. split; [done|]. by rewrite app_nil_r. }
  destruct (create_node_ok h hp es R name id tt Ho) as (h1 & e & H1 & Hr & Hv & Hn).
  destruct (insert_tail_ok h1 hp es e R Hr Hn) as (h2 & H2 & Ho2).
  destruct (IH h2 (es ++ [e]) Ho2) as (h' & es' & H3 & Ho' & He).
  exists h', es'. split; [|split; [done|]].
  - simpl. unfold create_node. erewrite bind_Ok by exact H1. cbv beta.
    unfold insert_tail. by erewrite bind_Ok by exact H2.
  - rewrite He, fmap_app, <- app_assoc. simpl. by rewrite Hv.
Qed.

Lemma print_node_ok h l n r d v fp :
  cells h !! l = Some (Node n r d) → value_at (cells h) d v fp →
  print_node (Some l) h = Ok (show_rec v, h).
Proof. intros E (pp & -> & -> & Ep). unfold print_node. by do 2 mstep. Qed.

Lemma print_from h hp es1 es R fuel out :
  dlown h hp tt (es1 ++ es) R → length es < fuel → es1 ≠ [] →
  loop fuel (print_step (Some hp)) (hd_ptr es None, out) h =
    Ok (out ++ mjoin ((λ v, lit "->" ++ show_rec v) <$> evals es) ++ [NL], h).
Proof.
  revert es1 fuel out. induction es as [|e es IH]; intros es1 fuel out Ho Hf Hne;
    (destruct fuel as [|fuel]; [simpl in Hf; lia|]).
  { cbn [hd_ptr]. erewrite loop_done by done. done. }
  pose proof (dlown_lookup _ _ _ _ _ _ _ Ho) as He.
  pose proof (dlown_value _ _ _ _ _ e Ho ltac:(apply elem_of_app; right; left)) as Hv.
  pose proof (dl_hdr _ _ _ _ (do_rep _ _ _ _ _ Ho)) as Hh.
  destruct es1 as [|a es1]; [done|].
  assert (e_loc e ≠ e_loc a).
  { eapply (dlrep_locs_ne _ _ _ _ e es a); [apply Ho|]. left. }
  erewrite loop_step.
  2:{ simpl. mstep. erewrite bind_Ok by (by eapply print_node_ok). cbv beta. mstep.
      by rewrite decide_False by (by intros [=]). }
  rewrite cons_middle, app_assoc in Ho. rewrite (IH _ _ _ Ho); [|simpl in Hf; lia|done].
  rewrite !fmap_cons, mjoin_cons. by rewrite <- !app_assoc.
Qed.

Lemma print_list_ok h hp es R :
  dlown h hp tt es R → print_list (Some hp) h = Ok (show_list (evals es), h).
Proof.
  intros Ho. pose proof (dl_hdr _ _ _ _ (do_rep _ _ _ _ _ Ho)) as Hh.
  pose proof (dlrep_length _ _ _ _ (do_rep _ _ _ _ _ Ho)) as Hlen.
  unfold print_list. do 2 mstep. destruct es as [|e es]; [by apply loop_done|].
  pose proof (dlown_lookup _ _ _ [] _ _ _ Ho) as He.
  pose proof (dlown_value _ _ _ _ _ e Ho ltac:(left)) as Hv.
  erewrite loop_step.
  2:{ simpl. mstep. erewrite bind_Ok by (by eapply print_node_ok). cbv beta. mstep.
      by rewrite decide_True by done. }
  rewrite (print_from h hp [e] es R) by (done || simpl in Hlen; lia).
  simpl. by rewrite <- !app_assoc.
Qed.

(** C7: whatever records are appended, the list prints them in that order,
    and destroying it gives back every block: the heap is as it was before
    the list was created. *)
Theorem append_print_destroy (h : heap blk) (rs : list (bytes * Z)) :
  budget h = None →
  (list ← create_list;
   append_all list rs;;
   out ← print_list list;
   destroy_list list;;
   mret out) h = Ok (show_list ((λ r, mk_rec r.1 r.2) <$> rs), h).
Proof.
  intros Hb. destruct (create_list_ok h Hb) as (h1 & hp & H1 & Ho).
  destruct (append_all_ok h1 hp [] (cells h) rs Ho) as (h2 & es & H2 & Ho2 & He).
  unfold create_list. erewrite bind_Ok by exact H1. cbv beta.
  erewrite bind_Ok by exact H2. cbv beta.
  erewrite bind_Ok by (by eapply print_list_ok). cbv beta.
  unfold destroy_list, PathNode.destroy_list.
  erewrite bind_Ok by (eapply destroy_loop_ok; [apply free_path_ok|done]).
  rewrite He. destruct h. simpl in Hb. by subst.
Qed.

Lemma append_print_destroy_witness :
  (list ← create_list;
   append_all list [(lit "Kelly", 12%Z); (lit "Tom", 82%Z)];;
   out ← print_list list;
   destroy_list list;;
   mret out) empty_heap = Ok (lit "(Kelly,12)->(Tom,82)" ++ [NL], empty_heap).
Proof. exact (append_print_destroy empty_heap [(lit "Kelly", 12%Z); (lit "Tom", 82%Z)] eq_refl). Defined.
End LList.

Module DLLMain.
Import LList.
Definition create_node (path : bytes) (level : Z) : C ptr := PathNode.create_node path level tt.
Definition create_list : C ptr := PathNode.create_list.
Definition insert_tail (node list : ptr) : C unit := PathNode.insert_tail node list.
Definition print_list (list : ptr) : C bytes := LList.print_list list.
Definition destroy_list (list : ptr) : C unit := PathNode.destroy_list list.

Definition main : C (Z * bytes) :=
  list ← create_list;
  tmp ← create_node (lit "Kelly") 12;
  insert_tail tmp list;;
  out ← print_list list;
  destroy_list list;;
  mret (0%Z, lit "Unsorted List: " ++ out).

(** [main] of DLL/main.c exits with 0, prints its one record, and leaves
    no block behind, which is what its valgrind exercise asks for. *)
Theorem main_output_and_no_leak (h : heap blk) :
  budget h = None →
  main h = Ok ((0%Z, lit "Unsorted List: (Kelly,12)" ++ [NL]), h).
Proof.
  intros Hb. destruct (create_list_ok h Hb) as (h1 & hp & H1 & Ho).
  destruct (append_all_ok h1 hp [] (cells h) [(lit "Kelly", 12%Z)] Ho) as (h2 & es & H2 & Ho2 & He).
  unfold main. erewrite bind_Ok by exact H1. cbv beta.
  apply bind_inv in H2 as (tmp & h3 & Hn & H2). apply bind_inv in H2 as ([] & h4 & Ht & [= ->]).
  erewrite bind_Ok by exact Hn. cbv beta. erewrite bind_Ok by exact Ht. cbv beta.
  unfold print_list. erewrite bind_Ok by (by eapply print_list_ok). cbv beta.
  unfold destroy_list, PathNode.destroy_list.
  erewrite bind_Ok by (eapply destroy_loop_ok; [apply free_path_ok|done]).
  rewrite He. destruct h. simpl in Hb. by subst.
Qed.

Lemma main_output_and_no_leak_witness :
  main empty_heap = Ok ((0%Z, lit "Unsorted List: (Kelly,12)" ++ [NL]), empty_heap).
Proof. exact (main_output_and_no_leak empty_heap eq_refl). Defined.
End DLLMain.
