(* ===== verification/FileSys.v ===== *)
(** * The file system and the directory walk

    What the programs are told by [opendir]/[readdir]/[fopen], as an argument
    of the definitions, and the sequence of entries that a recursive walk
    visits, with the facts about it that all the directory programs share. *)

From stdpp Require Import base list sets gmap strings sorting.
From Stdlib Require Import Ascii.
From S2P Require Import Prelude CString LevelList.

(** [struct dirent]: the fields the programs read. [d_type] 4 is a directory. *)
Record dirent := Dirent { d_name : bytes; d_type : Z }.

(** [fs_dir p]: what [opendir(p)] and then [readdir] until NULL give; [None]
    when [opendir] returns NULL. [fs_file p]: the contents that [fopen(p,"r")]
    gives access to. [fs_writable p]: whether [fopen(p,"w")] succeeds.
    [fs_closedir_null]: what [closedir(NULL)] does, which POSIX leaves open (the
    GNU library returns an error). *)
Record fsys := FSys {
  fs_dir : bytes → option (list dirent);
  fs_file : bytes → option bytes;
  fs_writable : bytes → bool;
  fs_closedir_null : outcome unit;
}.

(** What a run of a program leaves: exit status, standard output, and the file
    written with its name. *)
Record run := Run { r_status : Z; r_stdout : bytes; r_file : bytes * bytes }.

(** [argv[n]]; [argv[argc]] is NULL, which no program checks, and beyond it
    there is nothing. *)
Definition arg (args : list bytes) (n : nat) : outcome bytes :=
  match args !! n with
  | Some s => Ok s
  | None => if decide (n = length args) then Ub NullDeref else Ub BadAccess
  end.

(** [entry->d_name[0] == '.'] *)
Definition hidden (e : dirent) : bool :=
  match d_name e with c :: _ => bool_decide (c = "."%char) | [] => false end.

Definition is_dir (e : dirent) : bool := bool_decide (d_type e = 4%Z).

Definition join_path (dir name : bytes) : bytes := dir ++ lit "/" ++ name.

Lemma length_join_path dir name : length (join_path dir name) = length dir + S (length name).
Proof. unfold join_path. by rewrite !length_app. Qed.

Section walk.
(** The directory contents; how a program builds the path of an entry (in a
    buffer that may be too small); what it does when a directory does not open. *)
Context (dir_of : bytes → option (list dirent)).
Context (mk_path : bytes → bytes → outcome bytes).
Context (no_dir : outcome unit).

Definition walk_entries (rec : bytes → Z → outcome (list (Z * bytes)))
    (dir : bytes) (x : Z) : list dirent → outcome (list (Z * bytes)) :=
  fix go ents :=
    match ents with
    | [] => Ok []
    | e :: ents' =>
        if hidden e then go ents'
        else
          p ← mk_path dir (d_name e);
          sub ← (if is_dir e then rec p x else Ok []);
          rest ← go ents';
          Ok ((x, p) :: sub ++ rest)
    end.

(** The visible entries below [dir], each with its level and path, in the
    order they are met; [x] is the level of [dir] itself. *)
Fixpoint walk (fuel : nat) (dir : bytes) (x : Z) : outcome (list (Z * bytes)) :=
  match fuel with
  | O => NoFuel
  | S fuel' =>
      match dir_of dir with
      | None => no_dir ≫= λ _, Ok []
      | Some ents => walk_entries (walk fuel') dir (x + 1) ents
      end
  end.

(** The specification of the walk: which (level, path) it must list. *)
Inductive listed : bytes → Z → Z → bytes → Prop :=
  | listed_here dir x ents e :
      dir_of dir = Some ents → e ∈ ents → hidden e = false →
      listed dir x (x + 1) (join_path dir (d_name e))
  | listed_below dir x ents e lv p :
      dir_of dir = Some ents → e ∈ ents → hidden e = false → is_dir e = true →
      listed (join_path dir (d_name e)) (x + 1) lv p →
      listed dir x lv p.

Context (mk_path_join : ∀ dir name p, mk_path dir name = Ok p → p = join_path dir name).

(** A walk that returns lists exactly the specified entries. *)
Lemma walk_listed fuel dir x l lv p :
  walk fuel dir x = Ok l → (lv, p) ∈ l ↔ listed dir x lv p.
Proof using mk_path_join.
  revert dir x l. induction fuel as [|fuel IH]; intros dir x l Hw; [done|]. simpl in Hw.
  destruct (dir_of dir) as [ents|] eqn:Hd.
  2:{ destruct no_dir as [[]|?|?|]; try done. injection Hw as <-. split; [by intros ?%elem_of_nil|].
      inversion 1; congruence. }
  assert (Hents : (lv, p) ∈ l ↔ ∃ e, e ∈ ents ∧ hidden e = false ∧
    ((lv, p) = ((x + 1)%Z, join_path dir (d_name e)) ∨
     is_dir e = true ∧ listed (join_path dir (d_name e)) (x + 1) lv p)).
  { clear Hd. revert l Hw. induction ents as [|e ents IHe]; intros l Hw; simpl in Hw.
    - injection Hw as <-. set_solver.
    - destruct (hidden e) eqn:Hh.
      { rewrite (IHe l Hw). split.
        - intros (e' & He & Hv). exists e'. split; [by right|done].
        - intros (e' & [->|He]%elem_of_cons & Hv & ?); [congruence|by exists e']. }
      destruct (mk_path dir (d_name e)) as [q|?|?|] eqn:Hq; try done. simpl in Hw.
      apply mk_path_join in Hq as ->.
      destruct (if is_dir e then _ else _) as [sub|?|?|] eqn:Hs; try done. simpl in Hw.
      destruct (walk_entries _ _ _ ents) as [rest|?|?|] eqn:Hr; try done.
      injection Hw as <-. rewrite elem_of_cons, elem_of_app, (IHe rest eq_refl).
      assert (Hsub : (lv, p) ∈ sub ↔
                     is_dir e = true ∧ listed (join_path dir (d_name e)) (x + 1) lv p).
      { destruct (is_dir e); [rewrite (IH _ _ _ Hs); naive_solver|].
        injection Hs as <-. set_solver. }
      rewrite Hsub. split.
      + intros [E|[?|(e' & ? & ?)]]; [exists e|exists e|exists e'];
          (split; [by constructor|]); naive_solver.
      + intros (e' & [->|?]%elem_of_cons & ? & ?); [tauto|]. right. right. eauto. }
  rewrite Hents. split.
  - intros (e & He & Hh & [[= -> ->]|[? ?]]); [by eapply listed_here|by eapply listed_below].
  - inversion 1; subst; (eexists; split; [|split; [eassumption|]]); naive_solver.
Qed.

(** In a buffer of [cap] bytes the paths cannot grow for ever: that much fuel
    is always enough. *)
Lemma walk_entries_fuel rec dir x ents :
  (∀ name p, mk_path dir name = Ok p → rec p x ≠ NoFuel) →
  (∀ name, mk_path dir name ≠ NoFuel) →
  walk_entries rec dir x ents ≠ NoFuel.
Proof using.
  intros Hrec Hmk. induction ents as [|e ents IH]; simpl; [done|].
  destruct (hidden e); [done|]. specialize (Hmk (d_name e)). specialize (Hrec (d_name e)).
  destruct (mk_path dir (d_name e)) as [p|?|?|]; try done. simpl.
  specialize (Hrec p eq_refl). destruct (is_dir e); simpl.
  - destruct (rec p x); try done. simpl. by destruct (walk_entries _ _ _ ents).
  - by destruct (walk_entries _ _ _ ents).
Qed.

Lemma walk_fuel cap fuel dir x :
  (∀ d name p, mk_path d name = Ok p → length p < cap) →
  (∀ d name, mk_path d name ≠ NoFuel) → no_dir ≠ NoFuel →
  cap < fuel + length dir → 0 < fuel →
  walk fuel dir x ≠ NoFuel.
Proof using mk_path_join.
  intros Hcap Hmk Hnd. revert dir x. induction fuel as [|fuel IH]; intros dir x Hf H0; [lia|].
  simpl. destruct (dir_of dir) as [ents|]; [|by destruct no_dir].
  apply walk_entries_fuel; [|done]. intros name p Hp.
  pose proof (Hcap _ _ _ Hp). apply mk_path_join in Hp as ->.
  rewrite length_join_path in *. apply IH; rewrite ?length_join_path; lia.
Qed.
End walk.

(** The order in which a directory is read does not matter. *)
Section perm.
Context (dir1 dir2 : bytes → option (list dirent)).
Context (mk_path : bytes → bytes → outcome bytes) (no_dir : outcome unit).

Definition same_dirs : Prop :=
  ∀ p, match dir1 p, dir2 p with
       | Some ents1, Some ents2 => ents1 ≡ₚ ents2
       | None, None => True
       | _, _ => False
       end.

Lemma walk_entries_perm rec dir x ents1 ents2 l1 :
  ents1 ≡ₚ ents2 → walk_entries mk_path rec dir x ents1 = Ok l1 →
  ∃ l2, walk_entries mk_path rec dir x ents2 = Ok l2 ∧ l1 ≡ₚ l2.
Proof using.
  intros Hp. revert l1. induction Hp as [|e ents1 ents2 Hp IH|e e' ents|ents1 ents2 ents3 _ IH1 _ IH2];
    intros l1 H1.
  - eauto.
  - simpl in *. destruct (hidden e); [by apply IH|].
    destruct (mk_path dir (d_name e)) as [p|?|?|]; try done. simpl in *.
    destruct (if is_dir e then _ else _) as [sub|?|?|]; try done. simpl in *.
    destruct (walk_entries _ _ _ _ ents1) as [rest|?|?|]; try done. injection H1 as <-.
    destruct (IH rest eq_refl) as (rest2 & -> & ?). eexists. split; [done|].
    by do 2 f_equiv.
  - simpl in *. destruct (hidden e), (hidden e'); eauto.
    destruct (mk_path dir (d_name e')) as [p'|?|?|]; try done. simpl in *.
    destruct (if is_dir e' then _ else _) as [sub'|?|?|]; try done. simpl in *.
    destruct (mk_path dir (d_name e)) as [p|?|?|]; try done. simpl in *.
    destruct (if is_dir e then _ else _) as [sub|?|?|]; try done. simpl in *.
    destruct (walk_entries _ _ _ _ ents) as [rest|?|?|]; try done. simpl in *.
    injection H1 as <-. eexists. split; [done|]. rewrite !app_comm_cons, !(assoc_L (++)).
    by rewrite (comm (++) ((x, p') :: sub')).
  - destruct (IH1 _ H1) as (l2 & H2 & ?). destruct (IH2 _ H2) as (l3 & H3 & ?).
    exists l3. split; [done|]. by etrans.
Qed.

Lemma walk_entries_rec rec1 rec2 dir x ents l1 :
  (∀ p l1, rec1 p x = Ok l1 → ∃ l2, rec2 p x = Ok l2 ∧ l1 ≡ₚ l2) →
  walk_entries mk_path rec1 dir x ents = Ok l1 →
  ∃ l2, walk_entries mk_path rec2 dir x ents = Ok l2 ∧ l1 ≡ₚ l2.
Proof using.
  intros Hrec. revert l1. induction ents as [|e ents IH]; intros l1 H1; simpl in *; [eauto|].
  destruct (hidden e); [by apply IH|].
  destruct (mk_path dir (d_name e)) as [p|?|?|]; try done. simpl in *.
  assert (Hsub : ∀ sub, (if is_dir e then rec1 p x else Ok []) = Ok sub →
    ∃ sub2, (if is_dir e then rec2 p x else Ok []) = Ok sub2 ∧ sub ≡ₚ sub2).
  { destruct (is_dir e); [apply Hrec|eauto]. }
  destruct (if is_dir e then rec1 _ _ else _) as [sub|?|?|]; try done. simpl in *.
  destruct (Hsub sub eq_refl) as (sub2 & -> & ?). simpl.
  destruct (walk_entries _ rec1 _ _ ents) as [rest|?|?|]; try done. injection H1 as <-.
  destruct (IH rest eq_refl) as (rest2 & -> & ?). eexists. split; [done|]. by do 2 f_equiv.
Qed.

Lemma walk_perm fuel dir x l1 :
  same_dirs → walk dir1 mk_path no_dir fuel dir x = Ok l1 →
  ∃ l2, walk dir2 mk_path no_dir fuel dir x = Ok l2 ∧ l1 ≡ₚ l2.
Proof using.
  intros Hs. revert dir x l1. induction fuel as [|fuel IH]; intros dir x l1 H1; [done|].
  simpl in *. specialize (Hs dir).
  destruct (dir1 dir) as [ents1|], (dir2 dir) as [ents2|]; try done; [|eauto].
  destruct (walk_entries_perm _ _ _ _ _ _ Hs H1) as (l & Hl & ?).
  destruct (walk_entries_rec _ (walk dir2 mk_path no_dir fuel) _ _ _ _ (λ p, IH p _) Hl)
    as (l2 & H2 & ?).
  exists l2. split; [done|]. by etrans.
Qed.
End perm.

(** The walk as a program: [visit] is what is done for an entry. *)
Section visit.
Context {St : Type} (dir_of : bytes → option (list dirent)).
Context (mk_path : bytes → bytes → outcome bytes) (no_dir : outcome unit).
Context (visit : bytes → Z → M St unit).

Definition visit_entry (rec : bytes → Z → M St unit) (dir : bytes) (x : Z) (e : dirent) :
    M St unit :=
  if hidden e then mret tt
  else
    p ← lift (mk_path dir (d_name e));
    visit p x;;
    if is_dir e then rec p x else mret tt.

Fixpoint visit_tree (fuel : nat) (dir : bytes) (x : Z) : M St unit :=
  match fuel with
  | O => no_fuel
  | S fuel' =>
      match dir_of dir with
      | None => lift no_dir
      | Some ents => for_each (visit_entry (visit_tree fuel') dir (x + 1)) ents
      end
  end.

Definition visit_all (l : list (Z * bytes)) : M St unit := for_each (λ xp, visit xp.2 xp.1) l.

(** What the visits keep, and under which they cannot fail. *)
Context (Inv : St → Prop).
Context (visit_ok : ∀ p x s, Inv s → ∃ s', visit p x s = Ok (tt, s') ∧ Inv s').

Lemma visit_all_ok l s : Inv s → ∃ s', visit_all l s = Ok (tt, s') ∧ Inv s'.
Proof using visit_ok.
  revert s. induction l as [|[x p] l IH]; intros s Hs; [by exists s|].
  destruct (visit_ok p x s Hs) as (s1 & H1 & Hs1). destruct (IH s1 Hs1) as (s' & H2 & ?).
  exists s'. split; [|done]. unfold visit_all. simpl. by erewrite bind_Ok by exact H1.
Qed.

Lemma visit_all_app l1 l2 s :
  visit_all (l1 ++ l2) s = (visit_all l1;; visit_all l2) s.
Proof using. apply for_each_app. Qed.

(** It does the visits of the entries that [walk] lists, in that order, and it
    ends as [walk] ends. *)
Lemma visit_tree_walk fuel dir x s :
  Inv s →
  visit_tree fuel dir x s = (l ← lift (walk dir_of mk_path no_dir fuel dir x); visit_all l) s.
Proof using visit_ok.
  revert dir x s. induction fuel as [|fuel IH]; intros dir x s Hs; [done|].
  simpl. destruct (dir_of dir) as [ents|].
  2:{ unfold lift, mbind at 2, M_bind. by destruct no_dir as [[]|?|?|]. }
  generalize (x + 1)%Z. intros x1. clear x. revert s Hs.
  induction ents as [|e ents IHe]; intros s Hs; [done|]. cbn [for_each walk_entries].
  set (prog := for_each _ ents) in *. unfold visit_entry. clearbody prog. destruct (hidden e); [by apply IHe|].
  destruct (mk_path dir (d_name e)) as [p|?|?|]; try done.
  rewrite bind_assoc. erewrite bind_Ok by done. cbv beta. rewrite bind_assoc.
  destruct (visit_ok p x1 s Hs) as (s1 & H1 & Hs1). erewrite bind_Ok by exact H1. cbv beta.
  assert (Hsub : (if is_dir e then visit_tree fuel p x1 else mret tt) s1 =
    (l ← lift (if is_dir e then walk dir_of mk_path no_dir fuel p x1 else Ok []); visit_all l) s1).
  { destruct (is_dir e); [by apply IH|done]. }
  simpl. destruct (if is_dir e then walk _ _ _ _ _ _ else _) as [sub|?|?|].
  2-4: unfold mbind at 1, M_bind; by rewrite Hsub.
  destruct (visit_all_ok sub s1 Hs1) as (s2 & H2 & Hs2).
  change ((l ← lift (Ok sub); visit_all l) s1) with (visit_all sub s1) in Hsub.
  rewrite H2 in Hsub. erewrite bind_Ok by exact Hsub. cbv beta. rewrite (IHe s2 Hs2). simpl.
  destruct (walk_entries _ _ _ _ _) as [rest|?|?|]; try done.
  change ((l ← lift (Ok rest); visit_all l) s2) with (visit_all rest s2).
  change (visit_all rest s2 = visit_all ((x1, p) :: sub ++ rest) s).
  unfold visit_all at 2. cbn [for_each fst snd]. erewrite bind_Ok by exact H1. cbv beta.
  change (visit_all rest s2 = visit_all (sub ++ rest) s1). rewrite visit_all_app.
  by erewrite bind_Ok by exact H2.
Qed.
End visit.
