(* ===== verification/FileSearch.v ===== *)
(** * Counting a keyword in a file

    [keyword_search] of Lin/pardirlist/pardirlist.c and [search_test] of the two
    other pardirlist.c: read the file through a buffer of 1024 bytes, cut each
    piece into words, count the words that are the keyword. *)

From stdpp Require Import base list gmap fin_maps strings.
From Stdlib Require Import Ascii.
From S2P Require Import Prelude CString Text CMem Dll Objects FileSys.

(** [char delim[] = " \t\n";] *)
Definition delim : bytes := [SP; TAB; NL].

(** ** The specification *)

Definition occurrences (kw : bytes) (ws : list bytes) : Z :=
  Z.of_nat (length (filter (λ w, w = kw) ws)).

Lemma occurrences_app kw ws1 ws2 :
  occurrences kw (ws1 ++ ws2) = (occurrences kw ws1 + occurrences kw ws2)%Z.
Proof. unfold occurrences. rewrite filter_app, length_app. lia. Qed.

Lemma occurrences_cons kw w ws :
  occurrences kw (w :: ws) = ((if decide (w = kw) then 1 else 0) + occurrences kw ws)%Z.
Proof. unfold occurrences. rewrite filter_cons. case_decide; simpl; lia. Qed.

Lemma occurrences_snoc kw ws w :
  occurrences kw (ws ++ [w]) = (occurrences kw ws + if decide (w = kw) then 1 else 0)%Z.
Proof. rewrite occurrences_app, occurrences_cons. change (occurrences kw []) with 0%Z. lia. Qed.

(** The words that are compared with the keyword, and how many are equal to it. *)
Definition seen (fs : fsys) (path : bytes) : list bytes :=
  match fs_dir fs path, fs_file fs path with
  | None, Some content => file_words 1024 delim content
  | _, _ => []
  end.
Definition hits (fs : fsys) (kw path : bytes) : Z := occurrences kw (seen fs path).

(** 0 for a directory, -1 for a file that does not open. *)
Definition search_result (fs : fsys) (kw path : bytes) : Z :=
  match fs_dir fs path, fs_file fs path with
  | None, None => -1
  | _, _ => hits fs kw path
  end.

Section search.
Context {P H : Type}.
Abbreviation blk := (block P H aobj).
Abbreviation C := (M (heap blk)).
Implicit Types (h : heap blk).

(** What is done to a word before it is copied, when it matches (after so many others), and with the
    copy at the end. *)
Context (clean : bytes → outcome bytes) (on_match : Z → C unit) (release : ptr → C unit).
Context (keyword : bytes).

(** [word = strdup(...); if (strcmp(keyword,word)==0) count++; free(word);] *)
Definition search_word (w : bytes) (count : Z) : C Z :=
  w' ← lift (clean w);
  word ← strdup w';
  s ← read_str word;
  count' ← (if decide (strcmp keyword s = 0%Z) then on_match count;; mret (count + 1)%Z else mret count);
  release word;;
  mret count'.

(** [for (word = strtok_r(buffer,delim,&ptr); word != NULL; word = strtok_r(NULL,delim,&ptr))] *)
Definition words_body (st : bytes * Z) : C (bytes * Z + Z) :=
  let '(rest, count) := st in
  match strtok_r delim rest with
  | None => mret (inr count)
  | Some (w, rest') => count' ← search_word w count; mret (inl (rest', count'))
  end.

(** [while (fgets(buffer, 1024, file) != NULL)] *)
Definition lines_body (st : bytes * Z) : C (bytes * Z + Z) :=
  let '(stream, count) := st in
  match fgets 1024 stream with
  | None => mret (inr count)
  | Some (buffer, stream') =>
      count' ← loop (S (length (c_str buffer))) words_body (c_str buffer, count);
      mret (inl (stream', count'))
  end.

Definition search_file (fs : fsys) (filePath : bytes) : C Z :=
  match fs_dir fs filePath with
  | Some _ => mret 0%Z
  | None =>
      match fs_file fs filePath with
      | None => mret (-1)%Z
      | Some content => loop (S (length content)) lines_body (content, 0%Z)
      end
  end.

(** [I ws h]: what is known of the heap when the words [ws] have been read. *)
Context (I : list bytes → heap blk → Prop).
Context (word_ok : ∀ ws w h,
  NUL ∉ w → SP ∉ w → I ws h →
  ∃ h', search_word w (occurrences keyword ws) h = Ok (occurrences keyword (ws ++ [w]), h') ∧ I (ws ++ [w]) h').

Lemma words_loop_ok fuel buf ws h :
  NUL ∉ buf → length buf < fuel → I ws h →
  ∃ h', loop fuel words_body (buf, occurrences keyword ws) h =
          Ok (occurrences keyword (ws ++ words delim buf), h') ∧ I (ws ++ words delim buf) h'.
Proof using word_ok.
  revert buf ws h. induction fuel as [|fuel IH]; intros buf ws h H0 Hf Hi; [lia|].
  pose proof (strtok_words delim buf) as Hw.
  destruct (strtok_r delim buf) as [[w r]|] eqn:E.
  - destruct Hw as (-> & Hl & Hc). rewrite Forall_forall in Hc.
    assert (NUL ∉ w ∧ NUL ∉ r) as [H0w H0r].
    { split; intros ?; apply H0; eapply strtok_elem; eauto. }
    assert (SP ∉ w) as Hsp by (intros Hin; apply (Hc _ Hin); left).
    destruct (word_ok ws w h H0w Hsp Hi) as (h1 & H1 & Hi1).
    destruct (IH r _ h1 H0r ltac:(lia) Hi1) as (h' & H2 & Hi2).
    exists h'. rewrite cons_middle, app_assoc. split; [|done].
    erewrite loop_step; [exact H2|]. unfold words_body. rewrite E. by erewrite bind_Ok by exact H1.
  - rewrite Hw, app_nil_r. exists h. split; [|done]. apply loop_done. unfold words_body. by rewrite E.
Qed.

Lemma lines_loop_ok fuel stream ws h :
  length stream < fuel → I ws h →
  ∃ h', loop fuel lines_body (stream, occurrences keyword ws) h =
          Ok (occurrences keyword (ws ++ file_words 1024 delim stream), h') ∧
        I (ws ++ file_words 1024 delim stream) h'.
Proof using word_ok.
  revert stream ws h. induction fuel as [|fuel IH]; intros stream ws h Hf Hi; [lia|].
  destruct (fgets 1024 stream) as [[l r]|] eqn:E.
  - rewrite (file_words_step 1024 _ _ _ _ ltac:(lia) E).
    pose proof (fgets_Some 1024 _ _ _ ltac:(lia) E) as (_ & _ & _ & Hl).
    destruct (words_loop_ok (S (length (c_str l))) (c_str l) ws h (c_str_clean l)
      (Nat.lt_succ_diag_r _) Hi)
      as (h1 & H1 & Hi1).
    destruct (IH r _ h1 ltac:(lia) Hi1) as (h' & H2 & Hi2).
    exists h'. rewrite app_assoc. split; [|done].
    erewrite loop_step; [exact H2|]. unfold lines_body. rewrite E. by erewrite bind_Ok by exact H1.
  - assert (stream = []) as -> by by destruct stream.
    change (file_words 1024 delim []) with (@nil bytes). rewrite app_nil_r.
    exists h. split; [|done]. by apply loop_done.
Qed.

(** The search returns the number of words that are the keyword. *)
Lemma search_file_ok fs path h :
  I [] h →
  ∃ h', search_file fs path h = Ok (search_result fs keyword path, h') ∧ I (seen fs path) h'.
Proof using word_ok.
  intros Hi. unfold search_file, search_result, hits, seen.
  destruct (fs_dir fs path) as [|]; [by exists h|].
  destruct (fs_file fs path) as [content|]; [|by exists h].
  exact (lines_loop_ok (S (length content)) content [] h ltac:(lia) Hi).
Qed.
End search.

Section variants.
Context {P H : Type}.
Abbreviation blk := (block P H aobj).
Abbreviation C := (M (heap blk)).
Implicit Types (h : heap blk).

(** pardirlist.c of Lin. *)
Definition keyword_search (fs : fsys) (filePath keyword : bytes) : C Z :=
  search_file Ok (λ _, mret tt) free keyword fs filePath.

(** Project2 counts in a global too; blanks are removed from the word. *)
Definition search_test (totalMatches : ptr) (fs : fsys) (filePath keyword : bytes) : C Z :=
  search_file rws_str (λ _, incr totalMatches) free keyword fs filePath.

(** [totalMatches++] for match [i] of a file. Threads of pardirlist_rev1.c that search at the same time do
    not lock the global: another may store to it between the load and the store. [race] is what the
    loads give then; [None] for a search that runs alone. *)
Definition count_match (race : option (bytes → Z → Z)) (totalMatches : ptr) (filePath : bytes) (i : Z) : C unit :=
  match race with None => incr totalMatches | Some loaded => incr_from (loaded filePath i) totalMatches end.

(** pardirlist_rev1.c does not free the copies. *)
Definition search_test_rev1 (race : option (bytes → Z → Z)) (totalMatches : ptr) (fs : fsys)
    (filePath keyword : bytes) : C Z :=
  search_file rws_str (count_match race totalMatches filePath) (λ _, mret tt) keyword fs filePath.

Lemma strcmp_word (kw w : bytes) : strcmp kw w = 0%Z ↔ w = kw.
Proof. rewrite strcmp_0. by split. Qed.

(** A copy that is freed leaves the heap as it was. *)
Lemma keyword_search_ok fs path kw h :
  budget h = None →
  keyword_search fs path kw h = Ok (search_result fs kw path, h).
Proof.
  intros Hb.
  destruct (search_file_ok Ok (λ _, mret tt) free kw (λ _ h', h' = h)) with (fs := fs) (path := path)
    (h := h) as (h' & H1 & ->); [|done|exact H1].
  intros ws w h0 _ _ ->. rewrite occurrences_snoc. set (count := occurrences kw ws).
  eexists. split; [|done]. unfold search_word.
  erewrite bind_Ok by by apply lift_Ok. cbv beta. unfold strdup. mstep.
  pose proof (fresh_loc_fresh h) as Hf. mstep.
  assert (Hfree : free (Some (fresh_loc h)) (hset (fresh_loc h) (Other (Str w)) h) = Ok (tt, h)).
  { erewrite free_ok by (simpl; by rewrite lookup_insert_eq). unfold hdel. simpl.
    rewrite delete_insert_id by done. by destruct h. }
  destruct (decide (w = kw)) as [->|Hne].
  - rewrite decide_True by by apply strcmp_word. erewrite bind_Ok by done. cbv beta.
    by erewrite bind_Ok by exact Hfree.
  - rewrite decide_False by by rewrite strcmp_word. erewrite bind_Ok by done. cbv beta.
    erewrite bind_Ok by exact Hfree. cbv beta. by rewrite Z.add_0_r.
Qed.

(** One word of the searches that count in the global at [g]: a match makes [m] of it. *)
Lemma count_word_ok release bump g kw w n m count h :
  budget h = None → NUL ∉ w → SP ∉ w → cells h !! g = Some (Other (Int n)) →
  (∀ h', cells h' !! g = Some (Other (Int n)) → bump count h' = Ok (tt, hset g (Other (Int m)) h')) →
  let k := if decide (w = kw) then 1%Z else 0%Z in
  let l := fresh_loc h in
  let h1 := hset g (Other (Int (if decide (w = kw) then m else n))) (hset l (Other (Str w)) h) in
  cells h !! l = None → g ≠ l →
  search_word rws_str bump release kw w count h = (release (Some l);; mret (count + k)%Z) h1.
Proof.
  intros Hb H0 Hsp Hg Hbump. cbv zeta. intros Hl Hne. unfold search_word.
  erewrite bind_Ok by (apply lift_Ok; by apply rws_str_ok). cbv beta.
  rewrite no_blanks_id by done. unfold strdup. mstep. mstep.
  destruct (decide (w = kw)) as [->|Hk].
  - rewrite decide_True by by apply strcmp_word.
    erewrite bind_Ok.
    2:{ erewrite bind_Ok; [done|]. apply Hbump. simpl. by simplify_map_eq. }
    done.
  - rewrite decide_False by by rewrite strcmp_word. erewrite bind_Ok by done. cbv beta.
    rewrite !Z.add_0_r.
    assert (Hid : hset g (Other (Int n)) (hset (fresh_loc h) (Other (Str w)) h) =
                  hset (fresh_loc h) (Other (Str w)) h).
    { unfold hset. simpl. rewrite insert_id; [done|]. by rewrite lookup_insert_ne. }
    by rewrite Hid.
Qed.

(** The search of Project2 adds to the counter and changes nothing else. *)
Lemma search_test_ok g fs path kw n h :
  budget h = None → cells h !! g = Some (Other (Int n)) →
  search_test (Some g) fs path kw h =
    Ok (search_result fs kw path, hset g (Other (Int (n + hits fs kw path))) h).
Proof.
  intros Hb Hg.
  destruct (search_file_ok rws_str (λ _, incr (Some g)) free kw
              (λ ws h', h' = hset g (Other (Int (n + occurrences kw ws))) h))
    with (fs := fs) (path := path) (h := h) as (h' & H1 & ->); [|..|exact H1].
  2:{ change (occurrences kw []) with 0%Z. rewrite Z.add_0_r.
      unfold hset. rewrite insert_id by done. by destruct h. }
  intros ws w h0 H0 Hsp ->. eexists. split; [|done].
  set (h1 := hset g _ h). pose proof (fresh_loc_fresh h1) as Hf.
  assert (g ≠ fresh_loc h1) as Hne.
  { intros E. rewrite <- E in Hf. subst h1. simpl in Hf. by rewrite lookup_insert_eq in Hf. }
  rewrite (count_word_ok free _ g kw w (n + occurrences kw ws) (n + occurrences kw ws + 1)) by
    (done || (intros; by apply incr_ok) || subst h1; simpl; by rewrite lookup_insert_eq).
  erewrite bind_Ok by (eapply free_ok; simpl; by simplify_map_eq). cbv beta.
  rewrite occurrences_snoc. do 2 f_equal. unfold hset, hdel. simpl. f_equal.
  rewrite delete_insert_ne, delete_insert_id by done. subst h1. simpl. rewrite insert_insert_eq.
  unfold mret, M_ret. case_decide; rewrite ?Z.add_0_r, ?Z.add_assoc; reflexivity.
Qed.

(** What a search that counts in the global at [g] does beside a list: it
    returns the count, makes [after p n] of the global, and leaves [leaks] blocks behind. *)
Definition count_spec {V} `{!NodeData P H aobj V} (fs : fsys) (kw : bytes) (g : loc)
    (leaks : bytes → nat) (after : bytes → Z → Z) (search : bytes → C Z) : Prop :=
  ∀ h hp hx es R n p,
    dlown h hp hx es R → R !! g = Some (Other (Int n)) →
    ∃ h' R', search p h = Ok (search_result fs kw p, h') ∧ dlown h' hp hx es R' ∧
      R' !! g = Some (Other (Int (after p n))) ∧
      leaked (leaks p) (delete g R) (delete g R').

(** The sum, when nobody else counts. *)
Definition adds_hits (fs : fsys) (kw p : bytes) (n : Z) : Z := (n + hits fs kw p)%Z.

Lemma search_test_counts {V} `{!NodeData P H aobj V} g fs kw :
  count_spec fs kw g (λ _, 0) (adds_hits fs kw) (λ p, search_test (Some g) fs p kw).
Proof.
  intros h hp hx es R n p Ho Hg. pose proof (dlown_rest _ _ _ _ _ _ _ Ho Hg) as Hc.
  destruct (dlown_store h hp hx es R g _ (Other (Int (n + hits fs kw p))) Ho Hg) as (h' & _ & Ho' & ->).
  eexists _, _. split; [apply (search_test_ok g fs p kw n h (do_budget _ _ _ _ _ Ho) Hc)|].
  split; [exact Ho'|]. rewrite lookup_insert_eq, delete_insert_eq. split; [done|apply leaked_0].
Qed.

(** What [k] matches of a file make of the global: the sum, or one more than the last of them has loaded. *)
Definition total_after (race : option (bytes → Z → Z)) (p : bytes) (n k : Z) : Z :=
  match race with
  | None => n + k
  | Some loaded => if decide (k = 0%Z) then n else loaded p (k - 1)%Z + 1
  end.

Lemma count_match_ok race g p n k h :
  (0 ≤ k)%Z → cells h !! g = Some (Other (Int (total_after race p n k))) →
  count_match race (Some g) p k h = Ok (tt, hset g (Other (Int (total_after race p n (k + 1)))) h).
Proof.
  intros Hk Hg. unfold count_match, total_after in *. destruct race as [loaded|].
  - rewrite (incr_from_ok _ _ _ _ Hg), decide_False by lia. by replace (k + 1 - 1)%Z with k by lia.
  - rewrite (incr_ok _ _ _ Hg). by replace (n + k + 1)%Z with (n + (k + 1))%Z by lia.
Qed.

Lemma occurrences_pos kw ws : (0 ≤ occurrences kw ws)%Z.
Proof. unfold occurrences. lia. Qed.

(** The search of pardirlist_rev1.c keeps a copy of every word. *)
Lemma search_test_rev1_counts {V} `{!NodeData P H aobj V} race g fs kw :
  count_spec fs kw g (λ p, length (seen fs p)) (λ p n, total_after race p n (hits fs kw p))
    (λ p, search_test_rev1 race (Some g) fs p kw).
Proof.
  intros h hp hx es R n p Ho Hg.
  destruct (search_file_ok rws_str (count_match race (Some g) p) (λ _, mret tt) kw
              (λ ws h', ∃ R', dlown h' hp hx es R' ∧
                 R' !! g = Some (Other (Int (total_after race p n (occurrences kw ws)))) ∧
                 leaked (length ws) (delete g R) (delete g R')))
    with (fs := fs) (path := p) (h := h) as (h' & H1 & R' & H2);
    [|..|by exists h', R'].
  2:{ exists R. split; [done|]. change (occurrences kw []) with 0%Z. split; [|apply leaked_0].
      unfold total_after. destruct race; [done|]. by rewrite Z.add_0_r. }
  intros ws w h0 H0 Hsp (R0 & Ho0 & Hg0 & Hl0).
  pose proof (do_budget _ _ _ _ _ Ho0) as Hb0. pose proof (fresh_loc_fresh h0) as Hf.
  pose proof (dlown_rest _ _ _ _ _ _ _ Ho0 Hg0) as Hc0.
  assert (g ≠ fresh_loc h0) as Hne by (intros E; congruence).
  destruct (dlown_malloc h0 hp hx es R0 (Other (Str w)) Ho0) as (h1 & l & Hm & HRl & _ & Ho1).
  rewrite malloc_ok in Hm by done. injection Hm as <- <-.
  destruct (dlown_store _ hp hx es _ g (Other (Int (total_after race p n (occurrences kw ws))))
    (Other (Int (total_after race p n (occurrences kw (ws ++ [w]))))) Ho1) as (h2 & _ & Ho2 & ->);
    [by rewrite lookup_insert_ne|].
  eexists. split.
  { rewrite (count_word_ok _ _ g kw w (total_after race p n (occurrences kw ws))
      (total_after race p n (occurrences kw ws + 1))) by
      (done || (intros; apply count_match_ok; [apply occurrences_pos|done])).
    rewrite occurrences_snoc. reflexivity. }
  assert (E : (if decide (w = kw) then total_after race p n (occurrences kw ws + 1)
    else total_after race p n (occurrences kw ws)) = total_after race p n (occurrences kw (ws ++ [w]))).
  { rewrite occurrences_snoc. case_decide; [done|by rewrite Z.add_0_r]. }
  rewrite E. eexists. split; [exact Ho2|].
  split; [by rewrite lookup_insert_eq|].
  rewrite length_app, Nat.add_1_r, delete_insert_eq, delete_insert_ne by done.
  apply leaked_insert; [done|]. by rewrite lookup_delete_ne.
Qed.
End variants.

(** ** What the count means *)

(** C9: when no line of the file is longer than the buffer (1022 bytes and the
    newline) and the file has no NUL byte, the result of [keyword_search] is the
    number of words of the file, cut at blanks, tabs and newlines, that are the
    keyword. *)
Theorem keyword_search_counts_words {P H} (h : heap (block P H aobj)) fs path kw content :
  budget h = None → fs_dir fs path = None → fs_file fs path = Some content →
  NUL ∉ content → lines_fit 1023 1023 content = true →
  keyword_search fs path kw h = Ok (occurrences kw (words delim content), h).
Proof.
  intros Hb Hd Hf H0 Hl. rewrite keyword_search_ok by done.
  unfold search_result, hits, seen. rewrite Hd, Hf.
  by rewrite (file_words_words 1024) by (done || lia || (right; right; left)).
Qed.

Definition demo_file : bytes := lit "int a; int b" ++ [NL] ++ lit "print int" ++ [NL; TAB] ++ lit "int".
Definition demo_files (content : bytes) : fsys :=
  FSys (λ _, None) (λ _, Some content) (λ _, true) (Ok tt).

Lemma keyword_search_counts_words_witness :
  keyword_search (P:=unit) (H:=unit) (demo_files demo_file) (lit "f") (lit "int") empty_heap = Ok (4%Z, empty_heap).
Proof.
  refine (keyword_search_counts_words empty_heap (demo_files demo_file) (lit "f") (lit "int")
    demo_file eq_refl eq_refl eq_refl _ eq_refl).
  apply (bool_decide_unpack _). vm_compute. exact I.
Defined.

(** A line of 1025 bytes whose last word is the keyword. *)
Definition long_line : bytes := replicate 1021 "x"%char ++ lit " int" ++ [NL].

(** a word that is cut by the end of the 1024-byte buffer is not counted: the
    file has the keyword once as a word and [keyword_search] returns 0. *)
Theorem keyword_search_misses_cut_word :
  occurrences (lit "int") (words delim long_line) = 1%Z ∧
  keyword_search (P:=unit) (H:=unit) (demo_files long_line) (lit "f") (lit "int") empty_heap =
    Ok (0%Z, empty_heap).
Proof. split; [vm_compute; reflexivity|]. rewrite keyword_search_ok by done. by vm_compute. Qed.

(** [search_test] of Project2 returns the same count, and adds it to
    [totalMatches]; nothing else in memory changes. *)
Theorem search_test_counts_and_adds {P H} (h : heap (block P H aobj)) g fs path kw n :
  budget h = None → cells h !! g = Some (Other (Int n)) →
  search_test (Some g) fs path kw h =
    Ok (search_result fs kw path, hset g (Other (Int (n + hits fs kw path))) h).
Proof. intros. by apply search_test_ok. Qed.

Lemma search_test_counts_and_adds_witness :
  search_test (P:=unit) (H:=unit) (Some 1%positive) (demo_files demo_file) (lit "f") (lit "int")
    (Heap {[ 1%positive := Other (Int 7) ]} None) =
  Ok (4%Z, Heap {[ 1%positive := Other (Int 11) ]} None).
Proof.
  refine (eq_trans (search_test_counts_and_adds (Heap {[ 1%positive := Other (Int 7) ]} None)
    1%positive (demo_files demo_file) (lit "f") (lit "int") 7 eq_refl eq_refl) _).
  vm_compute. reflexivity.
Defined.
