(* ===== verification/Listing.v ===== *)
(** * What a directory listing is

    The specification that all the directory programs are proved against - the
    entries of the walk, ordered by level and path and numbered within their
    level - and the interface between the walk of FileSys.v and the lists that
    the programs build during it. *)

From stdpp Require Import base list sets gmap strings sorting.
From S2P Require Import Prelude CString CMem LevelList Dll SortedInsert ListSort FileSys.

(** ** The specification *)

Abbreviation entry := (Z * bytes)%type.

Definition entry_le : relation entry := lp_le fst snd.

#[export] Instance strcmp_dec (a b : entry) : Decision (entry_le a b).
Proof. unfold entry_le, lp_le. apply _. Defined.

#[export] Instance entry_le_trans : Transitive entry_le.
Proof. apply lp_le_trans. Qed.

#[export] Instance entry_le_antisym : AntiSymm (=) entry_le.
Proof. intros [] [] H1 H2. destruct (lp_le_antisym_key _ _ _ _ H1 H2). simpl in *. by subst. Qed.

#[export] Instance entry_le_total : Total entry_le.
Proof.
  intros a b. unfold entry_le, lp_le. rewrite (strcmp_opp a.2 b.2). lia.
Qed.

(** The rank of each entry among the entries of its level before it. *)
Definition numbered (l : list entry) : list (Z * Z * bytes) :=
  imap (λ i e, (e.1, Z.of_nat (1 + count e.1 (take i l.*1)), e.2)) l.

(** The listing of a set of entries, whatever the order in which they were met. *)
Definition listing (l : list entry) : list (Z * Z * bytes) := numbered (merge_sort entry_le l).

Lemma listing_perm l1 l2 : l1 ≡ₚ l2 → listing l1 = listing l2.
Proof.
  intros E. unfold listing. f_equal. apply (StronglySorted_unique entry_le).
  - apply (StronglySorted_merge_sort entry_le).
  - apply (StronglySorted_merge_sort entry_le).
  - by rewrite !merge_sort_Permutation.
Qed.

(** ** From the values of a list to the listing *)
Section values.
Context {V : Type} (lev num : V → Z) (pth : V → bytes) (setnum : V → Z → V).
Context (lev_setnum : ∀ v n, lev (setnum v n) = lev v).
Context (pth_setnum : ∀ v n, pth (setnum v n) = pth v).
Context (num_setnum : ∀ v n, num (setnum v n) = n).

Definition ekey (v : V) : entry := (lev v, pth v).
Definition etriple (v : V) : Z * Z * bytes := (lev v, num v, pth v).

Lemma lp_le_ekey vs : StronglySorted (lp_le lev pth) vs → StronglySorted entry_le (ekey <$> vs).
Proof using.
  induction 1 as [|v vs _ IH Hv]; [constructor|]. constructor; [done|].
  apply Forall_fmap. eapply Forall_impl; [exact Hv|]. done.
Qed.

Lemma number_from_ekey n v vs : ekey <$> number_from lev setnum n v vs = ekey <$> v :: vs.
Proof using lev_setnum pth_setnum.
  revert n v. induction vs as [|w vs IH]; intros n v; simpl; [done|].
  case_decide; simpl; rewrite IH; simpl; [|done].
  unfold ekey at 2. by rewrite lev_setnum, pth_setnum.
Qed.

Lemma number_ekey vs : ekey <$> number lev setnum vs = ekey <$> vs.
Proof using lev_setnum pth_setnum. destruct vs; [done|]. apply number_from_ekey. Qed.

(** Values in order whose numbers are all 1, once numbered, are the listing
    of what they started from. *)
Lemma number_listing vs es :
  StronglySorted (lp_le lev pth) vs → Forall (λ v, num v = 1%Z) vs →
  ekey <$> vs ≡ₚ es →
  etriple <$> number lev setnum vs = listing es.
Proof using lev_setnum num_setnum pth_setnum.
  intros Hs Hn Hp. unfold listing.
  assert (merge_sort entry_le es = ekey <$> vs) as ->.
  { apply (StronglySorted_unique entry_le); [apply (StronglySorted_merge_sort entry_le)| |].
    - by apply lp_le_ekey.
    - by rewrite merge_sort_Permutation. }
  assert (Hlev : StronglySorted Z.le (lev <$> vs)).
  { clear -Hs. induction Hs as [|v vs _ IH Hv]; [constructor|]. constructor; [done|].
    apply Forall_fmap. eapply Forall_impl; [exact Hv|]. intros w [?|[? _]]; simpl; lia. }
  assert (Hfst : (ekey <$> vs).*1 = lev <$> vs) by by rewrite <- list_fmap_compose.
  apply list_eq. intros i. unfold numbered. rewrite list_lookup_fmap, list_lookup_imap, Hfst.
  rewrite <- number_ekey, list_lookup_fmap.
  destruct (number lev setnum vs !! i) as [v|] eqn:Hi; [|done]. simpl. f_equal.
  unfold etriple. f_equal. f_equal.
  by apply (number_rank lev num setnum lev_setnum num_setnum vs i v).
Qed.
End values.

(** ** Building a list during the walk *)

(** [visit p x] puts a new value, [mk x p], in the list that the state
    represents, at its sorted place, and adds to what is accumulated beside it
    (a text that was printed, a count) by [step]. *)
Class Builder {St V Acc} (visit : bytes → Z → M St unit) (lev : V → Z)
    (mk : Z → bytes → V) (step : Acc → Z → bytes → Acc) (repr : Acc → St → list V → Prop) := {
  lev_mk x p : lev (mk x p) = x;
  visit_repr a s vs x p :
    repr a s vs → ∃ s', visit p x s = Ok (tt, s') ∧ repr (step a x p) s' (place lev (mk x p) vs);
}.

Section build.
Context {St V Acc : Type} {visit : bytes → Z → M St unit} {lev : V → Z}.
Context {mk : Z → bytes → V} {step : Acc → Z → bytes → Acc} {repr : Acc → St → list V → Prop}.
Context `{!Builder visit lev mk step repr}.

Fixpoint place_all (l : list entry) (vs : list V) : list V :=
  match l with
  | [] => vs
  | (x, p) :: l' => place_all l' (place lev (mk x p) vs)
  end.

Fixpoint step_all (l : list entry) (a : Acc) : Acc :=
  match l with
  | [] => a
  | (x, p) :: l' => step_all l' (step a x p)
  end.

Lemma place_all_perm l vs : place_all l vs ≡ₚ vs ++ ((λ xp, mk xp.1 xp.2) <$> l).
Proof using.
  revert vs. induction l as [|[x p] l IH]; intros vs; simpl; [by rewrite app_nil_r|].
  rewrite IH, place_perm. simpl. apply Permutation_middle.
Qed.

Lemma place_all_sorted l vs :
  StronglySorted (key_le lev) vs → StronglySorted (key_le lev) (place_all l vs).
Proof using.
  revert vs. induction l as [|[x p] l IH]; intros vs Hs; simpl; [done|].
  apply IH. by apply place_sorted.
Qed.

Lemma build_ok l a s vs :
  repr a s vs → ∃ s', visit_all visit l s = Ok (tt, s') ∧ repr (step_all l a) s' (place_all l vs).
Proof using Builder0.
  revert a s vs. induction l as [|[x p] l IH]; intros a s vs Hs; [by exists s|].
  destruct (visit_repr a s vs x p Hs) as (s1 & H1 & Hs1).
  destruct (IH _ s1 _ Hs1) as (s' & H2 & ?). exists s'. split; [|done].
  unfold visit_all. simpl. by erewrite bind_Ok by exact H1.
Qed.

Lemma visits_never_fail q x s :
  (∃ a vs, repr a s vs) → ∃ s', visit q x s = Ok (tt, s') ∧ ∃ a vs, repr a s' vs.
Proof using Builder0.
  intros (a & vs & Hs). destruct (visit_repr a s vs x q Hs) as (s' & ? & ?). eauto.
Qed.

(** The walk that succeeds builds the list of its entries ... *)
Lemma visit_tree_build dir_of mk_path no_dir fuel dir x a s vs l :
  repr a s vs → walk dir_of mk_path no_dir fuel dir x = Ok l →
  ∃ s', visit_tree dir_of mk_path no_dir visit fuel dir x s = Ok (tt, s') ∧
    repr (step_all l a) s' (place_all l vs).
Proof using Builder0.
  intros Hs Hw. destruct (build_ok l a s vs Hs) as (s' & H & Hs'). exists s'. split; [|done].
  rewrite (visit_tree_walk _ _ _ _ _ visits_never_fail); [by rewrite Hw|by exists a, vs].
Qed.

(** ... and one that does not succeed ends the program in the same way. *)
Lemma visit_tree_fails dir_of mk_path no_dir fuel dir x a s vs :
  repr a s vs →
  match walk dir_of mk_path no_dir fuel dir x with
  | Ok _ => True
  | Ub u => visit_tree dir_of mk_path no_dir visit fuel dir x s = Ub u
  | Exits c => visit_tree dir_of mk_path no_dir visit fuel dir x s = Exits c
  | NoFuel => visit_tree dir_of mk_path no_dir visit fuel dir x s = NoFuel
  end.
Proof using Builder0.
  intros Hs. rewrite (visit_tree_walk _ _ _ _ _ visits_never_fail); [|by exists a, vs].
  by destruct (walk _ _ _ _ _ _).
Qed.
End build.

(** The keys of the list that a walk builds from its root. *)
Lemma place_all_keys {V} (lev : V → Z) (pth : V → bytes) (mk : Z → bytes → V) root l :
  (∀ x p, lev (mk x p) = x) → (∀ x p, pth (mk x p) = p) →
  let vs := place_all (lev:=lev) (mk:=mk) l [mk 1%Z root] in
  vs ≠ [] ∧ Sorted (key_le lev) vs ∧ length vs = S (length l) ∧
  ekey lev pth <$> vs ≡ₚ (1%Z, root) :: l ∧
  ∀ Q : V → Prop, (∀ x p, Q (mk x p)) → Forall Q vs.
Proof.
  intros Hlev Hpth vs. pose proof (place_all_perm (lev:=lev) (mk:=mk) l [mk 1%Z root]) as Hp.
  fold vs in Hp. split; [|split; [|split; [|split]]].
  - intros E. rewrite E in Hp. by apply Permutation_nil_cons in Hp.
  - apply StronglySorted_Sorted, place_all_sorted. repeat constructor.
  - by rewrite Hp, length_app, length_fmap.
  - rewrite Hp, fmap_app, <- list_fmap_compose. simpl. unfold ekey at 1. rewrite Hlev, Hpth.
    f_equiv. apply Permutation_refl'. rewrite <- (list_fmap_id l) at 2. apply list_fmap_ext.
    intros ? [x p] _. unfold ekey. simpl. by rewrite Hlev, Hpth.
  - intros Q HQ. rewrite Hp. apply Forall_app. split; [by repeat constructor|].
    apply Forall_fmap, Forall_true. intros; apply HQ.
Qed.

Lemma step_all_app {A B} (f : Z → B → list A) (l : list (Z * B)) (t : list A) :
  foldl (λ t xp, t ++ f xp.1 xp.2) t l = t ++ mjoin ((λ xp, f xp.1 xp.2) <$> l).
Proof.
  revert t. induction l as [|[x p] l IH]; intros t; simpl; [by rewrite app_nil_r|].
  by rewrite IH, <- app_assoc.
Qed.

Lemma step_all_foldl {Acc} (step : Acc → Z → bytes → Acc) l a :
  step_all (step:=step) l a = foldl (λ a xp, step a xp.1 xp.2) a l.
Proof. revert a. induction l as [|[x p] l IH]; intros a; simpl; [done|]. apply IH. Qed.
