(* ===== verification/PathList.v ===== *)
(** * Sorted lists of path nodes

    [insert_sorted], the exchange of two neighbours' paths and the number field
    as the three dirlist.c and pardirlist.c of the Lin and "copy" directories
    have them, over the nodes of PathNode.v. *)

From stdpp Require Import base list gmap fin_maps strings sorting.
From S2P Require Import Prelude CString CMem Dll LevelList SortedInsert ListSort Objects Exchange PathNode FileSys Listing.

Section pathlist.
Context {D : Type}.
Abbreviation blk := (block (apay D) unit aobj).
Abbreviation C := (M (heap blk)).
Abbreviation evals := (fmap (M:=list) (@e_val (apay D) (aval D))).
Implicit Types (h : heap blk) (R : gmap loc blk).

(** [insert_sorted(node, list)]; [junk] is the content of the node that it
    allocates first and never uses. *)
Definition insert_sorted (junk : D) (node list : ptr) : C unit :=
  tmp ← malloc (Node None None (APay None 0 junk));
  hd ← get_head list;
  tl ← get_tail list;
  match hd, tl with
  | None, None => set_head list node;; set_tail list node
  | _, _ => link_sorted node list
  end.

(** The exchange in [node_swap] of dirlist.c: only the paths move. *)
Definition swap_paths (tmpNode nx : ptr) : C unit :=
  s ← node_path tmpNode;
  tempPath ← strdup s;
  set_path tmpNode (node_path nx);;
  set_path nx (read_str tempPath);;
  free tempPath.

(** The exchange in [node_swap] of pardirlist.c: a part of the extra fields
    goes with the path, as [carry old from] says. *)
Definition swap_paths_and (carry : D → D → D) (tmpNode nx : ptr) : C unit :=
  s ← node_path tmpNode;
  tempPath ← strdup s;
  saved ← get_data tmpNode;
  set_path tmpNode (node_path nx);;
  other ← get_data nx;
  set_extra tmpNode (λ d, carry d (ap_data other));;
  set_path nx (read_str tempPath);;
  set_extra nx (λ d, carry d (ap_data saved));;
  free tempPath.

Lemma ready_malloc h hp es e R b :
  ready h hp es e R →
  cells h !! e_loc e = Some (Node None None (e_dat e)) →
  ∃ h' l, malloc b h = Ok (Some l, h') ∧ R !! l = None ∧
    ready h' hp es e (<[l:=b]> R) ∧
    cells h' !! e_loc e = Some (Node None None (e_dat e)).
Proof.
  intros [Hd He Hb HR] Hn. pose proof (fresh_loc_fresh h) as Hf. set (l := fresh_loc h) in *.
  assert (Hfp : ∀ x, x ∈ foot e → x ≠ l).
  { intros x Hx ->. destruct He as [_ Hv _]. apply elem_of_cons in Hx as [->|Hx]; [congruence|].
    destruct (value_at_other _ _ _ _ _ Hv Hx) as [? ?]. congruence. }
  assert (Hout : ∀ x, x ∈ own_locs hp es → x ≠ l).
  { intros x Hx ->. by eapply dlrep_live. }
  assert (Hall : ∀ x, x ∈ hp :: foot e ++ (es ≫= foot) → x ≠ l).
  { intros x [->|[Hx|Hx]%elem_of_app]%elem_of_cons; [apply Hout; left|by apply Hfp|].
    apply Hout. by right. }
  exists (hset l b h), l. split; [by apply malloc_ok|].
  split; [rewrite <- HR, lookup_outside; by case_decide|]. split.
  - constructor; simpl; [| |done|].
    + eapply dlrep_frame; [done|]. intros x Hx. rewrite lookup_insert_ne; [done|].
      intros <-. by eapply Hout.
    + destruct He as [(n & r & H1) H2 H3]. constructor; [| |done].
      * rewrite lookup_insert_ne; [eauto|]. intros E. apply (Hfp l); [|done]. rewrite E. left.
      * eapply value_at_frame; [done|]. intros x Hx. rewrite lookup_insert_ne; [done|].
        intros <-. apply (Hfp l); [by right|done].
    + rewrite <- HR. apply map_eq. intros x.
      rewrite lookup_outside, !lookup_insert, lookup_outside.
      repeat case_decide; subst; try done. exfalso. by eapply Hall.
  - simpl. rewrite lookup_insert_ne; [done|]. intros E. apply (Hfp l); [|done]. rewrite E. left.
Qed.

(** A new node that is still beside the list is a part of the rest. *)
Lemma ready_own h hp es e R :
  ready h hp es e R →
  let R1 := outside (cells h) (own_locs hp es) in
  dlown h hp tt es R1 ∧ outside R1 (foot e) = R ∧
  (∀ l, l ∈ foot e → R1 !! l = cells h !! l).
Proof.
  intros [Hd He Hb HR]. cbv zeta. split; [by constructor|].
  destruct He as [_ _ Hs]. apply NoDup_cons in Hs as [Hhp (_ & Hx & _)%NoDup_app]. split.
  - rewrite <- HR. apply map_eq. intros l. rewrite !lookup_outside. unfold own_locs.
    repeat case_decide; set_solver.
  - intros l Hl. rewrite lookup_outside, decide_False; [done|]. unfold own_locs.
    intros [->|Hin]%elem_of_cons; [|by eapply Hx]. apply Hhp, elem_of_app. by left.
Qed.

Lemma own_ready h hp es e R1 n r :
  dlown h hp tt es R1 → R1 !! e_loc e = Some (Node n r (e_dat e)) →
  value_at R1 (e_dat e) (e_val e) (e_fp e) → NoDup (foot e) →
  ready h hp es e (outside R1 (foot e)).
Proof.
  intros Ho Hn Hv Hnd. destruct (own_detached _ _ _ _ _ _ _ _ Ho Hn Hv Hnd) as (Hdet & Hr & _).
  destruct Ho. by constructor.
Qed.

(** The extra fields of a node that is not yet in the list. *)
Lemma ready_set_extra h hp es e R upd :
  ready h hp es e R →
  cells h !! e_loc e = Some (Node None None (e_dat e)) →
  ∃ h' e', set_extra (Some (e_loc e)) upd h = Ok (tt, h') ∧ ready h' hp es e' R ∧
    e_loc e' = e_loc e ∧
    e_val e' = AVal (av_level (e_val e)) (av_path (e_val e)) (upd (av_data (e_val e))) ∧
    cells h' !! e_loc e' = Some (Node None None (e_dat e')).
Proof.
  intros [Hd He Hb HR] Hn. pose proof He as [_ (pp & Ed & Ef & Ep) Hs].
  assert (e_loc e ≠ pp) by congruence. pose proof Hn as Hn'. rewrite Ed in Hn'.
  unfold set_extra. mstep. cbn [ap_path ap_level ap_data].
  eexists _, (Ent (e_loc e) (APay (Some pp) (av_level (e_val e)) (upd (av_data (e_val e))))
              (AVal (av_level (e_val e)) (av_path (e_val e)) (upd (av_data (e_val e)))) [pp]).
  split; [by eapply set_data_ok|]. split; [|split; [done|split; [done|simpl; by simplify_map_eq]]].
  assert (Hfoot : foot e = [e_loc e; pp]) by (unfold foot; by rewrite Ef).
  rewrite Hfoot in *. constructor; simpl; [| |done|].
  - eapply dlrep_frame; [done|]. intros l Hl. rewrite lookup_insert_ne; [done|]. intros <-.
    apply NoDup_cons in Hs as [Hhp (_ & Hx & _)%NoDup_app].
    apply elem_of_cons in Hl as [E|Hl]; [|apply (Hx (e_loc e)); [left|done]].
    apply Hhp. rewrite <- E. left.
  - constructor; simpl; [exists None, None; by simplify_map_eq| |done].
    exists pp. by simplify_map_eq.
  - rewrite <- HR. apply outside_ext; [done|]. intros l Hl. rewrite lookup_insert_ne; [done|].
    intros <-. apply Hl. right. left.
Qed.

Lemma insert_sorted_ok junk h hp es e R :
  ready h hp es e R →
  cells h !! e_loc e = Some (Node None None (e_dat e)) →
  ∃ h' R', insert_sorted junk (Some (e_loc e)) (Some hp) h = Ok (tt, h') ∧
    dlown h' hp tt (place (λ e, av_level (e_val e)) e es) R' ∧ leaked 1 R R'.
Proof.
  intros Hr Hn.
  destruct (ready_malloc _ _ _ _ _ (Node None None (APay None 0 junk)) Hr Hn)
    as (h1 & l & Hm & HRl & [Hd He Hb HR] & Hn1).
  assert (Hleak : leaked 1 R (<[l:=Node None None (APay None 0 junk)]> R))
    by (apply leaked_insert; [apply leaked_0|done]).
  pose proof (dl_hdr _ _ _ _ Hd) as Hh. unfold insert_sorted.
  erewrite bind_Ok by exact Hm. cbv beta. do 2 mstep.
  destruct es as [|a rest].
  - destruct (link_first_own h1 hp tt e _ Hd He Hb Hn1 HR) as (h' & Hl & Ho).
    eexists h', _. split; [exact Hl|]. split; [exact Ho|exact Hleak].
  - assert (Hne : a :: rest ≠ []) by done.
    destruct (link_sorted_own h1 hp tt (a :: rest) e _ Hne Hd He Hb HR) as (h' & Hl & Ho).
    exists h', (<[l:=Node None None (APay None 0 junk)]> R). split; [|done].
    cbn [hd_ptr]. cbv beta iota. done.
Qed.

Lemma swap_paths_ok d1 : swap_spec swap_paths (λ v, av_data v = d1).
Proof.
  intros h hp [] es1 a b es2 R Ho Hlev Ha Hb.
  destruct (save_path _ _ _ _ _ _ _ Ho) as (h1 & t & H1 & HRt & Ho1).
  destruct (set_path_ok h1 hp es1 a (b :: es2) _ _ _ Ho1 (read_neighbour _ _ _ _ _ _ _ _ Ho1))
    as (h2 & a' & H2 & Ho2 & La & Va).
  rewrite cons_middle, app_assoc in Ho2.
  destruct (set_path_ok h2 hp (es1 ++ [a']) b es2 _ (read_str (Some t)) (av_path (e_val a)) Ho2)
    as (h3 & b' & H3 & Ho3 & Lb & Vb).
  { eapply read_saved; [exact Ho2|]. by rewrite lookup_insert_eq. }
  destruct (free_saved _ _ _ _ _ _ _ HRt Ho3) as (h4 & H4 & Ho4).
  exists h4, a', b'. rewrite <- app_assoc in Ho4. split; [|split; [exact Ho4|]].
  - unfold swap_paths. rewrite <- bind_assoc. rewrite (bind_Ok _ _ _ _ _ H1).
    erewrite bind_Ok by exact H2. cbv beta. erewrite bind_Ok by exact H3. exact H4.
  - split; [done|]. split; [done|]. simpl in Hlev.
    rewrite Va, Vb, Ha, Hb, Hlev. destruct (e_val a), (e_val b). simpl in *. by subst.
Qed.

Lemma swap_paths_and_ok carry (Q : aval D → Prop) :
  (∀ va vb, Q va → Q vb → carry (av_data va) (av_data vb) = av_data vb) →
  swap_spec (swap_paths_and carry) Q.
Proof.
  intros Hcarry h hp [] es1 a b es2 R Ho Hlev Ha Hb.
  destruct (save_path _ _ _ _ _ _ _ Ho) as (h1 & t & H1 & HRt & Ho1).
  assert (Hdat : ∀ h es1 a es2 R, dlown h hp tt (es1 ++ a :: es2) R →
    ∃ p, get_data (Some (e_loc a)) h = Ok (APay (Some p) (av_level (e_val a)) (av_data (e_val a)), h)).
  { clear. intros h es1 a es2 R Ho. pose proof (dlown_lookup _ _ _ _ _ _ _ Ho) as Ha.
    pose proof (dlown_value _ _ _ _ _ a Ho ltac:(apply elem_of_app; right; left))
      as (pp & Ed & _). rewrite Ed in Ha. exists pp. by eapply get_data_ok. }
  destruct (Hdat _ _ _ _ _ Ho1) as (pa & HA).
  destruct (set_path_ok h1 hp es1 a (b :: es2) _ _ _ Ho1 (read_neighbour _ _ _ _ _ _ _ _ Ho1))
    as (h2 & a' & H2 & Ho2 & La & Va).
  pose proof Ho2 as Ho2b. rewrite cons_middle, app_assoc in Ho2b.
  destruct (Hdat _ _ _ _ _ Ho2b) as (pb & HB). clear Ho2b.
  destruct (set_extra_ok h2 hp es1 a' (b :: es2) _
    (λ d, carry d (av_data (e_val b))) Ho2) as (h3 & a2 & H3 & Ho3 & La2 & Va2).
  rewrite cons_middle, app_assoc in Ho3.
  destruct (set_path_ok h3 hp (es1 ++ [a2]) b es2 _ (read_str (Some t)) (av_path (e_val a)) Ho3)
    as (h4 & b' & H4 & Ho4 & Lb & Vb).
  { eapply read_saved; [exact Ho3|]. by rewrite lookup_insert_eq. }
  destruct (set_extra_ok h4 hp (es1 ++ [a2]) b' es2 _
    (λ d, carry d (av_data (e_val a))) Ho4) as (h5 & b2 & H5 & Ho5 & Lb2 & Vb2).
  destruct (free_saved _ _ _ _ _ _ _ HRt Ho5) as (h6 & H6 & Ho6).
  exists h6, a2, b2. rewrite <- app_assoc in Ho6. split; [|split; [exact Ho6|]].
  - unfold swap_paths_and. rewrite <- bind_assoc. rewrite (bind_Ok _ _ _ _ _ H1).
    erewrite bind_Ok by exact HA. cbv beta. erewrite bind_Ok by exact H2. cbv beta.
    erewrite bind_Ok by exact HB. cbv beta. cbn [ap_data].
    rewrite La in H3. erewrite bind_Ok by exact H3. cbv beta.
    erewrite bind_Ok by exact H4. cbv beta. rewrite Lb in H5.
    erewrite bind_Ok by exact H5. exact H6.
  - simpl in Hlev. rewrite La2, Lb2, Va2, Vb2, Va, Vb. simpl.
    rewrite !Hcarry by done. rewrite Hlev.
    repeat split; try done; [by destruct (e_val b)|rewrite <- Hlev; by destruct (e_val a)].
Qed.
End pathlist.
