(* ===== verification/Dirlist.v ===== *)
(** * dirlist.c

    Lin/dirlist/dirlist.c (module [LinDirlist]) and its sibling
    "dirlist/BlackBoxTesting (copy)/dirlist.c" (module [DirlistCopy]): walk a
    directory tree, keep the paths in a list sorted by level, sort each level
    by path, number the entries of a level, write the lines to a file. *)

From stdpp Require Import base list gmap fin_maps strings sorting.
From S2P Require Import Prelude CString CMem Dll LevelList SortedInsert ListSort Objects PathNode FileSys Listing PathList.

(** [struct Node]: path, level, [i], next, prev; [struct List]: head, tail. *)
Abbreviation blk := (block (apay Z) unit aobj).
Abbreviation C := (M (heap blk)).
Abbreviation value := (aval Z).
Abbreviation evals := (fmap (M:=list) (@e_val (apay Z) value)).

Definition set_num (v : value) (n : Z) : value := AVal (av_level v) (av_path v) n.

(** [char sub_path[255]; strcpy(sub_path, dir_path); strcat(sub_path, "/");
    strcat(sub_path, dir->d_name);] *)
Definition sub_path (dir_path d_name : bytes) : outcome bytes :=
  s ← strcpy 255 dir_path;
  s ← strcat 255 s (lit "/");
  strcat 255 s d_name.

Lemma sub_path_join dir name p : sub_path dir name = Ok p → p = join_path dir name ∧ length p < 255.
Proof.
  unfold sub_path, strcat, strcpy, join_path. case_decide; [|done]. simpl.
  case_decide; [|done]. simpl. case_decide as Hl; [|done]. intros [= <-].
  by rewrite <- app_assoc in Hl |- *.
Qed.

Lemma sub_path_fuel dir name : sub_path dir name ≠ NoFuel.
Proof. unfold sub_path, strcat, strcpy. repeat (case_decide; [|done]; simpl). done. Qed.

Module LinDirlist.
Definition create_node (path : bytes) (level i : Z) : C ptr := PathNode.create_node path level i.
Definition create_list : C ptr := PathNode.create_list.
Definition insert_sorted (node list : ptr) : C unit := PathList.insert_sorted 0%Z node list.
Definition insert_tail (node list : ptr) : C unit := PathNode.insert_tail node list.

(** [tmpNode->next->i = ++n;] *)
Definition write_i (p : ptr) (n : Z) : C unit := set_extra p (λ _, n).
Definition sub_level (list : ptr) : C unit := sub_level_loop write_i list.
Definition node_swap (tmpNode list : ptr) : C Z := sort_loop swap_paths tmpNode list.

(** [fprintf(f, "%d:%d:%s\n", ptr->level, ptr->i, ptr->path)] *)
Definition line (p : ptr) : C bytes :=
  d ← get_data p;
  s ← read_str (ap_path d);
  mret (fmt_d (ap_level d) ++ lit ":" ++ fmt_d (ap_data d) ++ lit ":" ++ s ++ [NL]).

(** [print_list]: the file written with its name. A file that does not open
    is not noticed: [fprintf] or [fclose] gets the NULL. The [printf] is a
    newline. *)
Definition print_list (fs : fsys) (outputfilename : ptr) (list : ptr) : C (bytes * bytes) :=
  name ← read_str outputfilename;
  if fs_writable fs name then
    text ← print_loop line list;
    mret (name, text)
  else fail_ub NullDeref.

Definition destroy_list (list : ptr) : C unit := PathNode.destroy_list list.

(** What [open_dir] does for an entry with path [sub_path] at level [x]. *)
Definition add_entry (list : ptr) (sub_path : bytes) (x : Z) : C unit :=
  tmpNode ← create_node sub_path x 1;
  insert_sorted tmpNode list.

(** [open_dir(dir_path, list, x)]; [fuel] bounds the depth of the recursion. *)
Definition open_dir (fs : fsys) (fuel : nat) (dir_path : bytes) (list : ptr) (x : Z) : C unit :=
  visit_tree (fs_dir fs) sub_path (fs_closedir_null fs) (add_entry list) fuel dir_path x.

(** The arguments of [main]: [str], [outputfilename] and what it prints. *)
Definition parse_args (args : list bytes) : C (ptr * ptr * bytes) :=
  if decide (length args < 2) then
    str ← strdup (lit "/home/darren/Downloads/BlackBoxTesting");
    outputfilename ← strdup (lit "TestOutput.txt");
    mret (str, outputfilename, [])
  else
    a1 ← lift (arg args 1);
    str ← strdup a1;
    a2 ← lift (arg args 2);
    outputfilename ← strdup a2;
    mret (str, outputfilename, lit "printing cmd line arg").

Definition main (fs : fsys) (fuel : nat) (args : list bytes) : C run :=
  list ← create_list;
  cfg ← parse_args args;
  let '(str, outputfilename, msg) := cfg in
  root ← read_str str;
  add_entry list root 1;;
  open_dir fs fuel root list 1;;
  (head ← get_head list; node_swap head list;; sub_level list);;
  file ← print_list fs outputfilename list;
  destroy_list list;;
  mret (Run 0 (msg ++ [NL]) file).
End LinDirlist.

(** ** The list that the walk builds *)
Section repr.
(** [start] is the memory beside the list before the first insertion, with
    the two strings that main keeps. *)
Context (hp : loc) (start : gmap loc blk).

Definition repr (h : heap blk) (vs : list value) : Prop :=
  ∃ es R, dlown h hp tt es R ∧ evals es = vs ∧ leaked (length vs) start R.

Definition mk_value (x : Z) (p : bytes) : value := AVal x p 1%Z.

Lemma insert_repr h vs x p :
  repr h vs →
  ∃ h', LinDirlist.add_entry (Some hp) p x h = Ok (tt, h') ∧
    repr h' (place av_level (mk_value x p) vs).
Proof.
  intros (es & R & Ho & <- & Hl).
  destruct (create_node_ok h hp es R p x 1%Z Ho) as (h1 & e & H1 & Hr & Hv & Hn).
  destruct (insert_sorted_ok 0%Z h1 hp es e R Hr Hn) as (h' & R' & H2 & Ho' & [Hs Hn']).
  exists h'. split.
  - unfold LinDirlist.add_entry, LinDirlist.create_node. by erewrite bind_Ok by exact H1.
  - exists (place (λ e, av_level (e_val e)) e es), R'. split; [done|]. split.
    + etrans; [apply (place_fmap e_val av_level)|by rewrite Hv].
    + destruct Hl as [Hl1 Hl2]. split; [by etrans|].
      rewrite place_perm. simpl. rewrite Hn', Hl2. lia.
Qed.

#[export] Instance dirlist_builder : Builder (LinDirlist.add_entry (Some hp)) av_level mk_value (λ (a : unit) _ _, a) (λ _, repr).
Proof. split; [done|]. intros. by apply insert_repr. Qed.
End repr.

Lemma write_i_ok : write_num_spec LinDirlist.write_i set_num.
Proof.
  intros h hp [] es1 a es2 R n Ho.
  destruct (set_extra_ok h hp es1 a es2 R (λ _, n) Ho) as (h' & a' & ? & ? & ? & ?).
  by exists h', a'.
Qed.

Abbreviation triple := (etriple av_level (@av_data Z) av_path).

(** Sorting and numbering turn the list that was built into the listing. *)
Lemma arrange_ok h hp es R :
  dlown h hp tt es R → es ≠ [] →
  Sorted (key_le av_level) (evals es) → Forall (λ v, av_data v = 1%Z) (evals es) →
  ∃ h' es',
    (head ← get_head (Some hp);
     LinDirlist.node_swap head (Some hp);;
     LinDirlist.sub_level (Some hp)) h = Ok (tt, h') ∧
    dlown h' hp tt es' R ∧
    triple <$> evals es' = listing (ekey av_level av_path <$> evals es).
Proof.
  intros Ho Hne Hs H1.
  destruct (sort_loop_ok swap_paths (λ v, av_data v = 1%Z) (swap_paths_ok 1%Z) h hp tt es R)
    as (h1 & es1 & Hsort & Ho1 & Hp & Hlp); [done..|].
  destruct (sub_level_ok LinDirlist.write_i set_num write_i_ok ltac:(done) h1 hp tt es1 R Ho1)
    as (h2 & es2 & Hsub & Ho2 & He).
  { intros ->. apply Permutation_nil_l in Hp. by destruct es. }
  exists h2, es2. split; [|split; [done|]].
  - pose proof (dl_hdr _ _ _ _ (do_rep _ _ _ _ _ Ho)) as Hh. mstep.
    unfold LinDirlist.node_swap. erewrite bind_Ok by exact Hsort. exact Hsub.
  - rewrite He. apply number_listing; [done..| |].
    + by rewrite Hp.
    + by rewrite Hp.
Qed.

(** ** Facts about the list built *)
Lemma built_ok root l :
  let vs := place_all (lev:=av_level) (mk:=mk_value) l [mk_value 1 root] in
  vs ≠ [] ∧ Sorted (key_le av_level) vs ∧ Forall (λ v, av_data v = 1%Z) vs ∧
  ekey av_level av_path <$> vs ≡ₚ (1%Z, root) :: l ∧ length vs = S (length l).
Proof.
  destruct (place_all_keys av_level av_path mk_value root l) as (? & ? & ? & ? & HQ); [done..|].
  repeat split; try done. by apply HQ.
Qed.

Module DirlistProofs.
Import LinDirlist.

Definition render_line (t : Z * Z * bytes) : bytes :=
  fmt_d t.1.1 ++ lit ":" ++ fmt_d t.1.2 ++ lit ":" ++ t.2 ++ [NL].
Definition render (l : list (Z * Z * bytes)) : bytes := mjoin (render_line <$> l).

(** The directory, the output file and the message for given arguments. *)
Definition config (args : list bytes) : outcome (bytes * bytes * bytes) :=
  match args with
  | [] | [_] => Ok (lit "/home/darren/Downloads/BlackBoxTesting", lit "TestOutput.txt", [])
  | [_; _] => Ub NullDeref
  | _ :: root :: out :: _ => Ok (root, out, lit "printing cmd line arg")
  end.

(** What the program is to do: write the listing of the tree. *)
Definition main_spec (fs : fsys) (fuel : nat) (args : list bytes) : outcome run :=
  cfg ← config args;
  let '(root, out, msg) := cfg in
  l ← walk (fs_dir fs) sub_path (fs_closedir_null fs) fuel root 1;
  if fs_writable fs out then Ok (Run 0 (msg ++ [NL]) (out, render (listing ((1%Z, root) :: l))))
  else Ub NullDeref.

Lemma parse_args_ok h hp es R args root out msg :
  dlown h hp tt es R → config args = Ok (root, out, msg) →
  ∃ h' p1 p2 R',
    parse_args args h = Ok ((Some p1, Some p2, msg), h') ∧
    dlown h' hp tt es R' ∧ leaked 2 R R' ∧
    R' !! p1 = Some (Other (Str root) : blk) ∧ R' !! p2 = Some (Other (Str out)).
Proof.
  intros Ho Hc. destruct (keep_strings h hp tt es R root out Ho)
    as (h' & p1 & p2 & R' & H & Ho' & Hl & H1 & H2).
  exists h', p1, p2, R'. split; [|done].
  apply bind_inv in H as (a & h1 & Ha & H). apply bind_inv in H as (b & h2 & Hb & [= -> -> ->]).
  unfold parse_args.
  destruct args as [|? [|? [|? ?]]]; simpl in Hc; simplify_eq; simpl;
    (erewrite bind_Ok by (exact Ha || by apply lift_Ok)); cbv beta;
    rewrite ?(bind_Ok _ _ _ _ _ Ha); repeat (erewrite bind_Ok by (exact Hb || by apply lift_Ok)); try done.
Qed.

Lemma file_listing_ok fs h hp es R p out :
  dlown h hp tt es R → R !! p = Some (Other (Str out)) →
  print_list fs (Some p) (Some hp) h =
    if fs_writable fs out then Ok ((out, render (triple <$> evals es)), h) else Ub NullDeref.
Proof.
  intros Ho Hp. unfold print_list. apply (dlown_rest _ _ _ _ _ _ _ Ho) in Hp. mstep.
  destruct (fs_writable fs out); [|done].
  erewrite bind_Ok.
  2:{ eapply (print_loop_ok line (render_line ∘ triple) (λ _, True)); [|exact Ho|by apply Forall_true].
      intros h1 l n r d v fp E (pp & -> & -> & Ep) _. unfold line. by do 2 mstep. }
  cbv beta. unfold render. by rewrite list_fmap_compose.
Qed.

(** From the directory's name on: the build, the arrangement and the output. *)
Lemma main_body_ok fs fuel h hp start root out p l :
  dlown h hp tt [] start → start !! p = Some (Other (Str out)) →
  walk (fs_dir fs) sub_path (fs_closedir_null fs) fuel root 1 = Ok l →
  ∃ h1 h2 R,
    add_entry (Some hp) root 1 h = Ok (tt, h1) ∧
    (open_dir fs fuel root (Some hp) 1;;
     (head ← get_head (Some hp); node_swap head (Some hp);; sub_level (Some hp))) h1 = Ok (tt, h2) ∧
    leaked (S (length l)) start R ∧
    (print_list fs (Some p) (Some hp) h2 =
       if fs_writable fs out then Ok ((out, render (listing ((1%Z, root) :: l))), h2)
       else Ub NullDeref) ∧
    destroy_list (Some hp) h2 = Ok (tt, Heap R None).
Proof.
  intros Ho Hp Hw.
  assert (H0 : repr hp start h []) by (exists [], start; auto using leaked_0).
  destruct (insert_repr hp start h [] 1 root H0) as (h1 & H1 & Hr1).
  destruct (visit_tree_build (mk:=mk_value) (fs_dir fs) sub_path (fs_closedir_null fs) fuel root
              1 tt h1 _ l Hr1 Hw) as (h2 & H2 & es & R & Ho2 & He & Hl).
  destruct (built_ok root l) as (Hne & Hs & Hd & Hk & Hlen). simpl in He, Hl.
  rewrite <- He in Hne, Hs, Hd, Hk. rewrite Hlen in Hl.
  destruct (arrange_ok h2 hp es R Ho2) as (h3 & es3 & H3 & Ho3 & Ht); [by intros ->|done..|].
  exists h1, h3, R. split; [done|]. split; [by erewrite bind_Ok by exact H2|].
  split; [done|]. split.
  - rewrite (file_listing_ok fs h3 hp es3 R p out Ho3 (strings_stay _ _ _ _ _ Hp Hl)).
    by rewrite Ht, (listing_perm _ _ Hk).
  - eapply destroy_loop_ok; [apply free_path_ok|exact Ho3].
Qed.

Lemma open_dir_fails fs fuel h hp start root :
  repr hp start h [mk_value 1 root] →
  match walk (fs_dir fs) sub_path (fs_closedir_null fs) fuel root 1 with
  | Ok _ => True
  | Ub u => open_dir fs fuel root (Some hp) 1 h = Ub u
  | Exits c => open_dir fs fuel root (Some hp) 1 h = Exits c
  | NoFuel => open_dir fs fuel root (Some hp) 1 h = NoFuel
  end.
Proof. apply (visit_tree_fails (repr:=λ _, repr hp start) _ _ _ _ _ _ tt). Qed.

(** Everything [main] does, with the memory it leaves. *)
Lemma main_run fs fuel args h :
  budget h = None →
  match main_spec fs fuel args with
  | Ok r => ∃ R l, main fs fuel args h = Ok (r, Heap R None) ∧
      (∃ root out msg, config args = Ok (root, out, msg) ∧
        walk (fs_dir fs) sub_path (fs_closedir_null fs) fuel root 1 = Ok l) ∧
      leaked (3 + length l) (cells h) R
  | Ub u => main fs fuel args h = Ub u
  | Exits c => main fs fuel args h = Exits c
  | NoFuel => main fs fuel args h = NoFuel
  end.
Proof.
  intros Hb. destruct (create_list_ok h Hb) as (h0 & hp & H0 & Ho).
  unfold main_spec. destruct (config args) as [[[root out] msg]|u|?|] eqn:Hc; simpl.
  2:{ assert (u = NullDeref ∧ ∃ a b, args = [a; b]) as (-> & a & b & ->)
        by (destruct args as [|? [|? [|? ?]]]; naive_solver).
      unfold main, create_list. erewrite bind_Ok by exact H0. cbv beta.
      apply bind_Ub. unfold parse_args. simpl. erewrite bind_Ok by by apply lift_Ok.
      cbv beta. unfold strdup. erewrite bind_Ok by (apply malloc_ok, (do_budget _ _ _ _ _ Ho)).
      done. }
  2-3: by destruct args as [|? [|? [|? ?]]].
  destruct (parse_args_ok _ _ _ _ _ _ _ _ Ho Hc) as (ha & p1 & p2 & Ra & Ha & Hoa & Hla & Hp1 & Hp2).
  pose proof (dlown_rest _ _ _ _ _ _ _ Hoa Hp1) as Hread.
  assert (Hr0 : repr hp Ra ha []) by (exists [], Ra; auto using leaked_0).
  destruct (insert_repr hp Ra ha [] 1 root Hr0) as (h1' & H1' & Hr1). simpl in Hr1.
  assert (Hmain : ∀ r, (open_dir fs fuel root (Some hp) 1;;
      (head ← get_head (Some hp); node_swap head (Some hp);; sub_level (Some hp));;
      file ← print_list fs (Some p2) (Some hp); destroy_list (Some hp);;
      mret (Run 0 (msg ++ [NL]) file)) h1' = r → main fs fuel args h = r).
  { intros r <-. unfold main, create_list. erewrite bind_Ok by exact H0. cbv beta.
    erewrite bind_Ok by exact Ha. cbv beta iota. mstep. by erewrite bind_Ok by exact H1'. }
  pose proof (open_dir_fails fs fuel h1' hp Ra root Hr1) as Hfail.
  destruct (walk _ _ _ _ _ _) as [l|u|c|] eqn:Hw; simpl.
  2: apply Hmain; by apply bind_Ub.
  2: apply Hmain; by apply bind_Exits.
  2: apply Hmain; unfold mbind, M_bind; by rewrite Hfail.
  destruct (main_body_ok fs fuel ha hp Ra root out p2 l Hoa Hp2 Hw)
    as (h1 & h2 & R & H1 & H2 & Hl & H3 & H4).
  rewrite H1' in H1. injection H1 as <-. apply bind_inv in H2 as ([] & h3 & H5 & H6).
  destruct (fs_writable fs out) eqn:Hwr.
  - exists R, l. split; [|split; [by exists root, out, msg|]].
    + apply Hmain. erewrite bind_Ok by exact H5. cbv beta. erewrite bind_Ok by exact H6.
      cbv beta. erewrite bind_Ok by exact H3. cbv beta. by erewrite bind_Ok by exact H4.
    + eapply (leaked_trans 2); [exact Hla|exact Hl].
  - apply Hmain. erewrite bind_Ok by exact H5. cbv beta. erewrite bind_Ok by exact H6.
    cbv beta. by apply bind_Ub.
Qed.
End DirlistProofs.

Section theorems.
Import LinDirlist DirlistProofs.
Implicit Types (fs : fsys) (h : heap blk).

(** C1: [main] does what its specification says, on every branch: it writes the
    listing of the tree (each visible entry once, ordered by level and path,
    numbered within its level) to the given file and exits with 0, it has no
    defined behaviour when a path overflows its buffer, when the second
    argument is missing or when the output file does not open, and nothing
    else happens. *)
Theorem main_refines_spec fs fuel args h :
  budget h = None → result (main fs fuel args h) = main_spec fs fuel args.
Proof.
  intros Hb. pose proof (main_run fs fuel args h Hb) as Hr.
  destruct (main_spec fs fuel args); [destruct Hr as (R & l & -> & _)|rewrite Hr..]; done.
Qed.

(** C5: [main] leaks: beside the two strings of its arguments it leaves one
    block for each node it inserted, the one that [insert_sorted] allocates
    and does not use; everything else is freed. *)
Theorem main_leaks_one_block_per_entry fs fuel args h r h' :
  budget h = None → main fs fuel args h = Ok (r, h') →
  ∃ root out msg l, config args = Ok (root, out, msg) ∧
    walk (fs_dir fs) sub_path (fs_closedir_null fs) fuel root 1 = Ok l ∧
    cells h ⊆ cells h' ∧ size (cells h') = size (cells h) + 2 + (1 + length l).
Proof.
  intros Hb Hm. pose proof (main_run fs fuel args h Hb) as Hr.
  destruct (main_spec fs fuel args); [|congruence..].
  destruct Hr as (R & l & E & (root & out & msg & Hc & Hw) & [Hs Hn]).
  rewrite E in Hm. injection Hm as <- <-. exists root, out, msg, l. simpl. repeat split; try done. lia.
Qed.

(** C3: the order in which the directories give their entries does not matter. *)
Theorem main_order_independent fs1 fs2 fuel args h r :
  budget h = None → same_dirs (fs_dir fs1) (fs_dir fs2) →
  fs_writable fs1 = fs_writable fs2 → fs_closedir_null fs1 = fs_closedir_null fs2 →
  result (main fs1 fuel args h) = Ok r → result (main fs2 fuel args h) = Ok r.
Proof.
  intros Hb Hd Hw Hn. rewrite !main_refines_spec by done. unfold main_spec.
  destruct (config args) as [[[root out] msg]| | |]; try done. simpl. rewrite <- Hw, <- Hn.
  destruct (walk (fs_dir fs1) _ _ _ _ _) as [l1| | |] eqn:H1; try done.
  destruct (walk_perm _ _ _ _ _ _ _ _ Hd H1) as (l2 & -> & Hp). simpl.
  by rewrite (listing_perm _ _ (perm_skip (1%Z, root) Hp)).
Qed.

(** C4: [main] ends: the paths grow with the depth and must fit in 255 bytes,
    so a recursion of depth 256 is never reached, even in a tree with cycles. *)
Theorem main_terminates fs fuel args h :
  budget h = None → fs_closedir_null fs ≠ NoFuel → 256 ≤ fuel →
  result (main fs fuel args h) ≠ NoFuel.
Proof.
  intros Hb Hn Hf. rewrite main_refines_spec by done. unfold main_spec.
  destruct (config args) as [[[root out] msg]| | |] eqn:Hc; try done.
  2: by destruct args as [|? [|? [|? ?]]]. simpl.
  assert (walk (fs_dir fs) sub_path (fs_closedir_null fs) fuel root 1 ≠ NoFuel) as Hw.
  { apply (walk_fuel _ _ _ (λ d n p E, proj1 (sub_path_join d n p E)) 255); [|apply sub_path_fuel|done|lia..].
    intros d n p E. by apply sub_path_join in E as [_ ?]. }
  destruct (walk _ _ _ _ _ _); simpl; try done. by case_match.
Qed.

(** C2: the file lists exactly the visible entries of the tree, with the level
    at which they are: a line for an entry is there if and only if the entry
    is reachable from the root through directories that are not hidden. *)
Theorem main_lists_exactly_the_tree fs fuel args h r root out msg :
  budget h = None → config args = Ok (root, out, msg) →
  result (main fs fuel args h) = Ok r →
  ∃ lines, r_file r = (out, render lines) ∧
    StronglySorted entry_le ((λ t, (t.1.1, t.2)) <$> lines) ∧
    ∀ lv p, (∃ n, (lv, n, p) ∈ lines) ↔ (lv, p) = (1%Z, root) ∨ listed (fs_dir fs) root 1 lv p.
Proof.
  intros Hb Hc. rewrite main_refines_spec by done. unfold main_spec. rewrite Hc. simpl.
  destruct (walk (fs_dir fs) _ _ _ _ _) as [l| | |] eqn:Hw; try done. simpl.
  destruct (fs_writable fs out); [|done]. intros [= <-].
  exists (listing ((1%Z, root) :: l)). split; [done|].
  assert (E : (λ t, (t.1.1, t.2)) <$> listing ((1%Z, root) :: l) =
              merge_sort entry_le ((1%Z, root) :: l)).
  { unfold listing, numbered. apply list_eq. intros i.
    rewrite list_lookup_fmap, list_lookup_imap. by destruct (_ !! i) as [[]|]. }
  rewrite E. split; [apply (StronglySorted_merge_sort entry_le)|]. intros lv p.
  rewrite <- (walk_listed _ _ _ (λ d n p E, proj1 (sub_path_join d n p E)) _ _ _ _ _ _ Hw).
  rewrite <- elem_of_cons, <- (merge_sort_Permutation entry_le), <- E, list_elem_of_fmap.
  split.
  - intros [n Hin]. by exists (lv, n, p).
  - intros ([[lv' n] p'] & [= -> ->] & Hin). by exists n.
Qed.

(** ** Witnesses: a small tree *)
Definition demo_dir (p : bytes) : option (list dirent) :=
  if decide (p = lit "r") then
    Some [Dirent (lit ".git") 4; Dirent (lit "z") 8; Dirent (lit "d") 4; Dirent (lit "a") 8]
  else if decide (p = lit "r/d") then Some [Dirent (lit "k") 8] else None.
Definition demo_fs : fsys := FSys demo_dir (λ _, None) (λ _, true) (Ok tt).
Definition demo_fs' : fsys :=
  FSys (λ p, reverse <$> demo_dir p) (λ _, None) (λ _, true) (Ok tt).
Definition demo_args : list bytes := [lit "dirlist"; lit "r"; lit "o"].
Definition demo_run : run :=
  Run 0 (lit "printing cmd line arg" ++ [NL])
    (lit "o", lit "1:1:r" ++ [NL] ++ lit "2:1:r/a" ++ [NL] ++ lit "2:2:r/d" ++ [NL] ++
              lit "2:3:r/z" ++ [NL] ++ lit "3:1:r/d/k" ++ [NL]).

Lemma main_refines_spec_witness :
  result (main demo_fs 256 demo_args empty_heap) = Ok demo_run.
Proof.
  refine (eq_trans (main_refines_spec demo_fs 256 demo_args empty_heap eq_refl) _).
  vm_compute. reflexivity.
Defined.

Lemma demo_main : ∃ h', main demo_fs 256 demo_args empty_heap = Ok (demo_run, h').
Proof. eexists. vm_compute. reflexivity. Qed.

Lemma main_leaks_one_block_per_entry_witness :
  ∃ h' l, main demo_fs 256 demo_args empty_heap = Ok (demo_run, h') ∧
    walk demo_dir sub_path (Ok tt) 256 (lit "r") 1 = Ok l ∧
    size (cells h') = size (cells (empty_heap (B:=blk))) + 2 + (1 + length l).
Proof.
  destruct demo_main as [h' E].
  destruct (main_leaks_one_block_per_entry demo_fs 256 demo_args empty_heap demo_run h' eq_refl E)
    as (root & out & msg & l & Hc & Hw & _ & Hn).
  injection Hc as <- <- <-. exists h', l. split; [exact E|]. split; [exact Hw|exact Hn].
Defined.

Lemma main_order_independent_witness :
  result (main demo_fs' 256 demo_args empty_heap) = Ok demo_run.
Proof.
  refine (main_order_independent demo_fs demo_fs' 256 demo_args empty_heap demo_run
    eq_refl _ eq_refl eq_refl _).
  - intros p. simpl. destruct (demo_dir p) as [ents|]; simpl; [|done]. symmetry. apply reverse_Permutation.
  - vm_compute. reflexivity.
Defined.

Lemma main_terminates_witness :
  result (main demo_fs 256 demo_args empty_heap) ≠ NoFuel.
Proof. refine (main_terminates demo_fs 256 demo_args empty_heap eq_refl _ _); [done|lia]. Defined.

Lemma main_lists_exactly_the_tree_witness :
  ∃ lines, r_file demo_run = (lit "o", render lines) ∧
    ∃ n, (3%Z, n, lit "r/d/k") ∈ lines.
Proof.
  destruct (main_lists_exactly_the_tree demo_fs 256 demo_args empty_heap demo_run
    (lit "r") (lit "o") (lit "printing cmd line arg") eq_refl eq_refl ltac:(vm_compute; reflexivity))
    as (lines & E & _ & Hl).
  exists lines. split; [exact E|]. apply Hl. right.
  eapply listed_below with (e := Dirent (lit "d") 4); [reflexivity| |reflexivity|reflexivity|].
  - right; right; left.
  - eapply (listed_here demo_dir (lit "r/d") 2 _ (Dirent (lit "k") 8)); [reflexivity|left|reflexivity].
Defined.
End theorems.

(** ** "dirlist/BlackBoxTesting (copy)/dirlist.c"

    The same code with other names, other formats, and a [main] whose calls of
    [print_list] are commented out.  It assigns to an [outputfilename] that the
    file does not declare; here it is the global of Lin/dirlist/dirlist.c. *)
Module DirlistCopy.
Definition create_node (path : bytes) (level i : Z) : C ptr := PathNode.create_node path level i.
Definition create_list : C ptr := PathNode.create_list.
Definition insert_sorted (node list : ptr) : C unit := PathList.insert_sorted 0%Z node list.
Definition insert_tail (node list : ptr) : C unit := PathNode.insert_tail node list.
Definition write_i (p : ptr) (n : Z) : C unit := set_extra p (λ _, n).
Definition NumberChildren (list : ptr) : C unit := sub_level_loop write_i list.
Definition SortHelper (curNode list : ptr) : C Z := sort_loop swap_paths curNode list.

Definition sorted_step (list : ptr) (st : ptr * bytes) : C (ptr * bytes + bytes) :=
  let '(p, out) := st in
  match p with
  | None => mret (inr (out ++ [NL]))
  | Some _ =>
      head ← get_head list;
      d ← get_data p;
      s ← read_str (ap_path d);
      nx ← get_next p;
      mret (inl (nx, out ++ (if decide (p = head) then [] else [NL]) ++
                     fmt_d (ap_level d) ++ lit ":" ++ fmt_d (ap_level d) ++ s))
  end.

(** [print_listsorted]: what it prints. *)
Definition print_listsorted (list : ptr) : C bytes :=
  fuel ← live;
  head ← get_head list;
  loop (S fuel) (sorted_step list) (head, []).

(** The line of [printf] ends with a blank, that of [fprintf] does not. *)
Definition line (tail : bytes) (p : ptr) : C bytes :=
  d ← get_data p;
  s ← read_str (ap_path d);
  mret (fmt_d (ap_level d) ++ lit ":" ++ fmt_d (ap_data d) ++ lit " " ++ s ++ tail ++ [NL]).

(** [print_list]: what it prints and the file it writes. *)
Definition print_list (fs : fsys) (list : ptr) : C (bytes * (bytes * bytes)) :=
  if fs_writable fs (lit "output2.txt") then
    shown ← print_loop (line (lit " ")) list;
    text ← print_loop (line []) list;
    mret (shown ++ [NL], (lit "output2.txt", text))
  else fail_ub NullDeref.

Definition destroy_list (list : ptr) : C unit := PathNode.destroy_list list.

Definition add_entry (list : ptr) (sub_path : bytes) (x : Z) : C unit :=
  tmpNode ← create_node sub_path x 1;
  insert_sorted tmpNode list.
Definition open_dir (fs : fsys) (fuel : nat) (dir_path : bytes) (list : ptr) (x : Z) : C unit :=
  visit_tree (fs_dir fs) sub_path (fs_closedir_null fs) (add_entry list) fuel dir_path x.

Definition parse_args (args : list bytes) : C (ptr * bytes) :=
  if decide (length args < 2) then
    str ← strdup (lit "/home/darren/Downloads/final-src");
    outputfilename ← strdup (lit "TestOutput.txt");
    mret (str, lit "Printing with  default args" ++ [NL])
  else
    a1 ← lift (arg args 1);
    str ← strdup a1;
    a2 ← lift (arg args 2);
    outputfilename ← strdup a2;
    mret (str, lit "Printing with  command-line args" ++ [NL]).

(** Exit status and standard output; no file is written. *)
Definition main (fs : fsys) (fuel : nat) (args : list bytes) : C (Z * bytes) :=
  list ← create_list;
  cfg ← parse_args args;
  let '(str, msg) := cfg in
  root ← read_str str;
  add_entry list root 1;;
  open_dir fs fuel root list 1;;
  (head ← get_head list; SortHelper head list;; NumberChildren list);;
  destroy_list list;;
  mret (0%Z, msg).

Definition render_line (tail : bytes) (t : Z * Z * bytes) : bytes :=
  fmt_d t.1.1 ++ lit ":" ++ fmt_d t.1.2 ++ lit " " ++ t.2 ++ tail ++ [NL].

Lemma line_ok tail h l n r d v fp :
  cells h !! l = Some (Node n r d) → value_at (cells h) d v fp →
  line tail (Some l) h = Ok (render_line tail (triple v), h).
Proof. intros E (pp & -> & -> & Ep). unfold line. by do 2 mstep. Qed.

(** C6: building the tree's list, sorting, numbering and [print_list] show the
    same listing as the other dirlist.c, in another format. *)
Theorem copy_prints_listing fs fuel h hp R root l :
  dlown h hp tt [] R →
  walk (fs_dir fs) sub_path (fs_closedir_null fs) fuel root 1 = Ok l →
  fs_writable fs (lit "output2.txt") = true →
  result ((add_entry (Some hp) root 1;;
           open_dir fs fuel root (Some hp) 1;;
           (head ← get_head (Some hp); SortHelper head (Some hp);; NumberChildren (Some hp));;
           print_list fs (Some hp)) h) =
  Ok (mjoin (render_line (lit " ") <$> listing ((1%Z, root) :: l)) ++ [NL],
      (lit "output2.txt", mjoin (render_line [] <$> listing ((1%Z, root) :: l)))).
Proof.
  intros Ho Hw Hwr.
  assert (H0 : repr hp R h []) by (exists [], R; auto using leaked_0).
  destruct (insert_repr hp R h [] 1 root H0) as (h1 & H1 & Hr1).
  destruct (visit_tree_build (mk:=mk_value) (fs_dir fs) sub_path (fs_closedir_null fs) fuel root
              1 tt h1 _ l Hr1 Hw) as (h2 & H2 & es & R' & Ho2 & He & _).
  destruct (built_ok root l) as (Hne & Hs & Hd & Hk & _). simpl in He.
  rewrite <- He in Hne, Hs, Hd, Hk.
  destruct (arrange_ok h2 hp es R' Ho2) as (h3 & es3 & H3 & Ho3 & Ht); [by intros ->|done..|].
  erewrite bind_Ok by exact H1. cbv beta. erewrite bind_Ok by exact H2. cbv beta.
  erewrite bind_Ok by exact H3. cbv beta. unfold print_list. rewrite Hwr.
  assert (Hp : ∀ tail, print_loop (line tail) (Some hp) h3 =
    Ok (mjoin (render_line tail <$> listing ((1%Z, root) :: l)), h3)).
  { intros tail. rewrite <- (listing_perm _ _ Hk), <- Ht, <- list_fmap_compose.
    eapply (print_loop_ok (line tail) (render_line tail ∘ triple) (λ _, True)); [|exact Ho3|by apply Forall_true].
    intros * ? ? _. by eapply line_ok. }
  erewrite bind_Ok by apply Hp. cbv beta. by erewrite bind_Ok by apply Hp.
Qed.

Lemma copy_prints_listing_witness :
  ∃ h hp, result ((add_entry (Some hp) (lit "r") 1;;
           open_dir demo_fs 256 (lit "r") (Some hp) 1;;
           (head ← get_head (Some hp); SortHelper head (Some hp);; NumberChildren (Some hp));;
           print_list demo_fs (Some hp)) h) =
    Ok (lit "1:1 r " ++ [NL] ++ lit "2:1 r/a " ++ [NL] ++ lit "2:2 r/d " ++ [NL] ++
        lit "2:3 r/z " ++ [NL] ++ lit "3:1 r/d/k " ++ [NL] ++ [NL],
        (lit "output2.txt", lit "1:1 r" ++ [NL] ++ lit "2:1 r/a" ++ [NL] ++ lit "2:2 r/d" ++ [NL] ++
        lit "2:3 r/z" ++ [NL] ++ lit "3:1 r/d/k" ++ [NL])).
Proof.
  destruct (create_list_ok (empty_heap (B:=blk)) eq_refl) as (h & hp & _ & Ho). exists h, hp.
  refine (eq_trans (copy_prints_listing demo_fs 256 h hp _ (lit "r")
    [(2%Z, lit "r/z"); (2%Z, lit "r/d"); (3%Z, lit "r/d/k"); (2%Z, lit "r/a")] Ho _ eq_refl) _).
  - vm_compute. reflexivity.
  - vm_compute. reflexivity.
Defined.
End DirlistCopy.
