(* ===== verification/Pardirlist.v ===== *)
(** * Lin/pardirlist/pardirlist.c

    dirlist.c with a keyword count for every entry, either in sequence or with
    one thread per entry.  Threads are run by an arbitrary schedule at the
    points where main may be preempted. *)

From stdpp Require Import base list gmap fin_maps strings sorting.
From S2P Require Import Prelude CString Text CMem Dll LevelList SortedInsert ListSort Objects Threads TidList PathNode FileSys FileSearch Listing PathList Dirlist.

(** The fields [i] and [search] of [struct Node]. *)
Record pdata := PD { pd_i : Z; pd_search : Z }.
Abbreviation pblk := (block (apay pdata) unit aobj).
Abbreviation C := (M (heap pblk)).
Abbreviation pvalue := (aval pdata).

Abbreviation T := (M (proc pblk)).

Module LinPardirlist.
(** ** The list of thread identifiers *)
Definition init_LinkedList : C ptr := TidList.init_LinkedList.
Definition addTID (list : ptr) (tid : nat) : C unit := TidList.addTID list tid.

(** ** The list of entries *)
Definition create_node (path : bytes) (level i : Z) : C ptr :=
  PathNode.create_node path level (PD i (-69)).
Definition create_list : C ptr := PathNode.create_list.
Definition insert_sorted (node list : ptr) : C unit := PathList.insert_sorted (PD 0 0) node list.
Definition insert_tail (node list : ptr) : C unit := PathNode.insert_tail node list.

Definition write_i (p : ptr) (n : Z) : C unit := set_extra p (λ d, PD n (pd_search d)).
Definition sub_level (list : ptr) : C unit := sub_level_loop write_i list.

(** The count moves with the path; [i] stays. *)
Definition carry_search (old from : pdata) : pdata := PD (pd_i old) (pd_search from).
Definition node_swap (tmpNode list : ptr) : C Z := sort_loop (swap_paths_and carry_search) tmpNode list.

Definition line (tail : bytes) (p : ptr) : C bytes :=
  d ← get_data p;
  s ← read_str (ap_path d);
  mret (fmt_d (ap_level d) ++ lit ":" ++ fmt_d (pd_i (ap_data d)) ++ lit ":" ++
        fmt_d (pd_search (ap_data d)) ++ lit ":" ++ s ++ tail ++ [NL]).

(** [print_list]: what it shows in a test run, and the file. *)
Definition print_list (fs : fsys) (testRun : bool) (outputfilename : ptr) (list : ptr) :
    C (bytes * (bytes * bytes)) :=
  name ← read_str outputfilename;
  if fs_writable fs name then
    shown ← (if testRun then print_loop (line (lit " ")) list else mret []);
    text ← print_loop (line []) list;
    mret (shown, (name, text))
  else fail_ub NullDeref.

Definition destroy_list (list : ptr) : C unit := PathNode.destroy_list list.

(** ** Threads *)
Section threads.
Context (fs : fsys) (keyword : bytes).

(** [makeThread(arg)] *)
Definition makeThread (arg : ptr) : C unit :=
  path ← node_path arg;
  n ← keyword_search fs path keyword;
  set_extra arg (λ d, PD (pd_i d) n).

(** The points where other threads run, and [pthread_join(tid, NULL)]. *)
Definition yield : T unit := Threads.yield makeThread.
Definition pthread_join (tid : nat) : T unit := Threads.pthread_join makeThread tid.

(** [joinThreads(list)] *)
Definition joinThreads (list : ptr) : T unit := join_all_but_last makeThread list.

(** ** The walk *)

(** What [open_dir] does for an entry; a thread can run from its creation on,
    which shows at the earliest when main has inserted the node. *)
Definition add_entry (ParMode : Z) (TID_list list : ptr) (sub_path : bytes) (x : Z) : T unit :=
  tmpNode ← on_heap (create_node sub_path x 1);
  (if decide (ParMode = 0%Z) then
     on_heap (n ← keyword_search fs sub_path keyword; set_extra tmpNode (λ d, PD (pd_i d) n))
   else
     tid ← pthread_create tmpNode;
     on_heap (addTID TID_list tid));;
  on_heap (insert_sorted tmpNode list);;
  yield.

Definition open_dir (ParMode : Z) (TID_list : ptr) (fuel : nat) (dir_path : bytes) (list : ptr)
    (x : Z) : T unit :=
  visit_tree (fs_dir fs) sub_path (fs_closedir_null fs) (add_entry ParMode TID_list list) fuel
    dir_path x.
End threads.

(** ** main *)
Record config := Config {
  c_path : bytes; c_keyword : bytes; c_out : bytes; c_mode : Z; c_test : bool; c_msg : bytes;
}.

Definition parse_args (args : list bytes) : outcome config :=
  if decide (length args < 5) then
    Ok (Config (lit "../files/final-src") (lit "int") (lit "TestOutput.txt") 1 true
          (lit "printing default arg" ++ [NL]))
  else
    path ← arg args 1;
    keyword ← arg args 2;
    outputfilename ← arg args 3;
    a4 ← arg args 4;
    ParMode ← atoi a4;
    Ok (Config path keyword outputfilename ParMode false
          (lit "====> ArgC = " ++ fmt_d (Z.of_nat (length args)) ++ lit ", required: 5" ++ [NL] ++
           lit "====> Target Directory: " ++ path ++ [NL] ++
           lit "====> Keyword: " ++ keyword ++ [NL] ++
           lit "====> Output File-name: " ++ outputfilename ++ [NL] ++
           (if decide (ParMode = 1%Z) then lit "====> Parralel Search" else lit "====> Sequential Search")
           ++ [NL])).

(** The strings that main keeps. *)
Definition keep_args (c : config) : C (ptr * ptr * ptr) :=
  path ← strdup (c_path c);
  keyword ← strdup (c_keyword c);
  outputfilename ← strdup (c_out c);
  mret (path, keyword, outputfilename).

(** What main does when the walk and the joins are done; the threads that are
    left may run in between. *)
Definition finish (fs : fsys) (keyword : bytes) (c_test : bool) (outputfilename list : ptr) :
    T (bytes * (bytes * bytes)) :=
  yield fs keyword;;
  on_heap (head ← get_head list; node_swap head list);;
  yield fs keyword;;
  on_heap (sub_level list);;
  yield fs keyword;;
  out ← on_heap (print_list fs c_test outputfilename list);
  yield fs keyword;;
  on_heap (destroy_list list);;
  yield fs keyword;;
  mret out.

(** The first entry is searched by main itself. *)
Definition add_root (fs : fsys) (keyword : bytes) (root : bytes) (list : ptr) : C unit :=
  tmp ← create_node root 1 1;
  (n ← keyword_search fs root keyword; set_extra tmp (λ d, PD (pd_i d) n));;
  insert_sorted tmp list.

Definition main (fs : fsys) (fuel : nat) (args : list bytes) : T run :=
  TID_list ← on_heap init_LinkedList;
  list ← on_heap create_list;
  c ← lift (parse_args args);
  ps ← on_heap (keep_args c);
  let '(path, keyword, outputfilename) := ps in
  root ← on_heap (read_str path);
  kw ← on_heap (read_str keyword);
  on_heap (add_root fs kw root list);;
  open_dir fs kw (c_mode c) TID_list fuel root list 1;;
  (if decide (c_mode c = 1%Z) then joinThreads fs kw TID_list else mret tt);;
  out ← finish fs kw (c_test c) outputfilename list;
  mret (Run 0 (c_msg c ++ out.1) out.2).
End LinPardirlist.
