(* ===== verification/ParThreads.v ===== *)
(** * The threads of pardirlist.c

    The invariant of the concurrent build: every entry of the list either has
    its final count or a thread that has not finished; what the operations of
    Pardirlist.v do to it under any schedule. *)

From stdpp Require Import base list gmap fin_maps strings sorting.
From S2P Require Import Prelude CString Text CMem Dll LevelList SortedInsert ListSort Objects Threads TidList PathNode FileSys FileSearch Listing PathList Dirlist Pardirlist.
Import LinPardirlist.

Abbreviation pent := (ent (apay pdata) pvalue).
Abbreviation pevals := (fmap (M:=list) (@e_val (apay pdata) pvalue)).
Abbreviation pkey := (ekey (@av_level pdata) (@av_path pdata)).
Abbreviation pmem := (gmap loc pblk).

(** The rest of the memory keeps its blocks, but for the list of identifiers. *)
Definition kept (tl : loc) (R R' : pmem) : Prop := ∀ l x, l ≠ tl → R !! l = Some x → R' !! l = Some x.

Lemma kept_refl tl R : kept tl R R.
Proof. by intros ?. Qed.
Lemma kept_trans tl R1 R2 R3 : kept tl R1 R2 → kept tl R2 R3 → kept tl R1 R3.
Proof. intros H1 H2 l x ? ?. by apply H2, H1. Qed.
Lemma kept_leaked tl n R R' : leaked n R R' → kept tl R R'.
Proof. intros [Hs _] l x _ Hl. by eapply lookup_weaken. Qed.

Section par.
Context (fs : fsys) (kw : bytes) (hp tl : loc).

Abbreviation sr := (search_result fs kw).

Definition settled (v : pvalue) : Prop := pd_search (av_data v) = sr (av_path v).
Definition good (pend : list (nat * ptr)) (e : pent) : Prop :=
  pd_i (av_data (e_val e)) = 1%Z ∧ (Some (e_loc e) ∉ pend.*2 → settled (e_val e)).

Record pinv (s : proc pblk) (es : list pent) (R : pmem) : Prop := {
  pi_own : dlown (p_heap s) hp tt es R;
  pi_good : Forall (good (p_pending s)) es;
  pi_pend : Forall (λ t, t.1 < p_next s ∧ ∃ e, e ∈ es ∧ t.2 = Some (e_loc e)) (p_pending s);
  pi_nodup : NoDup (p_pending s).*1;
  pi_tids : ∃ ns, registered R tl ns (p_next s);
}.

(** Results about the same entries: paths, levels and places. *)
Definition same_list (es es' : list pent) : Prop :=
  e_loc <$> es' = e_loc <$> es ∧ pkey <$> pevals es' = pkey <$> pevals es.

Lemma same_list_trans es1 es2 es3 : same_list es1 es2 → same_list es2 es3 → same_list es1 es3.
Proof. intros [? ?] [? ?]. split; congruence. Qed.

Lemma makeThread_ok h es1 a es2 R :
  dlown h hp tt (es1 ++ a :: es2) R →
  ∃ h' a', makeThread fs kw (Some (e_loc a)) h = Ok (tt, h') ∧
    dlown h' hp tt (es1 ++ a' :: es2) R ∧ e_loc a' = e_loc a ∧
    e_val a' = AVal (av_level (e_val a)) (av_path (e_val a))
                 (PD (pd_i (av_data (e_val a))) (sr (av_path (e_val a)))).
Proof.
  intros Ho. pose proof (dlown_lookup _ _ _ _ _ _ _ Ho) as Ha.
  pose proof (dlown_value _ _ _ _ _ a Ho ltac:(apply elem_of_app; right; left)) as Hv.
  destruct (set_extra_ok h hp es1 a es2 R (λ d, PD (pd_i d) (sr (av_path (e_val a)))) Ho)
    as (h' & a' & H1 & Ho' & ? & ?).
  exists h', a'. split; [|done]. unfold makeThread.
  erewrite bind_Ok by (by eapply (node_path_ok h)). cbv beta. simpl.
  by erewrite bind_Ok by (apply keyword_search_ok, (do_budget _ _ _ _ _ Ho)).
Qed.

(** A thread that has its turn settles its entry. *)
Lemma thread_settles h pend1 t arg pend2 n sch es R :
  pinv (Proc h (pend1 ++ (t, arg) :: pend2) n sch) es R →
  ∃ h' es', makeThread fs kw arg h = Ok (tt, h') ∧ pinv (Proc h' (pend1 ++ pend2) n sch) es' R ∧
    same_list es es'.
Proof.
  intros [Ho Hg Hp Hnd Ht]. simpl in *.
  assert (Hsub : ∀ u, u ∈ pend1 ++ pend2 → u ∈ pend1 ++ (t, arg) :: pend2).
  { intros u. rewrite !elem_of_app, elem_of_cons. tauto. }
  rewrite Forall_forall in Hp. destruct (Hp (t, arg)) as (_ & a & Ha & Harg).
  { apply elem_of_app. right. left. }
  simpl in Harg. subst arg. apply list_elem_of_split in Ha as (es1 & es2 & ->).
  destruct (makeThread_ok _ _ _ _ _ Ho) as (h' & a' & H1 & Ho' & La & Va).
  exists h', (es1 ++ a' :: es2). split; [done|].
  assert (Hsame : same_list (es1 ++ a :: es2) (es1 ++ a' :: es2)).
  { split; rewrite !fmap_app, !fmap_cons; [by rewrite La|]. do 2 f_equal. unfold ekey. by rewrite Va. }
  split; [|done]. constructor; simpl; [done| | | |done].
  - assert (Hother : ∀ e, e_loc e ≠ e_loc a → good (pend1 ++ (t, Some (e_loc a)) :: pend2) e →
      good (pend1 ++ pend2) e).
    { intros e Hne [Hgi Hgs]. split; [done|]. intros Hno. apply Hgs. intros Hin. apply Hno.
      rewrite fmap_app, fmap_cons, elem_of_app, elem_of_cons in Hin. rewrite fmap_app, elem_of_app.
      destruct Hin as [?|[?|?]]; [by left|simpl in *; congruence|by right]. }
    destruct Ho as [[_ _ _ Hs] _ _]. apply NoDup_locs in Hs.
    rewrite fmap_app, fmap_cons in Hs. apply NoDup_app in Hs as (_ & Hx & [Hy _]%NoDup_cons).
    rewrite Forall_app, Forall_cons in Hg |- *. destruct Hg as (Hg1 & Hga & Hg2).
    rewrite Forall_forall in Hg1, Hg2. rewrite !Forall_forall. split; [|split].
    + intros e He. apply Hother; [|by apply Hg1]. intros E.
      apply (Hx (e_loc e)); [by apply list_elem_of_fmap_2|]. rewrite E. left.
    + destruct Hga as [Hgi _]. split; rewrite Va; [done|]. by intros _.
    + intros e He. apply Hother; [|by apply Hg2]. intros E. apply Hy. rewrite <- E.
      by apply list_elem_of_fmap_2.
  - apply Forall_forall. intros u Hu. destruct (Hp u (Hsub u Hu)) as (? & e & He & ?). split; [done|].
    assert (e_loc e ∈ e_loc <$> es1 ++ a' :: es2) as (e' & ? & ?)%list_elem_of_fmap.
    { destruct Hsame as [-> _]. by apply list_elem_of_fmap_2. }
    exists e'. split; [done|]. congruence.
  - rewrite fmap_app, fmap_cons in Hnd. rewrite fmap_app. apply NoDup_app in Hnd as (N1 & N2 & [_ N3]%NoDup_cons).
    apply NoDup_app. split_and!; [done| |done]. intros x Hx Hx'. apply (N2 x Hx). by right.
Qed.

(** The same entries, some of them with their count. *)
Definition settling (es : list pent) (R : pmem) (s : proc pblk) : Prop := ∃ es', pinv s es' R ∧ same_list es es'.

#[export] Instance settling_steady es R : Steady (makeThread fs kw) (settling es R).
Proof.
  split.
  - intros s (es' & Hi & _). exact (pi_nodup _ _ _ Hi).
  - intros h pend n sch sch' (es' & [] & ?). exists es'. split; [by constructor|done].
  - intros h pend1 t arg pend2 n sch (es' & Hi & Hs).
    destruct (thread_settles _ _ _ _ _ _ _ _ _ Hi) as (h' & es2 & H1 & Hi2 & Hs2).
    exists h'. split; [exact H1|]. exists es2. split; [done|]. by eapply same_list_trans.
Qed.

(** The state while the tree is walked: the keys of the list, and in the
    parallel modes how much of the schedule has been used. *)
Definition prepr (mode : Z) (sched0 : list (list nat)) (base : pmem) (s : proc pblk) (ks : list entry) :
    Prop :=
  ∃ es R, pinv s es R ∧ pkey <$> pevals es = ks ∧ kept tl base R ∧
    (mode = 0%Z → p_pending s = []) ∧
    (mode ≠ 0%Z → in_time sched0 s ∧ S (p_next s) = length es).

Abbreviation place_ent := (place (λ e : pent, av_level (e_val e))).

Lemma place_keys (e : pent) es :
  pkey <$> pevals (place_ent e es) = place fst (pkey (e_val e)) (pkey <$> pevals es).
Proof. rewrite <- !list_fmap_compose. apply (place_fmap (pkey ∘ e_val) fst). Qed.

(** The new node's thread, if it has one, is entered in the list of identifiers. *)
Lemma register_ok h es e R ns k :
  ready h hp es e R → cells h !! e_loc e = Some (Node None None (e_dat e)) → registered R tl ns k →
  ∃ h' R' l, addTID (Some tl) k h = Ok (tt, h') ∧ ready h' hp es e R' ∧
    cells h' !! e_loc e = Some (Node None None (e_dat e)) ∧
    registered R' tl ((l, k) :: ns) (S k) ∧ kept tl R R'.
Proof.
  intros Hr Hn Hreg. pose proof (det_val _ _ _ _ (rd_det _ _ _ _ _ Hr)) as Hv.
  assert (Hnd : NoDup (foot e)).
  { destruct Hr as [_ [_ _ Hs] _ _]. apply NoDup_cons in Hs as [_ Hs]. by apply NoDup_app in Hs as [? _]. }
  destruct (ready_own _ _ _ _ _ Hr) as (Ho1 & HR & Hfoot).
  set (R1 := outside (cells h) (own_locs hp es)) in *.
  assert (Hsub : ∀ x b, R !! x = Some b → R1 !! x = Some b ∧ x ∉ foot e).
  { intros x b Hx. rewrite <- HR, lookup_outside in Hx. by case_decide. }
  assert (Hlive : ∀ x, x ∈ foot e → is_Some (R1 !! x)).
  { intros x Hx. rewrite Hfoot by done. apply elem_of_cons in Hx as [->|Hx]; [by rewrite Hn|].
    destruct (value_at_other _ _ _ _ _ Hv Hx) as [? ->]. eauto. }
  assert (Hreg1 : registered R1 tl ns k) by (eapply registered_frame; [exact Hreg|]; intros x b _ Hb; by apply Hsub).
  destruct (addTID_ok h hp tt es R1 tl ns k Ho1 Hreg1) as (h' & R2 & l & H1 & Ho2 & Hl & Hreg2 & Hk).
  assert (Htle : tl ∉ foot e).
  { destruct Hreg as (_ & hd & Htl & _). by apply (Hsub _ _ Htl). }
  assert (Hle : l ∉ foot e) by (intros Hin; destruct (Hlive l Hin); congruence).
  assert (Hkeep : ∀ x, x ∈ foot e → R2 !! x = cells h !! x).
  { intros x Hx. rewrite <- (Hfoot x Hx). apply Hk; intros ->; done. }
  assert (Hn2 : R2 !! e_loc e = Some (Node None None (e_dat e))) by (by rewrite Hkeep by left).
  assert (Hv2 : value_at R2 (e_dat e) (e_val e) (e_fp e)).
  { eapply value_at_frame; [done|]. intros x Hx. apply Hkeep. by right. }
  pose proof (own_ready h' hp es e R2 None None Ho2 Hn2 Hv2 Hnd) as Hr2.
  exists h', (outside R2 (foot e)), l. split; [done|]. split; [done|]. split.
  { destruct Ho2 as [_ E _]. rewrite <- E, lookup_outside in Hn2. by case_decide. }
  assert (Hout : ∀ x, x ∈ tl :: l :: ns.*1 → x ∉ foot e).
  { intros x [->|[->|Hx]%elem_of_cons]%elem_of_cons; [done..|].
    destruct (registered_live _ _ _ _ x Hreg ltac:(by right)) as [b Hb]. by apply (Hsub _ _ Hb). }
  split.
  - eapply registered_frame; [exact Hreg2|]. intros x b Hx Hb. by rewrite lookup_outside, decide_False by by apply Hout.
  - intros x b Hx Hb. destruct (Hsub _ _ Hb) as [Hb1 ?]. rewrite lookup_outside, decide_False by done.
    rewrite Hk; [done|done|]. intros ->. congruence.
Qed.

(** The entry of a new path [p] at level [x], when its search is done or its thread exists. *)
Record started (mode : Z) (s : proc pblk) (es : list pent) (R : pmem) (l : loc) (x : Z) (p : bytes)
    (h2 : heap pblk) (e2 : pent) (R2 : pmem) (pend2 : list (nat * ptr)) (n2 : nat) : Prop := {
  st_ready : ready h2 hp es e2 R2;
  st_loc : e_loc e2 = l;
  st_node : cells h2 !! e_loc e2 = Some (Node None None (e_dat e2));
  st_kept : kept tl R R2;
  st_key : pkey (e_val e2) = (x, p);
  st_good : good pend2 e2;
  st_seq : mode = 0%Z → pend2 = p_pending s ∧ n2 = p_next s;
  st_par : mode ≠ 0%Z → n2 = S (p_next s) ∧ pend2 = p_pending s ++ [(p_next s, Some l)];
  st_tids : ∃ ns, registered R2 tl ns n2;
}.

Lemma entry_starts mode s es R h1 e x p :
  pinv s es R → ready h1 hp es e R → e_val e = AVal x p (PD 1 (-69)) →
  cells h1 !! e_loc e = Some (Node None None (e_dat e)) →
  ∃ h2 e2 R2 pend2 n2,
    (if decide (mode = 0%Z) then
       on_heap (n ← keyword_search fs p kw; set_extra (Some (e_loc e)) (λ d, PD (pd_i d) n))
     else tid ← pthread_create (Some (e_loc e)); on_heap (addTID (Some tl) tid))
      (Proc h1 (p_pending s) (p_next s) (p_sched s)) = Ok (tt, Proc h2 pend2 n2 (p_sched s)) ∧
    started mode s es R (e_loc e) x p h2 e2 R2 pend2 n2.
Proof.
  intros [Ho Hg Hp Hnd (ns & Hreg)] Hr Hv Hn. case_decide as Hmode.
  - destruct (ready_set_extra h1 hp es e R (λ d, PD (pd_i d) (sr p)) Hr Hn)
      as (h2 & e2 & H2 & Hr2 & Hl2 & Hv2 & Hn2).
    exists h2, e2, R, (p_pending s), (p_next s). split.
    { unfold on_heap. cbn [p_heap]. erewrite bind_Ok
        by (apply keyword_search_ok, (rd_budget _ _ _ _ _ Hr)). cbv beta. by rewrite H2. }
    constructor; try done; [apply kept_refl|unfold ekey; by rewrite Hv2, Hv|split; rewrite Hv2, Hv; done|].
    by exists ns.
  - destruct (register_ok h1 es e R ns (p_next s) Hr Hn Hreg) as (h2 & R2 & l & H2 & Hr2 & Hn2 & Hreg2 & Hk2).
    exists h2, e, R2, (p_pending s ++ [(p_next s, Some (e_loc e))]), (S (p_next s)). split.
    { unfold pthread_create. erewrite bind_Ok by done. cbv beta. unfold on_heap.
      cbn [p_heap p_next]. by rewrite H2. }
    constructor; try done; [unfold ekey; by rewrite Hv| |by eexists].
    + split; [by rewrite Hv|]. intros Hno. exfalso. apply Hno.
      rewrite fmap_app. apply elem_of_app. right. left.
Qed.

Lemma started_pinv mode s es R l x p h2 e2 R2 pend2 n2 h3 R3 :
  pinv s es R → started mode s es R l x p h2 e2 R2 pend2 n2 →
  dlown h3 hp tt (place_ent e2 es) R3 → leaked 1 R2 R3 →
  pinv (Proc h3 pend2 n2 (p_sched s)) (place_ent e2 es) R3.
Proof.
  intros [_ Hg Hp Hnd _] [_ Hl2 _ _ _ Hge Hz Hnz (ns & Hreg2)] Ho3 [Hlk _].
  assert (Hperm : place_ent e2 es ≡ₚ e2 :: es) by apply place_perm.
  constructor; simpl; [done| | | |].
  - rewrite Hperm. constructor; [done|]. eapply Forall_impl; [exact Hg|].
    intros e0 [? Hs]. split; [done|]. intros Hno. apply Hs. intros Hin. apply Hno.
    destruct (decide (mode = 0%Z)) as [Em|Em]; [destruct (Hz Em); congruence|].
    destruct (Hnz Em) as [_ ->]. rewrite fmap_app. apply elem_of_app. by left.
  - assert (Hin : ∀ e0, e0 ∈ e2 :: es → e0 ∈ place_ent e2 es) by (intros; by rewrite Hperm).
    assert (Hold : ∀ k, p_next s ≤ k → Forall (λ t, t.1 < k ∧
        ∃ e, e ∈ place_ent e2 es ∧ t.2 = Some (e_loc e)) (p_pending s)).
    { intros k Hk. eapply Forall_impl; [exact Hp|]. intros t (? & e0 & ? & ?).
      split; [lia|]. exists e0. split; [|done]. apply Hin. by right. }
    destruct (decide (mode = 0%Z)) as [Em|Em].
    + destruct (Hz Em) as [-> ->]. by apply Hold.
    + destruct (Hnz Em) as [-> ->]. apply Forall_app. split; [apply Hold; lia|].
      apply Forall_singleton. simpl. split; [lia|]. exists e2. split; [apply Hin; left|]. by rewrite Hl2.
  - destruct (decide (mode = 0%Z)) as [Em|Em]; [by destruct (Hz Em) as [-> _]|].
    destruct (Hnz Em) as [_ ->]. rewrite fmap_app. apply NoDup_app. split; [done|].
    split; [|apply NoDup_singleton]. intros t Hin ->%list_elem_of_singleton.
    apply list_elem_of_fmap in Hin as (u & E & Hu). rewrite Forall_forall in Hp.
    destruct (Hp _ Hu) as [Hlt _]. simpl in *. lia.
  - exists ns. eapply registered_frame; [exact Hreg2|]. intros y b _ Hb. by eapply lookup_weaken.
Qed.

Lemma add_entry_repr mode sched0 base s ks x p :
  prepr mode sched0 base s ks →
  ∃ s', add_entry fs kw mode (Some tl) (Some hp) p x s = Ok (tt, s') ∧
    prepr mode sched0 base s' (place fst (x, p) ks).
Proof.
  intros (es & R & Hi & Hks & Hbase & Hm0 & Hm1). pose proof Hi as [Ho _ _ _ _].
  destruct (create_node_ok (p_heap s) hp es R p x (PD 1 (-69)) Ho) as (h1 & e & H1 & Hr & Hv & Hn).
  unfold add_entry, create_node. erewrite bind_Ok by (by apply on_heap_ok). cbv beta.
  destruct (entry_starts mode s es R h1 e x p Hi Hr Hv Hn) as (h2 & e2 & R2 & pend2 & n2 & H2 & Hst).
  pose proof Hst as [Hr2 Hl2 Hn2 Hk2 Hkey _ Hz Hnz _].
  erewrite bind_Ok by exact H2. cbv beta.
  destruct (insert_sorted_ok (PD 0 0) h2 hp es e2 R2 Hr2 Hn2) as (h3 & R3 & H3 & Ho3 & Hlk).
  unfold insert_sorted. rewrite <- Hl2. erewrite bind_Ok by (by apply on_heap_ok). cbv beta.
  cbn [p_pending p_next p_sched].
  pose proof (started_pinv _ _ _ _ _ _ _ _ _ _ _ _ h3 R3 Hi Hst Ho3 Hlk) as Hi3.
  destruct (yield_keeps (makeThread fs kw) (Inv:=settling (place_ent e2 es) R3) (Proc h3 pend2 n2 (p_sched s)))
    as (s' & H4 & (es' & Hi4 & _ & Hsk) & Hn4 & Hc4 & Hp4); [by exists (place_ent e2 es)|].
  exists s'. split; [exact H4|]. exists es', R3. split; [done|]. split.
  { rewrite Hsk, place_keys, Hkey. by rewrite Hks. }
  split; [eapply kept_trans; [exact Hbase|]; eapply kept_trans; [exact Hk2|by eapply kept_leaked]|].
  simpl in Hn4, Hc4, Hp4. split.
  - intros Em. destruct (Hz Em) as [-> _]. rewrite (Hm0 Em) in Hp4.
    destruct (p_pending s') as [|t ?]; [done|].
    by pose proof (proj1 (Hp4 t) ltac:(left)) as [[]%elem_of_nil _].
  - intros Em. destruct (Hnz Em) as [En2 Ep2]. destruct (Hm1 Em) as [Hin Hlen]. split.
    + by apply (in_time_create sched0 s (Some (e_loc e)) (Proc h3 pend2 n2 (p_sched s)) s' Hin).
    + rewrite Hn4, En2, Hlen. apply (f_equal length) in Hsk. rewrite !length_fmap in Hsk.
      by rewrite Hsk, (place_perm _ e2 es).
Qed.

#[export] Instance par_builder mode sched0 base :
  Builder (add_entry fs kw mode (Some tl) (Some hp)) fst pair (λ (a : unit) _ _, a) (λ _, prepr mode sched0 base).
Proof. split; [done|]. intros. by apply add_entry_repr. Qed.
End par.
