(* ===== verification/ParMain.v ===== *)
(** * main of Lin/pardirlist/pardirlist.c

    The sequential run, the parallel runs under every schedule, and what goes
    wrong when the thread that is not joined is late. *)

From stdpp Require Import base list gmap fin_maps strings sorting.
From S2P Require Import Prelude CString Text CMem Dll LevelList SortedInsert ListSort Objects Threads TidList PathNode FileSys FileSearch Listing PathList Dirlist Pardirlist ParThreads.
Import LinPardirlist.

(** ** The specification *)
Definition par_line (fs : fsys) (kw tail : bytes) (t : Z * Z * bytes) : bytes :=
  fmt_d t.1.1 ++ lit ":" ++ fmt_d t.1.2 ++ lit ":" ++ fmt_d (search_result fs kw t.2) ++
  lit ":" ++ t.2 ++ tail ++ [NL].

(** The listing with the number of occurrences of the keyword in each entry. *)
Definition par_text (fs : fsys) (kw tail : bytes) (l : list entry) : bytes :=
  mjoin (par_line fs kw tail <$> listing l).

Definition par_run (fs : fsys) (c : config) (l : list entry) : run :=
  Run 0 (c_msg c ++ (if c_test c then par_text fs (c_keyword c) (lit " ") ((1%Z, c_path c) :: l) else []))
    (c_out c, par_text fs (c_keyword c) [] ((1%Z, c_path c) :: l)).

(** The schedules that cannot go wrong: none is needed in sequence; in parallel
    the first thread, which is never joined, runs while the tree is walked. *)
Definition safe_schedule (mode : Z) (l : list entry) (sched : list (list nat)) : Prop :=
  mode = 0%Z ∨ mode = 1%Z ∧ l ≠ [] ∧ 0 ∈ mjoin (take (length l) sched).

Section main.
Context (fs : fsys) (kw : bytes) (hp tl : loc).
Abbreviation Pinv := (pinv fs kw hp tl).

(** Joining all but the first thread: when that one has finished, so have all. *)
Lemma joinThreads_ok s es R :
  Pinv s es R → 0 < p_next s → (∀ t, t ∈ p_pending s → t.1 ≠ 0) →
  ∃ s' es', joinThreads fs kw (Some tl) s = Ok (tt, s') ∧ Pinv s' es' R ∧ same_list es es' ∧
    p_pending s' = [].
Proof.
  intros Hi Hn H0. destruct (pi_tids _ _ _ _ _ _ _ Hi) as (ns & Hreg).
  destruct (join_all_keeps (makeThread fs kw) (settling fs kw hp tl es R) R) with (tl := tl) (ns := ns)
    (k := p_next s) (s := s) as (s' & H1 & (es' & Hi' & Hs') & _ & Hp'); try done.
  - intros s1 (es1 & Hi1 & _). by eapply dlown_rest_sub, pi_own.
  - by exists es.
  - intros t Ht. pose proof (pi_pend _ _ _ _ _ _ _ Hi) as Hp. rewrite Forall_forall in Hp.
    split; [by apply Hp|by apply H0].
  - by exists s', es'.
Qed.

(** ** From a finished list to the end *)
Abbreviation ptriple := (etriple av_level (λ v : pvalue, pd_i (av_data v)) av_path).
Definition set_pnum (v : pvalue) (n : Z) : pvalue :=
  AVal (av_level v) (av_path v) (PD n (pd_search (av_data v))).

Lemma write_pi_ok : write_num_spec write_i set_pnum.
Proof.
  intros h hp' [] es1 a es2 R n Ho.
  destruct (set_extra_ok h hp' es1 a es2 R (λ d, PD n (pd_search d)) Ho) as (h' & a' & ? & ? & ? & ?).
  by exists h', a'.
Qed.

Lemma swap_search_ok : swap_spec (swap_paths_and carry_search) (λ v, pd_i (av_data v) = 1%Z).
Proof.
  apply swap_paths_and_ok. intros va vb Ha Hb. unfold carry_search. rewrite Ha, <- Hb.
  by destruct (av_data vb).
Qed.

Lemma par_line_ok tail h l n r d v fp :
  cells h !! l = Some (Node n r d) → value_at (cells h) d v fp → settled fs kw v →
  line tail (Some l) h = Ok (par_line fs kw tail (ptriple v), h).
Proof.
  intros E (pp & -> & -> & Ep) Hs. unfold line. do 2 mstep. unfold par_line. simpl. by rewrite <- Hs.
Qed.

Lemma finish_ok s es R p out test :
  Pinv s es R → p_pending s = [] → es ≠ [] → Sorted (key_le av_level) (pevals es) →
  R !! p = Some (Other (Str out)) → fs_writable fs out = true →
  result (finish fs kw test (Some p) (Some hp) s) =
    Ok (if test then par_text fs kw (lit " ") (pkey <$> pevals es) else [],
        (out, par_text fs kw [] (pkey <$> pevals es))).
Proof.
  intros Hi Hp Hne Hs Hout Hw. pose proof (pi_own _ _ _ _ _ _ _ Hi) as Ho.
  assert (Hset : Forall (settled fs kw) (pevals es) ∧ Forall (λ v, pd_i (av_data v) = 1%Z) (pevals es)).
  { pose proof (pi_good _ _ _ _ _ _ _ Hi) as Hg. rewrite !Forall_fmap.
    split; (eapply Forall_impl; [exact Hg|]); intros e [? Hx]; [|done].
    apply Hx. rewrite Hp. apply not_elem_of_nil. }
  destruct Hset as [Hset H1].
  destruct (sort_loop_ok _ _ swap_search_ok (p_heap s) hp tt es R)
    as (h1 & es1 & Hsort & Ho1 & Hperm & Hlp); [done..|].
  destruct (sub_level_ok _ _ write_pi_ok ltac:(done) h1 hp tt es1 R Ho1) as (h2 & es2 & Hsub & Ho2 & He).
  { intros ->. apply Permutation_nil_l in Hperm. by destruct es. }
  assert (Hset2 : Forall (settled fs kw) (pevals es2)).
  { rewrite He. apply number_Forall; [by intros|]. by rewrite Hperm. }
  assert (Htrip : ptriple <$> pevals es2 = listing (pkey <$> pevals es)).
  { rewrite He. apply number_listing; [done..|by rewrite Hperm|by rewrite Hperm]. }
  assert (Hprint : ∀ tail, print_loop (line tail) (Some hp) h2 =
    Ok (par_text fs kw tail (pkey <$> pevals es), h2)).
  { intros tail. unfold par_text. rewrite <- Htrip, <- list_fmap_compose.
    eapply (print_loop_ok (line tail) (par_line fs kw tail ∘ ptriple) (settled fs kw)); [|exact Ho2|done].
    intros. by eapply par_line_ok. }
  unfold finish, yield. erewrite bind_idle; [|done|].
  2:{ pose proof (dl_hdr _ _ _ _ (do_rep _ _ _ _ _ Ho)) as Hh. mstep. exact Hsort. }
  erewrite bind_idle; [|done|exact Hsub].
  erewrite bind_idle; [|done|].
  2:{ unfold print_list. erewrite bind_Ok by (apply read_str_ok; by eapply dlown_rest).
      cbv beta. rewrite Hw. erewrite bind_Ok.
      2:{ instantiate (1 := h2).
          instantiate (1 := if test then par_text fs kw (lit " ") (pkey <$> pevals es) else []).
          destruct test; [apply Hprint|done]. }
      cbv beta. by erewrite bind_Ok by apply Hprint. }
  erewrite bind_idle; [|done|eapply destroy_loop_ok; [apply free_path_ok|exact Ho2]].
  by erewrite bind_Ok by by apply yield_idle.
Qed.

Lemma add_root_ok h R root :
  dlown h hp tt [] R →
  ∃ h' e R', add_root fs kw root (Some hp) h = Ok (tt, h') ∧ dlown h' hp tt [e] R' ∧
    leaked 1 R R' ∧ e_val e = AVal 1 root (PD 1 (search_result fs kw root)).
Proof.
  intros Ho. destruct (create_node_ok h hp [] R root 1 (PD 1 (-69)) Ho) as (h1 & e & H1 & Hr & Hv & Hn).
  destruct (ready_set_extra h1 hp [] e R (λ d, PD (pd_i d) (search_result fs kw root)) Hr Hn)
    as (h2 & e2 & H2 & Hr2 & Hl2 & Hv2 & Hn2).
  destruct (insert_sorted_ok (PD 0 0) h2 hp [] e2 R Hr2 Hn2) as (h3 & R3 & H3 & Ho3 & Hlk).
  exists h3, e2, R3. split; [|split; [done|split; [done|by rewrite Hv2, Hv]]].
  unfold add_root, create_node. erewrite bind_Ok by exact H1. cbv beta.
  erewrite bind_Ok.
  2:{ erewrite bind_Ok by (apply keyword_search_ok, (rd_budget _ _ _ _ _ Hr)). exact H2. }
  cbv beta. by rewrite <- Hl2.
Qed.

Lemma root_repr mode s e R root :
  dlown (p_heap s) hp tt [e] R → e_val e = AVal 1 root (PD 1 (search_result fs kw root)) →
  R !! tl = Some (Other (TidList None None 0)) → p_pending s = [] → p_next s = 0 →
  prepr fs kw hp tl mode (p_sched s) R s [(1%Z, root)].
Proof.
  intros Ho Hv Ht Hp Hn. exists [e], R. split.
  - constructor; [done| | | |].
    + apply Forall_singleton. split; [by rewrite Hv|]. intros _. unfold settled. by rewrite Hv.
    + by rewrite Hp.
    + rewrite Hp. constructor.
    + exists []. rewrite Hn. by apply registered_nil.
  - split; [simpl; unfold ekey; by rewrite Hv|]. split; [apply kept_refl|]. split; [done|].
    intros _. split; [by apply in_time_start|by rewrite Hn].
Qed.
End main.

(** ** main *)
Section run.
Context (fs : fsys).
Implicit Types (s : proc pblk) (c : config).

(** What main has done when it begins the walk. *)
Lemma main_start s fuel args c :
  starting s → parse_args args = Ok c →
  ∃ hp tl p R s1,
    (∀ r, (open_dir fs (c_keyword c) (c_mode c) (Some tl) fuel (c_path c) (Some hp) 1;;
           (if decide (c_mode c = 1%Z) then joinThreads fs (c_keyword c) (Some tl) else mret tt);;
           out ← finish fs (c_keyword c) (c_test c) (Some p) (Some hp);
           mret (Run 0 (c_msg c ++ out.1) out.2)) s1 = r → main fs fuel args s = r) ∧
    prepr fs (c_keyword c) hp tl (c_mode c) (p_sched s) R s1 [(1%Z, c_path c)] ∧
    p ≠ tl ∧ R !! p = Some (Other (Str (c_out c))).
Proof.
  intros (Hb & Hp & Hn) Hc. destruct s as [h pend nx sch]. simpl in *. subst pend nx.
  set (tl := fresh_loc h). set (h1 := hset tl (Other (TidList None None 0)) h).
  assert (H1 : init_LinkedList h = Ok (Some tl, h1)) by by apply malloc_ok.
  destruct (create_list_ok h1 Hb) as (h2 & hp & H2 & Ho2).
  destruct (dlown_malloc h2 hp tt [] _ (Other (Str (c_path c))) Ho2) as (h3 & p1 & H3 & N3 & _ & Ho3).
  destruct (dlown_malloc h3 hp tt [] _ (Other (Str (c_keyword c))) Ho3) as (h4 & p2 & H4 & N4 & _ & Ho4).
  destruct (dlown_malloc h4 hp tt [] _ (Other (Str (c_out c))) Ho4) as (h5 & p3 & H5 & N5 & _ & Ho5).
  set (R0 := <[p3:=Other (Str (c_out c))]> (<[p2:=Other (Str (c_keyword c))]>
              (<[p1:=Other (Str (c_path c))]> (cells h1)))) in *.
  assert (Htl0 : cells h1 !! tl = Some (Other (TidList None None 0))) by apply lookup_insert_eq.
  assert (Hne : p1 ≠ tl ∧ p2 ≠ tl ∧ p3 ≠ tl ∧ p1 ≠ p2 ∧ p1 ≠ p3 ∧ p2 ≠ p3).
  { apply lookup_insert_None in N4 as [N4 ?]. apply lookup_insert_None in N5 as [N5 ?].
    apply lookup_insert_None in N5 as [N5 ?]. repeat split; congruence. }
  destruct Hne as (D1 & D2 & D3 & D4 & D5 & D6).
  assert (Htl : R0 !! tl = Some (Other (TidList None None 0))) by (subst R0; by simplify_map_eq).
  assert (Hp1 : R0 !! p1 = Some (Other (Str (c_path c)))) by (subst R0; by simplify_map_eq).
  assert (Hp2 : R0 !! p2 = Some (Other (Str (c_keyword c)))) by (subst R0; by simplify_map_eq).
  assert (Hp3 : R0 !! p3 = Some (Other (Str (c_out c)))) by (subst R0; by simplify_map_eq).
  destruct (add_root_ok fs (c_keyword c) hp h5 R0 (c_path c) Ho5) as (h6 & e & R & H6 & Ho6 & Hlk & Hv).
  exists hp, tl, p3, R, (Proc h6 [] 0 sch). split; [|split; [|split; [done|by eapply strings_stay]]].
  - intros r <-. unfold main. erewrite bind_Ok by (by apply on_heap_ok). cbv beta.
    erewrite bind_Ok by (unfold on_heap, create_list; cbn [p_heap]; by rewrite H2). cbv beta.
    erewrite bind_Ok by by apply lift_Ok. cbv beta.
    erewrite bind_Ok.
    2:{ unfold on_heap. cbn [p_heap]. unfold keep_args, strdup.
        erewrite bind_Ok by exact H3. cbv beta. erewrite bind_Ok by exact H4. cbv beta.
        by erewrite bind_Ok by exact H5. }
    cbv beta iota. cbn [p_heap p_pending p_next p_sched].
    erewrite bind_Ok by (unfold on_heap; cbn [p_heap];
      by rewrite (read_str_ok _ _ _ (dlown_rest _ _ _ _ _ _ _ Ho5 Hp1))).
    cbv beta. erewrite bind_Ok by (unfold on_heap; cbn [p_heap];
      by rewrite (read_str_ok _ _ _ (dlown_rest _ _ _ _ _ _ _ Ho5 Hp2))).
    cbv beta. by erewrite bind_Ok by (unfold on_heap; cbn [p_heap]; by rewrite H6).
  - apply (root_repr fs (c_keyword c) hp tl (c_mode c) (Proc h6 [] 0 sch) e R); try done.
    by eapply strings_stay.
Qed.

(** C8: in sequence, and in parallel under every schedule that runs the first
    thread during the walk, [main] writes the same file: the listing of the
    tree with the number of occurrences of the keyword in every entry. *)
Theorem par_main_writes_counted_listing s fuel args c l :
  starting s → parse_args args = Ok c →
  walk (fs_dir fs) sub_path (fs_closedir_null fs) fuel (c_path c) 1 = Ok l →
  fs_writable fs (c_out c) = true → safe_schedule (c_mode c) l (p_sched s) →
  result (main fs fuel args s) = Ok (par_run fs c l).
Proof.
  intros Hs Hc Hw Hwr Hsafe.
  destruct (main_start s fuel args c Hs Hc) as (hp & tl & p & R & s1 & Hmain & Hr1 & Hptl & Hp).
  set (kw := c_keyword c) in *.
  destruct (visit_tree_build (lev:=fst) (mk:=pair) (fs_dir fs) sub_path (fs_closedir_null fs) fuel (c_path c)
              1 tt s1 _ l Hr1 Hw) as (s2 & H2 & es & R2 & Hi2 & Hks & Hk & Hm0 & Hm1).
  set (ks := place_all _ _) in *.
  destruct (place_all_keys fst snd (@pair Z bytes) (c_path c) l) as (_ & Hsorted & _ & Hkl & _); [done..|].
  fold ks in Hsorted, Hkl.
  assert (ekey fst snd <$> ks = ks) as Hid.
  { rewrite <- (list_fmap_id ks) at 2. apply list_fmap_ext. by intros ? []. }
  rewrite Hid in Hkl.
  assert (Hjoin : ∃ s3 es3,
    (if decide (c_mode c = 1%Z) then joinThreads fs kw (Some tl) else mret tt) s2 = Ok (tt, s3) ∧
    pinv fs kw hp tl s3 es3 R2 ∧ same_list es es3 ∧ p_pending s3 = []).
  { destruct Hsafe as [E|(E & Hne & Hin)].
    - rewrite E in *. rewrite decide_False by done. exists s2, es. by rewrite (Hm0 eq_refl).
    - rewrite decide_True by done. destruct (Hm1 ltac:(by rewrite E)) as [Htime Hlen].
      assert (p_next s2 = length l) as Hnl.
      { apply (f_equal length) in Hks. rewrite !length_fmap, Hkl in Hks. simpl in Hks. lia. }
      apply (joinThreads_ok fs kw hp tl s2 es R2 Hi2).
      + rewrite Hnl. destruct l; [done|simpl; lia].
      + apply (in_time_first _ _ Htime). by rewrite Hnl. }
  destruct Hjoin as (s3 & es3 & H3 & Hi3 & [_ Hsame] & Hidle).
  rewrite Hks in Hsame.
  assert (Hfin : result (finish fs kw (c_test c) (Some p) (Some hp) s3) =
    Ok (if c_test c then par_text fs kw (lit " ") (pkey <$> pevals es3) else [],
        (c_out c, par_text fs kw [] (pkey <$> pevals es3)))).
  { apply (finish_ok fs kw hp tl s3 es3 R2); [done..| | | |done].
    - intros ->. simpl in Hsame. rewrite <- Hsame in Hkl. by apply Permutation_nil_cons in Hkl.
    - rewrite key_sorted in Hsorted. apply key_sorted.
      rewrite <- Hsame, <- list_fmap_compose in Hsorted. exact Hsorted.
    - by apply Hk. }
  erewrite (Hmain _ eq_refl). erewrite bind_Ok by exact H2. cbv beta.
  erewrite bind_Ok by exact H3. cbv beta.
  destruct (finish _ _ _ _ _ s3) as [[out s4]|?|?|] eqn:E; try done.
  erewrite bind_Ok by exact E. simpl in *. injection Hfin as ->. unfold par_run. simpl.
  rewrite Hsame. unfold par_text. by rewrite !(listing_perm ks _ Hkl).
Qed.

(** a parallel run on a directory without visible entries has no defined
    behaviour: [joinThreads] follows the head of an empty list. *)
Theorem par_main_empty_directory s fuel args c :
  starting s → parse_args args = Ok c → c_mode c = 1%Z →
  walk (fs_dir fs) sub_path (fs_closedir_null fs) fuel (c_path c) 1 = Ok [] →
  main fs fuel args s = Ub NullDeref.
Proof.
  intros Hs Hc Hm Hw.
  destruct (main_start s fuel args c Hs Hc) as (hp & tl & p & R & s1 & Hmain & Hr1 & Hptl & Hp).
  destruct (visit_tree_build (lev:=fst) (mk:=pair) (fs_dir fs) sub_path (fs_closedir_null fs) fuel (c_path c)
              1 tt s1 _ [] Hr1 Hw) as (s2 & H2 & es & R2 & Hi2 & Hks & Hk & Hm0 & Hm1).
  destruct (Hm1 ltac:(by rewrite Hm)) as [_ Hlen].
  assert (p_next s2 = 0) as Hn.
  { apply (f_equal length) in Hks. rewrite !length_fmap in Hks. simpl in Hks. lia. }
  destruct (pi_tids _ _ _ _ _ _ _ Hi2) as (ns & Hreg). rewrite Hn in Hreg.
  apply Hmain. erewrite bind_Ok by exact H2. cbv beta. rewrite decide_True by done.
  apply bind_Ub, (join_nobody _ R2 _ _ _ Hreg). by eapply dlown_rest_sub, pi_own.
Qed.
End run.

(** ** Concrete runs *)
Section demo.
Definition par_dir (p : bytes) : option (list dirent) :=
  if decide (p = lit "r") then Some [Dirent (lit "a") 8; Dirent (lit "b") 8]
  else if decide (p = lit "e") then Some [Dirent (lit ".x") 8] else None.
Definition par_file (p : bytes) : option bytes :=
  if decide (p = lit "r/a") then Some (lit "int x int") else
  if decide (p = lit "r/b") then Some (lit "an int") else None.
Definition par_fs : fsys := FSys par_dir par_file (λ _, true) (Ok tt).
Definition par_args (root mode : string) : list bytes :=
  [lit "pardirlist"; lit root; lit "int"; lit "out"; lit mode].
Definition par_start (sched : list (list nat)) : proc pblk := Proc empty_heap [] 0 sched.
Definition par_config (root : string) (mode : Z) : config :=
  match parse_args (par_args root (if decide (mode = 0%Z) then "0" else "1")) with
  | Ok c => c
  | _ => Config [] [] [] 0 false []
  end.
Definition par_text_good : bytes :=
  lit "1:1:0:r" ++ [NL] ++ lit "2:1:2:r/a" ++ [NL] ++ lit "2:2:1:r/b" ++ [NL].
Definition par_text_late : bytes :=
  lit "1:1:0:r" ++ [NL] ++ lit "2:1:-69:r/a" ++ [NL] ++ lit "2:2:1:r/b" ++ [NL].

Lemma par_main_writes_counted_listing_witness :
  result (main par_fs 256 (par_args "r" "1") (par_start [[]; [0; 7]])) =
    Ok (Run 0 (c_msg (par_config "r" 1)) (lit "out", par_text_good)).
Proof.
  refine (eq_trans (par_main_writes_counted_listing par_fs (par_start [[]; [0; 7]]) 256
    (par_args "r" "1") (par_config "r" 1) [(2%Z, lit "r/a"); (2%Z, lit "r/b")] _ _ _ eq_refl _) _).
  - done.
  - vm_compute. reflexivity.
  - vm_compute. reflexivity.
  - right. split; [vm_compute; reflexivity|]. split; [done|]. simpl. left.
  - vm_compute. reflexivity.
Defined.

Lemma par_main_empty_directory_witness :
  main par_fs 256 (par_args "e" "1") (par_start []) = Ub NullDeref.
Proof.
  refine (par_main_empty_directory par_fs (par_start []) 256 (par_args "e" "1")
    (par_config "e" 1) _ _ _ _); vm_compute; done.
Defined.

(** the thread that [joinThreads] forgets: when it does not get its turn in
    time the file has the initial -69 for its entry where the sequential run has
    2, and when it gets it after the list is destroyed it writes to freed memory. *)
Theorem par_main_forgets_first_thread :
  result (main par_fs 256 (par_args "r" "0") (par_start [])) =
    Ok (Run 0 (c_msg (par_config "r" 0)) (lit "out", par_text_good)) ∧
  result (main par_fs 256 (par_args "r" "1") (par_start [])) =
    Ok (Run 0 (c_msg (par_config "r" 1)) (lit "out", par_text_late)) ∧
  result (main par_fs 256 (par_args "r" "1") (par_start [[]; []; []; []; []; []; [0]])) = Ub BadAccess.
Proof. split; [|split]; vm_compute; reflexivity. Qed.
End demo.
