(* ===== verification/Sdll.v ===== *)
(** * The sorted doubly linked list of items

    What dirlist/BlackBoxTesting/dirlist.c, Project2-5243528/pardirlist.c and
    Lin/pardirlist/pardirlist_rev1.c share: nodes that point to an [Item], a
    header with the number of entries, [AddPath], the sort, the numbering and
    the destruction. *)

From stdpp Require Import base list gmap fin_maps strings sorting.
From S2P Require Import Prelude CString Text CMem Dll LevelList SortedInsert ListSort Objects Exchange FileSys Listing.

(** What an item stands for; a count or a thread identifier that was not written
    is not initialised. *)
Record sval := SVal {
  sv_level : Z; sv_num : Z; sv_count : option Z; sv_tid : option nat; sv_path : bytes;
}.

(** [struct Node] holds the pointer to its item, [struct SDLL] the size. *)
Abbreviation sblk := (block ptr Z aobj).
Abbreviation SC := (M (heap sblk)).
Abbreviation smem := (gmap loc sblk).
Abbreviation sevals := (fmap (M:=list) (@e_val ptr sval)).

(** [struct Item] *)
Record item := MkItem {
  i_level : Z; i_num : Z; i_count : option Z; i_tid : option nat; i_path : ptr;
}.
Definition item_obj (i : item) : aobj := Item (i_level i) (i_num i) (i_count i) (i_tid i) (i_path i).

Definition load_item (p : ptr) : SC item :=
  b ← load p;
  match b with
  | Other (Item l n c t s) => mret (MkItem l n c t s)
  | _ => fail_ub BadAccess
  end.
Definition store_item (p : ptr) (i : item) : SC unit := store p (Other (item_obj i)).

Lemma load_item_ok h l i :
  cells h !! l = Some (Other (item_obj i)) → load_item (Some l) h = Ok (i, h).
Proof. intros E. unfold load_item. mstep. by destruct i. Qed.

Definition val_item (v : sval) (pp : ptr) : item :=
  MkItem (sv_level v) (sv_num v) (sv_count v) (sv_tid v) pp.

Definition s_value_at (m : smem) (d : ptr) (v : sval) (fp : list loc) : Prop :=
  ∃ it pp, d = Some it ∧ fp = [it; pp] ∧
    m !! it = Some (Other (item_obj (val_item v (Some pp)))) ∧
    m !! pp = Some (Other (Str (sv_path v))).

Definition item_path (d : ptr) : SC bytes := i ← load_item d; read_str (i_path i).

#[export] Instance sdll_node_data : NodeData ptr Z aobj sval.
Proof.
  refine {| value_at := s_value_at; lev := sv_level; pth := sv_path;
            level_of d := (i ← load_item d; mret (i_level i)); path_of := item_path |}.
  - abstract (intros h d v fp (it & pp & -> & -> & E & _); by mstep by load_item_ok).
  - abstract (intros h d v fp (it & pp & -> & -> & E & Es); unfold item_path;
              mstep by load_item_ok; by apply read_str_ok).
  - abstract (intros m m' d v fp (it & pp & -> & -> & E & Es) Hf; exists it, pp;
              rewrite !Hf; [done|right; left|left]).
  - abstract (intros m d v fp l (it & pp & -> & -> & E & Es) [->| ->%list_elem_of_singleton]%elem_of_cons;
              eauto).
Defined.

(** ** The operations *)

(** [init_SortedDoublyLinkedList], or the first lines of main in dirlist.c *)
Definition init_list : SC ptr := malloc (Hdr None None 0%Z).

(** [list->size++] *)
Definition incr_size (list : ptr) : SC unit :=
  h ← load_hdr list; store list (Hdr h.1.1 h.1.2 (h.2 + 1)%Z).

(** [AddPath(list, level, path)] returns the new item. *)
Definition AddPath (list : ptr) (level : Z) (path : bytes) : SC ptr :=
  incr_size list;;
  newitem ← malloc (Other (Item 0 0 None None None));
  pp ← strdup path;
  store_item newitem (MkItem level 1 None None pp);;
  newNode ← malloc (Node None None None);
  set_data newNode newitem;;
  hd ← get_head list;
  tl ← get_tail list;
  match hd, tl with
  | None, None => set_next newNode None;; set_prev newNode None;;
                  set_head list newNode;; set_tail list newNode
  | _, _ => link_sorted newNode list
  end;;
  mret newitem.

(** [free(n->item->path); free(n->item);] *)
Definition free_item (p : ptr) : SC unit :=
  it ← get_data p;
  i ← load_item it;
  free (i_path i);;
  it ← get_data p;
  free it.

(** [destroyList] / [destroySDLL] *)
Definition destroy (list : ptr) : SC unit := destroy_loop free_item list.

(** [curNode->next->item->num = ++inum;] *)
Definition write_item_num (p : ptr) (n : Z) : SC unit :=
  it ← get_data p;
  i ← load_item it;
  store_item it (MkItem (i_level i) n (i_count i) (i_tid i) (i_path i)).

Definition NumberChildren (list : ptr) : SC unit := number_children_loop write_item_num (λ n, n) list.

(** [free(p->item->path); p->item->path = strdup(rd);] *)
Definition set_item_path (p : ptr) (rd : SC bytes) : SC unit :=
  it ← get_data p;
  i ← load_item it;
  free (i_path i);;
  s ← rd;
  pp ← strdup s;
  i ← load_item it;
  store_item it (MkItem (i_level i) (i_num i) (i_count i) (i_tid i) pp).

(** [p->item->count = c;] *)
Definition set_item_count (p : ptr) (c : option Z) : SC unit :=
  it ← get_data p;
  i ← load_item it;
  store_item it (MkItem (i_level i) (i_num i) c (i_tid i) (i_path i)).

(** The exchange of dirlist.c: the paths. *)
Definition swap_item_paths (curNode nx : ptr) : SC unit :=
  s ← node_path curNode;
  tempPath ← strdup s;
  set_item_path curNode (node_path nx);;
  set_item_path nx (read_str tempPath);;
  free tempPath.

(** The exchange of pardirlist_rev1.c: the paths and the counts. *)
Definition swap_item_fields (curNode nx : ptr) : SC unit :=
  s ← node_path curNode;
  tempPath ← strdup s;
  it ← get_data curNode;
  saved ← load_item it;
  set_item_path curNode (node_path nx);;
  it' ← get_data nx;
  other ← load_item it';
  set_item_count curNode (i_count other);;
  set_item_path nx (read_str tempPath);;
  set_item_count nx (i_count saved);;
  free tempPath.

(** The exchange of Project2: the pointers to the items. *)
Definition swap_items (curNode nx : ptr) : SC unit :=
  temp ← get_data curNode;
  it ← get_data nx;
  set_data curNode it;;
  set_data nx temp.

(** ** What they do *)

Definition set_snum (v : sval) (n : Z) : sval :=
  SVal (sv_level v) n (sv_count v) (sv_tid v) (sv_path v).

(** The new node, and a list with a size that counts it. *)
Lemma init_list_ok h :
  budget h = None → ∃ h' hp, init_list h = Ok (Some hp, h') ∧ dlown h' hp 0%Z [] (cells h).
Proof.
  intros Hb. unfold init_list. rewrite malloc_ok by done.
  pose proof (fresh_loc_fresh h) as Hf.
  eexists _, _. split; [done|]. constructor; simpl; [|simpl|done].
  - constructor; simpl; [by rewrite lookup_insert_eq|done|constructor|]. apply NoDup_singleton.
  - unfold own_locs. simpl. by rewrite outside_alloc, outside_nil.
Qed.

(** A header that changes only its extra field. *)
Lemma dlown_extra h hp (hx hx' : Z) (es : list (ent ptr sval)) R :
  dlown h hp hx es R →
  cells h !! hp = Some (Hdr (hd_ptr es None) (last_ptr es None) hx) ∧
  dlown (hset hp (Hdr (hd_ptr es None) (last_ptr es None) hx') h) hp hx' es R.
Proof.
  intros [[Hh Hs Hv Hn] HR Hb]. split; [done|].
  constructor; simpl; [|rewrite outside_insert; [done|left]|done].
  constructor; simpl; [by rewrite lookup_insert_eq| | |done].
  - eapply seg_frame; [done|]. intros e He. rewrite lookup_insert_ne; [done|]. intros ->.
    destruct (seg_lookup _ _ _ _ e Hs He) as (? & ? & E). congruence.
  - by eapply vals_insert.
Qed.

(** The blocks that [AddPath] allocates, written and not yet linked in. *)
Lemma new_item_ok h hp hx es R level path :
  dlown h hp hx es R →
  ∃ h' e R', (newitem ← malloc (Other (Item 0 0 None None None));
              pp ← strdup path;
              store_item newitem (MkItem level 1 None None pp);;
              newNode ← malloc (Node None None None);
              set_data newNode newitem;;
              mret (newitem, newNode)) h = Ok ((e_dat e, Some (e_loc e)), h') ∧
    dlown h' hp hx es R' ∧ R' !! e_loc e = Some (Node None None (e_dat e)) ∧
    value_at R' (e_dat e) (e_val e) (e_fp e) ∧ NoDup (foot e) ∧ outside R' (foot e) = R ∧
    e_val e = SVal level 1 None None path.
Proof.
  intros Ho. destruct (dlown_malloc h hp _ es R (Other (Item 0 0 None None None)) Ho)
    as (h2 & it & H2 & N2 & _ & Ho2).
  destruct (dlown_malloc h2 hp _ es _ (Other (Str path)) Ho2) as (h3 & pp & H3 & N3 & _ & Ho3).
  assert (it ≠ pp ∧ R !! pp = None) as [D1 N3'] by (apply lookup_insert_None in N3 as [? ?]; done).
  destruct (dlown_store h3 hp _ es _ it (Other (Item 0 0 None None None))
    (Other (Item level 1 None None (Some pp))) Ho3)
    as (h4 & H4 & Ho4 & _); [by rewrite lookup_insert_ne, lookup_insert_eq by done|].
  destruct (dlown_malloc h4 hp _ es _ (Node None None None) Ho4) as (h5 & nd & H5 & N5 & C5 & Ho5).
  assert (nd ≠ it ∧ nd ≠ pp ∧ R !! nd = None) as (D2 & D3 & N5').
  { apply lookup_insert_None in N5 as [N5 ?]. apply lookup_insert_None in N5 as [N5 ?].
    by apply lookup_insert_None in N5 as [N5 ?]. }
  destruct (dlown_store h5 hp _ es _ nd (Node None None None) (Node None None (Some it)) Ho5)
    as (h6 & H6 & Ho6 & E6); [by rewrite lookup_insert_eq|].
  set (R6 := <[nd:=_]> _) in Ho6.
  exists h6, (Ent nd (Some it) (SVal level 1 None None path) [it; pp]), R6. split.
  { erewrite bind_Ok by exact H2. cbv beta. erewrite bind_Ok by exact H3. cbv beta.
    erewrite bind_Ok by exact H4. cbv beta. erewrite bind_Ok by exact H5. cbv beta.
    erewrite bind_Ok; [done|]. rewrite E6. by apply (set_data_ok _ _ None None None). }
  split; [done|]. split; [apply lookup_insert_eq|]. split.
  { exists it, pp. subst R6. by simplify_map_eq. }
  split; [unfold foot; simpl; repeat constructor; set_solver|]. split; [|done].
  apply map_eq. intros l. rewrite lookup_outside. unfold foot. simpl.
  case_decide as Hl; [|subst R6; rewrite !lookup_insert_ne by set_solver; done].
  by apply elem_of_cons in Hl as [->|[->| ->%list_elem_of_singleton]%elem_of_cons].
Qed.

Lemma AddPath_ok h hp hx es R level path :
  dlown h hp hx es R →
  ∃ h' e, AddPath (Some hp) level path h = Ok (e_dat e, h') ∧
    dlown h' hp (hx + 1)%Z (place (λ e, sv_level (e_val e)) e es) R ∧
    e_val e = SVal level 1 None None path.
Proof.
  intros Ho. destruct (dlown_extra h hp hx (hx + 1)%Z es R Ho) as [Hh Ho1].
  set (h1 := hset hp _ h) in Ho1.
  assert (H1 : incr_size (Some hp) h = Ok (tt, h1)).
  { unfold incr_size. mstep. by eapply store_ok. }
  destruct (new_item_ok h1 hp _ es R level path Ho1)
    as (h2 & e & R2 & H2 & Ho2 & Hn & Hval & Hnd & HR & Hv).
  destruct (own_detached _ _ _ _ _ _ _ _ Ho2 Hn Hval Hnd) as (Hdet & Hrest & Hsame).
  rewrite HR in Hrest. pose proof Ho2 as [Hd _ Hb].
  assert (Hc : cells h2 !! e_loc e = Some (Node None None (e_dat e)))
    by (etrans; [apply Hsame; left|done]).
  assert (Hgo : ∀ h3, (hd ← get_head (Some hp); tl ← get_tail (Some hp);
      match hd, tl with
      | None, None => set_next (Some (e_loc e)) None;; set_prev (Some (e_loc e)) None;;
                      set_head (Some hp) (Some (e_loc e));; set_tail (Some hp) (Some (e_loc e))
      | _, _ => link_sorted (Some (e_loc e)) (Some hp)
      end) h2 = Ok (tt, h3) → AddPath (Some hp) level path h = Ok (e_dat e, h3)).
  { intros h3 H3. unfold AddPath. erewrite bind_Ok by exact H1. cbv beta.
    apply bind_inv in H2 as (it & ha & Ha & H2). erewrite bind_Ok by exact Ha. cbv beta.
    apply bind_inv in H2 as (pp & hb & Hb' & H2). erewrite bind_Ok by exact Hb'. cbv beta.
    apply bind_inv in H2 as ([] & hc & Hc' & H2). erewrite bind_Ok by exact Hc'. cbv beta.
    apply bind_inv in H2 as (nd & hd' & Hd' & H2). erewrite bind_Ok by exact Hd'. cbv beta.
    apply bind_inv in H2 as ([] & he & He' & [= -> -> ->]). erewrite bind_Ok by exact He'. cbv beta.
    apply bind_inv in H3 as (hd & h8 & Hhd & H3). erewrite bind_Ok by exact Hhd. cbv beta.
    apply bind_inv in H3 as (tl & h9 & Htl & H3). erewrite bind_Ok by exact Htl. cbv beta.
    by erewrite bind_Ok by exact H3. }
  pose proof (dl_hdr _ _ _ _ Hd) as Hh2. destruct es as [|a rest].
  - assert (Hid : hset (e_loc e) (Node None None (e_dat e)) h2 = h2).
    { unfold hset. rewrite insert_id by done. by destruct h2. }
    destruct (link_first_own h2 hp _ e R Hd Hdet Hb Hc Hrest) as (h3 & H3 & Ho3).
    exists h3, e. split; [|done]. apply Hgo. cbn [hd_ptr last_ptr] in *. do 2 mstep.
    erewrite bind_Ok by (by eapply set_next_ok). cbv beta. rewrite Hid.
    erewrite bind_Ok by (by eapply set_prev_ok). cbv beta. by rewrite Hid.
  - destruct (link_sorted_own h2 hp _ (a :: rest) e R ltac:(done) Hd Hdet Hb Hrest) as (h3 & H3 & Ho3).
    exists h3, e. split; [|done]. apply Hgo. cbn [hd_ptr last_ptr] in *. do 2 mstep. exact H3.
Qed.

Lemma free_item_ok : free_parts_spec free_item.
Proof.
  intros h l n r d v fp E (it & pp & -> & -> & Ei & Ep) Hn. unfold free_item. mstep.
  apply NoDup_cons in Hn as [Hl Hn]. apply NoDup_cons in Hn as [Hip _].
  assert (it ≠ pp ∧ l ≠ it ∧ l ≠ pp) as (D1 & D2 & D3) by set_solver.
  mstep by load_item_ok. cbn [i_path val_item].
  erewrite bind_Ok by (by eapply free_ok). cbv beta.
  erewrite bind_Ok.
  2:{ eapply (get_data_ok _ l). simpl. rewrite lookup_delete_ne by done. exact E. }
  cbv beta. erewrite free_ok.
  2:{ simpl. rewrite lookup_delete_ne by done. exact Ei. }
  unfold hdel. simpl. do 3 f_equal. apply map_eq. intros x.
  rewrite lookup_outside, !lookup_delete. repeat case_decide; subst; set_solver.
Qed.

(** An item is written; its path stays. *)
Lemma item_update_ok h hp hx es1 a es2 R f (v' : sval) :
  dlown h hp hx (es1 ++ a :: es2) R →
  (∀ pp, f (val_item (e_val a) pp) = val_item v' pp) → sv_path v' = sv_path (e_val a) →
  ∃ h' a', (it ← get_data (Some (e_loc a)); i ← load_item it; store_item it (f i)) h = Ok (tt, h') ∧
    dlown h' hp hx (es1 ++ a' :: es2) R ∧ e_loc a' = e_loc a ∧ e_val a' = v' ∧
    e_dat a' = e_dat a ∧ e_fp a' = e_fp a.
Proof.
  intros Ho Hf Hpath. pose proof (do_budget _ _ _ _ _ Ho) as Hb.
  pose proof (dlown_lookup _ _ _ _ _ _ _ Ho) as Ha.
  pose proof (dlown_value _ _ _ _ _ a Ho ltac:(apply elem_of_app; right; left))
    as (it & pp & Ed & Ef & Ei & Ep).
  assert (e_loc a ≠ it) by congruence.
  assert (it ≠ pp).
  { intros ->. rewrite Ei in Ep. destruct (e_val a). discriminate. }
  mstep. rewrite Ed. mstep by load_item_ok. rewrite Hf. unfold store_item.
  eexists _, (Ent (e_loc a) (Some it) v' [it; pp]). split; [by eapply store_ok|].
  split; [|done]. rewrite Ed in Ha.
  eapply (dlown_replace h _ hp hx es1 es2 a); try done; simpl; rewrite ?Ef.
  - by rewrite lookup_insert_ne.
  - exists it, pp. rewrite Hpath. by simplify_map_eq.
  - repeat constructor; set_solver.
  - intros l Hl. by left.
  - intros l ? ? ?. rewrite lookup_insert_ne; [done|]. intros <-. set_solver.
  - done.
Qed.

Lemma write_item_num_ok : write_num_spec write_item_num set_snum.
Proof.
  intros h hp hx es1 a es2 R n Ho. unfold write_item_num.
  destruct (item_update_ok h hp hx es1 a es2 R
    (λ i, MkItem (i_level i) n (i_count i) (i_tid i) (i_path i)) (set_snum (e_val a) n) Ho)
    as (h' & a' & ? & ? & ? & ? & _); [done..|by exists h', a'].
Qed.

Definition set_scount (v : sval) (c : option Z) : sval :=
  SVal (sv_level v) (sv_num v) c (sv_tid v) (sv_path v).

Lemma set_item_count_ok h hp hx es1 a es2 R c :
  dlown h hp hx (es1 ++ a :: es2) R →
  ∃ h' a', set_item_count (Some (e_loc a)) c h = Ok (tt, h') ∧
    dlown h' hp hx (es1 ++ a' :: es2) R ∧ e_loc a' = e_loc a ∧ e_val a' = set_scount (e_val a) c ∧
    e_dat a' = e_dat a.
Proof.
  intros Ho. unfold set_item_count.
  destruct (item_update_ok h hp hx es1 a es2 R
    (λ i, MkItem (i_level i) (i_num i) c (i_tid i) (i_path i)) (set_scount (e_val a) c) Ho)
    as (h' & a' & ? & ? & ? & ? & ? & _); [done..|by exists h', a'].
Qed.

Lemma set_item_path_ok h hp hx es1 a es2 R rd s :
  dlown h hp hx (es1 ++ a :: es2) R →
  (∀ h', budget h' = None →
     (∀ l, l ∉ e_fp a → cells h' !! l = cells h !! l) → rd h' = Ok (s, h')) →
  ∃ h' a', set_item_path (Some (e_loc a)) rd h = Ok (tt, h') ∧
    dlown h' hp hx (es1 ++ a' :: es2) R ∧ e_loc a' = e_loc a ∧
    e_val a' = SVal (sv_level (e_val a)) (sv_num (e_val a)) (sv_count (e_val a)) (sv_tid (e_val a)) s.
Proof.
  intros Ho Hrd. pose proof (do_budget _ _ _ _ _ Ho) as Hb.
  pose proof (dlown_lookup _ _ _ _ _ _ _ Ho) as Ha.
  pose proof (dlown_value _ _ _ _ _ a Ho ltac:(apply elem_of_app; right; left))
    as (it & pp & Ed & Ef & Ei & Ep).
  assert (e_loc a ≠ pp ∧ e_loc a ≠ it) as [D1 D2] by (split; congruence).
  assert (it ≠ pp) as D3.
  { intros ->. rewrite Ei in Ep. destruct (e_val a). discriminate. }
  set (h1 := hdel pp h). set (p2 := fresh_loc h1).
  assert (Hf : cells h1 !! p2 = None) by apply fresh_loc_fresh.
  assert (Hne : ∀ l x, l ≠ pp → cells h !! l = Some x → l ≠ p2).
  { intros l x Hl Hx ->. subst h1. simpl in Hf. rewrite lookup_delete_ne in Hf by done. congruence. }
  pose proof (Hne _ _ D1 Ha) as D4. pose proof (Hne _ _ D3 Ei) as D5.
  rewrite Ed in Ha. unfold set_item_path. mstep. mstep by load_item_ok. cbn [i_path val_item].
  erewrite bind_Ok by (by eapply free_ok). cbv beta. fold h1.
  erewrite bind_Ok.
  2:{ apply Hrd; [done|]. intros l Hl. subst h1. simpl. rewrite lookup_delete_ne; [done|].
      rewrite Ef in Hl. set_solver. }
  cbv beta. unfold strdup. erewrite bind_Ok by (by apply malloc_ok). cbv beta. fold p2.
  assert (Hi1 : cells (hset p2 (Other (Str s)) h1) !! it =
    Some (Other (item_obj (val_item (e_val a) (Some pp))))).
  { subst h1. simpl. rewrite lookup_insert_ne by done. by rewrite lookup_delete_ne. }
  mstep by load_item_ok. unfold store_item.
  set (v' := SVal (sv_level (e_val a)) (sv_num (e_val a)) (sv_count (e_val a)) (sv_tid (e_val a)) s).
  eexists _, (Ent (e_loc a) (Some it) v' [it; p2]).
  split; [by eapply store_ok|]. split; [|done].
  eapply (dlown_replace h _ hp hx es1 es2 a); try done; simpl; rewrite ?Ef.
  - rewrite !lookup_insert_ne by done. subst h1. simpl. by rewrite lookup_delete_ne.
  - exists it, p2. split; [done|]. split; [done|]. by simplify_map_eq.
  - repeat constructor; set_solver.
  - intros l [->| ->%list_elem_of_singleton]%elem_of_cons; [left; left|].
    destruct (decide (p2 = pp)) as [->|]; [left; right; left|]. right.
    subst h1. simpl in Hf. by rewrite lookup_delete_ne in Hf.
  - intros l ? ? ?. rewrite !lookup_insert_ne by set_solver. subst h1. simpl.
    rewrite lookup_delete_ne; [done|]. set_solver.
  - intros l [->| ->%list_elem_of_singleton]%elem_of_cons Hl; [set_solver|].
    rewrite !lookup_insert_ne by set_solver. subst h1. simpl. by rewrite lookup_delete_eq.
Qed.

(** ** The three exchanges *)

Lemma swap_item_paths_ok c : swap_spec swap_item_paths
  (λ v, sv_num v = 1%Z ∧ sv_count v = c ∧ sv_tid v = None).
Proof.
  intros h hp hx es1 a b es2 R Ho Hlev (Ha1 & Ha2 & Ha3) (Hb1 & Hb2 & Hb3).
  destruct (save_path _ _ _ _ _ _ _ Ho) as (h1 & t & H1 & HRt & Ho1).
  destruct (set_item_path_ok h1 hp hx es1 a (b :: es2) _ _ _ Ho1 (read_neighbour _ _ _ _ _ _ _ _ Ho1))
    as (h2 & a' & H2 & Ho2 & La & Va).
  rewrite cons_middle, app_assoc in Ho2.
  destruct (set_item_path_ok h2 hp hx (es1 ++ [a']) b es2 _ (read_str (Some t)) (sv_path (e_val a)) Ho2)
    as (h3 & b' & H3 & Ho3 & Lb & Vb).
  { eapply read_saved; [exact Ho2|]. by rewrite lookup_insert_eq. }
  destruct (free_saved _ _ _ _ _ _ _ HRt Ho3) as (h4 & H4 & Ho4).
  exists h4, a', b'. rewrite <- app_assoc in Ho4. split; [|split; [exact Ho4|]].
  - unfold swap_item_paths. rewrite <- bind_assoc. rewrite (bind_Ok _ _ _ _ _ H1).
    erewrite bind_Ok by exact H2. cbv beta. erewrite bind_Ok by exact H3. exact H4.
  - split; [done|]. split; [done|]. simpl in Hlev. rewrite Va, Vb.
    destruct (e_val a), (e_val b). simpl in *. by subst.
Qed.

Lemma load_value h hp hx es1 a es2 R :
  dlown h hp hx (es1 ++ a :: es2) R →
  ∃ pp, (it ← get_data (Some (e_loc a)); load_item it) h =
        Ok (val_item (e_val a) (Some pp), h).
Proof.
  intros Ho. pose proof (dlown_lookup _ _ _ _ _ _ _ Ho) as Ha.
  pose proof (dlown_value _ _ _ _ _ a Ho ltac:(apply elem_of_app; right; left))
    as (it & pp & Ed & _ & Ei & _).
  exists pp. mstep. rewrite Ed. by apply load_item_ok.
Qed.

Lemma swap_item_fields_ok : swap_spec swap_item_fields (λ v, sv_num v = 1%Z ∧ sv_tid v = None).
Proof.
  intros h hp hx es1 a b es2 R Ho Hlev (Ha1 & Ha2) (Hb1 & Hb2).
  destruct (save_path _ _ _ _ _ _ _ Ho) as (h1 & t & H1 & HRt & Ho1).
  destruct (load_value _ _ _ _ _ _ _ Ho1) as (pa & HA).
  destruct (set_item_path_ok h1 hp hx es1 a (b :: es2) _ _ _ Ho1 (read_neighbour _ _ _ _ _ _ _ _ Ho1))
    as (h2 & a' & H2 & Ho2 & La & Va).
  pose proof Ho2 as Ho2b. rewrite cons_middle, app_assoc in Ho2b.
  destruct (load_value _ _ _ _ _ _ _ Ho2b) as (pb & HB). clear Ho2b.
  destruct (set_item_count_ok h2 hp hx es1 a' (b :: es2) _ (sv_count (e_val b)) Ho2)
    as (h3 & a2 & H3 & Ho3 & La2 & Va2 & _).
  rewrite cons_middle, app_assoc in Ho3.
  destruct (set_item_path_ok h3 hp hx (es1 ++ [a2]) b es2 _ (read_str (Some t)) (sv_path (e_val a)) Ho3)
    as (h4 & b' & H4 & Ho4 & Lb & Vb).
  { eapply read_saved; [exact Ho3|]. by rewrite lookup_insert_eq. }
  destruct (set_item_count_ok h4 hp hx (es1 ++ [a2]) b' es2 _ (sv_count (e_val a)) Ho4)
    as (h5 & b2 & H5 & Ho5 & Lb2 & Vb2 & _).
  destruct (free_saved _ _ _ _ _ _ _ HRt Ho5) as (h6 & H6 & Ho6).
  exists h6, a2, b2. rewrite <- app_assoc in Ho6. split; [|split; [exact Ho6|]].
  - unfold swap_item_fields. rewrite <- bind_assoc. rewrite (bind_Ok _ _ _ _ _ H1).
    rewrite <- bind_assoc. rewrite (bind_Ok _ _ _ _ _ HA).
    erewrite bind_Ok by exact H2. cbv beta.
    rewrite <- bind_assoc. rewrite (bind_Ok _ _ _ _ _ HB). cbn [i_count val_item].
    rewrite La in H3. erewrite bind_Ok by exact H3. cbv beta.
    erewrite bind_Ok by exact H4. cbv beta. rewrite Lb in H5.
    erewrite bind_Ok by exact H5. exact H6.
  - simpl in Hlev. rewrite La2, Lb2, Va2, Vb2, Va, Vb. unfold set_scount. simpl.
    split; [done|]. split; [done|].
    destruct (e_val a), (e_val b). simpl in *. by subst.
Qed.

(** The exchange of two neighbours' items, whatever is known of an item. *)
Section exchange.
Context {V : Type} `{!NodeData ptr Z aobj V}.
Implicit Types (a b : ent ptr V) (es : list (ent ptr V)).

(** The node of [a] with what [b] carries. *)
Definition carrying a b : ent ptr V := Ent (e_loc a) (e_dat b) (e_val b) (e_fp b).

Lemma swapped_locs hp es1 a b es2 :
  own_locs hp (es1 ++ carrying a b :: carrying b a :: es2) ≡ₚ own_locs hp (es1 ++ a :: b :: es2).
Proof using.
  unfold own_locs. rewrite !bind_app, !bind_cons. f_equiv. f_equiv.
  change (foot (carrying a b)) with (e_loc a :: e_fp b). change (foot (carrying b a)) with (e_loc b :: e_fp a).
  change (foot a) with (e_loc a :: e_fp a). change (foot b) with (e_loc b :: e_fp b).
  simpl. f_equiv. rewrite <- !Permutation_middle. f_equiv. apply Permutation_app_swap_app.
Qed.

Lemma swapped_seg (m : smem) es1 a b es2 :
  seg m None (es1 ++ a :: b :: es2) None → NoDup (e_loc <$> es1 ++ a :: b :: es2) →
  seg (<[e_loc b:=Node (hd_ptr es2 None) (Some (e_loc a)) (e_dat a)]>
        (<[e_loc a:=Node (Some (e_loc b)) (last_ptr es1 None) (e_dat b)]> m))
    None (es1 ++ carrying a b :: carrying b a :: es2) None.
Proof using.
  intros Hs Hn. rewrite fmap_app, !fmap_cons in Hn. apply NoDup_app in Hn as (_ & Hx & Hn).
  apply NoDup_cons in Hn as [Hna [Hnb _]%NoDup_cons].
  assert (D : e_loc a ≠ e_loc b) by (intros E; apply Hna; rewrite E; left).
  assert (Hfr : ∀ e, e ∈ es1 ∨ e ∈ es2 → e_loc e ≠ e_loc a ∧ e_loc e ≠ e_loc b).
  { intros e [He|He]; apply (list_elem_of_fmap_2 e_loc) in He.
    - split; intros E; apply (Hx _ He); rewrite E; [left|right; left].
    - split; intros E; [apply Hna; right|apply Hnb]; by rewrite <- E. }
  apply seg_app in Hs as [Hs1 (_ & _ & Hs2)]. apply seg_app. split; [|split; [|split]].
  - eapply seg_frame; [exact Hs1|]. intros e He. destruct (Hfr e ltac:(by left)).
    by rewrite !lookup_insert_ne.
  - simpl. by rewrite lookup_insert_ne, lookup_insert_eq.
  - simpl. by rewrite lookup_insert_eq.
  - eapply seg_frame; [exact Hs2|]. intros e He. destruct (Hfr e ltac:(by right)).
    by rewrite !lookup_insert_ne.
Qed.

Lemma swap_items_ok Q : swap_spec swap_items Q.
Proof using.
  intros h hp hx es1 a b es2 R Ho _ _ _.
  pose proof (dlown_lookup _ _ _ _ _ _ _ Ho) as Ha. simpl in Ha.
  assert (Hb : cells h !! e_loc b = Some (Node (hd_ptr es2 None) (Some (e_loc a)) (e_dat b))).
  { rewrite cons_middle, app_assoc in Ho. apply dlown_lookup in Ho. by rewrite last_ptr_snoc in Ho. }
  assert (D : e_loc a ≠ e_loc b).
  { eapply dlrep_locs_ne; [apply Ho|]. apply elem_of_app. right. left. }
  eexists _, (carrying a b), (carrying b a). split.
  { unfold swap_items. do 3 mstep. by eapply set_data_ok; mem_solve. }
  split; [|done]. destruct Ho as [[Hh Hs Hv Hn] HR Hbud].
  assert (Hlocs : e_loc a ∈ own_locs hp (es1 ++ a :: b :: es2) ∧ e_loc b ∈ own_locs hp (es1 ++ a :: b :: es2)).
  { split; right; apply foot_locs; rewrite fmap_app, elem_of_app; right; [left|right; left]. }
  assert (hp ≠ e_loc a ∧ hp ≠ e_loc b) as [D1 D2] by (split; intros E; rewrite E in Hh; congruence).
  constructor; simpl; [| |done].
  - constructor; [|by apply swapped_seg; [|apply NoDup_locs in Hn]| |].
    + rewrite !lookup_insert_ne by done. rewrite Hh, !hd_ptr_app, !last_ptr_app. done.
    + apply (vals_insert _ _ (e_loc b) (Node (hd_ptr es2 None) (Some (e_loc a)) (e_dat b)));
        [|by rewrite lookup_insert_ne|done].
      apply (vals_insert _ _ (e_loc a) (Node (Some (e_loc b)) (last_ptr es1 None) (e_dat a))); [|done|done].
      unfold vals in *. rewrite Forall_app, !Forall_cons in *. tauto.
    + change (NoDup (own_locs hp (es1 ++ carrying a b :: carrying b a :: es2))). by rewrite swapped_locs.
  - rewrite <- HR. apply outside_ext; [intros l; by rewrite swapped_locs|].
    intros l Hl. rewrite !lookup_insert_ne; [done|..]; intros <-; tauto.
Qed.
End exchange.

(** ** Sorting and numbering *)
Abbreviation striple := (etriple sv_level sv_num sv_path).
Abbreviation skey := (ekey sv_level sv_path).

(** They turn the list that was built into the listing; what is known of the
    entries beside their numbers stays. *)
Lemma arrange_sdll swap Q (Hswap : swap_spec swap Q) h hp hx es R :
  dlown h hp hx es R → es ≠ [] → hx = Z.of_nat (length es) → Forall Q (sevals es) →
  Forall (λ v, sv_num v = 1%Z) (sevals es) → Sorted (key_le sv_level) (sevals es) →
  ∃ h1 h2 es2,
    (hd ← get_head (Some hp); sort_loop swap hd (Some hp)) h = Ok (0%Z, h1) ∧
    NumberChildren (Some hp) h1 = Ok (tt, h2) ∧
    dlown h2 hp hx es2 R ∧
    striple <$> sevals es2 = listing (skey <$> sevals es) ∧
    ∀ P : sval → Prop, (∀ v n, P v → P (set_snum v n)) →
      Forall P (sevals es) → Forall P (sevals es2).
Proof.
  intros Ho Hne Hsz HQ H1 Hs.
  destruct (sort_loop_ok swap Q Hswap h hp hx es R) as (h1 & es1 & Hsort & Ho1 & Hp & Hlp); [done..|].
  assert (Hlen : length es1 = length es) by (apply Permutation_length in Hp; by rewrite !length_fmap in Hp).
  destruct (number_children_ok write_item_num set_snum write_item_num_ok ltac:(done) (λ n, n) h1 hp hx es1 R Ho1)
    as (h2 & es2 & Hn & Ho2 & He); [by intros ->; destruct es|by rewrite Hlen|].
  exists h1, h2, es2. split.
  { pose proof (dl_hdr _ _ _ _ (do_rep _ _ _ _ _ Ho)) as Hh. mstep. exact Hsort. }
  split; [done|]. split; [done|]. split.
  - rewrite He. apply number_listing; [done..|by rewrite Hp|by rewrite Hp].
  - intros P HP Hall. rewrite He. apply number_Forall; [done|]. by rewrite Hp.
Qed.
