(* ===== verification/SdllDirlist.v ===== *)
(** * dirlist/BlackBoxTesting/dirlist.c

    The directory lister over the list of items: it prints the entries as it
    meets them, the list before and after sorting, and writes the file. *)

From stdpp Require Import base list gmap fin_maps strings sorting.
From S2P Require Import Prelude CString Text CMem Dll LevelList SortedInsert ListSort Objects Exchange FileSys Listing Sdll.

(** [sprintf(abspath, "%s/%s", path, entry->d_name)] into [malloc(MAX_PATH_SIZE)] *)
Definition abspath (path d_name : bytes) : outcome bytes := strcpy 256 (join_path path d_name).

Lemma abspath_join dir name p : abspath dir name = Ok p → p = join_path dir name ∧ length p < 256.
Proof. unfold abspath, strcpy. case_decide; [|done]. by intros [= <-]. Qed.

Lemma abspath_fuel dir name : abspath dir name ≠ NoFuel.
Proof. unfold abspath, strcpy. by case_decide. Qed.

(** [printNodes(node)], one step of its recursion over the given line: a NULL
    node is not tested for. *)
Definition nodes_body (line : ptr → SC bytes) (st : ptr * bytes) : SC (ptr * bytes + bytes) :=
  let '(node, out) := st in
  s ← line node;
  nx ← get_next node;
  match nx with
  | None => mret (inr (out ++ s))
  | Some _ => mret (inl (nx, out ++ s))
  end.

(** [printSDLL(list)]: what it prints. *)
Definition print_nodes (line : ptr → SC bytes) (list : ptr) : SC bytes :=
  fuel ← live;
  hd ← get_head list;
  loop fuel (nodes_body line) (hd, []).

Section nodes.
Context (line : ptr → SC bytes) (fmt : sval → bytes) (Q : sval → Prop).
Context (line_ok : ∀ h l n r d v fp,
  cells h !! l = Some (Node n r d) → value_at (cells h) d v fp → Q v →
  line (Some l) h = Ok (fmt v, h)).

Lemma nodes_from fuel h hp hx es1 e es R out :
  dlown h hp hx (es1 ++ e :: es) R → Forall Q (sevals (e :: es)) → length es < fuel →
  loop fuel (nodes_body line) (Some (e_loc e), out) h =
    Ok (out ++ mjoin (fmt <$> sevals (e :: es)), h).
Proof using line_ok.
  revert fuel es1 e out. induction es as [|e2 es IH]; intros fuel es1 e out Ho HQ Hf;
    (destruct fuel as [|fuel]; [simpl in Hf; lia|]);
    pose proof (dlown_lookup _ _ _ _ _ _ _ Ho) as He;
    pose proof (dlown_value _ _ _ _ _ e Ho ltac:(apply elem_of_app; right; left)) as Hv;
    pose proof HQ as [HQe HQs]%Forall_cons; cbn [hd_ptr] in He.
  - apply loop_done. unfold nodes_body. erewrite bind_Ok by (by eapply line_ok). cbv beta.
    mstep. simpl. by rewrite app_nil_r.
  - erewrite loop_step.
    2:{ unfold nodes_body. erewrite bind_Ok by (by eapply line_ok). cbv beta. by mstep. }
    rewrite cons_middle, app_assoc in Ho. erewrite IH by (done || simpl in Hf; lia).
    rewrite !fmap_cons, !mjoin_cons. by rewrite <- app_assoc.
Qed.

Lemma print_nodes_ok h hp hx es R :
  dlown h hp hx es R → Forall Q (sevals es) → es ≠ [] →
  print_nodes line (Some hp) h = Ok (mjoin (fmt <$> sevals es), h).
Proof using line_ok.
  intros Ho HQ Hne. destruct es as [|e es]; [done|]. unfold print_nodes.
  pose proof (dl_hdr _ _ _ _ (do_rep _ _ _ _ _ Ho)) as Hh.
  pose proof (dlrep_length _ _ _ _ (do_rep _ _ _ _ _ Ho)) as Hlen.
  do 2 mstep. cbn [hd_ptr]. by rewrite (nodes_from _ h hp hx [] e es R) by (done || simpl in Hlen; lia).
Qed.
End nodes.

(** ** The program *)
Module BBDirlist.
Definition AddPath (list : ptr) (level : Z) (path : bytes) : SC unit :=
  Sdll.AddPath list level path;; mret tt.
Definition destroyList (list : ptr) : SC unit := Sdll.destroy list.
Definition NumberChildren (list : ptr) : SC unit := Sdll.NumberChildren list.

Definition SortHelper (curNode list : ptr) : SC Z := sort_loop swap_item_paths curNode list.
Definition SortChildren (list : ptr) : SC unit :=
  hd ← get_head list; SortHelper hd list;; mret tt.

(** ["%d:%d:%s\n"] of a node's item *)
Definition line (indent : bytes) (p : ptr) : SC bytes :=
  it ← get_data p;
  i ← load_item it;
  s ← read_str (i_path i);
  mret (indent ++ fmt_d (i_level i) ++ lit ":" ++ fmt_d (i_num i) ++ lit ":" ++ s ++ [NL]).

Definition printNodes (st : ptr * bytes) : SC (ptr * bytes + bytes) := nodes_body (line (lit "    ")) st.
Definition printSDLL (list : ptr) : SC bytes := print_nodes (line (lit "    ")) list.

(** [printf("%d:%s/%s\n", level, path, entry->d_name)] *)
Definition raw_line (x : Z) (p : bytes) : bytes := fmt_d x ++ lit ":" ++ p ++ [NL].

(** What [printDir] does for an entry. *)
Definition add_entry (stdout list : ptr) (p : bytes) (x : Z) : SC unit :=
  fputs stdout (raw_line x p);;
  AddPath list x p.

(** [printDir(path, list, lvl)]; a directory that does not open ends the program. *)
Definition printDir (stdout : ptr) (fs : fsys) (fuel : nat) (path : bytes) (list : ptr) (lvl : Z) :
    SC unit :=
  (if decide (lvl = 1%Z) then AddPath list 1 path else mret tt);;
  visit_tree (fs_dir fs) abspath (Exits (-1)) (add_entry stdout list) fuel path lvl.

(** [fileWriter(list, fp)]: [fp] is the file that was opened, if it was. *)
Definition fileWriter (list : ptr) (fp : option bytes) : SC (bytes * bytes) :=
  match fp with
  | None => exit (-1)
  | Some name => text ← print_loop (line []) list; mret (name, text)
  end.

(** [fopen(name, "w")] *)
Definition open_w (fs : fsys) (name : bytes) : option bytes :=
  if fs_writable fs name then Some name else None.

Definition parse_args (args : list bytes) : outcome (bytes * bytes) :=
  if decide (length args < 3) then
    p ← strcpy 256 (lit "BlackBoxTesting/files/linux-master");
    Ok (p, lit "output.txt")
  else
    a1 ← arg args 1;
    p ← strcpy 256 a1;
    a2 ← arg args 2;
    Ok (p, a2).

(** [main]; [stdout] is a stream that exists while the program runs. *)
Definition main (fs : fsys) (fuel : nat) (args : list bytes) : SC run :=
  stdout ← malloc (Other (Stream []));
  cfg ← lift (parse_args args);
  testpath ← strdup cfg.1;
  let file := open_w fs cfg.2 in
  mylist ← init_list;
  fputs stdout (NL :: NL :: lit "Raw Directory paths" ++ [NL; NL]);;
  path ← read_str testpath;
  printDir stdout fs fuel path mylist 1;;
  raw ← printSDLL mylist;
  fputs stdout (NL :: NL :: lit "My Doubly linked list" ++ [NL; NL] ++ raw);;
  SortChildren mylist;;
  NumberChildren mylist;;
  sorted ← printSDLL mylist;
  fputs stdout (NL :: NL :: lit "Sorted Doubly linked list" ++ [NL; NL] ++ sorted);;
  written ← fileWriter mylist file;
  hdr ← load_hdr mylist;
  (if decide (length args = 3) then
     fputs stdout (cfg.2 ++ lit " file is been exported, with " ++ fmt_d hdr.2 ++ lit " lines")
   else mret tt);;
  destroyList mylist;;
  free testpath;;
  out ← read_stream stdout;
  free stdout;;
  mret (Run 0 out written).
End BBDirlist.

(** ** The list that the walk builds *)
Section repr.
Import BBDirlist.
Context (hp so : loc) (base : smem).

Definition bb_value (x : Z) (p : bytes) : sval := SVal x 1 None None p.

(** The list has the values, the header counts them, and beside it there is
    nothing but what was there before and the text on stdout. *)
Definition bb_repr (text : bytes) (h : heap sblk) (vs : list sval) : Prop :=
  ∃ es, dlown h hp (Z.of_nat (length vs)) es (<[so:=Other (Stream text)]> base) ∧ sevals es = vs.

Lemma place_length {A} (key : A → Z) e l : length (place key e l) = S (length l).
Proof. by rewrite place_perm. Qed.

Lemma AddPath_repr text h vs x p :
  bb_repr text h vs →
  ∃ h', AddPath (Some hp) x p h = Ok (tt, h') ∧ bb_repr text h' (place sv_level (bb_value x p) vs).
Proof.
  intros (es & Ho & <-). destruct (AddPath_ok _ _ _ _ _ x p Ho) as (h' & e & H1 & Ho' & Hv).
  exists h'. split; [unfold AddPath; by erewrite bind_Ok by exact H1|].
  eexists. split.
  - rewrite place_length, length_fmap, Nat2Z.inj_succ. rewrite length_fmap in Ho'. exact Ho'.
  - etrans; [apply (place_fmap e_val sv_level)|by rewrite Hv].
Qed.

Lemma fputs_repr text h vs s :
  bb_repr text h vs →
  ∃ h', fputs (Some so) s h = Ok (tt, h') ∧ bb_repr (text ++ s) h' vs.
Proof.
  intros (es & Ho & Hv).
  destruct (fputs_ok h hp _ es _ so text s Ho) as (h' & H1 & Ho'); [by rewrite lookup_insert_eq|].
  exists h'. split; [done|]. exists es. by rewrite insert_insert_eq in Ho'.
Qed.

#[export] Instance bb_builder :
  Builder (add_entry (Some so) (Some hp)) sv_level bb_value (λ t x p, t ++ raw_line x p) bb_repr.
Proof.
  split; [done|]. intros text h vs x p Hr.
  destruct (fputs_repr text h vs (raw_line x p) Hr) as (h1 & H1 & Hr1).
  destruct (AddPath_repr _ h1 vs x p Hr1) as (h' & H2 & Hr2).
  exists h'. split; [|done]. unfold add_entry. by erewrite bind_Ok by exact H1.
Qed.
End repr.

(** ** The specification *)
Section spec.
Import BBDirlist.

Definition node_line (indent : bytes) (t : Z * Z * bytes) : bytes :=
  indent ++ fmt_d t.1.1 ++ lit ":" ++ fmt_d t.1.2 ++ lit ":" ++ t.2 ++ [NL].

(** What is printed: the entries in the order of the walk, the list that was
    built, the listing. *)
Definition bb_stdout (args : list bytes) (root out : bytes) (l : list entry) : bytes :=
  (NL :: NL :: lit "Raw Directory paths" ++ [NL; NL]) ++
  mjoin ((λ xp, raw_line xp.1 xp.2) <$> l) ++
  (NL :: NL :: lit "My Doubly linked list" ++ [NL; NL] ++
   mjoin (node_line (lit "    ") ∘ striple <$>
          place_all (lev:=sv_level) (mk:=bb_value) l [bb_value 1 root])) ++
  (NL :: NL :: lit "Sorted Doubly linked list" ++ [NL; NL] ++
   mjoin (node_line (lit "    ") <$> listing ((1%Z, root) :: l))) ++
  (if decide (length args = 3) then
     out ++ lit " file is been exported, with " ++ fmt_d (Z.of_nat (S (length l))) ++ lit " lines"
   else []).

Definition bb_spec (fs : fsys) (fuel : nat) (args : list bytes) : outcome run :=
  cfg ← parse_args args;
  l ← walk (fs_dir fs) abspath (Exits (-1)) fuel cfg.1 1;
  if fs_writable fs cfg.2 then
    Ok (Run 0 (bb_stdout args cfg.1 cfg.2 l)
          (cfg.2, mjoin (node_line [] <$> listing ((1%Z, cfg.1) :: l))))
  else Exits (-1).

Lemma bb_line_ok indent h l n r d v fp :
  cells h !! l = Some (Node n r d) → value_at (cells h) d v fp → True →
  line indent (Some l) h = Ok (node_line indent (striple v), h).
Proof.
  intros E (it & pp & -> & -> & Ei & Ep) _. unfold line. mstep. mstep by load_item_ok.
  cbn [i_path i_level i_num val_item]. by mstep.
Qed.

(** From the directory's name to the listing. *)
Lemma bb_build fs fuel h hp so base text root l :
  bb_repr hp so base text h [] →
  walk (fs_dir fs) abspath (Exits (-1)) fuel root 1 = Ok l →
  ∃ h', printDir (Some so) fs fuel root (Some hp) 1 h = Ok (tt, h') ∧
    bb_repr hp so base (text ++ mjoin ((λ xp, raw_line xp.1 xp.2) <$> l)) h'
      (place_all (lev:=sv_level) (mk:=bb_value) l [bb_value 1 root]).
Proof.
  intros Hr Hw. destruct (AddPath_repr hp so base text h [] 1 root Hr) as (h1 & H1 & Hr1).
  destruct (visit_tree_build (mk:=bb_value) (fs_dir fs) abspath (Exits (-1)) fuel root 1 text h1 _ l
              Hr1 Hw) as (h' & H2 & Hr2).
  exists h'. split; [unfold printDir; rewrite decide_True by done; by erewrite bind_Ok by exact H1|].
  rewrite step_all_foldl in Hr2. by rewrite (step_all_app raw_line l text) in Hr2.
Qed.

Lemma bb_build_fails fs fuel h hp so base text root :
  bb_repr hp so base text h [] →
  match walk (fs_dir fs) abspath (Exits (-1)) fuel root 1 with
  | Ok _ => True
  | Ub u => printDir (Some so) fs fuel root (Some hp) 1 h = Ub u
  | Exits c => printDir (Some so) fs fuel root (Some hp) 1 h = Exits c
  | NoFuel => printDir (Some so) fs fuel root (Some hp) 1 h = NoFuel
  end.
Proof.
  intros Hr. destruct (AddPath_repr hp so base text h [] 1 root Hr) as (h1 & H1 & Hr1).
  unfold printDir. rewrite decide_True by done. erewrite bind_Ok by exact H1. cbv beta.
  apply (visit_tree_fails (mk:=bb_value) (repr:=bb_repr hp so base) _ _ _ _ _ _ text _ _ Hr1).
Qed.
End spec.

(** ** main *)
Section main.
Import BBDirlist.
Context (fs : fsys) (fuel : nat).

(** The end of main, from a list that was built. *)
Definition bb_tail (args : list bytes) (out : bytes) (stdout testpath mylist : ptr) : SC run :=
  raw ← printSDLL mylist;
  fputs stdout (NL :: NL :: lit "My Doubly linked list" ++ [NL; NL] ++ raw);;
  SortChildren mylist;;
  NumberChildren mylist;;
  sorted ← printSDLL mylist;
  fputs stdout (NL :: NL :: lit "Sorted Doubly linked list" ++ [NL; NL] ++ sorted);;
  written ← fileWriter mylist (open_w fs out);
  hdr ← load_hdr mylist;
  (if decide (length args = 3) then
     fputs stdout (out ++ lit " file is been exported, with " ++ fmt_d hdr.2 ++ lit " lines")
   else mret tt);;
  destroyList mylist;;
  free testpath;;
  out ← read_stream stdout;
  free stdout;;
  mret (Run 0 out written).

Lemma bb_finish_ok h hp so tp base text es root (hh : heap sblk) :
  dlown h hp (Z.of_nat (length es)) es (<[so:=Other (Stream text)]> base) →
  base = <[tp:=Other (Str root)]> (cells hh) → budget hh = None →
  cells hh !! tp = None → cells hh !! so = None → so ≠ tp →
  (destroyList (Some hp);; free (Some tp);; out ← read_stream (Some so);
   free (Some so);; mret out) h = Ok (text, hh).
Proof.
  intros Ho -> Hb Htp Hso Hne.
  unfold destroyList, destroy. erewrite bind_Ok by (by eapply destroy_loop_ok; [apply free_item_ok|]).
  cbv beta. erewrite bind_Ok by (eapply free_ok; simpl; by simplify_map_eq). cbv beta.
  erewrite bind_Ok by (apply read_stream_ok; simpl; by simplify_map_eq). cbv beta.
  erewrite bind_Ok by (eapply free_ok; simpl; by simplify_map_eq). cbv beta.
  unfold hdel. simpl. rewrite delete_insert_ne by done. rewrite (delete_insert_id (cells hh) tp) by done.
  rewrite delete_insert_id by done. destruct hh. simpl in Hb. by subst.
Qed.

Lemma fputs_more h hp hx es so (base : smem) t s :
  dlown h hp hx es (<[so:=Other (Stream t)]> base) →
  ∃ h', fputs (Some so) s h = Ok (tt, h') ∧ dlown h' hp hx es (<[so:=Other (Stream (t ++ s))]> base).
Proof.
  intros Ho. destruct (fputs_ok h hp hx es _ so t s Ho) as (h' & H1 & Ho'); [by rewrite lookup_insert_eq|].
  exists h'. by rewrite insert_insert_eq in Ho'.
Qed.

(** Everything that is written to stdout, when the list has [es] before and [es2] after it
    is sorted, and the last line of it. *)
Lemma bb_report_ok args h hp so base root out l vs (es es2 : list (ent ptr sval)) :
  sevals es = vs → vs = place_all (lev:=sv_level) (mk:=bb_value) l [bb_value 1 root] →
  striple <$> sevals es2 = listing ((1%Z, root) :: l) → length es = S (length l) → length es2 = length es →
  dlown h hp (Z.of_nat (length es)) es2 (<[so:=Other (Stream
    ((((NL :: NL :: lit "Raw Directory paths" ++ [NL; NL]) ++ mjoin ((λ xp, raw_line xp.1 xp.2) <$> l)) ++
      NL :: NL :: lit "My Doubly linked list" ++ [NL; NL] ++
        mjoin ((node_line (lit "    ") ∘ striple) <$> sevals es)) ++
      NL :: NL :: lit "Sorted Doubly linked list" ++ [NL; NL] ++
        mjoin ((node_line (lit "    ") ∘ striple) <$> sevals es2)))]> base) →
  ∃ h', (if decide (length args = 3) then
      fputs (Some so) (out ++ lit " file is been exported, with " ++
                       fmt_d (Z.of_nat (length es)) ++ lit " lines") else mret tt) h = Ok (tt, h') ∧
    dlown h' hp (Z.of_nat (length es2)) es2 (<[so:=Other (Stream (bb_stdout args root out l))]> base).
Proof.
  intros He Hvs Htr Hlen Hl2 Ho. rewrite Hl2. unfold bb_stdout. rewrite <- Hvs, <- He, <- Htr, <- Hlen.
  rewrite (list_fmap_compose striple (node_line _) (sevals es2)) in Ho.
  destruct (decide (length args = 3)).
  - destruct (fputs_more _ _ _ _ _ _ _ (out ++ lit " file is been exported, with " ++
      fmt_d (Z.of_nat (length es)) ++ lit " lines") Ho) as (h' & F & Ho').
    exists h'. split; [done|]. rewrite <- ?app_assoc in Ho'. rewrite <- ?app_assoc. exact Ho'.
  - exists h. split; [done|]. rewrite app_nil_r. rewrite <- ?app_assoc in Ho. rewrite <- ?app_assoc. exact Ho.
Qed.

Lemma bb_tail_ok args h hp so tp base text root out l (hh : heap sblk) :
  bb_repr hp so base text h (place_all (lev:=sv_level) (mk:=bb_value) l [bb_value 1 root]) →
  base = <[tp:=Other (Str root)]> (cells hh) → budget hh = None →
  cells hh !! tp = None → cells hh !! so = None → so ≠ tp →
  text = (NL :: NL :: lit "Raw Directory paths" ++ [NL; NL]) ++
         mjoin ((λ xp, raw_line xp.1 xp.2) <$> l) →
  bb_tail args out (Some so) (Some tp) (Some hp) h =
    if fs_writable fs out then
      Ok (Run 0 (bb_stdout args root out l)
            (out, mjoin (node_line [] <$> listing ((1%Z, root) :: l))), hh)
    else Exits (-1).
Proof.
  intros (es & Ho & He) Hbase Hb Htp Hso Hne Htext.
  destruct (place_all_keys sv_level sv_path bb_value root l) as (Hvne & Hs & Hlen & Hk & HF); [done..|].
  set (vs := place_all l _) in *. rewrite <- He in Hvne, Hs, Hk, HF.
  assert (Hes : es ≠ []) by (by intros ->).
  assert (Hlen' : length vs = length es) by (by rewrite <- He, length_fmap).
  rewrite Hlen' in Ho, Hlen.
  assert (HT : ∀ es : list (ent ptr sval), Forall (λ _ : sval, True) (sevals es)) by (intros; by apply Forall_true).
  destruct (fputs_more _ _ _ _ _ _ _ (NL :: NL :: lit "My Doubly linked list" ++ [NL; NL] ++
    mjoin ((node_line (lit "    ") ∘ striple) <$> sevals es)) Ho) as (h1 & F1 & Ho1).
  destruct (arrange_sdll swap_item_paths _ (swap_item_paths_ok None) h1 hp _ es _ Ho1 Hes eq_refl)
    as (h2 & h3 & es2 & Hsort & Hnum & Ho3 & Htr & _); [by apply HF|by apply HF|done|].
  assert (es2 ≠ [] ∧ length es2 = length es) as [Hes2 Hl2].
  { apply (f_equal length) in Htr. unfold listing, numbered in Htr.
    rewrite length_imap, merge_sort_Permutation, !length_fmap in Htr. split; [|done].
    intros ->. by destruct es. }
  destruct (fputs_more _ _ _ _ _ _ _ (NL :: NL :: lit "Sorted Doubly linked list" ++ [NL; NL] ++
    mjoin ((node_line (lit "    ") ∘ striple) <$> sevals es2)) Ho3) as (h4 & F4 & Ho4).
  unfold bb_tail, printSDLL.
  erewrite bind_Ok by (eapply (print_nodes_ok _ _ _ (bb_line_ok _)); [exact Ho|apply HT|done]).
  cbv beta. erewrite bind_Ok by exact F1. cbv beta. unfold SortChildren, SortHelper.
  erewrite bind_Ok.
  2:{ rewrite <- bind_assoc. by erewrite bind_Ok by exact Hsort. }
  cbv beta. unfold BBDirlist.NumberChildren. erewrite bind_Ok by exact Hnum. cbv beta.
  erewrite bind_Ok by (eapply (print_nodes_ok _ _ _ (bb_line_ok _)); [exact Ho3|apply HT|done]).
  cbv beta. erewrite bind_Ok by exact F4. cbv beta. unfold fileWriter, open_w.
  destruct (fs_writable fs out); [|done].
  erewrite bind_Ok.
  2:{ by erewrite bind_Ok by (eapply (print_loop_ok _ _ _ (bb_line_ok _)); [exact Ho4|apply HT]). }
  cbv beta. pose proof (dl_hdr _ _ _ _ (do_rep _ _ _ _ _ Ho4)) as Hh4.
  erewrite bind_Ok by (by eapply load_hdr_ok). cbv beta. cbn [snd].
  rewrite (listing_perm _ _ Hk) in Htr. rewrite Htext in Ho4.
  destruct (bb_report_ok args h4 hp so base root out l _ es es2 He eq_refl Htr Hlen Hl2 Ho4) as (h5 & F5 & Ho5).
  erewrite bind_Ok by exact F5. cbv beta.
  pose proof (bb_finish_ok _ _ _ _ _ _ _ root hh Ho5 Hbase Hb Htp Hso Hne) as Hend.
  apply bind_inv in Hend as ([] & h6 & E1 & Hend). erewrite bind_Ok by exact E1. cbv beta.
  apply bind_inv in Hend as ([] & h7 & E2 & Hend). erewrite bind_Ok by exact E2. cbv beta.
  apply bind_inv in Hend as (t & h8 & E3 & Hend). erewrite bind_Ok by exact E3. cbv beta.
  apply bind_inv in Hend as ([] & h9 & E4 & [= -> ->]). erewrite bind_Ok by exact E4. cbv beta.
  rewrite <- Htr.
  by rewrite <- (list_fmap_compose striple (node_line []) (sevals es2)).
Qed.

(** C10: [main] does what its specification says on every branch, and when it
    returns the memory is as before: this version frees everything. *)
Theorem bb_main_refines_spec args (h : heap sblk) :
  budget h = None → main fs fuel args h = lift (bb_spec fs fuel args) h.
Proof.
  intros Hb. set (so := fresh_loc h). set (h1 := hset so (Other (Stream [])) h).
  assert (Hso : cells h !! so = None) by apply fresh_loc_fresh.
  unfold main. mstep. fold so. fold h1. unfold bb_spec.
  destruct (parse_args args) as [[root out]|u|?|] eqn:Hargs; try done.
  erewrite bind_Ok by by apply lift_Ok. cbv beta. cbn [fst snd].
  set (tp := fresh_loc h1). set (h2 := hset tp (Other (Str root)) h1).
  assert (Htp1 : cells h1 !! tp = None) by apply fresh_loc_fresh.
  assert (so ≠ tp ∧ cells h !! tp = None) as [Hne Htp].
  { subst h1. simpl in Htp1. apply lookup_insert_None in Htp1 as [? ?]. done. }
  erewrite bind_Ok by (by apply (malloc_ok h1)). cbv beta. fold tp. fold h2.
  destruct (init_list_ok h2 Hb) as (h3 & hp & H3 & Ho3). erewrite bind_Ok by exact H3. cbv beta.
  assert (Hcells : cells h2 = <[so:=Other (Stream [])]> (<[tp:=Other (Str root)]> (cells h))).
  { subst h2 h1. simpl. by rewrite insert_insert_ne. }
  rewrite Hcells in Ho3.
  destruct (fputs_more _ _ _ _ _ _ _ (NL :: NL :: lit "Raw Directory paths" ++ [NL; NL]) Ho3)
    as (h4 & F4 & Ho4).
  erewrite bind_Ok by exact F4. cbv beta.
  erewrite bind_Ok by (apply read_str_ok; eapply dlown_rest; [exact Ho4|by simplify_map_eq]).
  cbv beta.
  assert (Hr : bb_repr hp so (<[tp:=Other (Str root)]> (cells h))
    (NL :: NL :: lit "Raw Directory paths" ++ [NL; NL]) h4 []) by (by exists []).
  pose proof (bb_build_fails fs fuel h4 hp so _ _ root Hr) as Hfail.
  destruct (walk (fs_dir fs) abspath (Exits (-1)) fuel root 1) as [l|u|c|] eqn:Hw.
  - destruct (bb_build fs fuel h4 hp so _ _ root l Hr Hw) as (h5 & H5 & Hr5).
    erewrite bind_Ok by exact H5. cbv beta.
    etrans; [eapply (bb_tail_ok args h5 hp so tp _ _ root out l h Hr5); done|].
    unfold lift. simpl. rewrite Hw. simpl. by destruct (fs_writable fs out).
  - etrans; [by apply bind_Ub|]. unfold lift. simpl. by rewrite Hw.
  - etrans; [by apply bind_Exits|]. unfold lift. simpl. by rewrite Hw.
  - etrans; [unfold mbind, M_bind; by rewrite Hfail|]. unfold lift. simpl. by rewrite Hw.
Qed.
End main.

(** ** An example *)
Definition bb_demo_fs : fsys :=
  FSys (λ p, if decide (p = lit "r") then
          Some [Dirent (lit "z") 8; Dirent (lit ".git") 4; Dirent (lit "d") 4; Dirent (lit "a") 8]
        else if decide (p = lit "r/d") then Some [Dirent (lit "k") 8]
        else None)
       (λ _, None) (λ _, true) (Ok tt).

Definition bb_demo_args : list bytes := [lit "dirlist"; lit "r"; lit "o"].

Lemma bb_main_refines_spec_witness :
  ∃ text, BBDirlist.main bb_demo_fs 256 bb_demo_args empty_heap =
    Ok (Run 0 text (lit "o", lit "1:1:r" ++ [NL] ++ lit "2:1:r/a" ++ [NL] ++ lit "2:2:r/d" ++ [NL] ++
                    lit "2:3:r/z" ++ [NL] ++ lit "3:1:r/d/k" ++ [NL]), empty_heap).
Proof.
  eexists. refine (eq_trans (bb_main_refines_spec bb_demo_fs 256 bb_demo_args empty_heap eq_refl) _).
  vm_compute. reflexivity.
Defined.
