(* ===== verification/SdllSearch.v ===== *)
(** * Project2-5243528/pardirlist.c and Lin/pardirlist/pardirlist_rev1.c

    The list of items with a keyword count for every entry, in sequence or with
    one thread per entry. Project2 keeps the identifier of a thread in the item,
    pardirlist_rev1.c in a list. *)

From stdpp Require Import base list gmap fin_maps strings sorting.
From S2P Require Import Prelude CString Text CMem Dll LevelList SortedInsert ListSort Objects Exchange Threads TidList FileSys FileSearch Listing Sdll SdllDirlist.

Abbreviation ST := (M (proc sblk)).

(** The value of a field that may not have been written. *)
Definition initialised {St A} (o : option A) : M St A :=
  match o with Some a => mret a | None => fail_ub Uninit end.

(** ["%d:%d:%d:%s\n"] of a node's item *)
Definition count_line (indent : bytes) (p : ptr) : SC bytes :=
  it ← get_data p;
  i ← load_item it;
  c ← initialised (i_count i);
  s ← read_str (i_path i);
  mret (indent ++ fmt_d (i_level i) ++ lit ":" ++ fmt_d (i_num i) ++ lit ":" ++
        fmt_d c ++ lit ":" ++ s ++ [NL]).

(** [item->count = n;] *)
Definition set_count (it : ptr) (n : Z) : SC unit :=
  i ← load_item it;
  store_item it (MkItem (i_level i) (i_num i) (Some n) (i_tid i) (i_path i)).

(** [AddPath(list, level, path)->count = search_test(path, keyword);] *)
Definition add_counted (search : bytes → SC Z) (list : ptr) (p : bytes) (x : Z) : SC unit :=
  it ← AddPath list x p;
  n ← search p;
  set_count it n.

(** [printDirSeq(path, list, lvl)] over the search it uses. *)
Definition print_dir_seq (search : bytes → SC Z) (fs : fsys) (fuel : nat) (path : bytes)
    (list : ptr) (lvl : Z) : SC unit :=
  (if decide (lvl = 1%Z) then add_counted search list path 1 else mret tt);;
  visit_tree (fs_dir fs) abspath (Exits (-1)) (add_counted search list) fuel path lvl.

(** [StartSearch(param)] *)
Definition start_search (search : bytes → SC Z) (param : ptr) : SC unit :=
  i ← load_item param;
  path ← read_str (i_path i);
  n ← search path;
  set_count param n.

(** [printDirPar(path, list, lvl)] over what happens to an entry. *)
Definition print_dir_par (add : ptr → bytes → Z → ST unit) (fs : fsys) (fuel : nat) (path : bytes)
    (list : ptr) (lvl : Z) : ST unit :=
  (if decide (lvl = 1%Z) then on_heap (it ← AddPath list 1 path; set_count it 0) else mret tt);;
  visit_tree (fs_dir fs) abspath (Exits (-1)) (add list) fuel path lvl.

(** What [argv] says, when it is read. *)
Record pconf := PConf { k_path : bytes; k_keyword : bytes; k_out : bytes; k_mode : Z }.

Definition read_args (args : list bytes) : outcome pconf :=
  path ← arg args 1;
  keyword ← arg args 2;
  out ← arg args 3;
  a4 ← arg args 4;
  mode ← atoi a4;
  Ok (PConf path keyword out mode).

(** The two reports at the end of main. *)
Definition report_argc3 (a1 file : bytes) (size total : Z) (keyword : bytes) : bytes :=
  NL :: lit "Starting from Parent Directory:" ++ a1 ++ NL :: file ++
  lit " file has been exported with " ++ fmt_d size ++ lit " directories, " ++ fmt_d total ++
  lit " Matches for " ++ keyword ++ lit " ." ++ [NL; NL].

Definition report (testpath file : bytes) (size total : Z) (keyword : bytes) : bytes :=
  NL :: lit "Test directory [" ++ testpath ++ lit "] exported to: " ++ NL :: lit "File: " ++ file ++
  lit " , " ++ fmt_d size ++ lit " directories, " ++ fmt_d total ++ lit " Matches for " ++ keyword ++
  lit " " ++ [NL].

(** ** Project2-5243528/pardirlist.c *)
Module Project2.
Definition search_test (totalMatches : ptr) (fs : fsys) (filePath keyword : bytes) : SC Z :=
  FileSearch.search_test totalMatches fs filePath keyword.

Definition AddPath (list : ptr) (level : Z) (path : bytes) : SC ptr := Sdll.AddPath list level path.
Definition init_SortedDoublyLinkedList : SC ptr := init_list.
Definition destroySDLL (list : ptr) : SC unit := destroy list.
Definition printSDLL (list : ptr) : SC bytes := print_nodes (count_line (lit "    ")) list.

Section search.
Context (fs : fsys) (keyword : bytes) (totalMatches : ptr).

Definition search (path : bytes) : SC Z := search_test totalMatches fs path keyword.

Definition printDirSeq (fuel : nat) (path : bytes) (list : ptr) (lvl : Z) : SC unit :=
  print_dir_seq search fs fuel path list lvl.

Definition StartSearch (param : ptr) : SC unit := start_search search param.

(** The points where other threads run, and [pthread_join(tid, NULL)]. *)
Definition yield : ST unit := Threads.yield StartSearch.
Definition pthread_join (tid : nat) : ST unit := Threads.pthread_join StartSearch tid.

(** [itemAdr->tid = tid;] *)
Definition set_tid (it : ptr) (tid : nat) : SC unit :=
  i ← load_item it;
  store_item it (MkItem (i_level i) (i_num i) (i_count i) (Some tid) (i_path i)).

Definition par_entry (list : ptr) (p : bytes) (x : Z) : ST unit :=
  itemAdr ← on_heap (it ← AddPath list x p; set_count it 69;; mret it);
  tid ← pthread_create itemAdr;
  yield;;
  on_heap (set_tid itemAdr tid);;
  yield.

Definition printDirPar (fuel : nat) (path : bytes) (list : ptr) (lvl : Z) : ST unit :=
  print_dir_par par_entry fs fuel path list lvl.

(** The items change places; a thread goes with its item. *)
Definition SortHelper (curNode list : ptr) : SC Z := sort_loop swap_items curNode list.
Definition SortChildren (list : ptr) : SC unit :=
  hd ← get_head list; SortHelper hd list;; mret tt.
Definition NumberChildren (list : ptr) : SC unit := Sdll.NumberChildren list.

(** [fileWriter(list, fp)] waits for the thread of each item that it writes. *)
Definition writer_body (runMode : Z) (st : ptr * bytes) : ST (ptr * bytes + bytes) :=
  let '(node, out) := st in
  match node with
  | None => mret (inr out)
  | Some _ =>
      (if decide (runMode = 1%Z) then
         i ← on_heap (it ← get_data node; load_item it);
         tid ← initialised (i_tid i);
         pthread_join tid
       else mret tt);;
      s ← on_heap (count_line [] node);
      nx ← on_heap (get_next node);
      mret (inl (nx, out ++ s))
  end.

Definition fileWriter (runMode : Z) (list : ptr) (fp : option bytes) : ST (bytes * bytes) :=
  match fp with
  | None => exit (-1)
  | Some name =>
      fuel ← on_heap live;
      hd ← on_heap (get_head list);
      text ← loop (S fuel) (writer_body runMode) (hd, []);
      mret (name, text)
  end.
End search.

(** Fewer than four arguments leave [testpath], [keyword] and [file] as they
    are, and [runMode] is 0. *)
Definition parse_args (args : list bytes) : outcome (option pconf) :=
  if decide (length args < 5) then Ok None else c ← read_args args; Ok (Some c).

(** main after the walk. *)
Definition finish (fs : fsys) (args : list bytes) (kw : bytes) (tm testpath keyword mylist : ptr)
    (mode : Z) (file : option bytes) : ST run :=
  yield fs kw tm;;
  on_heap (SortChildren mylist);;
  yield fs kw tm;;
  on_heap (NumberChildren mylist);;
  yield fs kw tm;;
  written ← fileWriter fs kw tm mode mylist file;
  yield fs kw tm;;
  text ← on_heap (
    hdr ← load_hdr mylist;
    total ← read_int tm;
    kws ← read_str keyword;
    if decide (length args = 3) then
      a1 ← lift (arg args 1);
      a3 ← lift (arg args 3);
      mret (report_argc3 a1 a3 hdr.2 total kws)
    else
      path ← read_str testpath;
      mret (report path (lit "output.txt") hdr.2 total kws));
  on_heap (destroySDLL mylist);;
  yield fs kw tm;;
  on_heap (free testpath);;
  on_heap (free keyword);;
  mret (Run 0 text written).

Definition main (fs : fsys) (fuel : nat) (args : list bytes) : ST run :=
  totalMatches ← on_heap (malloc (Other (Int 0)));
  cfg ← lift (parse_args args);
  match cfg with
  | None => fail_ub Uninit
  | Some c =>
      testpath ← on_heap (strdup (k_path c));
      keyword ← on_heap (strdup (k_keyword c));
      let file := BBDirlist.open_w fs (k_out c) in
      mylist ← on_heap init_SortedDoublyLinkedList;
      path ← on_heap (read_str testpath);
      kw ← on_heap (read_str keyword);
      (if decide (k_mode c = 1%Z) then printDirPar fs kw totalMatches fuel path mylist 1
       else on_heap (printDirSeq fs kw totalMatches fuel path mylist 1));;
      finish fs args kw totalMatches testpath keyword mylist (k_mode c) file
  end.
End Project2.

(** ** Lin/pardirlist/pardirlist_rev1.c *)
Module Rev1.
Definition search_test (race : option (bytes → Z → Z)) (totalMatches : ptr) (fs : fsys)
    (filePath keyword : bytes) : SC Z :=
  FileSearch.search_test_rev1 race totalMatches fs filePath keyword.

Definition init_LinkedList : SC ptr := TidList.init_LinkedList.
Definition addTID (list : ptr) (tid : nat) : SC unit := TidList.addTID list tid.
Definition destroyLL (list : ptr) : SC unit := TidList.destroyLL list.
Definition AddPath (list : ptr) (level : Z) (path : bytes) : SC ptr := Sdll.AddPath list level path.
Definition init_SortedDoublyLinkedList : SC ptr := init_list.
Definition destroySDLL (list : ptr) : SC unit := destroy list.
Definition printSDLL (list : ptr) : SC bytes := print_nodes (count_line (lit "    ")) list.

Section search.
(** [race]: what the threads load from totalMatches when others store to it in between ([count_match]). *)
Context (race : option (bytes → Z → Z)) (fs : fsys) (keyword : bytes) (totalMatches TID_list : ptr).

Definition search (race : option (bytes → Z → Z)) (path : bytes) : SC Z :=
  search_test race totalMatches fs path keyword.

(** No other thread runs. *)
Definition printDirSeq (fuel : nat) (path : bytes) (list : ptr) (lvl : Z) : SC unit :=
  print_dir_seq (search None) fs fuel path list lvl.

Definition StartSearch (param : ptr) : SC unit := start_search (search race) param.
Definition yield : ST unit := Threads.yield StartSearch.

Definition par_entry (list : ptr) (p : bytes) (x : Z) : ST unit :=
  itemAdr ← on_heap (it ← AddPath list x p; set_count it 69;; mret it);
  tid ← pthread_create itemAdr;
  on_heap (addTID TID_list tid);;
  yield.

Definition printDirPar (fuel : nat) (path : bytes) (list : ptr) (lvl : Z) : ST unit :=
  print_dir_par par_entry fs fuel path list lvl.

(** The paths and the counts change places, the items stay. *)
Definition SortHelper (curNode list : ptr) : SC Z := sort_loop swap_item_fields curNode list.
Definition SortChildren (list : ptr) : SC unit :=
  hd ← get_head list; SortHelper hd list;; mret tt.
Definition NumberChildren (list : ptr) : SC unit := Sdll.NumberChildren list.

Definition fileWriter (list : ptr) (fp : option bytes) : SC (bytes * bytes) :=
  match fp with
  | None => exit (-1)
  | Some name => text ← print_loop (count_line []) list; mret (name, text)
  end.

Definition MakeAllThreadsJoin (list : ptr) : ST unit := join_all_but_last StartSearch list.
End search.

Definition parse_args (args : list bytes) : outcome pconf :=
  if decide (length args < 5) then
    Ok (PConf (lit "/home/alex/cse420/pardirlist/BlackBoxTesting/files") (lit "int")
          (lit "output.txt") 0)
  else read_args args.

(** main after the walk and the joins. *)
Definition finish (race : option (bytes → Z → Z)) (fs : fsys) (args : list bytes) (kw : bytes)
    (tm TID_list testpath keyword mylist : ptr) (file : option bytes) : ST run :=
  yield race fs kw tm;;
  on_heap (SortChildren mylist);;
  yield race fs kw tm;;
  on_heap (NumberChildren mylist);;
  yield race fs kw tm;;
  written ← on_heap (fileWriter mylist file);
  yield race fs kw tm;;
  text ← on_heap (
    hdr ← load_hdr mylist;
    total ← read_int tm;
    kws ← read_str keyword;
    if decide (length args = 3) then
      a1 ← lift (arg args 1);
      a2 ← lift (arg args 2);
      mret (report_argc3 a1 a2 hdr.2 total kws)
    else
      path ← read_str testpath;
      a3 ← lift (arg args 3);
      mret (report path a3 hdr.2 total kws));
  on_heap (destroySDLL mylist);;
  yield race fs kw tm;;
  on_heap (destroyLL TID_list);;
  on_heap (free testpath);;
  mret (Run 0 text written).

Definition main (race : option (bytes → Z → Z)) (fs : fsys) (fuel : nat) (args : list bytes) : ST run :=
  totalMatches ← on_heap (malloc (Other (Int 0)));
  TID_list ← on_heap init_LinkedList;
  c ← lift (parse_args args);
  testpath ← on_heap (strdup (k_path c));
  keyword ← on_heap (strdup (k_keyword c));
  let file := BBDirlist.open_w fs (k_out c) in
  mylist ← on_heap init_SortedDoublyLinkedList;
  path ← on_heap (read_str testpath);
  kw ← on_heap (read_str keyword);
  (if decide (k_mode c = 1%Z) then
     printDirPar race fs kw totalMatches TID_list fuel path mylist 1;;
     MakeAllThreadsJoin race fs kw totalMatches TID_list
   else on_heap (printDirSeq fs kw totalMatches fuel path mylist 1));;
  finish race fs args kw totalMatches TID_list testpath keyword mylist file.
End Rev1.
