(* ===== verification/SeqSearch.v ===== *)
(** * The sequential search of the item lists

    printDirSeq builds the list with the final counts; what the rest of main
    makes of it in Project2-5243528/pardirlist.c and pardirlist_rev1.c when the
    mode is not PARALLEL. *)

From stdpp Require Import base list gmap fin_maps strings sorting.
From S2P Require Import Prelude CString Text CMem Dll LevelList SortedInsert ListSort Objects Exchange Threads TidList FileSys FileSearch Listing Sdll SdllDirlist SdllSearch.

(** ** What is counted *)
Definition matches (fs : fsys) (kw : bytes) (es : list entry) : Z :=
  foldr (λ xp n, (hits fs kw xp.2 + n)%Z) 0%Z es.

(** The words of all the files that are searched. *)
Definition words_seen (fs : fsys) (es : list entry) : nat :=
  foldr (λ xp n, length (seen fs xp.2) + n) 0 es.

Definition counted_line (fs : fsys) (kw : bytes) (t : Z * Z * bytes) : bytes :=
  fmt_d t.1.1 ++ lit ":" ++ fmt_d t.1.2 ++ lit ":" ++ fmt_d (search_result fs kw t.2) ++
  lit ":" ++ t.2 ++ [NL].

Definition counted_text (fs : fsys) (kw : bytes) (es : list entry) : bytes :=
  mjoin (counted_line fs kw <$> listing es).

Section seq.
Context (fs : fsys) (kw : bytes) (hp tm : loc).

Definition counted_value (x : Z) (p : bytes) : sval :=
  SVal x 1 (Some (search_result fs kw p)) None p.

Definition counted (v : sval) : Prop := sv_count v = Some (search_result fs kw (sv_path v)).

Lemma count_line_with h l n r d v fp c :
  cells h !! l = Some (Node n r d) → value_at (cells h) d v fp → sv_count v = Some c →
  count_line [] (Some l) h =
    Ok (fmt_d (sv_level v) ++ lit ":" ++ fmt_d (sv_num v) ++ lit ":" ++ fmt_d c ++ lit ":" ++
        sv_path v ++ [NL], h).
Proof.
  intros E (it & pp & -> & -> & Ei & Ep) Hc. unfold count_line. mstep. mstep by load_item_ok.
  cbn [i_path i_level i_num i_count val_item]. rewrite Hc. cbn [initialised].
  erewrite bind_Ok by done. cbv beta. by mstep.
Qed.

Lemma count_line_ok h l n r d v fp :
  cells h !! l = Some (Node n r d) → value_at (cells h) d v fp → counted v →
  count_line [] (Some l) h = Ok (counted_line fs kw (striple v), h).
Proof. intros E Hv Hc. by rewrite (count_line_with _ _ _ _ _ _ _ _ E Hv Hc). Qed.

(** Adding an entry and its count. *)
Lemma set_count_ok h hx es1 a es2 R n :
  dlown h hp hx (es1 ++ a :: es2) R →
  ∃ h' a', set_count (e_dat a) n h = Ok (tt, h') ∧ dlown h' hp hx (es1 ++ a' :: es2) R ∧
    e_loc a' = e_loc a ∧ e_val a' = set_scount (e_val a) (Some n) ∧ e_dat a' = e_dat a.
Proof.
  intros Ho. destruct (set_item_count_ok h hp hx es1 a es2 R (Some n) Ho) as (h' & a' & H1 & H2).
  exists h', a'. split; [|done]. unfold set_item_count in H1.
  pose proof (dlown_lookup _ _ _ _ _ _ _ Ho) as Ha.
  erewrite bind_Ok in H1 by (by eapply get_data_ok). exact H1.
Qed.

Section search.
Context (leaks : bytes → nat) (search : bytes → SC Z).
Context (search_ok : count_spec fs kw tm leaks (adds_hits fs kw) search).
Context (base : smem).

(** The list has the values; the global has the sum so far; nothing else but
    the blocks that the search leaves behind. *)
Definition seq_repr (a : Z * nat) (h : heap sblk) (vs : list sval) : Prop :=
  ∃ es R, dlown h hp (Z.of_nat (length vs)) es R ∧ sevals es = vs ∧
    R !! tm = Some (Other (Int a.1)) ∧ leaked a.2 base (delete tm R).

Definition seq_step (a : Z * nat) (x : Z) (p : bytes) : Z * nat :=
  ((a.1 + hits fs kw p)%Z, a.2 + leaks p).

Lemma add_counted_ok a h vs x p :
  seq_repr a h vs →
  ∃ h', add_counted search (Some hp) p x h = Ok (tt, h') ∧
    seq_repr (seq_step a x p) h' (place sv_level (counted_value x p) vs).
Proof using search_ok.
  intros (es & R & Ho & <- & Htm & Hl).
  destruct (AddPath_ok _ _ _ _ _ x p Ho) as (h1 & e & H1 & Ho1 & Hv).
  destruct (search_ok h1 hp _ _ R _ p Ho1 Htm) as (h2 & R' & H2 & Ho2 & Htm' & Hl').
  destruct (place_at (λ e, sv_level (e_val e)) x es) as (l1 & l2 & E & Hpl).
  rewrite Hpl in Ho2 by by rewrite Hv.
  destruct (set_count_ok h2 _ l1 e l2 R' (search_result fs kw p) Ho2) as (h3 & e' & H3 & Ho3 & _ & Hv' & _).
  assert (He' : e_val e' = counted_value x p) by by rewrite Hv', Hv.
  exists h3. split.
  { unfold add_counted. erewrite bind_Ok by exact H1. cbv beta. by erewrite bind_Ok by exact H2. }
  exists (l1 ++ e' :: l2), R'. split; [|split; [|split]].
  - rewrite place_length, !length_fmap, Nat2Z.inj_succ. rewrite !length_fmap in Ho3. exact Ho3.
  - rewrite <- Hpl by by rewrite He'.
    etrans; [apply (place_fmap e_val sv_level)|by rewrite He'].
  - exact Htm'.
  - by eapply leaked_trans.
Qed.

#[export] Instance seq_builder :
  Builder (add_counted search (Some hp)) sv_level counted_value seq_step seq_repr.
Proof using search_ok. split; [done|]. intros. by apply add_counted_ok. Qed.

Definition tally (es : list entry) (a : Z * nat) : Z * nat := foldl (λ a xp, seq_step a xp.1 xp.2) a es.

Abbreviation built root l := (place_all (lev:=sv_level) (mk:=counted_value) l [counted_value 1 root]).

Lemma seq_build fuel h root l :
  seq_repr (0%Z, 0) h [] → walk (fs_dir fs) abspath (Exits (-1)) fuel root 1 = Ok l →
  ∃ h', print_dir_seq search fs fuel root (Some hp) 1 h = Ok (tt, h') ∧
    seq_repr (tally ((1%Z, root) :: l) (0%Z, 0)) h' (built root l).
Proof using search_ok.
  intros Hr Hw. destruct (add_counted_ok _ h [] 1 root Hr) as (h1 & H1 & Hr1).
  destruct (visit_tree_build (mk:=counted_value) (fs_dir fs) abspath (Exits (-1)) fuel root 1 _ h1 _ l
              Hr1 Hw) as (h' & H2 & Hr2).
  exists h'. split.
  - unfold print_dir_seq. rewrite decide_True by done. by erewrite bind_Ok by exact H1.
  - rewrite step_all_foldl in Hr2. exact Hr2.
Qed.

Lemma seq_build_fails fuel h root :
  seq_repr (0%Z, 0) h [] →
  match walk (fs_dir fs) abspath (Exits (-1)) fuel root 1 with
  | Ok _ => True
  | Ub u => print_dir_seq search fs fuel root (Some hp) 1 h = Ub u
  | Exits c => print_dir_seq search fs fuel root (Some hp) 1 h = Exits c
  | NoFuel => print_dir_seq search fs fuel root (Some hp) 1 h = NoFuel
  end.
Proof using search_ok.
  intros Hr. destruct (add_counted_ok _ h [] 1 root Hr) as (h1 & H1 & Hr1).
  unfold print_dir_seq. rewrite decide_True by done. erewrite bind_Ok by exact H1. cbv beta.
  apply (visit_tree_fails (mk:=counted_value) _ _ _ _ _ _ _ _ _ Hr1).
Qed.

(** Sorting and numbering make the listing of it. *)
Lemma seq_arrange swap Q (Hswap : swap_spec swap Q) a h root l :
  seq_repr a h (built root l) → (∀ x p, Q (counted_value x p)) →
  ∃ h1 h2 es R,
    (hd ← get_head (Some hp); sort_loop swap hd (Some hp)) h = Ok (0%Z, h1) ∧
    NumberChildren (Some hp) h1 = Ok (tt, h2) ∧
    dlown h2 hp (Z.of_nat (S (length l))) es R ∧
    striple <$> sevals es = listing ((1%Z, root) :: l) ∧ Forall counted (sevals es) ∧
    R !! tm = Some (Other (Int a.1)) ∧ leaked a.2 base (delete tm R).
Proof using.
  intros (es & R & Ho & He & Htm & Hl) HQ.
  destruct (place_all_keys sv_level sv_path counted_value root l) as (Hvne & Hs & Hlen & Hk & HF); [done..|].
  set (vs := place_all l _) in *. rewrite <- He in Hvne, Hs, Hk, HF.
  assert (Hlen' : length vs = length es) by (by rewrite <- He, length_fmap).
  rewrite Hlen' in Ho, Hlen.
  destruct (arrange_sdll swap Q Hswap h hp _ es R Ho) as (h1 & h2 & es2 & H1 & H2 & Ho2 & Htr & Hall);
    [by intros ->|done|by apply HF|by apply HF|done|].
  exists h1, h2, es2, R. split; [done|]. split; [done|]. split; [by rewrite <- Hlen|].
  split; [by rewrite Htr; apply listing_perm|]. split; [|done].
  apply Hall; [done|]. by apply HF.
Qed.
End search.

Lemma tally_search es n k :
  tally (λ _, 0) es (n, k) = ((n + matches fs kw es)%Z, k).
Proof.
  revert n k. induction es as [|[x p] es IH]; intros n k; simpl.
  - unfold tally. simpl. by rewrite Z.add_0_r.
  - unfold tally in *. simpl. unfold seq_step at 2. simpl. rewrite IH, Nat.add_0_r. f_equal. lia.
Qed.

Lemma tally_rev1 es n k :
  tally (λ p, length (seen fs p)) es (n, k) = ((n + matches fs kw es)%Z, k + words_seen fs es).
Proof.
  revert n k. induction es as [|[x p] es IH]; intros n k; simpl.
  - unfold tally. simpl. by rewrite Z.add_0_r, Nat.add_0_r.
  - unfold tally in *. simpl. unfold seq_step at 2. simpl. rewrite IH. f_equal; lia.
Qed.
End seq.

(** ** main until the list is made *)
(** The list is made, and the strings are read again. *)
Lemma open_list {A} h tm base tp kp root kw nx sch (K : ptr → bytes → bytes → ST A) :
  budget h = None → cells h = <[tm:=Other (Int 0)]> base → base !! tm = None →
  base !! tp = Some (Other (Str root)) → base !! kp = Some (Other (Str kw)) →
  ∃ hp h', seq_repr hp tm base (0%Z, 0) h' [] ∧
    (mylist ← on_heap init_list;
     path ← on_heap (read_str (Some tp));
     kw ← on_heap (read_str (Some kp));
     K mylist path kw) (Proc h [] nx sch) = K (Some hp) root kw (Proc h' [] nx sch).
Proof.
  intros Hb Hc Htm Htp Hkp. destruct (init_list_ok h Hb) as (h' & hp & H & Ho). rewrite Hc in Ho.
  assert (Hrd : ∀ l x, base !! l = Some (Other (Str x)) → read_str (Some l) h' = Ok (x, h')).
  { intros l x Hl. apply read_str_ok. eapply dlown_rest; [exact Ho|].
    rewrite lookup_insert_ne; [done|]. intros ->. congruence. }
  exists hp, h'. split.
  - exists [], (<[tm:=Other (Int 0)]> base). split; [done|]. split; [done|].
    split; [by rewrite lookup_insert_eq|]. rewrite delete_insert_id by done. apply leaked_0.
  - erewrite bind_Ok by by apply on_heap_ok. cbv beta. cbn [p_heap p_pending p_next p_sched].
    erewrite bind_Ok by (apply on_heap_ok; by apply Hrd). cbv beta. cbn [p_heap p_pending p_next p_sched].
    by erewrite bind_Ok by (apply on_heap_ok; by apply Hrd).
Qed.

Lemma on_heap_malloc {A} b h nx sch (K : ptr → ST A) :
  budget h = None →
  (on_heap (malloc b) ≫= K) (Proc h [] nx sch) =
    K (Some (fresh_loc h)) (Proc (hset (fresh_loc h) b h) [] nx sch).
Proof. intros Hb. by erewrite bind_Ok by (by apply on_heap_ok, malloc_ok). Qed.

(** ** Examples *)
Definition seq_fs : fsys :=
  FSys (λ p, if decide (p = lit "r") then Some [Dirent (lit "b") 8; Dirent (lit ".x") 8; Dirent (lit "a") 8]
             else None)
       (λ p, if decide (p = lit "r/a") then Some (lit "int x; int" ++ [NL]) else Some (lit "an int"))
       (λ _, true) (Ok tt).

Definition seq_args (mode : string) : list bytes :=
  [lit "pardirlist"; lit "r"; lit "int"; lit "out"; lit mode].
Definition seq_start (sched : list (list nat)) : proc sblk := Proc empty_heap [] 0 sched.

Definition seq_file : bytes :=
  lit "1:1:0:r" ++ [NL] ++ lit "2:1:2:r/a" ++ [NL] ++ lit "2:2:1:r/b" ++ [NL].
