(* ===== verification/SdllThreads.v ===== *)
(** * The threads of the two pardirlist.c over items

    What is known of the list and of the global counter while threads search, whatever the
    schedule: the item of every thread that has not finished is in the list, all others have
    their count, and the counter has the sum of these. *)

From stdpp Require Import base list gmap fin_maps strings sorting.
From S2P Require Import Prelude CString Text CMem Dll LevelList SortedInsert ListSort Objects Exchange Threads TidList FileSys FileSearch Listing Sdll SdllDirlist SdllSearch SeqSearch.

(** The blocks that the searches of the entries leave behind. *)
Definition left_by (leaks : bytes → nat) (es : list entry) : nat := foldr (λ xp n, leaks xp.2 + n) 0 es.

Abbreviation sent := (ent ptr sval).

(** The item of an entry, and what it stands for: a thread knows the item, wherever it is in the
    list. *)
Definition idv (e : sent) : ptr * sval := (e_dat e, e_val e).

(** A thread may have written the count. *)
Definition recounted (e e' : sent) : Prop :=
  e_loc e' = e_loc e ∧ e_dat e' = e_dat e ∧
  (e_val e' = e_val e ∨ ∃ n, e_val e' = set_scount (e_val e) (Some n)).

#[export] Instance recounted_preorder : PreOrder recounted.
Proof.
  split; [by intros e; split_and!; [..|left]|].
  intros e1 e2 e3 (L1 & D1 & V1) (L2 & D2 & V2). split_and!; [congruence..|].
  destruct V2 as [->|[n ->]]; [done|]. right. exists n. by destruct V1 as [->|[n' ->]].
Qed.

Lemma recounted_keys es es' : Forall2 recounted es es' → skey <$> sevals es' = skey <$> sevals es.
Proof.
  induction 1 as [|e e' es es' (_ & _ & V) _ IH]; [done|]. rewrite !fmap_cons, IH. f_equal.
  by destruct V as [->|[n ->]].
Qed.

Lemma recounted_sorted es es' :
  Forall2 recounted es es' → Sorted (key_le sv_level) (sevals es) → Sorted (key_le sv_level) (sevals es').
Proof.
  intros Hr Hs. apply key_sorted. apply key_sorted in Hs.
  assert (E : ∀ vs, sv_level <$> vs = fst <$> (skey <$> vs)) by (intros; by rewrite <- list_fmap_compose).
  rewrite E in Hs. by rewrite E, (recounted_keys _ _ Hr).
Qed.

(** What does not depend on the counts stays. *)
Lemma recounted_Forall (P : sval → Prop) es es' :
  (∀ v n, P v → P (set_scount v (Some n))) → Forall2 recounted es es' →
  Forall P (sevals es) → Forall P (sevals es').
Proof.
  intros HP. induction 1 as [|e e' es es' (_ & _ & V) _ IH]; [done|]. rewrite !fmap_cons, !Forall_cons.
  intros [He Hes]. split; [|by apply IH]. destruct V as [->|[n ->]]; [done|by apply HP].
Qed.

Lemma recounted_Exists (P : sval → Prop) es es' :
  (∀ v n, P v → P (set_scount v (Some n))) → Forall2 recounted es es' →
  Exists P (sevals es) → Exists P (sevals es').
Proof.
  intros HP. induction 1 as [|e e' es es' (_ & _ & V) _ IH]; [done|]. rewrite !fmap_cons, !Exists_cons.
  intros [He|Hes]; [left|right; by apply IH]. destruct V as [->|[n ->]]; [done|by apply HP].
Qed.

(** What is known of the counter when entries have been searched, in any order. *)
Class Tally (fs : fsys) (kw : bytes) (after : bytes → Z → Z) (T : list entry → Z → Prop) : Prop := {
  tally_none : T [] 0%Z;
  tally_cons x p es n : T es n → T ((x, p) :: es) (after p n);
  tally_perm es es' n : es ≡ₚ es' → T es n → T es' n;
  tally_dir p n : hits fs kw p = 0%Z → after p n = n;
}.

Section threads.
Context (fs : fsys) (kw : bytes) (hp tm : loc).
Context (leaks : bytes → nat) (search : bytes → SC Z).
Context (after : bytes → Z → Z) (T : list entry → Z → Prop).
Context `{tally : !Tally fs kw after T}.
Context (search_ok : count_spec fs kw tm leaks after search).
Context (base : smem).

(** [run] has the items of the threads that have not finished, in the order of their creation,
    [fin] the items that have their count; [aside] are the blocks that main changes beside the
    list. *)
Record tinv (aside : list loc) (s : proc sblk) (es : list sent) (R : smem) (run fin : list (ptr * sval)) :
    Prop := {
  ti_own : dlown (p_heap s) hp (Z.of_nat (length es)) es R;
  ti_split : idv <$> es ≡ₚ run ++ fin;
  ti_pend : Forall2 (λ t v, t.1 < p_next s ∧ t.2 = v.1) (p_pending s) run;
  ti_fin : Forall (counted fs kw) fin.*2;
  ti_ids : NoDup (p_pending s).*1;
  ti_tm : ∃ n, R !! tm = Some (Other (Int n)) ∧ T (skey <$> fin.*2) n;
  ti_aside : NoDup (tm :: aside) ∧ Forall (λ l, is_Some (R !! l)) aside;
  ti_left : leaked (left_by leaks (skey <$> fin.*2)) base (outside R (tm :: aside));
}.

Lemma idv_split es es1 a es2 v :
  es = es1 ++ a :: es2 → e_val a = v →
  ∀ p l1 l2 fin, idv <$> es ≡ₚ (l1 ++ (p, v) :: l2) ++ fin → e_dat a = p →
  idv <$> es1 ++ es2 ≡ₚ (l1 ++ l2) ++ fin.
Proof using.
  intros -> Hv p l1 l2 fin H Hd. rewrite fmap_app, fmap_cons in H.
  change (idv a) with (e_dat a, e_val a) in H. rewrite Hv, Hd, <- !Permutation_middle in H.
  rewrite <- app_comm_cons in H. apply Permutation_cons_inv in H. by rewrite fmap_app.
Qed.

(** A thread that runs gives its item the count and adds to the global. *)
Lemma thread_counts h pend1 t arg pend2 n sch aside es R run fin :
  tinv aside (Proc h (pend1 ++ (t, arg) :: pend2) n sch) es R run fin →
  ∃ h' es' R' run' fin', start_search search arg h = Ok (tt, h') ∧
    tinv aside (Proc h' (pend1 ++ pend2) n sch) es' R' run' fin' ∧
    Forall2 recounted es es' ∧ delete tm R ⊆ delete tm R'.
Proof using search_ok tally.
  intros [Ho Hsp Hp Hf Hids (tot & Htm & HT) [Hnd Has] Hl]. simpl in *.
  apply Forall2_app_inv_l in Hp as (run1 & run2 & Hp1 & Hp2 & ->).
  destruct run2 as [|[p v] run2]; [by apply Forall2_length in Hp2|].
  apply Forall2_cons in Hp2 as [[_ Harg] Hp2]. simpl in Harg. subst p.
  assert ((arg, v) ∈ idv <$> es) as (a & [= -> ->] & Ha)%list_elem_of_fmap.
  { rewrite Hsp, !elem_of_app, elem_of_cons. tauto. }
  apply list_elem_of_split in Ha as (es1 & es2 & ->).
  pose proof (idv_split _ es1 a es2 _ eq_refl eq_refl _ _ _ _ Hsp eq_refl) as Hsp'.
  pose proof (dlown_value _ _ _ _ _ a Ho ltac:(apply elem_of_app; right; left)) as (it & pp & Ed & _ & Ei & Ep).
  destruct (search_ok h hp _ _ R _ (sv_path (e_val a)) Ho Htm) as (h2 & R' & H2 & Ho2 & Htm' & Hl').
  destruct (set_count_ok hp h2 _ es1 a es2 R' (search_result fs kw (sv_path (e_val a))) Ho2)
    as (h3 & a' & H3 & Ho3 & La & Va & Da).
  exists h3, (es1 ++ a' :: es2), R', (run1 ++ run2), (idv a' :: fin). split; [|split; [constructor|split]]; simpl.
  - unfold start_search. rewrite Ed in H3 |- *. mstep by load_item_ok. cbn [i_path val_item].
    mstep by read_str_ok. by erewrite bind_Ok by exact H2.
  - rewrite length_app in Ho3 |- *. exact Ho3.
  - rewrite fmap_app, fmap_cons, <- !Permutation_middle. f_equiv. by rewrite <- fmap_app.
  - by apply Forall2_app.
  - constructor; [|done]. unfold counted. by rewrite Va.
  - rewrite fmap_app, fmap_cons in Hids. rewrite fmap_app.
    apply NoDup_app in Hids as (N1 & N2 & [_ N3]%NoDup_cons). apply NoDup_app. split_and!; [done| |done].
    intros x Hx Hx'. apply (N2 x Hx). by right.
  - eexists. split; [exact Htm'|]. rewrite Va. by apply (tally_cons (Tally:=tally)).
  - split; [done|]. pose proof Hnd as [Hnt _]%NoDup_cons. rewrite Forall_forall in Has |- *. intros l Hin.
    destruct (Has l Hin) as [b Hb]. exists b.
    assert (E : delete tm R !! l = Some b) by (rewrite lookup_delete_ne; [done|by intros ->]).
    by pose proof (lookup_weaken _ _ _ _ E (proj1 Hl')) as [_ ?]%lookup_delete_Some.
  - rewrite Va. simpl. rewrite Nat.add_comm. eapply leaked_trans; [exact Hl|].
    rewrite <- !outside_delete. apply NoDup_cons in Hnd as [Hnt Hnd]. apply leaked_outside; [done|done|].
    rewrite Forall_forall in Has |- *. intros l Hin. rewrite lookup_delete_ne; [by apply Has|by intros ->].
  - apply Forall2_app; [by apply reflexivity|]. constructor; [|by apply reflexivity].
    split_and!; [done|done|]. right. by eexists.
  - by apply Hl'.
Qed.

(** What threads and joins keep. *)
Definition counting (aside : list loc) (es : list sent) (R : smem) (s : proc sblk) : Prop :=
  ∃ es' R' run fin, tinv aside s es' R' run fin ∧ Forall2 recounted es es' ∧ delete tm R ⊆ delete tm R'.

#[export] Instance counting_steady aside es R : Steady (start_search search) (counting aside es R).
Proof using search_ok tally.
  split.
  - intros s (es' & R' & run & fin & Hi & _). exact (ti_ids _ _ _ _ _ _ Hi).
  - intros h pend n sch sch' (es' & R' & run & fin & [] & ?). exists es', R', run, fin. split; [by constructor|done].
  - intros h pend1 t arg pend2 n sch (es' & R' & run & fin & Hi & Hr & HR).
    destruct (thread_counts _ _ _ _ _ _ _ _ _ _ _ _ Hi) as (h' & es2 & R2 & run2 & fin2 & H1 & Hi2 & Hr2 & HR2).
    exists h'. split; [exact H1|]. exists es2, R2, run2, fin2. split; [done|]. split; by etrans.
Qed.

Lemma counting_refl aside s es R run fin : tinv aside s es R run fin → counting aside es R s.
Proof using. intros Hi. exists es, R, run, fin. split; [done|]. split; reflexivity. Qed.
(** ** Adding an entry *)

Abbreviation place_item := (place (λ e : sent, sv_level (e_val e))).

(** AddPath, and a first count. *)
Lemma new_entry_ok h es R x p n :
  dlown h hp (Z.of_nat (length es)) es R →
  ∃ h' e, (it ← AddPath (Some hp) x p; set_count it n;; mret it) h = Ok (e_dat e, h') ∧
    dlown h' hp (Z.of_nat (length (place_item e es))) (place_item e es) R ∧
    e_val e = SVal x 1 (Some n) None p.
Proof using.
  intros Ho. destruct (AddPath_ok _ _ _ _ _ x p Ho) as (h1 & e & H1 & Ho1 & Hv).
  destruct (place_at (λ e : sent, sv_level (e_val e)) x es) as (l1 & l2 & E & Hpl).
  rewrite Hpl in Ho1 by by rewrite Hv.
  destruct (set_count_ok hp h1 _ l1 e l2 R n Ho1) as (h2 & e' & H2 & Ho2 & _ & Hv' & Hd).
  rewrite Hv in Hv'. exists h2, e'. split; [|split; [|done]].
  - erewrite bind_Ok by exact H1. cbv beta. erewrite bind_Ok by exact H2. by rewrite Hd.
  - rewrite Hpl by by rewrite Hv'. rewrite E in Ho2. rewrite !length_app in *. cbn [length].
    replace (Z.of_nat (length l1 + S (length l2))) with (Z.of_nat (length l1 + length l2) + 1)%Z by lia.
    exact Ho2.
Qed.

(** A thread is created for it. *)
Lemma entry_starts_ok aside s es R run fin x p :
  tinv aside s es R run fin →
  ∃ h' e, (it ← AddPath (Some hp) x p; set_count it 69;; mret it) (p_heap s) = Ok (e_dat e, h') ∧
    e_val e = SVal x 1 (Some 69%Z) None p ∧
    tinv aside (Proc h' (p_pending s ++ [(p_next s, e_dat e)]) (S (p_next s)) (p_sched s))
      (place_item e es) R (run ++ [idv e]) fin.
Proof using.
  intros [Ho Hsp Hp Hf Hids Htm Has Hl].
  destruct (new_entry_ok (p_heap s) es R x p 69 Ho) as (h' & e & H1 & Ho' & Hv).
  exists h', e. split; [done|]. split; [done|]. constructor; simpl; try done.
  - by rewrite place_perm, fmap_cons, Hsp, (Permutation_app_comm run [idv e]).
  - apply Forall2_app; [|by repeat constructor; simpl; lia].
    eapply Forall2_impl; [exact Hp|]. intros t v [? ?]. split; [lia|done].
  - rewrite fmap_app. apply NoDup_app. split; [done|]. split; [|apply NoDup_singleton].
    intros t Ht ->%list_elem_of_singleton. apply list_elem_of_fmap in Ht as (u & E & Hu).
    apply list_elem_of_lookup in Hu as [i Hi]. destruct (Forall2_lookup_l _ _ _ _ _ Hp Hi) as (v & _ & Hlt & _).
    simpl in *. lia.
Qed.

(** The root has no thread; its count is 0. *)
Lemma new_root_ok h R root :
  dlown h hp 0%Z [] R →
  ∃ h' e, (it ← AddPath (Some hp) 1 root; set_count it 0) h = Ok (tt, h') ∧ dlown h' hp 1%Z [e] R ∧
    e_val e = SVal 1 1 (Some 0%Z) None root.
Proof using.
  intros Ho. destruct (new_entry_ok h [] R 1 root 0 Ho) as (h' & e & H1 & Ho' & Hv).
  exists h', e. split; [|done]. apply bind_inv in H1 as (it & h1 & H1 & H2). erewrite bind_Ok by exact H1. cbv beta.
  apply bind_inv in H2 as ([] & h2 & H2 & [= _ <-]). exact H2.
Qed.

Lemma root_entry_ok aside h nx sch R root :
  dlown h hp 0%Z [] R → R !! tm = Some (Other (Int 0)) → NoDup (tm :: aside) →
  Forall (λ l, is_Some (R !! l)) aside → outside R (tm :: aside) = base →
  search_result fs kw root = 0%Z → hits fs kw root = 0%Z → leaks root = 0 →
  ∃ h' e, (it ← AddPath (Some hp) 1 root; set_count it 0) h = Ok (tt, h') ∧
    e_val e = SVal 1 1 (Some 0%Z) None root ∧
    tinv aside (Proc h' [] nx sch) [e] R [] [idv e].
Proof using tally.
  intros Ho Htm Hnd Has Hb Hs Hh Hlk. destruct (new_root_ok h R root Ho) as (h' & e & H1 & Ho' & Hv).
  exists h', e. split; [done|split; [done|constructor; simpl; try done]].
  - constructor; [|constructor]. unfold counted. rewrite Hv. simpl. by rewrite Hs.
  - constructor.
  - eexists. split; [exact Htm|]. rewrite Hv. simpl. rewrite <- (tally_dir (Tally:=tally) root 0 Hh). apply tally_cons, tally_none.
  - rewrite Hv. simpl. rewrite Hlk, Hb. apply leaked_0.
Qed.

(** The identifier of its thread is entered in the list of identifiers. *)
Lemma tinv_register s es R run fin tl ns k :
  tinv (tl :: ns.*1) s es R run fin → registered R tl ns k →
  ∃ h' R' l, TidList.addTID (Some tl) k (p_heap s) = Ok (tt, h') ∧
    tinv (tl :: ((l, k) :: ns).*1) (Proc h' (p_pending s) (p_next s) (p_sched s)) es R' run fin ∧
    registered R' tl ((l, k) :: ns) (S k).
Proof using.
  intros [Ho Hsp Hp Hf Hids (tot & Htm & HT) [Hnd Has] Hl] Hreg.
  destruct (addTID_ok _ _ _ _ _ _ _ _ Ho Hreg) as (h' & R' & l & H1 & Ho' & Hnl & Hreg' & Hk).
  exists h', R', l. split; [done|]. split; [|done]. pose proof (registered_nodup _ _ _ _ Hreg') as Hnd'.
  assert (tm ≠ tl ∧ tm ≠ l) as [D1 D2].
  { apply NoDup_cons in Hnd as [Hin _]. split; intros <-; [apply Hin; left|congruence]. }
  constructor; simpl; try done.
  - exists tot. by rewrite Hk.
  - split.
    + apply NoDup_cons in Hnd as [Hin _]. apply NoDup_cons. split; [|done].
      rewrite not_elem_of_cons in Hin. rewrite !not_elem_of_cons. by destruct Hin.
    + apply Forall_forall. intros x Hx. eapply registered_live; [exact Hreg'|exact Hx].
  - assert (E : outside R' (tm :: tl :: l :: ns.*1) = outside R (tm :: tl :: ns.*1)).
    { apply map_eq. intros x. rewrite !lookup_outside.
      destruct (decide (x ∈ tm :: tl :: l :: ns.*1)) as [Hd|Hd], (decide (x ∈ tm :: tl :: ns.*1)) as [He|He];
        rewrite !elem_of_cons in Hd; rewrite !elem_of_cons in He; try done; try (exfalso; tauto).
      - assert (x = l) as -> by tauto. done.
      - apply Hk; intros ->; tauto. }
    exact (eq_ind_r (leaked _ base) Hl E).
Qed.

Lemma counting_registered aside es R s tl ns k :
  counting aside es R s → registered R tl ns k → (tm ∉ tl :: ns.*1) →
  ∃ es' R' run fin, tinv aside s es' R' run fin ∧ Forall2 recounted es es' ∧ registered R' tl ns k.
Proof using leaks T.
  intros (es' & R' & run & fin & Hi & Hr & HR) Hreg Htm. exists es', R', run, fin.
  split; [done|]. split; [done|]. eapply registered_frame; [exact Hreg|]. intros l b Hl Hb.
  assert (E : delete tm R !! l = Some b) by (rewrite lookup_delete_ne; [done|by intros <-]).
  by pose proof (lookup_weaken _ _ _ _ E HR) as [_ ?]%lookup_delete_Some.
Qed.
End threads.

(** ** Changes that the threads do not see *)

(** The list is ordered and numbered, and main writes to items, while threads run. *)
Definition revalued (p q : ptr * sval) : Prop :=
  q.1 = p.1 ∧ sv_level q.2 = sv_level p.2 ∧ sv_path q.2 = sv_path p.2 ∧ sv_count q.2 = sv_count p.2.

#[export] Instance revalued_refl : Reflexive revalued.
Proof. by intros p. Qed.

Lemma revalued_keys fin fin' : Forall2 revalued fin fin' → skey <$> fin'.*2 = skey <$> fin.*2.
Proof.
  induction 1 as [|p q fin fin' (_ & Hl & Hp & _) _ IH]; [done|]. rewrite !fmap_cons, IH. f_equal.
  unfold ekey. by rewrite Hl, Hp.
Qed.

Lemma revalued_counted fs kw fin fin' :
  Forall2 revalued fin fin' → Forall (counted fs kw) fin.*2 → Forall (counted fs kw) fin'.*2.
Proof.
  induction 1 as [|p q fin fin' (_ & _ & Hp & Hc) _ IH]; [done|]. rewrite !fmap_cons, !Forall_cons.
  intros [H1 H2]. split; [|by apply IH]. unfold counted in *. by rewrite Hc, Hp.
Qed.

Lemma tinv_revalued fs kw hp tm leaks T base aside s es R run fin h' es' vs :
  tinv fs kw hp tm leaks T base aside s es R run fin →
  dlown h' hp (Z.of_nat (length es')) es' R → idv <$> es ≡ₚ vs → Forall2 revalued vs (idv <$> es') →
  ∃ run' fin', tinv fs kw hp tm leaks T base aside (Proc h' (p_pending s) (p_next s) (p_sched s)) es' R run' fin'.
Proof.
  intros [Ho Hsp Hp Hf Hids Htm Has Hl] Ho' Hvs Hrv.
  destruct (Permutation_Forall2 (l1':=run ++ fin) (Permutation_trans (symmetry Hvs) Hsp) Hrv)
    as (ws & Hws & Hrv'). apply Forall2_app_inv_l in Hrv' as (run' & fin' & Hr & Hfi & ->).
  exists run', fin'. constructor; simpl; try done.
  - clear -Hp Hr. revert run' Hr. induction Hp as [|t v pend run [? E2] _ IH]; intros run' Hr.
    + apply Forall2_nil_inv_l in Hr as ->. constructor.
    + apply Forall2_cons_inv_l in Hr as (w & ws & (E & _) & Hr & ->). constructor; [split; [done|congruence]|by apply IH].
  - by eapply revalued_counted.
  - by rewrite (revalued_keys _ _ Hfi).
  - by rewrite (revalued_keys _ _ Hfi).
Qed.

(** ** When all threads have finished *)

Lemma matches_perm fs kw es es' : es ≡ₚ es' → matches fs kw es = matches fs kw es'.
Proof. unfold matches. induction 1; simpl; lia. Qed.

Lemma left_by_perm leaks es es' : es ≡ₚ es' → left_by leaks es = left_by leaks es'.
Proof. unfold left_by. induction 1; simpl; lia. Qed.

(** Every search adds its matches. *)
#[export] Instance exact_tally fs kw : Tally fs kw (adds_hits fs kw) (λ es n, n = matches fs kw es).
Proof.
  split; [done|..].
  - intros x p es n ->. unfold adds_hits, matches. simpl. lia.
  - intros es es' n Hp ->. by apply matches_perm.
  - intros p n E. unfold adds_hits. rewrite E. lia.
Qed.

(** A directory is not searched. *)
Lemma dir_no_words fs p ents : fs_dir fs p = Some ents → seen fs p = [].
Proof. unfold seen. by intros ->. Qed.
Lemma dir_no_hits fs kw p ents :
  fs_dir fs p = Some ents → hits fs kw p = 0%Z ∧ search_result fs kw p = 0%Z.
Proof.
  intros Hd. assert (hits fs kw p = 0%Z) as Hh by (unfold hits; by rewrite (dir_no_words _ _ _ Hd)).
  split; [done|]. unfold search_result. by rewrite Hd.
Qed.

(** As AddPath makes an item. *)
Definition plain (v : sval) : Prop := sv_num v = 1%Z ∧ sv_tid v = None.

Lemma place_all_counted fs kw l vs :
  (λ xp, counted_value fs kw xp.1 xp.2) <$> place_all (lev:=fst) (mk:=pair) l vs =
    place_all (lev:=sv_level) (mk:=counted_value fs kw) l ((λ xp, counted_value fs kw xp.1 xp.2) <$> vs).
Proof.
  revert vs. induction l as [|[x p] l IH]; intros vs; simpl; [done|]. rewrite IH. f_equal.
  exact (place_fmap (λ xp : entry, counted_value fs kw xp.1 xp.2) sv_level (x, p) vs).
Qed.

Lemma counted_plain fs kw v :
  counted fs kw v → plain v → v = counted_value fs kw (sv_level v) (sv_path v).
Proof. destruct v as [x n c t p]. unfold counted, plain. simpl. by intros -> [-> ->]. Qed.

Section finished.
Context (fs : fsys) (kw : bytes) (hp tm : loc) (leaks : bytes → nat) (base : smem).
Context (after : bytes → Z → Z) (T : list entry → Z → Prop) `{tally : !Tally fs kw after T}.

(** Then the list is what the sequential search makes of the same entries, and the counter what is
    known of them. *)
Lemma finished_seq_repr aside s es R run fin root l :
  tinv fs kw hp tm leaks T base aside s es R run fin → p_pending s = [] →
  skey <$> sevals es = place_all (lev:=fst) (mk:=pair) l [(1%Z, root)] → Forall plain (sevals es) →
  ∃ total, T ((1%Z, root) :: l) total ∧
  seq_repr hp tm (delete tm R) (total, 0) (p_heap s)
    (place_all (lev:=sv_level) (mk:=counted_value fs kw) l [counted_value fs kw 1 root]) ∧
  leaked (left_by leaks ((1%Z, root) :: l)) base (outside R (tm :: aside)).
Proof using tally.
  intros [Ho Hsp Hp Hf _ (total & Htm & HT) _ Hl] Hnil Hks Hpl. rewrite Hnil in Hp. apply Forall2_nil_inv_l in Hp as ->.
  assert (Hv : fin.*2 ≡ₚ sevals es).
  { rewrite <- (fmap_Permutation snd _ _ Hsp), <- list_fmap_compose. done. }
  assert (Hk : skey <$> fin.*2 ≡ₚ (1%Z, root) :: l).
  { rewrite Hv, Hks, place_all_perm. simpl. f_equiv. apply Permutation_refl'.
    rewrite <- (list_fmap_id l) at 2. apply list_fmap_ext. by intros ? [] _. }
  assert (Hbuilt : sevals es = place_all (lev:=sv_level) (mk:=counted_value fs kw) l [counted_value fs kw 1 root]).
  { change [counted_value fs kw 1 root] with ((λ xp, counted_value fs kw xp.1 xp.2) <$> [(1%Z, root)]).
    rewrite <- place_all_counted, <- Hks, <- list_fmap_compose. rewrite <- (list_fmap_id (sevals es)) at 1.
    apply Forall_fmap_ext_1. rewrite Hv in Hf. rewrite Forall_forall in Hf, Hpl |- *.
    intros v Hin. unfold compose. by apply counted_plain; [apply Hf|apply Hpl]. }
  apply (tally_perm (Tally:=tally) _ _ _ Hk) in HT. rewrite (left_by_perm _ _ _ Hk) in Hl.
  exists total. split; [exact HT|]. split; [|done].
  rewrite <- Hbuilt. exists es, R. rewrite length_fmap. split; [done|]. split; [done|]. split; [done|].
  apply leaked_0.
Qed.
End finished.
