(* ===== verification/ItemOrder.v ===== *)
(** * Following the items through the list

    What the sort and the numbering do to the items, wherever these are, while threads that know
    their items are running. *)

From stdpp Require Import base list gmap fin_maps strings sorting.
From S2P Require Import Prelude CString Text CMem Dll LevelList SortedInsert ListSort Objects Exchange Threads TidList FileSys FileSearch Listing Sdll SdllDirlist SdllSearch SeqSearch SdllThreads.

(** The same list, where the value of a node includes which item it points to: what the sort and
    the numbering do to it says where the item of a thread has gone. *)
Definition tagged_value_at (m : smem) (d : ptr) (v : ptr * sval) (fp : list loc) : Prop :=
  v.1 = d ∧ value_at m d v.2 fp.

Definition tagged : NodeData ptr Z aobj (ptr * sval).
Proof.
  refine {| value_at := tagged_value_at; lev v := sv_level v.2; pth v := sv_path v.2;
            level_of d := (i ← load_item d; mret (i_level i)); path_of := item_path |}.
  - abstract (intros h d v fp [_ Hv]; exact (level_of_ok h d v.2 fp Hv)).
  - abstract (intros h d v fp [_ Hv]; exact (path_of_ok h d v.2 fp Hv)).
  - abstract (intros m m' d v fp [E Hv] Hf; split; [done|by eapply value_at_frame]).
  - abstract (intros m d v fp l [_ Hv] Hl; by eapply value_at_other).
Defined.

Abbreviation tent := (ent ptr (ptr * sval)).
Definition tag (e : sent) : tent := Ent (e_loc e) (e_dat e) (idv e) (e_fp e).
Definition untag (e : tent) : sent := Ent (e_loc e) (e_dat e) (e_val e).2 (e_fp e).
Abbreviation town := (dlown (NodeData0:=tagged)).

Lemma hd_ptr_map {V W} (f : ent ptr V → ent ptr W) es nx :
  (∀ e, e_loc (f e) = e_loc e) → hd_ptr (f <$> es) nx = hd_ptr es nx.
Proof. intros Hl. destruct es; simpl; [done|]. by rewrite Hl. Qed.

Lemma last_ptr_map {V W} (f : ent ptr V → ent ptr W) es pv :
  (∀ e, e_loc (f e) = e_loc e) → last_ptr (f <$> es) pv = last_ptr es pv.
Proof. intros Hl. revert pv. induction es as [|e es IH]; intros pv; simpl; [done|]. by rewrite Hl, IH. Qed.

Lemma seg_map {V W} (f : ent ptr V → ent ptr W) (m : smem) es pv nx :
  (∀ e, e_loc (f e) = e_loc e ∧ e_dat (f e) = e_dat e) → seg m pv es nx → seg m pv (f <$> es) nx.
Proof.
  intros Hl. revert pv. induction es as [|e es IH]; intros pv; simpl; [done|].
  destruct (Hl e) as [-> ->]. rewrite hd_ptr_map by (intros; by apply Hl). intros [? ?]. split; [done|by apply IH].
Qed.

Lemma own_locs_map {V W} (f : ent ptr V → ent ptr W) hp es :
  (∀ e, foot (f e) = foot e) → own_locs hp (f <$> es) = own_locs hp es.
Proof. intros Hf. unfold own_locs. f_equal. induction es as [|e es IH]; [done|]. rewrite fmap_cons, !bind_cons. by rewrite Hf, IH. Qed.

Lemma dlown_map {V W} {NV : NodeData ptr Z aobj V} {NW : NodeData ptr Z aobj W}
    (f : ent ptr V → ent ptr W) h hp hx es R :
  (∀ e, e_loc (f e) = e_loc e ∧ e_dat (f e) = e_dat e ∧ e_fp (f e) = e_fp e) →
  (∀ m e, e ∈ es → value_at m (e_dat e) (e_val e) (e_fp e) →
     value_at (NodeData:=NW) m (e_dat (f e)) (e_val (f e)) (e_fp (f e))) →
  dlown h hp hx es R → dlown h hp hx (f <$> es) R.
Proof.
  intros Hf Hv [[Hh Hs Hva Hn] HR Hb].
  assert (Hfoot : ∀ e, foot (f e) = foot e) by (intros e; unfold foot; by destruct (Hf e) as (-> & _ & ->)).
  constructor; [constructor| |done].
  - rewrite hd_ptr_map, last_ptr_map by (intros; by apply Hf). done.
  - apply seg_map; [|done]. intros e. by destruct (Hf e) as (? & ? & _).
  - unfold vals in *. rewrite Forall_fmap, Forall_forall in *. intros e He. by apply Hv, Hva.
  - change (NoDup (own_locs hp (f <$> es))). by rewrite own_locs_map.
  - by rewrite own_locs_map.
Qed.

Lemma town_tag h hp hx es R : dlown h hp hx es R → town h hp hx (tag <$> es) R.
Proof. apply dlown_map; [done|]. intros m e _ Hv. by split. Qed.

Lemma town_untag h hp hx (es : list tent) R :
  town h hp hx es R → dlown h hp hx (untag <$> es) R ∧ idv <$> (untag <$> es) = e_val <$> es.
Proof.
  intros Ho. split.
  - revert Ho. apply (dlown_map (NV:=tagged)); [done|]. by intros m e _ [_ Hv].
  - rewrite <- list_fmap_compose. apply Forall_fmap_ext_1, Forall_forall. intros e He.
    destruct Ho as [[_ _ Hv _] _ _]. unfold vals in Hv. rewrite Forall_forall in Hv.
    destruct (Hv e He) as [E _]. unfold compose, idv, untag. simpl. rewrite <- E. by destruct (e_val e).
Qed.

Definition set_tnum (v : ptr * sval) (n : Z) : ptr * sval := (v.1, set_snum v.2 n).

Lemma write_tagged_num_ok : write_num_spec (NodeData0:=tagged) write_item_num set_tnum.
Proof.
  intros h hp hx es1 a es2 R n Ho. destruct (town_untag _ _ _ _ _ Ho) as [Ho1 Hid].
  pose proof Ho as [[_ _ Hv _] _ _]. unfold vals in Hv. rewrite Forall_forall in Hv.
  destruct (Hv a ltac:(apply elem_of_app; right; left)) as [Ea _].
  rewrite fmap_app, fmap_cons in Ho1.
  destruct (item_update_ok h hp hx _ (untag a) _ R (λ i, MkItem (i_level i) n (i_count i) (i_tid i) (i_path i))
    (set_snum (e_val a).2 n) Ho1) as (h' & a' & H1 & Ho' & La & Va & Da & _); [done..|].
  apply town_tag in Ho'. rewrite fmap_app, fmap_cons, <- !list_fmap_compose in Ho'.
  assert (Htu : ∀ es : list tent, (∀ e, e ∈ es → e ∈ es1 ++ a :: es2) → tag ∘ untag <$> es = es).
  { intros es Hin. rewrite <- (list_fmap_id es) at 2. apply Forall_fmap_ext_1, Forall_forall. intros e He.
    destruct (Hv e (Hin e He)) as [E _]. unfold compose, tag, untag, idv. simpl. rewrite <- E.
    destruct e as [l d [v1 v2] fp]. simpl in *. by subst. }
  rewrite !Htu in Ho' by (intros e He; rewrite elem_of_app, elem_of_cons; tauto).
  exists h', (tag a'). split; [exact H1|]. split; [exact Ho'|]. split; [done|].
  unfold tag, idv, set_tnum. simpl. rewrite Va, Da, Ea. done.
Qed.

(** The sort and the numbering of the list, as far as the items are concerned. *)
Lemma sort_items_ok h hp hx es R :
  dlown h hp hx es R → es ≠ [] → Sorted (key_le sv_level) (sevals es) →
  ∃ h' es', (hd ← get_head (Some hp); sort_loop swap_items hd (Some hp)) h = Ok (0%Z, h') ∧
    dlown h' hp hx es' R ∧ idv <$> es' ≡ₚ idv <$> es.
Proof.
  intros Ho Hne Hs. apply town_tag in Ho as Ht.
  destruct (sort_loop_ok (NodeData0:=tagged) swap_items (λ _, True) (swap_items_ok _) h hp hx _ R Ht)
    as (h' & es' & H1 & Ho' & Hp & _).
  - by apply Forall_true.
  - by destruct es.
  - apply key_sorted in Hs. apply key_sorted. rewrite <- !list_fmap_compose in *. exact Hs.
  - destruct (town_untag _ _ _ _ _ Ho') as [Hu Hid]. exists h', (untag <$> es'). split; [|split; [done|]].
    + pose proof (dl_hdr _ _ _ _ (do_rep _ _ _ _ _ Ho)) as Hh. mstep. rewrite hd_ptr_map in H1 by done. exact H1.
    + rewrite Hid, Hp. by rewrite <- list_fmap_compose.
Qed.

Lemma number_items_ok h hp es R :
  dlown h hp (Z.of_nat (length es)) es R → es ≠ [] →
  ∃ h' es', Sdll.NumberChildren (Some hp) h = Ok (tt, h') ∧
    dlown h' hp (Z.of_nat (length es)) es' R ∧ Forall2 revalued (idv <$> es) (idv <$> es') ∧
    Forall2 (λ v v', sv_tid v' = sv_tid v) (sevals es) (sevals es').
Proof.
  intros Ho Hne. apply town_tag in Ho as Ht.
  destruct (number_children_ok (NodeData0:=tagged) write_item_num set_tnum write_tagged_num_ok ltac:(done)
    (λ n, n) h hp _ _ R Ht) as (h' & es' & H1 & Ho' & He).
  - by destruct es.
  - by rewrite length_fmap.
  - destruct (town_untag _ _ _ _ _ Ho') as [Hu Hid]. exists h', (untag <$> es').
    split; [exact H1|]. split; [done|]. rewrite <- list_fmap_compose in He.
    change (e_val <$> es' = number (λ v, sv_level v.2) set_tnum (idv <$> es)) in He. split.
    + rewrite Hid, He. apply number_Forall2; [done|]. by intros p q n (? & ? & ? & ?).
    + rewrite <- list_fmap_compose. change (sevals es) with (snd ∘ idv <$> es).
      change (e_val ∘ untag <$> es') with (snd ∘ e_val <$> es'). rewrite !(list_fmap_compose _ snd), He.
      apply Forall2_fmap, number_Forall2; [done|]. by intros p q n ?.
Qed.
