(* ===== verification/Project2Main.v ===== *)
(** * main of Project2-5243528/pardirlist.c

    In sequence, and in the PARALLEL mode, whose runs join a thread that does not exist. *)

From stdpp Require Import base list gmap fin_maps strings sorting.
From S2P Require Import Prelude CString Text CMem Dll LevelList SortedInsert ListSort Objects Exchange Threads TidList FileSys FileSearch Listing Sdll SdllDirlist SdllSearch SeqSearch SdllThreads ItemOrder.

(** ** Project2-5243528/pardirlist.c *)
Section project2.
Import Project2.
Context (fs : fsys).

(** The file has the listing with the counts, the report their sum; a PARALLEL run asks for the
    identifier of the thread of the root, which has none. *)
Definition p2_spec (fuel : nat) (args : list bytes) : outcome run :=
  cfg ← Project2.parse_args args;
  match cfg with
  | None => Ub Uninit
  | Some c =>
      l ← walk (fs_dir fs) abspath (Exits (-1)) fuel (k_path c) 1;
      let es := (1%Z, k_path c) :: l in
      if fs_writable fs (k_out c) then
        if decide (k_mode c = 1%Z) then Ub Uninit
        else Ok (Run 0 (report (k_path c) (lit "output.txt") (Z.of_nat (length es))
                     (matches fs (k_keyword c) es) (k_keyword c))
              (k_out c, counted_text fs (k_keyword c) es))
      else Exits (-1)
  end.

Lemma writer_loop_ok kw tm mode fuel s hp hx es1 es R out :
  mode ≠ 1%Z → dlown (p_heap s) hp hx (es1 ++ es) R → Forall (counted fs kw) (sevals es) →
  length es < fuel →
  loop fuel (writer_body fs kw tm mode) (hd_ptr es None, out) s =
    Ok (out ++ mjoin (counted_line fs kw <$> (striple <$> sevals es)), s).
Proof.
  intros Hm. revert fuel es1 out. induction es as [|e es IH]; intros fuel es1 out Ho HQ Hf;
    (destruct fuel as [|fuel]; [simpl in Hf; lia|]).
  - apply loop_done. simpl. by rewrite app_nil_r.
  - pose proof (dlown_lookup _ _ _ _ _ _ _ Ho) as He.
    pose proof (dlown_value _ _ _ _ _ e Ho ltac:(apply elem_of_app; right; left)) as Hv.
    rewrite fmap_cons in HQ. apply Forall_cons in HQ as [HQe HQ].
    erewrite loop_step.
    2:{ unfold writer_body. cbn [hd_ptr]. rewrite decide_False by done. erewrite bind_Ok by done. cbv beta.
        erewrite bind_Ok by (apply on_heap_ok; by eapply count_line_ok). cbv beta.
        erewrite bind_Ok by (apply on_heap_ok; by eapply get_next_ok). destruct s. done. }
    rewrite cons_middle, app_assoc in Ho. erewrite IH by (done || simpl in Hf; lia).
    rewrite !fmap_cons, mjoin_cons. by rewrite app_assoc.
Qed.

Abbreviation built kw root l :=
  (place_all (lev:=sv_level) (mk:=counted_value fs kw) l [counted_value fs kw 1 root]).

Lemma p2_finish_ok args s hp tm tp kp kw root out l mode n (m0 : smem) :
  p_pending s = [] → mode ≠ 1%Z → length args ≠ 3 →
  seq_repr hp tm (<[kp:=Other (Str kw)]> (<[tp:=Other (Str root)]> m0)) (n, 0) (p_heap s) (built kw root l) →
  m0 !! tp = None → m0 !! kp = None → m0 !! tm = None → tp ≠ kp → tm ≠ tp → tm ≠ kp →
  let es := (1%Z, root) :: l in
  ∃ s', p_heap s' = Heap (<[tm:=Other (Int n)]> m0) None ∧
  finish fs args kw (Some tm) (Some tp) (Some kp) (Some hp) mode (BBDirlist.open_w fs out) s =
    if fs_writable fs out then
      Ok (Run 0 (report root (lit "output.txt") (Z.of_nat (length es)) n kw)
            (out, counted_text fs kw es), s')
    else Exits (-1).
Proof.
  intros Hp Hm Ha Hr N1 N2 N3 D1 D2 D3 es.
  destruct (seq_arrange fs kw hp tm _ swap_items _ (swap_items_ok (λ _, True)) _ _ root l Hr)
    as (h1 & h2 & es2 & R & Hsort & Hnum & Ho & Htr & Hc & Htm & Hl); [done|].
  assert (HR : R = <[tm:=Other (Int n)]> (<[kp:=Other (Str kw)]> (<[tp:=Other (Str root)]> m0))).
  { apply leaked_0_eq in Hl. simpl in Htm. rewrite <- Hl, insert_delete_eq. by rewrite insert_id. }
  eexists (Proc _ [] _ _). split; [reflexivity|]. unfold finish, yield.
  erewrite bind_idle; [|done|].
  2:{ unfold SortChildren, SortHelper. rewrite <- bind_assoc. by erewrite bind_Ok by exact Hsort. }
  erewrite bind_idle; [|done|exact Hnum].
  erewrite bind_Ok by by apply yield_idle. cbv beta. cbn [p_heap p_next p_sched].
  unfold fileWriter, BBDirlist.open_w. destruct (fs_writable fs out); [|done].
  pose proof (dl_hdr _ _ _ _ (do_rep _ _ _ _ _ Ho)) as Hh.
  pose proof (dlrep_length _ _ _ _ (do_rep _ _ _ _ _ Ho)) as Hlen.
  erewrite bind_Ok.
  2:{ erewrite bind_Ok by (by apply on_heap_ok). cbv beta. cbn [p_heap p_pending p_next p_sched].
      erewrite bind_Ok by (apply on_heap_ok; by eapply get_head_ok). cbv beta.
      cbn [p_heap p_pending p_next p_sched].
      erewrite bind_Ok by (eapply (writer_loop_ok kw _ mode _ _ hp _ []); [done|exact Ho|done|lia]).
      done. }
  cbv beta. rewrite Htr. erewrite bind_idle; [|done|].
  2:{ mstep by load_hdr_ok. cbn [p_heap snd].
      mstep by read_int_ok. 2: by eapply dlown_rest.
      mstep by read_str_ok. 2:{ eapply dlown_rest; [exact Ho|]. rewrite HR. by simplify_map_eq. }
      rewrite decide_False by done.
      mstep by read_str_ok. 2:{ eapply dlown_rest; [exact Ho|]. rewrite HR. by simplify_map_eq. }
      done. }
  erewrite bind_Ok by (apply on_heap_ok; eapply destroy_loop_ok; [apply free_item_ok|exact Ho]). cbv beta.
  erewrite bind_idle; [|done|eapply free_ok; simpl; rewrite HR; by simplify_map_eq].
  erewrite bind_Ok by (apply on_heap_ok; eapply free_ok; simpl; rewrite HR; by simplify_map_eq).
  unfold mret, M_ret. simpl. do 4 f_equal. unfold hdel. simpl. f_equal. rewrite HR.
  apply map_eq. intros x. rewrite !lookup_delete, !lookup_insert.
  repeat case_decide; by subst.
Qed.

Lemma p2_args args c : parse_args args = Ok (Some c) → length args ≠ 3.
Proof. unfold parse_args. case_decide; [done|]. lia. Qed.

(** main up to the search. *)
Lemma p2_setup fuel args c h nx sch :
  budget h = None → parse_args args = Ok (Some c) →
  ∃ tm tp kp hp h', cells h !! tm = None ∧ cells h !! tp = None ∧ cells h !! kp = None ∧
    tp ≠ kp ∧ tm ≠ tp ∧ tm ≠ kp ∧
    seq_repr hp tm (<[kp:=Other (Str (k_keyword c))]> (<[tp:=Other (Str (k_path c))]> (cells h))) (0%Z, 0) h' [] ∧
    main fs fuel args (Proc h [] nx sch) =
      ((if decide (k_mode c = 1%Z) then printDirPar fs (k_keyword c) (Some tm) fuel (k_path c) (Some hp) 1
        else on_heap (printDirSeq fs (k_keyword c) (Some tm) fuel (k_path c) (Some hp) 1));;
       finish fs args (k_keyword c) (Some tm) (Some tp) (Some kp) (Some hp) (k_mode c)
         (BBDirlist.open_w fs (k_out c))) (Proc h' [] nx sch).
Proof.
  intros Hb Hargs. unfold main. rewrite on_heap_malloc by done. cbv beta.
  set (tm := fresh_loc h). set (h1 := hset tm _ h).
  erewrite bind_Ok by by apply lift_Ok. cbv beta iota. unfold strdup.
  rewrite on_heap_malloc by done. cbv beta. set (tp := fresh_loc h1). set (h2 := hset tp _ h1).
  rewrite on_heap_malloc by done. cbv beta zeta. set (kp := fresh_loc h2). set (h3 := hset kp _ h2).
  assert (N1 : cells h !! tm = None) by apply fresh_loc_fresh.
  assert (N2 : cells h1 !! tp = None) by apply fresh_loc_fresh.
  assert (N3 : cells h2 !! kp = None) by apply fresh_loc_fresh.
  unfold h2, h1, hset in N2, N3. cbn [cells] in N2, N3.
  apply lookup_insert_None in N2 as [N2 D1], N3 as [N3 D2]. apply lookup_insert_None in N3 as [N3 D3].
  destruct (open_list h3 tm (<[kp:=Other (Str (k_keyword c))]> (<[tp:=Other (Str (k_path c))]> (cells h)))
    tp kp (k_path c) (k_keyword c) nx sch (λ mylist path kw,
      (if decide (k_mode c = 1%Z) then printDirPar fs kw (Some tm) fuel path mylist 1
       else on_heap (printDirSeq fs kw (Some tm) fuel path mylist 1));;
      finish fs args kw (Some tm) (Some tp) (Some kp) mylist (k_mode c) (BBDirlist.open_w fs (k_out c))))
    as (hp & h' & Hr & E); [done|..].
  - simpl. apply map_eq. intros x. rewrite !lookup_insert. repeat case_decide; by subst.
  - by simplify_map_eq.
  - by simplify_map_eq.
  - by simplify_map_eq.
  - exists tm, tp, kp, hp, h'. by split_and!.
Qed.

(** ** The PARALLEL mode *)
Section parallel.
Context (kw : bytes) (hp tm : loc) (base : smem).
Abbreviation total := (λ es n, n = matches fs kw es).
Abbreviation inv := (tinv fs kw hp tm (λ _, 0) total base []).
Abbreviation start := (StartSearch fs kw (Some tm)).

#[local] Instance start_steady es R : Steady start (counting fs kw hp tm (λ _, 0) total base [] es R).
Proof. exact (counting_steady fs kw hp tm (λ _, 0) _ (adds_hits fs kw) total (search_test_counts tm fs kw) base [] es R). Qed.

(** Every item has a count, and one, the root's, has no thread. *)
Definition has_count (v : sval) : Prop := is_Some (sv_count v).
Definition no_thread (v : sval) : Prop := sv_tid v = None.

Record searching (s : proc sblk) (es : list sent) : Prop := {
  se_inv : ∃ R run fin, inv s es R run fin;
  se_count : Forall has_count (sevals es);
  se_root : Exists no_thread (sevals es);
}.

(** The other threads have their turn. *)
Lemma searching_keeps es R s s' :
  counting fs kw hp tm (λ _, 0) total base [] es R s' → searching s es →
  ∃ es', searching s' es' ∧ Forall2 recounted es es'.
Proof.
  intros (es' & R' & run & fin & Hi & Hr & _) [_ Hc He]. exists es'. split; [|done]. constructor; [by exists R', run, fin|..].
  - refine (recounted_Forall _ _ _ _ Hr Hc). intros v n _. by exists n.
  - by refine (recounted_Exists _ _ _ _ Hr He).
Qed.

Lemma searching_yield s es :
  searching s es → ∃ s' es', yield fs kw (Some tm) s = Ok (tt, s') ∧ searching s' es' ∧ Forall2 recounted es es'.
Proof.
  intros Hs. pose proof Hs as [(R & run & fin & Hi) _ _]. pose proof (counting_refl _ _ _ _ _ _ _ _ _ _ _ _ _ Hi) as Hk.
  destruct (yield_keeps start s Hk) as (s' & H1 & Hk' & _).
  destruct (searching_keeps _ _ _ _ Hk' Hs) as (es' & ? & ?). by exists s', es'.
Qed.

Lemma searching_join s es tid :
  searching s es → ∃ s' es', pthread_join fs kw (Some tm) tid s = Ok (tt, s') ∧ searching s' es' ∧ Forall2 recounted es es'.
Proof.
  intros Hs. pose proof Hs as [(R & run & fin & Hi) _ _]. pose proof (counting_refl _ _ _ _ _ _ _ _ _ _ _ _ _ Hi) as Hk.
  destruct (run_thread_keeps start s tid Hk) as (s' & H1 & Hk' & _).
  destruct (searching_keeps _ _ _ _ Hk' Hs) as (es' & ? & ?). by exists s', es'.
Qed.

(** main writes to the list. *)
Lemma searching_revalued s es R run fin h' es' vs :
  inv s es R run fin → dlown h' hp (Z.of_nat (length es')) es' R →
  idv <$> es ≡ₚ vs → Forall2 revalued vs (idv <$> es') →
  Forall has_count (sevals es) → Exists no_thread (sevals es') →
  searching (Proc h' (p_pending s) (p_next s) (p_sched s)) es'.
Proof.
  intros Hi Ho Hvs Hrv Hc He.
  destruct (tinv_revalued _ _ _ _ _ _ _ _ _ _ _ _ _ _ _ _ Hi Ho Hvs Hrv) as (run' & fin' & Hi').
  constructor; [by exists R, run', fin'| |done].
  assert (Hc' : Forall has_count vs.*2) by (rewrite <- Hvs, <- list_fmap_compose; exact Hc).
  clear -Hrv Hc'. change (sevals es') with (snd ∘ idv <$> es'). rewrite list_fmap_compose.
  induction Hrv as [|p q ps qs (_ & _ & _ & E) _ IH]; [constructor|]. rewrite fmap_cons in *.
  apply Forall_cons in Hc' as [Hp Hps]. constructor; [|by apply IH]. unfold has_count in *. by rewrite E.
Qed.

Definition set_stid (v : sval) (t : option nat) : sval :=
  SVal (sv_level v) (sv_num v) (sv_count v) t (sv_path v).

Lemma set_tid_ok h hx es1 a es2 R tid :
  dlown h hp hx (es1 ++ a :: es2) R →
  ∃ h' a', set_tid (e_dat a) tid h = Ok (tt, h') ∧ dlown h' hp hx (es1 ++ a' :: es2) R ∧
    idv a' = (e_dat a, set_stid (e_val a) (Some tid)).
Proof.
  intros Ho. pose proof (dlown_lookup _ _ _ _ _ _ _ Ho) as Ha.
  destruct (item_update_ok h hp hx es1 a es2 R (λ i, MkItem (i_level i) (i_num i) (i_count i) (Some tid) (i_path i))
    (set_stid (e_val a) (Some tid)) Ho) as (h' & a' & H1 & Ho' & _ & Va & Da & _); [done..|].
  erewrite bind_Ok in H1 by (by eapply get_data_ok).
  exists h', a'. split; [exact H1|]. split; [done|]. unfold idv. by rewrite Va, Da.
Qed.

(** The identifier is stored in the item when the thread may have ended. *)
Lemma searching_set_tid s es es1 e es2 tid :
  searching s es → es = es1 ++ e :: es2 → Exists no_thread (sevals (es1 ++ es2)) →
  ∃ h' es', set_tid (e_dat e) tid (p_heap s) = Ok (tt, h') ∧
    searching (Proc h' (p_pending s) (p_next s) (p_sched s)) es' ∧ skey <$> sevals es' = skey <$> sevals es.
Proof.
  intros [(R & run & fin & Hi) Hc _] -> He. pose proof (ti_own _ _ _ _ _ _ _ _ _ _ _ _ _ Hi) as Ho.
  destruct (set_tid_ok _ _ _ _ _ _ tid Ho) as (h' & e' & H1 & Ho' & Hid).
  assert (Hlen : length (es1 ++ e :: es2) = length (es1 ++ e' :: es2)) by (by rewrite !length_app).
  rewrite Hlen in Ho'. apply (f_equal snd) in Hid as Hv. simpl in Hv.
  exists h', (es1 ++ e' :: es2). split; [done|]. split.
  - eapply searching_revalued; [exact Hi|exact Ho'|reflexivity| |exact Hc|].
    + rewrite !fmap_app, !fmap_cons, Hid. apply Forall2_app; [|constructor]; try done; by apply reflexivity.
    + rewrite fmap_app, fmap_cons, Exists_app, Exists_cons. rewrite fmap_app, Exists_app in He. tauto.
  - rewrite !fmap_app, !fmap_cons. f_equal. f_equal. unfold ekey. by rewrite Hv.
Qed.
(** *** The walk *)
Definition searched (s : proc sblk) (ks : list entry) : Prop :=
  ∃ es, searching s es ∧ skey <$> sevals es = ks.

Lemma p2_par_entry_ok s ks x p :
  searched s ks →
  ∃ s', par_entry fs kw (Some tm) (Some hp) p x s = Ok (tt, s') ∧ searched s' (place fst (x, p) ks).
Proof.
  intros (es & [(R & run & fin & Hi) Hc He] & <-).
  destruct (entry_starts_ok _ _ _ _ _ _ _ _ _ _ _ _ _ x p Hi) as (h1 & e & H1 & Hv & Hi1).
  set (s1 := Proc h1 _ _ _) in Hi1. set (es1 := place _ e es) in Hi1.
  assert (Hperm : es1 ≡ₚ e :: es) by apply place_perm.
  assert (Hs1 : searching s1 es1).
  { constructor; [by exists R, (run ++ [idv e]), fin|..]; rewrite Hperm, fmap_cons; [|by right].
    constructor; [by rewrite Hv; exists 69%Z|done]. }
  destruct (searching_yield _ _ Hs1) as (s2 & es2 & H2 & Hs2 & Hr2).
  destruct (list_elem_of_split es1 e) as (l1 & l2 & E); [rewrite Hperm; left|].
  assert (Hrest : es ≡ₚ l1 ++ l2).
  { rewrite E, <- Permutation_middle in Hperm. by apply Permutation_cons_inv in Hperm. }
  assert (∃ l1' e' l2', es2 = l1' ++ e' :: l2' ∧ e_dat e' = e_dat e ∧ Forall2 recounted (l1 ++ l2) (l1' ++ l2'))
    as (l1' & e' & l2' & E2 & Hd & Hrr).
  { rewrite E in Hr2. apply Forall2_app_inv_l in Hr2 as (l1' & r & Hr1 & Hr2 & ->).
    apply Forall2_cons_inv_l in Hr2 as (e' & l2' & (_ & Hd & _) & Hr2 & ->).
    exists l1', e', l2'. split_and!; [done|done|by apply Forall2_app]. }
  destruct (searching_set_tid s2 es2 l1' e' l2' (p_next s) Hs2 E2) as (h3 & es3 & H3 & Hs3 & Hk3).
  { refine (recounted_Exists _ _ _ _ Hrr _); [done|]. by rewrite <- Hrest. }
  destruct (searching_yield _ _ Hs3) as (s4 & es4 & H4 & Hs4 & Hr4).
  exists s4. split.
  - unfold par_entry. erewrite bind_Ok by (by apply on_heap_ok). cbv beta. erewrite bind_Ok by done. cbv beta.
    cbn [p_heap p_pending p_next p_sched]. erewrite bind_Ok by exact H2. cbv beta. rewrite Hd in H3.
    erewrite bind_Ok by (by apply on_heap_ok). exact H4.
  - exists es4. split; [done|]. rewrite (recounted_keys _ _ Hr4), Hk3, (recounted_keys _ _ Hr2).
    rewrite <- !list_fmap_compose. etrans; [exact (place_fmap (skey ∘ e_val) fst e es)|]. f_equal.
    unfold compose, ekey. by rewrite Hv.
Qed.

#[local] Instance par_builder :
  Builder (par_entry fs kw (Some tm) (Some hp)) fst pair (λ (a : unit) _ _, a) (λ _, searched).
Proof. split; [done|]. intros. by apply p2_par_entry_ok. Qed.

(** *** The writing *)
Lemma writer_uninit fuel s es1 es out :
  searching s (es1 ++ es) → Exists no_thread (sevals es) → length es < fuel →
  loop fuel (writer_body fs kw (Some tm) 1) (hd_ptr es None, out) s = Ub Uninit.
Proof.
  revert s es1 es out. induction fuel as [|fuel IH]; intros s es1 es out Hs He Hf; [lia|].
  destruct es as [|e es]; [by inversion He|].
  pose proof Hs as [(R & run & fin & Hi) _ _]. pose proof (ti_own _ _ _ _ _ _ _ _ _ _ _ _ _ Hi) as Ho.
  destruct (load_value _ _ _ _ _ _ _ Ho) as [pp Hload].
  destruct (sv_tid (e_val e)) as [tid|] eqn:Htid.
  2:{ simpl. apply bind_Ub. apply bind_Ub. erewrite bind_Ok by (by apply on_heap_ok). cbn [i_tid val_item].
      by rewrite Htid. }
  destruct (searching_join _ _ tid Hs) as (s' & es' & H1 & Hs' & Hr).
  apply Forall2_app_inv_l in Hr as (es1' & r & Hr1 & Hr2 & ->).
  apply Forall2_cons_inv_l in Hr2 as (e' & es2 & (Hl & _ & Hv) & Hr2 & ->).
  pose proof Hs' as [(R' & run' & fin' & Hi') Hc' _]. pose proof (ti_own _ _ _ _ _ _ _ _ _ _ _ _ _ Hi') as Ho'.
  pose proof (dlown_lookup _ _ _ _ _ _ _ Ho') as He'.
  pose proof (dlown_value _ _ _ _ _ e' Ho' ltac:(apply elem_of_app; right; left)) as Hv'.
  rewrite fmap_app, fmap_cons, Forall_app, Forall_cons in Hc'. destruct Hc' as (_ & [c Hc'] & _).
  rewrite Hl in He'. erewrite loop_step.
  - rewrite cons_middle, app_assoc in Hs'. apply (IH s' (es1' ++ [e'])); [exact Hs'| |].
    + rewrite fmap_cons, Exists_cons in He. destruct He as [He|He]; [unfold no_thread in He; congruence|].
      by refine (recounted_Exists _ _ _ _ Hr2 He).
    + apply Forall2_length in Hr2. simpl in Hf. lia.
  - unfold writer_body. cbn [hd_ptr]. erewrite bind_Ok.
    2:{ rewrite decide_True by done.
        erewrite bind_Ok by (by apply on_heap_ok). cbn [i_tid val_item]. rewrite Htid. cbn [initialised].
        erewrite bind_Ok by done. destruct s. exact H1. }
    cbv beta. erewrite bind_Ok by (apply on_heap_ok; by eapply count_line_with). cbv beta.
    erewrite bind_Ok by (apply on_heap_ok; by eapply get_next_ok). destruct s'. done.
Qed.

(** *** From the walk to the file *)
Lemma p2_par_walk fuel h sch R root :
  dlown h hp 0%Z [] R → R !! tm = Some (Other (Int 0)) → outside R [tm] = base →
  match walk (fs_dir fs) abspath (Exits (-1)) fuel root 1 with
  | Ok l => ∃ s', printDirPar fs kw (Some tm) fuel root (Some hp) 1 (Proc h [] 0 sch) = Ok (tt, s') ∧
                  searched s' (place_all (lev:=fst) (mk:=pair) l [(1%Z, root)])
  | Ub u => printDirPar fs kw (Some tm) fuel root (Some hp) 1 (Proc h [] 0 sch) = Ub u
  | Exits c => printDirPar fs kw (Some tm) fuel root (Some hp) 1 (Proc h [] 0 sch) = Exits c
  | NoFuel => printDirPar fs kw (Some tm) fuel root (Some hp) 1 (Proc h [] 0 sch) = NoFuel
  end.
Proof.
  intros Ho Htm Hb. unfold printDirPar, print_dir_par. rewrite decide_True by done.
  destruct (fs_dir fs root) as [ents|] eqn:Hd.
  - destruct (dir_no_hits fs kw root ents Hd) as [Hh Hs].
    destruct (root_entry_ok fs kw hp tm (λ _, 0) (adds_hits fs kw) total base [] h 0 sch R root Ho Htm) as (h1 & e & H1 & Hv & Hi);
      [apply NoDup_singleton|constructor|done..|].
    assert (Hw : searched (Proc h1 [] 0 sch) [(1%Z, root)]).
    { exists [e]. split; [constructor; [by exists R, [], [idv e]|..]|]; simpl; rewrite ?Hv; try done.
      - constructor; [by exists 0%Z|constructor].
      - by left. }
    pose proof (visit_tree_fails (fs_dir fs) abspath (Exits (-1)) fuel root 1 tt _ _ Hw) as Hfail.
    pose proof (λ l, visit_tree_build (fs_dir fs) abspath (Exits (-1)) fuel root 1 tt _ _ l Hw) as Hbuild.
    destruct (walk (fs_dir fs) abspath (Exits (-1)) fuel root 1) as [l|u|c|];
      (erewrite bind_Ok by (by apply on_heap_ok)); cbv beta; try exact Hfail.
    exact (Hbuild l eq_refl).
  - destruct (new_root_ok hp h R root Ho) as (h1 & e & H1 & _).
    destruct fuel as [|fuel]; simpl; rewrite ?Hd; by erewrite bind_Ok by (by apply on_heap_ok).
Qed.

Lemma searching_nonempty s es : searching s es → es ≠ [].
Proof. intros [_ _ He] ->. by inversion He. Qed.

Lemma searching_sort s es :
  searching s es → Sorted (key_le sv_level) (sevals es) →
  ∃ h' es', SortChildren (Some hp) (p_heap s) = Ok (tt, h') ∧
    searching (Proc h' (p_pending s) (p_next s) (p_sched s)) es'.
Proof.
  intros Hs Hsort. pose proof (searching_nonempty _ _ Hs) as Hne. destruct Hs as [(R & run & fin & Hi) Hc He].
  destruct (sort_items_ok _ _ _ _ _ (ti_own _ _ _ _ _ _ _ _ _ _ _ _ _ Hi) Hne Hsort) as (h' & es' & H1 & Ho & Hp).
  assert (Hlen : length es = length es') by (apply Permutation_length in Hp; by rewrite !length_fmap in Hp).
  rewrite Hlen in Ho. exists h', es'. split.
  - unfold SortChildren, SortHelper. rewrite <- bind_assoc. by erewrite bind_Ok by exact H1.
  - eapply searching_revalued; [exact Hi|exact Ho|symmetry; exact Hp|reflexivity|done|].
    change (sevals es') with (snd ∘ idv <$> es'). rewrite list_fmap_compose, Hp, <- list_fmap_compose. exact He.
Qed.

Lemma searching_number s es :
  searching s es →
  ∃ h' es', NumberChildren (Some hp) (p_heap s) = Ok (tt, h') ∧
    searching (Proc h' (p_pending s) (p_next s) (p_sched s)) es'.
Proof.
  intros Hs. pose proof (searching_nonempty _ _ Hs) as Hne. destruct Hs as [(R & run & fin & Hi) Hc He].
  destruct (number_items_ok _ _ _ _ (ti_own _ _ _ _ _ _ _ _ _ _ _ _ _ Hi) Hne) as (h' & es' & H1 & Ho & Hv & Ht).
  apply Forall2_length in Hv as Hlen. rewrite !length_fmap in Hlen. rewrite Hlen in Ho.
  exists h', es'. split; [exact H1|].
  eapply searching_revalued; [exact Hi|exact Ho|reflexivity|exact Hv|done|].
  clear -Ht He. revert He. induction Ht as [|v v' vs vs' E _ IH]; [done|].
  rewrite !Exists_cons. unfold no_thread. rewrite E. intros [?|?]; [by left|right; by apply IH].
Qed.

Lemma p2_par_finish_ok args s es tp kp out :
  searching s es → Sorted (key_le sv_level) (sevals es) →
  finish fs args kw (Some tm) tp kp (Some hp) 1 (BBDirlist.open_w fs out) s =
    if fs_writable fs out then Ub Uninit else Exits (-1).
Proof.
  intros Hs Hsort. destruct (searching_yield _ _ Hs) as (s1 & es1 & H1 & Hs1 & Hr1).
  destruct (searching_sort _ _ Hs1 (recounted_sorted _ _ Hr1 Hsort)) as (h2 & es2 & H2 & Hs2).
  destruct (searching_yield _ _ Hs2) as (s3 & es3 & H3 & Hs3 & _).
  destruct (searching_number _ _ Hs3) as (h4 & es4 & H4 & Hs4).
  destruct (searching_yield _ _ Hs4) as (s5 & es5 & H5 & Hs5 & _).
  unfold finish. erewrite bind_Ok by exact H1. cbv beta. erewrite bind_Ok by (by apply on_heap_ok). cbv beta.
  erewrite bind_Ok by exact H3. cbv beta. erewrite bind_Ok by (by apply on_heap_ok). cbv beta.
  erewrite bind_Ok by exact H5. cbv beta. unfold fileWriter, BBDirlist.open_w.
  destruct (fs_writable fs out); [|done]. pose proof Hs5 as [(R5 & run5 & fin5 & Hi5) _ He5].
  pose proof (ti_own _ _ _ _ _ _ _ _ _ _ _ _ _ Hi5) as Ho5.
  pose proof (dl_hdr _ _ _ _ (do_rep _ _ _ _ _ Ho5)) as Hh.
  pose proof (dlrep_length _ _ _ _ (do_rep _ _ _ _ _ Ho5)) as Hl.
  apply bind_Ub. destruct s5 as [h5 pend nx sch]. cbn [p_heap] in *.
  erewrite bind_Ok by (by apply on_heap_ok). cbv beta. cbn [p_heap p_pending p_next p_sched].
  erewrite bind_Ok by (apply on_heap_ok; by eapply get_head_ok). cbv beta.
  apply bind_Ub. apply (writer_uninit _ _ []); [exact Hs5|done|lia].
Qed.
End parallel.


(** ** Both modes *)
Section both.
Context (args : list bytes) (c : pconf) (hp tm tp kp : loc) (h : heap sblk) (sch : list (list nat)) (m : smem).
Let kw := k_keyword c.
Let root := k_path c.
Let es l := (1%Z, root) :: l.

Let program fuel : ST run :=
  (if decide (k_mode c = 1%Z) then printDirPar fs kw (Some tm) fuel root (Some hp) 1
   else on_heap (printDirSeq fs kw (Some tm) fuel root (Some hp) 1));;
  finish fs args kw (Some tm) (Some tp) (Some kp) (Some hp) (k_mode c) (BBDirlist.open_w fs (k_out c)).

Hypothesis start : seq_repr hp tm (<[kp:=Other (Str kw)]> (<[tp:=Other (Str root)]> m)) (0%Z, 0) h [].
Hypothesis args_ok : length args ≠ 3.
Hypothesis fresh : m !! tp = None ∧ m !! kp = None ∧ m !! tm = None ∧ tp ≠ kp ∧ tm ≠ tp ∧ tm ≠ kp.

(** What is written and reported. *)
Let written fuel : outcome run :=
  l ← walk (fs_dir fs) abspath (Exits (-1)) fuel root 1;
  if fs_writable fs (k_out c) then
    if decide (k_mode c = 1%Z) then Ub Uninit
    else Ok (Run 0 (report root (lit "output.txt") (Z.of_nat (length (es l))) (matches fs kw (es l)) kw)
               (k_out c, counted_text fs kw (es l)))
  else Exits (-1).

Lemma p2_parallel_ok fuel s' : k_mode c = 1%Z →
  program fuel (Proc h [] 0 sch) = (r ← written fuel; Ok (r, s')).
Proof using start.
  intros Em. unfold program, written. rewrite Em, !decide_True by done.
  destruct start as (es0 & R & Ho & He & Hint & _). apply fmap_nil_inv in He as ->.
  pose proof (p2_par_walk kw hp tm _ fuel h sch R root Ho Hint eq_refl) as Hwalk.
  destruct (walk (fs_dir fs) abspath (Exits (-1)) fuel root 1) as [l|u|x|].
  - destruct Hwalk as (s1 & H1 & es1 & Hs1 & Hk). erewrite bind_Ok by exact H1. cbv beta.
    rewrite (p2_par_finish_ok kw hp tm _ args s1 es1 (Some tp) (Some kp) (k_out c) Hs1).
    + change (Ok l ≫= ?k) with (k l). cbv beta. by destruct (fs_writable fs (k_out c)).
    + destruct (place_all_keys fst snd (@pair Z bytes) root l) as (_ & Hsorted & _); [done..|].
      rewrite <- Hk in Hsorted. apply key_sorted. apply key_sorted in Hsorted.
      rewrite <- list_fmap_compose in Hsorted. exact Hsorted.
  - exact (bind_Ub _ _ _ _ Hwalk).
  - exact (bind_Exits _ _ _ _ Hwalk).
  - unfold mbind at 1, M_bind. by rewrite Hwalk.
Qed.

Lemma p2_sequential_ok fuel : k_mode c ≠ 1%Z →
  ∃ s' n, p_heap s' = Heap (<[tm:=Other (Int n)]> m) None ∧
    program fuel (Proc h [] 0 sch) = (r ← written fuel; Ok (r, s')).
Proof using All.
  intros Em. pose proof (search_test_counts tm fs kw) as Hsearch. unfold program, written. rewrite decide_False by done.
  pose proof (seq_build_fails fs kw hp tm _ _ Hsearch _ fuel h root start) as Hfail.
  pose proof (λ l, seq_build fs kw hp tm _ _ Hsearch _ fuel h root l start) as Hok.
  destruct (walk (fs_dir fs) abspath (Exits (-1)) fuel root 1) as [l|u|x|].
  2-4: exists (Proc (Heap (<[tm:=Other (Int 0)]> m) None) [] 0 []), 0%Z; split; [done|];
    unfold mbind at 1, M_bind, on_heap, printDirSeq; cbn [p_heap]; by setoid_rewrite Hfail.
  destruct (Hok l eq_refl) as (h1 & H1 & Hr1). rewrite tally_search in Hr1.
  destruct fresh as (N1 & N2 & N3 & D1 & D2 & D3).
  destruct (p2_finish_ok args (Proc h1 [] 0 sch) hp tm tp kp kw root (k_out c) l (k_mode c) _ m eq_refl Em args_ok Hr1)
    as (s' & Hs' & Hfin); [done..|].
  exists s', (0 + matches fs kw (es l))%Z. split; [done|]. erewrite bind_Ok by (by apply on_heap_ok). cbv beta.
  cbn [p_heap p_pending p_next p_sched]. etrans; [exact Hfin|].
  rewrite Z.add_0_l. change (Ok l ≫= ?k) with (k l). cbv beta. rewrite decide_False by done.
  by destruct (fs_writable fs (k_out c)).
Qed.
End both.

Lemma p2_main_ok fuel args s :
  starting s →
  ∃ s', main fs fuel args s = (r ← p2_spec fuel args; Ok (r, s')) ∧
    ∃ tm n, cells (p_heap s) !! tm = None ∧ p_heap s' = hset tm (Other (Int n)) (p_heap s).
Proof.
  intros (Hb & Hp & Hn). destruct s as [h pend nx sch]. simpl in Hb, Hp, Hn. subst pend nx.
  assert (Hany : ∀ n, ∃ s' : proc sblk, p_heap s' = hset (fresh_loc h) (Other (Int n)) h ∧
    ∃ tm n, cells h !! tm = None ∧ p_heap s' = hset tm (Other (Int n)) h).
  { intros n. exists (Proc (hset (fresh_loc h) (Other (Int n)) h) [] 0 sch). split; [done|].
    exists (fresh_loc h), n. split; [apply fresh_loc_fresh|done]. }
  unfold p2_spec. destruct (parse_args args) as [[c|]|u|x|] eqn:Hargs.
  2-5: destruct (Hany 0%Z) as (s' & _ & Hs'); exists s'; split; [|exact Hs']; unfold main;
    rewrite on_heap_malloc by done; cbv beta; unfold mbind at 1, M_bind, lift; by rewrite Hargs.
  destruct (p2_setup fuel args c h 0 sch Hb Hargs)
    as (tm & tp & kp & hp & h' & N1 & N2 & N3 & D1 & D2 & D3 & Hr & ->).
  change (Ok (Some c) ≫= ?k) with (k (Some c)). cbv beta iota.
  assert (Hmode : k_mode c = 1%Z ∨ k_mode c ≠ 1%Z) by (destruct (decide (k_mode c = 1%Z)); auto).
  destruct Hmode as [Em|Em].
  - destruct (Hany 0%Z) as (s' & _ & Hs'). exists s'. split; [|exact Hs'].
    exact (p2_parallel_ok args c hp tm tp kp h' sch (cells h) Hr fuel s' Em).
  - destruct (p2_sequential_ok args c hp tm tp kp h' sch (cells h) Hr (p2_args _ _ Hargs) ltac:(by split_and!)
      fuel Em) as (s' & n & Hs' & E).
    exists s'. split; [exact E|]. exists tm, n. split; [done|]. rewrite Hs'. cbn [p_heap]. unfold hset. by rewrite Hb.
Qed.

(** C11: main of Project2 does what its specification says on every branch, in sequence and in the
    PARALLEL mode, whatever the schedule: in sequence it writes the listing with the counts and
    reports their sum; in the PARALLEL mode, once the tree is walked and the file opens, it joins
    a thread whose identifier was never written. When it returns there is nothing left in
    memory but the global [totalMatches]. *)
Theorem p2_main_refines_spec fuel args s :
  starting s →
  ∃ s', main fs fuel args s = (r ← p2_spec fuel args; Ok (r, s')) ∧
    ∃ tm n, cells (p_heap s) !! tm = None ∧ p_heap s' = hset tm (Other (Int n)) (p_heap s).
Proof. exact (p2_main_ok fuel args s). Qed.
End project2.

(** ** Examples *)
Lemma p2_main_refines_spec_witness :
  (∃ s', Project2.main seq_fs 256 (seq_args "0") (seq_start []) =
    Ok (Run 0 (report (lit "r") (lit "output.txt") 3 3 (lit "int")) (lit "out", seq_file), s')) ∧
  Project2.main seq_fs 256 (seq_args "1") (seq_start [[0]; []; [1]]) = Ub Uninit.
Proof.
  split.
  - destruct (p2_main_refines_spec seq_fs 256 (seq_args "0") (seq_start [])) as (s' & E & _); [done|].
    exists s'. rewrite E. vm_compute. reflexivity.
  - destruct (p2_main_refines_spec seq_fs 256 (seq_args "1") (seq_start [[0]; []; [1]])) as (s' & E & _); [done|].
    rewrite E. vm_compute. reflexivity.
Defined.
