(* ===== verification/Rev1Main.v ===== *)
(** * main of Lin/pardirlist/pardirlist_rev1.c

    In sequence and in the PARALLEL mode, with what it leaves in memory. *)

From stdpp Require Import base list gmap fin_maps strings sorting.
From S2P Require Import Prelude CString Text CMem Dll LevelList SortedInsert ListSort Objects Exchange Threads TidList FileSys FileSearch Listing Sdll SdllDirlist SdllSearch SeqSearch SdllThreads.

(** ** Lin/pardirlist/pardirlist_rev1.c *)
Section rev1.
Import Rev1.
(** What the searching threads load from totalMatches when they run at the same time. *)
Context (race : option (bytes → Z → Z)) (fs : fsys).

Definition rev1_report (args : list bytes) (c : pconf) (size total : Z) : outcome bytes :=
  if decide (length args = 3) then
    a1 ← arg args 1;
    a2 ← arg args 2;
    Ok (report_argc3 a1 a2 size total (k_keyword c))
  else
    a3 ← arg args 3;
    Ok (report (k_path c) a3 size total (k_keyword c)).

(** The listing with the counts, in every mode; the report has [total] for the number of matches, and asks
    for [argv[3]] whenever there are not exactly two arguments. With nothing to join MakeAllThreadsJoin
    follows a NULL pointer. *)
Definition rev1_spec (total : Z) (fuel : nat) (args : list bytes) : outcome run :=
  c ← Rev1.parse_args args;
  l ← walk (fs_dir fs) abspath (Exits (-1)) fuel (k_path c) 1;
  let es := (1%Z, k_path c) :: l in
  if decide (k_mode c = 1%Z ∧ length l = 0) then Ub NullDeref
  else if fs_writable fs (k_out c) then
    text ← rev1_report args c (Z.of_nat (length es)) total;
    Ok (Run 0 text (k_out c, counted_text fs (k_keyword c) es))
  else Exits (-1).

(** The number of matches that is reported when the entries have been searched: their sum, if the loads of
    totalMatches are not disturbed; if they are, one more than the load of some match, if there is one. *)
Definition counted_total (kw : bytes) (es : list entry) (total : Z) : Prop :=
  match race with
  | None => total = matches fs kw es
  | Some loaded =>
      (matches fs kw es = 0%Z → total = 0%Z) ∧
      ((0 < matches fs kw es)%Z → ∃ x p i, (x, p) ∈ es ∧ (0 ≤ i < hits fs kw p)%Z ∧ total = (loaded p i + 1)%Z)
  end.

(** In sequence it is the sum. *)
Definition mode_total (mode : Z) (kw : bytes) (es : list entry) (total : Z) : Prop :=
  if decide (mode = 1%Z) then counted_total kw es total else total = matches fs kw es.

Definition rev1_total (fuel : nat) (args : list bytes) (total : Z) : Prop :=
  ∃ c l, Rev1.parse_args args = Ok c ∧ walk (fs_dir fs) abspath (Exits (-1)) fuel (k_path c) 1 = Ok l ∧
    mode_total (k_mode c) (k_keyword c) ((1%Z, k_path c) :: l) total.

(** The schedules that cannot go wrong: the first thread, which is never joined, runs while the
    tree is walked. *)
Definition first_in_time (fuel : nat) (args : list bytes) (sched : list (list nat)) : Prop :=
  ∀ c l, Rev1.parse_args args = Ok c → k_mode c = 1%Z →
    walk (fs_dir fs) abspath (Exits (-1)) fuel (k_path c) 1 = Ok l →
    l ≠ [] → 0 ∈ mjoin (take (length l) sched).

(** What stays: the global, the keyword and a copy of every word. *)
Definition rev1_left (fuel : nat) (args : list bytes) (m m' : smem) : Prop :=
  ∃ c l tm n, Rev1.parse_args args = Ok c ∧
    walk (fs_dir fs) abspath (Exits (-1)) fuel (k_path c) 1 = Ok l ∧
    m !! tm = None ∧ m' !! tm = Some (Other (Int n)) ∧
    leaked (1 + words_seen fs ((1%Z, k_path c) :: l)) m (delete tm m').

Abbreviation built kw root l :=
  (place_all (lev:=sv_level) (mk:=counted_value fs kw) l [counted_value fs kw 1 root]).

(** The report, from the list and the strings in memory. *)
Lemma rev1_text_ok args c h hp tm tp kp es R size n :
  dlown h hp size es R → R !! tm = Some (Other (Int n)) →
  R !! tp = Some (Other (Str (k_path c))) → R !! kp = Some (Other (Str (k_keyword c))) →
  (hdr ← load_hdr (Some hp);
   total ← read_int (Some tm);
   kws ← read_str (Some kp);
   if decide (length args = 3) then
     a1 ← lift (arg args 1); a2 ← lift (arg args 2); mret (report_argc3 a1 a2 hdr.2 total kws)
   else path ← read_str (Some tp); a3 ← lift (arg args 3); mret (report path a3 hdr.2 total kws)) h =
  (t ← rev1_report args c size n; Ok (t, h)).
Proof.
  intros Ho Htm Rtp Rkp. pose proof (dl_hdr _ _ _ _ (do_rep _ _ _ _ _ Ho)) as Hh.
  mstep by load_hdr_ok. cbn [snd]. mstep by read_int_ok. 2: by eapply dlown_rest.
  mstep by read_str_ok. 2: by eapply dlown_rest.
  unfold rev1_report. case_decide as Ha.
  - unfold lift. destruct (arg args 1), (arg args 2); done.
  - mstep by read_str_ok. 2: by eapply dlown_rest.
    unfold lift. by destruct (arg args 3).
Qed.

(** What is freed at the end: the identifiers and the path; the keyword stays. *)
Lemma rev1_freed tm tp kp tl ns cnt k root kw (B R : smem) :
  registered B tl ns cnt → B !! tp = Some (Other (Str root)) → B !! kp = Some (Other (Str kw)) →
  B !! tm = None → tp ≠ kp → leaked k B (delete tm R) →
  leaked (S k) (delete kp (delete tp (outside B (tl :: ns.*1))))
    (delete tm (delete tp (outside R (tl :: ns.*1)))).
Proof.
  intros Hreg Htp Hkp Htm D Hl. pose proof (registered_nodup _ _ _ _ Hreg) as Hnd.
  pose proof (registered_str _ _ _ _ _ _ Hreg Htp) as Ntp. pose proof (registered_str _ _ _ _ _ _ Hreg Hkp) as Nkp.
  set (ls := tl :: ns.*1) in *.
  assert (delete tm (delete tp (outside R ls)) = delete tp (outside (delete tm R) ls)) as ->.
  { rewrite delete_delete. f_equal. by rewrite outside_delete, outside_cons. }
  apply (leaked_uninsert _ _ _ kp (Other (Str kw))); [|by rewrite lookup_delete_eq].
  rewrite insert_delete_eq, insert_id by (by rewrite lookup_delete_ne, lookup_outside, decide_False).
  eapply leaked_delete; [|by rewrite lookup_outside, decide_False].
  apply leaked_outside; [done..|]. apply Forall_forall. intros l Hin. by eapply registered_live.
Qed.

Lemma rev1_finish_ok args s hp tm tp kp tl ns cnt c l n k (B : smem) :
  let kw := k_keyword c in let root := k_path c in
  p_pending s = [] → seq_repr hp tm B (n, k) (p_heap s) (built kw root l) →
  registered B tl ns cnt → B !! tp = Some (Other (Str root)) → B !! kp = Some (Other (Str kw)) →
  B !! tm = None → tp ≠ kp →
  let es := (1%Z, root) :: l in
  ∃ s', cells (p_heap s') !! tm = Some (Other (Int n)) ∧
    leaked (S k) (delete kp (delete tp (outside B (tl :: ns.*1)))) (delete tm (cells (p_heap s'))) ∧
  finish race fs args kw (Some tm) (Some tl) (Some tp) (Some kp) (Some hp)
    (BBDirlist.open_w fs (k_out c)) s =
    if fs_writable fs (k_out c) then
      text ← rev1_report args c (Z.of_nat (length es)) n;
      Ok (Run 0 text (k_out c, counted_text fs kw es), s')
    else Exits (-1).
Proof.
  intros kw root Hp Hr Hreg Btp Bkp Btm D es.
  destruct (seq_arrange fs kw hp tm _ swap_item_fields _ swap_item_fields_ok _ _ root l Hr)
    as (h1 & h2 & es2 & R & Hsort & Hnum & Ho & Htr & Hc & Htm & Hl); [done|]. simpl in Htm, Hl.
  assert (Hin : ∀ x b, B !! x = Some b → R !! x = Some b).
  { intros x b Hx. pose proof (strings_stay _ _ _ _ _ Hx Hl) as E. by apply lookup_delete_Some in E as [_ E]. }
  assert (HregR : registered R tl ns cnt) by (eapply registered_frame; [exact Hreg|]; intros x b _; apply Hin).
  pose proof (registered_str _ _ _ _ _ _ Hreg Btp) as Ntp.
  assert (Ntm : tm ∉ tl :: ns.*1) by (intros Hi; destruct (registered_live _ _ _ _ _ Hreg Hi); congruence).
  exists (Proc (Heap (delete tp (outside R (tl :: ns.*1))) None) [] (p_next s)
    (tail (tail (tail (tail (tail (p_sched s))))))). cbn [p_heap cells]. split.
  { rewrite lookup_delete_ne by congruence. by rewrite lookup_outside, decide_False. }
  split; [by eapply rev1_freed|]. unfold finish, yield. erewrite bind_idle; [|done|].
  2:{ unfold SortChildren, SortHelper. rewrite <- bind_assoc. by erewrite bind_Ok by exact Hsort. }
  erewrite bind_idle; [|done|exact Hnum].
  erewrite bind_Ok by by apply yield_idle. cbv beta. cbn [p_heap p_next p_sched].
  unfold fileWriter, BBDirlist.open_w. destruct (fs_writable fs (k_out c)); [|done].
  erewrite bind_Ok.
  2:{ apply on_heap_ok. cbn [p_heap].
      erewrite bind_Ok by (eapply (print_loop_ok _ _ _ (count_line_ok fs kw)); [exact Ho|done]). done. }
  cbv beta. cbn [p_heap p_pending p_next p_sched].
  rewrite (list_fmap_compose striple (counted_line fs kw)), Htr.
  erewrite bind_Ok by by apply yield_idle. cbv beta. cbn [p_heap p_next p_sched].
  pose proof (rev1_text_ok args c h2 hp tm tp kp es2 R (Z.of_nat (length es)) n Ho Htm (Hin _ _ Btp) (Hin _ _ Bkp))
    as Htext.
  unfold mbind at 1, M_bind at 1. unfold on_heap at 1. cbn [p_heap]. rewrite Htext.
  destruct (rev1_report args c (Z.of_nat (length es)) n) as [t|u|e|]; try done.
  cbn [mbind outcome_bind]. change (Ok t ≫= ?f) with (f t). cbv beta iota.
  cbn [p_heap p_pending p_next p_sched].
  erewrite bind_Ok by (apply on_heap_ok; eapply destroy_loop_ok; [apply free_item_ok|exact Ho]). cbv beta.
  erewrite bind_idle; [|done|by eapply destroyLL_ok].
  erewrite bind_Ok by (apply on_heap_ok; eapply free_ok; cbn; by rewrite lookup_outside, decide_False; [apply Hin|]).
  done.
Qed.

(** ** The PARALLEL mode *)

Lemma hits_pos kw p : (0 ≤ hits fs kw p)%Z.
Proof. apply occurrences_pos. Qed.

Lemma matches_pos kw es : (0 ≤ matches fs kw es)%Z.
Proof.
  induction es as [|[x p] es IH]; [done|]. pose proof (hits_pos kw p).
  change (matches fs kw ((x, p) :: es)) with (hits fs kw p + matches fs kw es)%Z. lia.
Qed.

#[local] Instance total_tally kw :
  Tally fs kw (λ p n, total_after race p n (hits fs kw p)) (counted_total kw).
Proof.
  unfold counted_total, total_after. destruct race as [loaded|]; [|apply (exact_tally fs kw)]. split.
  - split; [done|]. simpl. lia.
  - intros x p es n [H0 H1]. pose proof (hits_pos kw p). pose proof (matches_pos kw es).
    change (matches fs kw ((x, p) :: es)) with (hits fs kw p + matches fs kw es)%Z.
    case_decide as Hh.
    + rewrite Hh, Z.add_0_l. split; [done|]. intros Hm. destruct (H1 Hm) as (y & r & i & Hin & Hi).
      exists y, r, i. split; [by right|done].
    + split; [lia|]. intros _. exists x, p, (hits fs kw p - 1)%Z. split; [left|]. lia.
  - intros es es' n Hp. rewrite (matches_perm fs kw _ _ Hp). intros [H0 H1]. split; [done|].
    intros Hm. destruct (H1 Hm) as (y & r & i & Hin & Hi). exists y, r, i. by rewrite <- Hp.
  - intros p n ->. done.
Qed.

Section parallel.
Context (kw : bytes) (hp tm tl : loc) (base : smem).
Abbreviation leaks := (λ p, length (seen fs p)).
Abbreviation inv := (tinv fs kw hp tm leaks (counted_total kw) base).
Abbreviation start := (StartSearch race fs kw (Some tm)).

#[local] Instance start_steady aside es R : Steady start (counting fs kw hp tm leaks (counted_total kw) base aside es R).
Proof. exact (counting_steady fs kw hp tm leaks _ _ _ (search_test_rev1_counts race tm fs kw) base aside es R). Qed.

(** The state while the tree is walked. *)
Definition walked (sched0 : list (list nat)) (s : proc sblk) (ks : list entry) : Prop :=
  ∃ es R run fin ns, inv (tl :: ns.*1) s es R run fin ∧ registered R tl ns (p_next s) ∧
    skey <$> sevals es = ks ∧ Forall plain (sevals es) ∧ in_time sched0 s ∧ S (p_next s) = length es.

Lemma aside_tm s es R run fin (ns : list (loc * nat)) : inv (tl :: ns.*1) s es R run fin → tm ∉ tl :: ns.*1.
Proof. intros [_ _ _ _ _ _ [Hn _] _]. by apply NoDup_cons in Hn as [? _]. Qed.

Lemma rev1_par_entry_ok sched0 s ks x p :
  walked sched0 s ks →
  ∃ s', par_entry race fs kw (Some tm) (Some tl) (Some hp) p x s = Ok (tt, s') ∧
    walked sched0 s' (place fst (x, p) ks).
Proof.
  intros (es & R & run & fin & ns & Hi & Hreg & Hks & Hpl & Ht & Hlen).
  destruct (entry_starts_ok _ _ _ _ _ _ _ _ _ _ _ _ _ x p Hi) as (h1 & e & H1 & Hv & Hi1).
  destruct (tinv_register _ _ _ _ _ _ _ _ _ _ _ _ _ _ _ Hi1 Hreg) as (h2 & R2 & l & H2 & Hi2 & Hreg2).
  cbn [p_heap p_pending p_next p_sched] in H2, Hi2.
  set (s2 := Proc h2 _ _ _) in Hi2.
  pose proof (counting_refl _ _ _ _ _ _ _ _ _ _ _ _ _ Hi2) as Hk2.
  destruct (yield_keeps start s2 Hk2) as (s' & H3 & Hk3 & Hn3 & Hc3 & Hp3).
  destruct (counting_registered _ _ _ _ _ _ _ _ _ _ _ _ _ _ Hk3 Hreg2 (aside_tm _ _ _ _ _ _ Hi2))
    as (es' & R' & run' & fin' & Hi' & Hrec & Hreg').
  change (S (p_next s)) with (p_next s2) in Hreg'. rewrite <- Hn3 in Hreg'.
  exists s'. split.
  - unfold par_entry. erewrite bind_Ok by (by apply on_heap_ok). cbv beta.
    erewrite bind_Ok by done. cbv beta. cbn [p_heap p_pending p_next p_sched].
    by erewrite bind_Ok by (by apply on_heap_ok).
  - exists es', R', run', fin', ((l, p_next s) :: ns). split; [done|]. split; [done|]. split; [|split; [|split]].
    + rewrite (recounted_keys _ _ Hrec), <- Hks, <- !list_fmap_compose.
      etrans; [exact (place_fmap (skey ∘ e_val) fst e es)|]. f_equal. unfold compose, ekey. by rewrite Hv.
    + refine (recounted_Forall plain _ es' _ Hrec _); [by intros []|].
      rewrite place_perm, fmap_cons, Hv. by constructor.
    + by apply (in_time_create sched0 s (e_dat e) s2 s' Ht).
    + apply Forall2_length in Hrec. rewrite <- Hrec, place_perm, Hn3. simpl. by rewrite Hlen.
Qed.

#[local] Instance par_builder sched0 :
  Builder (par_entry race fs kw (Some tm) (Some tl) (Some hp)) fst pair (λ (a : unit) _ _, a) (λ _, walked sched0).
Proof. split; [done|]. intros. by apply rev1_par_entry_ok. Qed.

(** The walk ends as its specification does. *)
Lemma rev1_par_walk fuel h sch R root :
  dlown h hp 0%Z [] R → R !! tm = Some (Other (Int 0)) → R !! tl = Some (Other (TidList None None 0)) →
  outside R [tm; tl] = base →
  match walk (fs_dir fs) abspath (Exits (-1)) fuel root 1 with
  | Ok l => ∃ s', printDirPar race fs kw (Some tm) (Some tl) fuel root (Some hp) 1 (Proc h [] 0 sch) = Ok (tt, s') ∧
                  walked sch s' (place_all (lev:=fst) (mk:=pair) l [(1%Z, root)])
  | Ub u => printDirPar race fs kw (Some tm) (Some tl) fuel root (Some hp) 1 (Proc h [] 0 sch) = Ub u
  | Exits c => printDirPar race fs kw (Some tm) (Some tl) fuel root (Some hp) 1 (Proc h [] 0 sch) = Exits c
  | NoFuel => printDirPar race fs kw (Some tm) (Some tl) fuel root (Some hp) 1 (Proc h [] 0 sch) = NoFuel
  end.
Proof.
  intros Ho Htm Htl Hb. unfold printDirPar, print_dir_par. rewrite decide_True by done.
  destruct (fs_dir fs root) as [ents|] eqn:Hd.
  - destruct (dir_no_hits fs kw root ents Hd) as [Hh Hs].
    destruct (root_entry_ok fs kw hp tm leaks _ (counted_total kw) base [tl] h 0 sch R root Ho Htm) as (h1 & e & H1 & Hv & Hi);
      [|repeat constructor; by rewrite Htl|done|done|done|by rewrite (dir_no_words _ _ _ Hd)|].
    { apply NoDup_cons. split; [|apply NoDup_singleton]. intros ->%list_elem_of_singleton. congruence. }
    assert (Hw : walked sch (Proc h1 [] 0 sch) [(1%Z, root)]).
    { exists [e], R, [], [idv e], []. split; [done|]. split; [by apply registered_nil|].
      split; [by unfold ekey; simpl; rewrite Hv|]. split; [by constructor; [rewrite Hv|constructor]|].
      split; [by apply (in_time_start (Proc h1 [] 0 sch))|done]. }
    pose proof (visit_tree_fails (fs_dir fs) abspath (Exits (-1)) fuel root 1 tt _ _ Hw) as Hfail.
    pose proof (λ l, visit_tree_build (fs_dir fs) abspath (Exits (-1)) fuel root 1 tt _ _ l Hw) as Hbuild.
    destruct (walk (fs_dir fs) abspath (Exits (-1)) fuel root 1) as [l|u|c|];
      (erewrite bind_Ok by (by apply on_heap_ok)); cbv beta; try exact Hfail.
    exact (Hbuild l eq_refl).
  - destruct (new_root_ok hp h R root Ho) as (h1 & e & H1 & _).
    destruct fuel as [|fuel]; simpl; rewrite ?Hd; by erewrite bind_Ok by (by apply on_heap_ok).
Qed.

Lemma walked_threads sch s root l :
  walked sch s (place_all (lev:=fst) (mk:=pair) l [(1%Z, root)]) → p_next s = length l.
Proof.
  intros (es & R & run & fin & ns & _ & _ & Hks & _ & _ & Hlen).
  apply (f_equal length) in Hks. rewrite !length_fmap, place_all_perm, length_app, length_fmap in Hks.
  simpl in Hks. lia.
Qed.

Lemma par_joined s sch root l :
  walked sch s (place_all (lev:=fst) (mk:=pair) l [(1%Z, root)]) →
  l ≠ [] → 0 ∈ mjoin (take (length l) sch) →
  ∃ s' ns k R total, MakeAllThreadsJoin race fs kw (Some tm) (Some tl) s = Ok (tt, s') ∧ p_pending s' = [] ∧
    counted_total kw ((1%Z, root) :: l) total ∧
    seq_repr hp tm (delete tm R) (total, 0) (p_heap s') (built kw root l) ∧
    registered (delete tm R) tl ns k ∧
    leaked (words_seen fs ((1%Z, root) :: l)) base (outside (delete tm R) (tl :: ns.*1)).
Proof.
  intros Hw Hne Hin. pose proof (walked_threads _ _ _ _ Hw) as Hn.
  destruct Hw as (es & R & run & fin & ns & Hi & Hreg & Hks & Hpl & Ht & _).
  pose proof (aside_tm _ _ _ _ _ _ Hi) as Htm.
  assert (Hst : ∀ m, delete tm R ⊆ delete tm m → registered (delete tm m) tl ns (p_next s)).
  { intros m Hm. eapply registered_frame; [exact Hreg|]. intros x b Hx Hb. eapply lookup_weaken; [|exact Hm].
    rewrite lookup_delete_ne; [done|]. by intros <-. }
  destruct (join_all_keeps start (counting fs kw hp tm leaks (counted_total kw) base (tl :: ns.*1) es R) (delete tm R)) with
    (tl := tl) (ns := ns) (k := p_next s) (s := s) as (s' & H1 & (es' & R' & run' & fin' & Hi' & Hrec & HR) & _ & Hp').
  - intros s1 (es1 & R1 & run1 & fin1 & Hi1 & _ & HR). etrans; [exact HR|]. etrans; [apply delete_subseteq|].
    by eapply dlown_rest_sub, ti_own.
  - by apply Hst.
  - by eapply counting_refl.
  - done.
  - rewrite Hn. destruct l; [done|simpl; lia].
  - intros t Ht'. split; [|by eapply in_time_first; [exact Ht|rewrite Hn|]].
    apply list_elem_of_lookup in Ht' as [i Hi'].
    by destruct (Forall2_lookup_l _ _ _ _ _ (ti_pend _ _ _ _ _ _ _ _ _ _ _ _ _ Hi) Hi') as (v & _ & ? & _).
  - rewrite <- (recounted_keys _ _ Hrec) in Hks.
    destruct (finished_seq_repr fs kw hp tm leaks base _ (counted_total kw) _ _ _ _ _ _ _ _ Hi' Hp' Hks) as (total & HT & Hseq & Hl).
    { refine (recounted_Forall plain _ es' _ Hrec Hpl). by intros ? ? []. }
    exists s', ns, (p_next s), R', total. split; [exact H1|]. split; [done|]. split; [done|]. split; [done|].
    split; [by apply Hst|]. by rewrite outside_delete.
Qed.

Lemma par_nobody s sch root :
  walked sch s [(1%Z, root)] → MakeAllThreadsJoin race fs kw (Some tm) (Some tl) s = Ub NullDeref.
Proof.
  intros Hw. pose proof (walked_threads sch s root [] Hw) as Hn.
  destruct Hw as (es & R & run & fin & ns & Hi & Hreg & _). rewrite Hn in Hreg.
  eapply join_nobody; [exact Hreg|]. by eapply dlown_rest_sub, ti_own.
Qed.
End parallel.

(** main up to the search. *)
Lemma rev1_setup fuel args c h nx sch :
  budget h = None → parse_args args = Ok c →
  ∃ tm tl tp kp hp h', cells h !! tm = None ∧ cells h !! tl = None ∧ cells h !! tp = None ∧
    cells h !! kp = None ∧ tp ≠ kp ∧ tm ≠ tp ∧ tm ≠ kp ∧ tl ≠ tp ∧ tl ≠ kp ∧ tl ≠ tm ∧
    seq_repr hp tm (<[tl:=Other (TidList None None 0)]> (<[tp:=Other (Str (k_path c))]>
      (<[kp:=Other (Str (k_keyword c))]> (cells h)))) (0%Z, 0) h' [] ∧
    main race fs fuel args (Proc h [] nx sch) =
      ((if decide (k_mode c = 1%Z) then
          printDirPar race fs (k_keyword c) (Some tm) (Some tl) fuel (k_path c) (Some hp) 1;;
          MakeAllThreadsJoin race fs (k_keyword c) (Some tm) (Some tl)
        else on_heap (printDirSeq fs (k_keyword c) (Some tm) fuel (k_path c) (Some hp) 1));;
       finish race fs args (k_keyword c) (Some tm) (Some tl) (Some tp) (Some kp) (Some hp)
         (BBDirlist.open_w fs (k_out c))) (Proc h' [] nx sch).
Proof.
  intros Hb Hargs. unfold main. rewrite on_heap_malloc by done. cbv beta.
  set (tm := fresh_loc h). set (h1 := hset tm _ h). unfold init_LinkedList, TidList.init_LinkedList.
  rewrite on_heap_malloc by done. cbv beta. set (tl := fresh_loc h1). set (h2 := hset tl _ h1).
  erewrite bind_Ok by by apply lift_Ok. cbv beta iota. unfold strdup.
  rewrite on_heap_malloc by done. cbv beta. set (tp := fresh_loc h2). set (h3 := hset tp _ h2).
  rewrite on_heap_malloc by done. cbv beta zeta. set (kp := fresh_loc h3). set (h4 := hset kp _ h3).
  assert (N1 : cells h !! tm = None) by apply fresh_loc_fresh.
  assert (N2 : cells h1 !! tl = None) by apply fresh_loc_fresh.
  assert (N3 : cells h2 !! tp = None) by apply fresh_loc_fresh.
  assert (N4 : cells h3 !! kp = None) by apply fresh_loc_fresh.
  unfold h3, h2, h1, hset in N2, N3, N4. cbn [cells] in N2, N3, N4.
  apply lookup_insert_None in N2 as [N2 D1], N3 as [N3 D2], N4 as [N4 D3].
  apply lookup_insert_None in N3 as [N3 D4], N4 as [N4 D5]. apply lookup_insert_None in N4 as [N4 D6].
  set (base := <[tl:=Other (TidList None None 0)]> (<[tp:=Other (Str (k_path c))]>
                 (<[kp:=Other (Str (k_keyword c))]> (cells h))) : smem).
  destruct (open_list h4 tm base tp kp (k_path c) (k_keyword c) nx sch (λ mylist path kw,
      (if decide (k_mode c = 1%Z) then
         printDirPar race fs kw (Some tm) (Some tl) fuel path mylist 1;; MakeAllThreadsJoin race fs kw (Some tm) (Some tl)
       else on_heap (printDirSeq fs kw (Some tm) fuel path mylist 1));;
      finish race fs args kw (Some tm) (Some tl) (Some tp) (Some kp) mylist (BBDirlist.open_w fs (k_out c))))
    as (hp & h' & Hr & E); [done|..].
  - subst base. simpl. apply map_eq. intros x. rewrite !lookup_insert. repeat case_decide; by subst.
  - subst base. by simplify_map_eq.
  - subst base. by simplify_map_eq.
  - subst base. by simplify_map_eq.
  - exists tm, tl, tp, kp, hp, h'. by split_and!.
Qed.

(** The search of either mode: the list, the counter, the list of identifiers, and what was left. *)
Lemma rev1_search_ok kw hp tm tl mode fuel root h sch (B0 : smem) :
  let B := <[tl:=Other (TidList None None 0)]> B0 in
  let run := if decide (mode = 1%Z) then
               printDirPar race fs kw (Some tm) (Some tl) fuel root (Some hp) 1;;
               MakeAllThreadsJoin race fs kw (Some tm) (Some tl)
             else on_heap (printDirSeq fs kw (Some tm) fuel root (Some hp) 1) in
  seq_repr hp tm B (0%Z, 0) h [] → B0 !! tl = None → B0 !! tm = None → tl ≠ tm →
  (∀ l, mode = 1%Z → walk (fs_dir fs) abspath (Exits (-1)) fuel root 1 = Ok l →
     l ≠ [] → 0 ∈ mjoin (take (length l) sch)) →
  match walk (fs_dir fs) abspath (Exits (-1)) fuel root 1 with
  | Ok l =>
      if decide (mode = 1%Z ∧ length l = 0) then run (Proc h [] 0 sch) = Ub NullDeref
      else ∃ s ns k B1 n j total, run (Proc h [] 0 sch) = Ok (tt, s) ∧ p_pending s = [] ∧
             mode_total mode kw ((1%Z, root) :: l) total ∧
             seq_repr hp tm B1 (total, n) (p_heap s) (built kw root l) ∧
             registered B1 tl ns k ∧ B1 !! tm = None ∧ leaked j B0 (outside B1 (tl :: ns.*1)) ∧
             j + n = words_seen fs ((1%Z, root) :: l)
  | Ub u => run (Proc h [] 0 sch) = Ub u
  | Exits c => run (Proc h [] 0 sch) = Exits c
  | NoFuel => run (Proc h [] 0 sch) = NoFuel
  end.
Proof.
  intros B run Hr Htl Htm D Htime. subst run. pose proof (search_test_rev1_counts None tm fs kw) as Hsearch. unfold mode_total.
  assert (HB : outside B [tl] = B0).
  { rewrite outside_cons, outside_nil. subst B. by rewrite delete_insert_id. }
  destruct (decide (mode = 1%Z)) as [Em|Em].
  - destruct Hr as (es & R & Ho & He & Hint & Hl). apply fmap_nil_inv in He as ->. apply leaked_0_eq in Hl.
    assert (Rtl : R !! tl = Some (Other (TidList None None 0))).
    { assert (E : delete tm R !! tl = B !! tl) by by rewrite Hl. subst B.
      by rewrite lookup_delete_ne, lookup_insert_eq in E. }
    pose proof (rev1_par_walk kw hp tm tl B0 fuel h sch R root Ho Hint Rtl) as Hwalk.
    rewrite <- outside_delete, Hl in Hwalk. specialize (Hwalk HB).
    destruct (walk (fs_dir fs) abspath (Exits (-1)) fuel root 1) as [l|u|c|] eqn:Hw.
    2:{ by apply bind_Ub. } 2:{ by apply bind_Exits. } 2:{ unfold mbind, M_bind. by rewrite Hwalk. }
    destruct Hwalk as (s & H1 & Hs). destruct l as [|x l].
    + rewrite decide_True by done. erewrite bind_Ok by exact H1. by eapply par_nobody.
    + rewrite decide_False by (intros [_ ?]; done).
      destruct (par_joined _ _ _ _ _ s sch root (x :: l) Hs ltac:(done)) as (s' & ns & k & R' & total & H2 & ? & ? & ? & ? & ?).
      { by apply Htime. }
      exists s', ns, k, (delete tm R'), 0, (words_seen fs ((1%Z, root) :: x :: l)), total.
      split; [by erewrite bind_Ok by exact H1|].
      split_and!; try done; apply lookup_delete_eq.
  - pose proof (seq_build_fails fs kw hp tm _ _ Hsearch _ fuel h root Hr) as Hfail.
    pose proof (λ l, seq_build fs kw hp tm _ _ Hsearch _ fuel h root l Hr) as Hok.
    destruct (walk (fs_dir fs) abspath (Exits (-1)) fuel root 1) as [l|u|c|];
      [|by unfold on_heap; cbn [p_heap]; unfold printDirSeq; setoid_rewrite Hfail..].
    rewrite decide_False by tauto. destruct (Hok l eq_refl) as (h' & H1 & Hr1). rewrite tally_rev1 in Hr1.
    eexists _, [], 0, B, _, 0, _. split; [by apply on_heap_ok|]. cbn [p_heap p_pending]. split; [done|].
    split; [reflexivity|]. split; [exact Hr1|]. split; [apply registered_nil; subst B; apply lookup_insert_eq|].
    split; [subst B; by rewrite lookup_insert_ne|]. split; [simpl; rewrite HB; apply leaked_0|done].
Qed.

Lemma rev1_main_ok fuel args s :
  starting s → first_in_time fuel args (p_sched s) →
  ∃ s' total, main race fs fuel args s = (r ← rev1_spec total fuel args; Ok (r, s')) ∧
    ∀ r, rev1_spec total fuel args = Ok r →
      rev1_left fuel args (cells (p_heap s)) (cells (p_heap s')) ∧ rev1_total fuel args total.
Proof.
  intros (Hb & Hp & Hn) Htime. destruct s as [h pend nx sch]. simpl in Hb, Hp, Hn, Htime. subst pend nx.
  unfold rev1_spec, rev1_left, rev1_total. destruct (parse_args args) as [c|u|x|] eqn:Hargs.
  2-4: exists (Proc h [] 0 sch), 0%Z; split; [|done]; unfold main, init_LinkedList, TidList.init_LinkedList;
    do 2 (rewrite on_heap_malloc by done; cbv beta);
    unfold mbind at 1, M_bind, lift; by rewrite Hargs.
  destruct (rev1_setup fuel args c h 0 sch Hb Hargs)
    as (tm & tl & tp & kp & hp & h' & N1 & N2 & N3 & N4 & D1 & D2 & D3 & D4 & D5 & D6 & Hr & ->).
  pose proof (rev1_search_ok (k_keyword c) hp tm tl (k_mode c) fuel (k_path c) h' sch _ Hr) as Hsearch.
  set (B0 := <[tp:=_]> (<[kp:=_]> (cells h))) in *.
  specialize (Hsearch ltac:(subst B0; by simplify_map_eq) ltac:(subst B0; by simplify_map_eq) D6 (λ l, Htime c l Hargs)).
  set (run := if decide (k_mode c = 1%Z) then _ else _) in *. clearbody run.
  change (Ok c ≫= ?k) with (k c). cbv beta.
  destruct (walk (fs_dir fs) abspath (Exits (-1)) fuel (k_path c) 1) as [l|u|e|] eqn:Hw.
  2-4: exists (Proc h [] 0 sch), 0%Z; split; [|done]; unfold mbind at 1, M_bind; by rewrite Hsearch.
  change (Ok l ≫= ?k) with (k l). cbv beta zeta. case_decide as Hnone.
  { exists (Proc h [] 0 sch), 0%Z. split; [by apply bind_Ub|done]. }
  destruct Hsearch as (s1 & ns & k & B1 & n & j & total & H1 & Hidle & HT & Hseq & Hreg & B1tm & Hl & Hjn).
  assert (Hin : ∀ x b, B0 !! x = Some b → B1 !! x = Some b).
  { intros x b Hx. pose proof (strings_stay _ _ _ _ _ Hx Hl) as E. rewrite lookup_outside in E. by case_decide. }
  destruct (rev1_finish_ok args s1 hp tm tp kp tl ns k c l _ _ B1 Hidle Hseq Hreg) as (s' & Hs1 & Hs2 & Hfin);
    [apply Hin; subst B0; by simplify_map_eq..|done|done|].
  exists s', total. split.
  - erewrite bind_Ok by exact H1. cbv beta. etrans; [exact Hfin|].
    destruct (fs_writable fs (k_out c)); [|done]. by destruct (rev1_report _ _ _ _).
  - intros r _. split; [|by exists c, l]. exists c, l, tm, total. do 4 (split; [done|]).
    rewrite <- Hjn. replace (1 + (j + n)) with (j + S n) by lia. eapply leaked_trans; [|exact Hs2].
    cbn [p_heap]. assert (cells h = delete kp (delete tp B0)) as ->.
    { subst B0. rewrite delete_insert_id by by simplify_map_eq. by rewrite delete_insert_id. }
    eapply leaked_delete; [eapply leaked_delete; [exact Hl|]|]; subst B0; by simplify_map_eq.
Qed.

(** No load gives more than there are matches: then the total is one of these. *)
Lemma rev1_total_bounds fuel args total c l :
  rev1_total fuel args total → Rev1.parse_args args = Ok c →
  walk (fs_dir fs) abspath (Exits (-1)) fuel (k_path c) 1 = Ok l →
  let es := (1%Z, k_path c) :: l in
  let m := matches fs (k_keyword c) es in
  (∀ loaded x p i, race = Some loaded → (x, p) ∈ es → (0 ≤ i < hits fs (k_keyword c) p)%Z → (0 ≤ loaded p i < m)%Z) →
  (0 ≤ total ≤ m)%Z ∧ ((0 < m)%Z → (1 ≤ total)%Z).
Proof.
  intros (c' & l' & Hc & Hl & HT) Hc' Hl'. rewrite Hc in Hc'. injection Hc' as <-. rewrite Hl in Hl'. injection Hl' as <-.
  intros es m Hload. pose proof (matches_pos (k_keyword c') es) as Hm. fold m in Hm.
  change (mode_total (k_mode c') (k_keyword c') es total) in HT. unfold mode_total, counted_total in HT. fold m in HT.
  case_decide; [|lia]. destruct race as [loaded|]; [|lia]. destruct HT as [H0 H1].
  destruct (decide (m = 0%Z)) as [E|E]; [rewrite (H0 E); lia|].
  destruct (H1 ltac:(lia)) as (x & p & i & Hin & Hi & ->). specialize (Hload loaded x p i eq_refl Hin Hi). lia.
Qed.

(** C12: in sequence under every schedule, and in the PARALLEL mode under every schedule that runs
    the first thread while the tree is walked, and whatever the loads of totalMatches give to the threads
    that count in it without a lock, main of pardirlist_rev1.c does what its specification says on every branch: it
    writes the listing with the counts of the files, and leaves the keyword and a copy of every word of every file in
    memory. The number of matches that it reports is their sum in sequence, and when no load is
    disturbed; else it is one more than what some match has loaded, so that matches can be lost: with loads of
    values that the counter can have it is at most the sum, and at least 1 if there is a match. *)
Theorem rev1_main_refines_spec fuel args s :
  starting s → first_in_time fuel args (p_sched s) →
  ∃ s' total, main race fs fuel args s = (r ← rev1_spec total fuel args; Ok (r, s')) ∧
    ∀ r, rev1_spec total fuel args = Ok r →
      rev1_left fuel args (cells (p_heap s)) (cells (p_heap s')) ∧ rev1_total fuel args total ∧
      ∀ c l, Rev1.parse_args args = Ok c →
        walk (fs_dir fs) abspath (Exits (-1)) fuel (k_path c) 1 = Ok l →
        let es := (1%Z, k_path c) :: l in
        let m := matches fs (k_keyword c) es in
        (∀ loaded x p i, race = Some loaded → (x, p) ∈ es → (0 ≤ i < hits fs (k_keyword c) p)%Z →
           (0 ≤ loaded p i < m)%Z) →
        (0 ≤ total ≤ m)%Z ∧ ((0 < m)%Z → (1 ≤ total)%Z).
Proof.
  intros Hs Ht. destruct (rev1_main_ok fuel args s Hs Ht) as (s' & total & E & H). exists s', total.
  split; [exact E|]. intros r Hr. destruct (H r Hr) as [Hl HT]. split; [exact Hl|]. split; [exact HT|].
  intros c l Hc Hw. exact (rev1_total_bounds fuel args total c l HT Hc Hw).
Qed.
End rev1.

(** ** Examples *)

(** Every match loads 0: only one is reported. *)
Lemma rev1_main_refines_spec_witness :
  ∃ s', Rev1.main (Some (λ _ _, 0%Z)) seq_fs 256 (seq_args "1") (seq_start [[]; [1; 0]]) =
    Ok (Run 0 (report (lit "r") (lit "out") 3 1 (lit "int")) (lit "out", seq_file), s').
Proof.
  destruct (rev1_main_refines_spec (Some (λ _ _, 0%Z)) seq_fs 256 (seq_args "1") (seq_start [[]; [1; 0]]))
    as (s' & total & E & H).
  - done.
  - intros c l Hc _ Hl _. vm_compute in Hc. injection Hc as <-. vm_compute in Hl. injection Hl as <-.
    vm_compute. right. left.
  - exists s'. rewrite E. destruct (H _ eq_refl) as (_ & (c & l & Hc & Hl & HT) & _).
    vm_compute in Hc. injection Hc as <-. vm_compute in Hl. injection Hl as <-.
    destruct (proj2 HT) as (x & p & i & _ & _ & ->); [by vm_compute|]. vm_compute. reflexivity.
Defined.

(** The same directory in another order. *)
Definition seq_fs' : fsys :=
  FSys (λ p, reverse <$> fs_dir seq_fs p) (fs_file seq_fs) (λ _, true) (Ok tt).

Definition rev1_late : bytes :=
  lit "1:1:0:r" ++ [NL] ++ lit "2:1:69:r/a" ++ [NL] ++ lit "2:2:1:r/b" ++ [NL].

(** [MakeAllThreadsJoin] of pardirlist_rev1.c forgets the first thread. If it
    runs in time the file is that of the sequential run. If it does not run, or
    runs when the list has been sorted, the file has the initial 69 for the entry
    it was made for; in the second case it has searched the file of another
    entry, whose matches are counted twice. (No load is disturbed.) *)
Theorem rev1_parallel_depends_on_schedule :
  result (Rev1.main None seq_fs' 256 (seq_args "1") (seq_start [[0]])) =
    Ok (Run 0 (report (lit "r") (lit "out") 3 3 (lit "int")) (lit "out", seq_file)) ∧
  result (Rev1.main None seq_fs' 256 (seq_args "1") (seq_start [])) =
    Ok (Run 0 (report (lit "r") (lit "out") 3 1 (lit "int")) (lit "out", rev1_late)) ∧
  result (Rev1.main None seq_fs' 256 (seq_args "1") (seq_start [[]; []; []; [0]])) =
    Ok (Run 0 (report (lit "r") (lit "out") 3 2 (lit "int")) (lit "out", rev1_late)).
Proof. split; [|split]; vm_compute; reflexivity. Qed.
