(* ===== verification/Segment.v ===== *)
(** * A shared memory segment as an array of bytes

    Reads and writes at an index, the pointer loops of the request queue,
    memcpy, and strstr with what it finds. *)

From stdpp Require Import base list strings.
From Stdlib Require Import Ascii.
From S2P Require Import Prelude CString Text.

Abbreviation Sg := (M bytes).

(** ** Access *)
Definition rd (i : nat) : Sg ascii := λ s,
  match s !! i with Some c => Ok (c, s) | None => Ub BadAccess end.

Definition wr (i : nat) (c : ascii) : Sg unit := λ s,
  if decide (i < length s) then Ok (tt, <[i:=c]> s) else Ub BadAccess.

(** [memcpy(s + i, str, strlen(str))], byte by byte from the front *)
Fixpoint memcpy (i : nat) (str : bytes) : Sg unit :=
  match str with
  | [] => mret tt
  | c :: str' => wr i c;; memcpy (S i) str'
  end.

(** [for (; *s != c; s++) ;] and [while ( *s != c) s--;] *)
Definition scan_body (c : ascii) (i : nat) : Sg (nat + nat) :=
  x ← rd i; if decide (x = c) then mret (inr i) else mret (inl (S i)).
Definition scan (c : ascii) (i : nat) : Sg nat :=
  s ← get_state; loop (S (length s)) (scan_body c) i.

Definition rscan_body (c : ascii) (i : nat) : Sg (nat + nat) :=
  x ← rd i;
  if decide (x = c) then mret (inr i)
  else match i with O => fail_ub BadAccess | S i' => mret (inl i') end.
Definition rscan (c : ascii) (i : nat) : Sg nat := loop (S i) (rscan_body c) i.

Lemma rd_ok s i c : s !! i = Some c → rd i s = Ok (c, s).
Proof. intros E. unfold rd. by rewrite E. Qed.

Lemma wr_ok s i c : i < length s → wr i c s = Ok (tt, <[i:=c]> s).
Proof. intros E. unfold wr. by rewrite decide_True. Qed.

Lemma wr_mid pre x post c : wr (length pre) c (pre ++ x :: post) = Ok (tt, pre ++ c :: post).
Proof.
  rewrite wr_ok by (rewrite length_app; simpl; lia). do 2 f_equal.
  rewrite <- (Nat.add_0_r (length pre)). by rewrite insert_app_r.
Qed.

Lemma memcpy_ok pre old str post :
  length old = length str →
  memcpy (length pre) str (pre ++ old ++ post) = Ok (tt, pre ++ str ++ post).
Proof.
  revert pre old. induction str as [|c str IH]; intros pre [|x old] Hl; try done. simpl.
  erewrite bind_Ok by apply wr_mid. cbv beta.
  replace (S (length pre)) with (length (pre ++ [c])) by (rewrite length_app; simpl; lia).
  replace (pre ++ c :: old ++ post) with ((pre ++ [c]) ++ old ++ post) by by rewrite <- app_assoc.
  simpl in Hl. rewrite IH by lia. by rewrite <- app_assoc.
Qed.

Lemma memcpy_overflow i str s :
  i ≤ length s → length s < i + length str → memcpy i str s = Ub BadAccess.
Proof.
  revert i s. induction str as [|c str IH]; intros i s Hi Hl; simpl in *; [lia|].
  destruct (decide (i = length s)) as [->|].
  - apply bind_Ub. unfold wr. rewrite decide_False by lia. done.
  - erewrite bind_Ok by (apply wr_ok; lia). cbv beta. apply IH; rewrite length_insert; lia.
Qed.

Lemma scan_from fuel c pre mid post :
  c ∉ mid → length mid < fuel →
  loop fuel (scan_body c) (length pre) (pre ++ mid ++ c :: post) =
    Ok (length pre + length mid, pre ++ mid ++ c :: post).
Proof.
  revert fuel pre. induction mid as [|x mid IH]; intros [|fuel] pre Hc Hf; simpl in Hf; try lia.
  - apply loop_done. unfold scan_body. erewrite bind_Ok.
    2:{ apply rd_ok. rewrite lookup_app_r, Nat.sub_diag by lia. done. }
    cbv beta. rewrite decide_True by done. by rewrite Nat.add_0_r.
  - apply not_elem_of_cons in Hc as [Hne Hc]. erewrite loop_step.
    2:{ unfold scan_body. erewrite bind_Ok.
        2:{ apply rd_ok. rewrite lookup_app_r, Nat.sub_diag by lia. done. }
        cbv beta. by rewrite decide_False. }
    replace (S (length pre)) with (length (pre ++ [x])) by (rewrite length_app; simpl; lia).
    replace (pre ++ (x :: mid) ++ c :: post) with ((pre ++ [x]) ++ mid ++ c :: post)
      by by rewrite <- !app_assoc.
    rewrite IH by (done || lia). rewrite length_app. simpl. do 2 f_equal. lia.
Qed.

Lemma scan_ok c pre mid post :
  c ∉ mid →
  scan c (length pre) (pre ++ mid ++ c :: post) = Ok (length pre + length mid, pre ++ mid ++ c :: post).
Proof.
  intros Hc. unfold scan. erewrite bind_Ok by done. cbv beta. apply scan_from; [done|].
  rewrite !length_app. lia.
Qed.

Lemma scan_from_none fuel c i s :
  i ≤ length s → c ∉ drop i s → length s < fuel + i → loop fuel (scan_body c) i s = Ub BadAccess.
Proof.
  revert i. induction fuel as [|fuel IH]; intros i Hi Hc Hf; [lia|].
  destruct (s !! i) as [x|] eqn:Hx.
  - rewrite (drop_S _ _ _ Hx) in Hc. apply not_elem_of_cons in Hc as [Hne Hc].
    erewrite loop_step.
    2:{ unfold scan_body. erewrite bind_Ok by by apply rd_ok. cbv beta. by rewrite decide_False. }
    apply lookup_lt_Some in Hx. apply IH; [lia|done|lia].
  - simpl. apply bind_Ub. unfold scan_body. apply bind_Ub. unfold rd. by rewrite Hx.
Qed.

Lemma scan_none c i s : i ≤ length s → c ∉ drop i s → scan c i s = Ub BadAccess.
Proof. intros Hi Hc. unfold scan. erewrite bind_Ok by done. apply scan_from_none; [done..|lia]. Qed.

(** Backwards over [mid] to the last [c] before. *)
Lemma rscan_from fuel c pre mid post :
  c ∉ mid → length mid < fuel →
  loop fuel (rscan_body c) (length pre + length mid) (pre ++ c :: mid ++ post) =
    Ok (length pre, pre ++ c :: mid ++ post).
Proof.
  revert fuel post. induction mid as [|x mid IH] using rev_ind; intros [|fuel] post Hc Hf;
    try (rewrite ?length_app in Hf; simpl in Hf; lia).
  - rewrite Nat.add_0_r. apply loop_done. unfold rscan_body. erewrite bind_Ok.
    2:{ apply rd_ok. rewrite lookup_app_r, Nat.sub_diag by lia. done. }
    cbv beta. by rewrite decide_True.
  - apply not_elem_of_app in Hc as [Hc Hx]. rewrite not_elem_of_cons in Hx. destruct Hx as [Hx _].
    rewrite length_app in *. cbn [length] in *. erewrite loop_step.
    2:{ unfold rscan_body. erewrite bind_Ok.
        2:{ apply (rd_ok _ _ x). rewrite lookup_app_r by lia.
            replace (length pre + (length mid + 1) - length pre) with (S (length mid)) by lia.
            simpl. rewrite <- app_assoc, lookup_app_r, Nat.sub_diag by lia. done. }
        cbv beta. rewrite decide_False by done.
        replace (length pre + (length mid + 1)) with (S (length pre + length mid)) by lia. done. }
    rewrite <- app_assoc. rewrite IH by (done || lia). done.
Qed.

Lemma rscan_ok c pre mid post :
  c ∉ mid →
  rscan c (length pre + length mid) (pre ++ c :: mid ++ post) = Ok (length pre, pre ++ c :: mid ++ post).
Proof. intros Hc. apply rscan_from; [done|lia]. Qed.

(** ** strstr *)
Fixpoint starts_with (p s : bytes) : bool :=
  match p, s with
  | [], _ => true
  | c :: p', d :: s' => bool_decide (c = d) && starts_with p' s'
  | _ :: _, [] => false
  end.

(** [strstr(s, p)]: how far into [s] the first occurrence starts. *)
Fixpoint strstr (s p : bytes) : option nat :=
  if starts_with p s then Some 0
  else match s with [] => None | _ :: s' => S <$> strstr s' p end.

(** [strchr(s, c)] for a byte that is not NUL *)
Definition strchr (s : bytes) (c : ascii) : option nat := strstr s [c].

Definition occurs (p s : bytes) : Prop := ∃ a b, s = a ++ p ++ b.

Lemma starts_with_true p s : starts_with p s = true ↔ ∃ b, s = p ++ b.
Proof.
  revert s. induction p as [|c p IH]; intros s; simpl; [split; [by exists s|done]|].
  destruct s as [|d s]; [split; [done|by intros [? ?]]|].
  rewrite andb_true_iff, bool_decide_eq_true, IH. naive_solver.
Qed.

Lemma strstr_occurs s p : is_Some (strstr s p) ↔ occurs p s.
Proof.
  induction s as [|d s IH]; simpl; destruct (starts_with p _) eqn:E.
  - apply starts_with_true in E as [b E]. split; [|by intros _; eexists].
    intros _. by exists [], b.
  - split; [by intros [? ?]|]. intros (a & b & Hs). exfalso.
    symmetry in Hs. apply app_eq_nil in Hs as [-> Hs]. 
    assert (starts_with p [] = true) by (apply starts_with_true; by exists b). congruence.
  - apply starts_with_true in E as [b E]. split; [|by intros _; eexists].
    intros _. by exists [], b.
  - rewrite fmap_is_Some, IH. split.
    + intros (a & b & ->). by exists (d :: a), b.
    + intros (a & b & Hs). destruct a as [|x a].
      * exfalso. assert (starts_with p (d :: s) = true) by (apply starts_with_true; by exists b).
        congruence.
      * injection Hs as <- ->. by exists a, b.
Qed.

#[export] Instance occurs_dec p s : Decision (occurs p s).
Proof. destruct (strstr s p) eqn:E; [left|right]; rewrite <- strstr_occurs, E; [by eexists|by intros [? ?]]. Defined.

Lemma strstr_None s p : strstr s p = None ↔ ¬ occurs p s.
Proof. rewrite <- strstr_occurs. destruct (strstr s p); naive_solver. Qed.

(** The first occurrence. *)
Lemma strstr_first a p b :
  (∀ i, i < length a → starts_with p (drop i (a ++ p ++ b)) = false) →
  strstr (a ++ p ++ b) p = Some (length a).
Proof.
  induction a as [|d a IH]; intros H.
  - assert (starts_with p (p ++ b) = true) as E by (apply starts_with_true; by exists b).
    cbn [app]. by destruct (p ++ b) eqn:?; simpl; rewrite E.
  - pose proof (H 0 ltac:(simpl; lia)) as H0. simpl in H0. cbn [app strstr]. rewrite H0, IH; [done|].
    intros i Hi. apply (H (S i)). simpl. lia.
Qed.

(** A pattern does not reach over a byte that it does not have. *)
Lemma occurs_split p a d b : d ∉ p → occurs p (a ++ d :: b) ↔ occurs p a ∨ occurs p b.
Proof.
  intros Hd. split.
  - intros (u & v & E). apply app_eq_inv in E as [(k & -> & E)|(k & -> & E)].
    + apply app_eq_inv in E as [(k2 & -> & E)|(k2 & -> & E)].
      * destruct k2 as [|x k2].
        -- left. exists u, []. by rewrite !app_nil_r.
        -- injection E as -> ->. exfalso. apply Hd. apply elem_of_app. right. left.
      * left. by exists u, k2.
    + destruct k as [|x k].
      * simpl in E. destruct p as [|c p].
        -- left. exists a, []. by rewrite app_nil_r.
        -- injection E as -> _. exfalso. apply Hd. left.
      * injection E as -> ->. right. by exists k, v.
  - intros [(u & v & ->)|(u & v & ->)].
    + exists u, (v ++ d :: b). by rewrite <- !app_assoc.
    + exists (a ++ d :: u), v. by rewrite <- app_assoc.
Qed.

Lemma strchr_ok a c b : c ∉ a → strchr (a ++ c :: b) c = Some (length a).
Proof.
  intros Ha. apply (strstr_first a [c] b). intros i Hi.
  destruct (lookup_lt_is_Some_2 a i Hi) as [x Hx].
  assert (Hl : (a ++ [c] ++ b) !! i = Some x) by by rewrite lookup_app_l.
  rewrite (drop_S _ _ _ Hl). simpl. rewrite andb_true_r. apply bool_decide_eq_false.
  intros <-. apply Ha. by eapply list_elem_of_lookup_2.
Qed.
