(* ===== verification/ReqQueue.v ===== *)
(** * The request queue in shared memory

    What server.c and client.c do to the segment: a header, the requests each
    followed by '>', and '<' at the end. The server takes requests from the
    front and moves the header; the space in front of it is never used again. *)

From stdpp Require Import base list strings.
From Stdlib Require Import Ascii.
From S2P Require Import Prelude CString Text Segment.

Definition rqHeader : bytes := lit "Request Queue ->".
Definition GT : ascii := ">"%char.
Definition LT : ascii := "<"%char.
Definition exit_word : bytes := lit "exit".

(** ** The operations *)

(** What [init_shm] writes into a segment of [rqSIZE] bytes. *)
Definition init_segment : Sg unit :=
  memcpy 0 rqHeader;;
  wr (length rqHeader) LT;;
  s ← get_state;
  wr (length s - 1) NUL.

(** [charcount(str, c)]: it counts in [shm] up to the first '<', whatever [str] is. *)
Definition charcount_body (c : ascii) (st : nat * Z) : Sg (nat * Z + Z) :=
  let '(i, n) := st in
  x ← rd i;
  if decide (x = LT) then mret (inr n)
  else if decide (x = c) then mret (inl (S i, (n + 1)%Z)) else mret (inl (S i, n)).
Definition charcount (c : ascii) : Sg Z :=
  s ← get_state; loop (S (length s)) (charcount_body c) (0, 0%Z).

(** [strstr(shm, "exit") != NULL] *)
Definition has_exit (s : bytes) : bool := bool_decide (is_Some (strstr (c_str s) exit_word)).

(** [AddReq(str)] *)
Definition AddReq (str : bytes) : Sg unit :=
  e ← scan LT 0;
  g ← rscan GT e;
  let s := S g in
  memcpy s (str ++ [NUL]);;
  let s := s + length str in
  wr s GT;;
  wr (S s) LT.

(** [while ( *s != '>') { str[l] = *s; s++; l++; }]; [str] has 1024 bytes. *)
Definition take_body (st : nat * bytes) : Sg (nat * bytes + nat * bytes) :=
  let '(i, str) := st in
  x ← rd i;
  if decide (x = GT) then mret (inr (i, str))
  else if decide (length str < 1024) then mret (inl (S i, str ++ [x])) else fail_ub Overflow.

(** [while (s != shm - 1)]: the header, then blanks, from [s] down to the start. *)
Fixpoint move_header (n r : nat) : Sg unit :=
  match n with
  | O => mret tt
  | S s =>
      match r with
      | S r' => wr s (default NUL (rqHeader !! r'));; move_header s r'
      | O => wr s SP;; move_header s 0
      end
  end.

(** The string in a block of known size; a block without a NUL is read beyond
    its end. *)
Definition str_of (block : bytes) : outcome bytes :=
  if decide (NUL ∈ block) then Ok (c_str block) else Ub BadAccess.

(** A request as a directory and a keyword. *)
Record item := Item { dirpath : bytes; keyword : bytes }.

(** [for (p = item->dirpath; *p != ' '; p++) ; *p = '\0'; p++;] *)
Definition split_item (s : bytes) : outcome item :=
  match strchr s SP with
  | Some n => Ok (Item (take n s) (drop (S n) s))
  | None => Ub BadAccess
  end.

(** [dequeueItem(QueuePtr)] on the segment: the new [RQptr], and the item.
    [junk RQptr l] is what the block that [malloc] gives to this call happens to have at [l],
    where the code puts no NUL. *)
Definition dequeue (junk : nat → nat → ascii) (RQptr : nat) : Sg (nat * item) :=
  g ← scan GT 0;
  r ← loop 1026 take_body (S g, []);
  let '(e, str) := r in
  move_header (S e) (length rqHeader);;
  seg ← get_state;
  match strstr (c_str (drop RQptr seg)) rqHeader with
  | None => fail_ub NullDeref
  | Some n =>
      str ← lift (str_of (str ++ [junk RQptr (length str)]));
      it ← lift (split_item str);
      mret (RQptr + n, it)
  end.

(** ** The queue that a segment holds *)

Definition clean (r : bytes) : Prop := GT ∉ r ∧ LT ∉ r ∧ NUL ∉ r.

#[export] Instance clean_dec r : Decision (clean r).
Proof. unfold clean. apply _. Defined.

Definition closed (r : bytes) : bytes := r ++ [GT].

(** [k] used bytes, the header, the requests, the end mark, [room] free bytes. *)
Definition layout (k : nat) (reqs : list bytes) (room : nat) : bytes :=
  replicate k SP ++ rqHeader ++ mjoin (closed <$> reqs) ++ LT :: replicate room NUL.

(** The part in front of the end mark. *)
Definition front_of (k : nat) (reqs : list bytes) : bytes :=
  replicate k SP ++ rqHeader ++ mjoin (closed <$> reqs).

Definition used (reqs : list bytes) : nat := length (mjoin (closed <$> reqs)).

Lemma used_cons r reqs : used (r :: reqs) = S (length r + used reqs).
Proof. unfold used. rewrite fmap_cons, mjoin_cons, length_app. unfold closed at 1. rewrite length_app. simpl. lia. Qed.

Lemma mjoin_snoc (reqs : list bytes) r : mjoin (closed <$> reqs ++ [r]) = mjoin (closed <$> reqs) ++ closed r.
Proof. rewrite fmap_app, mjoin_app. f_equal. apply app_nil_r. Qed.

Lemma used_snoc reqs r : used (reqs ++ [r]) = S (used reqs + length r).
Proof. unfold used. rewrite mjoin_snoc, length_app. unfold closed at 2. rewrite length_app. simpl. lia. Qed.

Lemma used_app a b : used (a ++ b) = used a + used b.
Proof. induction a as [|r a IH]; [done|]. cbn [app]. rewrite !used_cons, IH. lia. Qed.

Lemma used_Permutation a b : a ≡ₚ b → used a = used b.
Proof. induction 1; rewrite ?used_cons; lia. Qed.

Lemma layout_length k reqs room : length (layout k reqs room) = k + 17 + used reqs + room.
Proof. unfold layout, used. rewrite !length_app, length_replicate. simpl. rewrite length_replicate. lia. Qed.

(** ** What the operations do to it *)

(** On a fresh segment, which has only NULs. *)
Lemma init_segment_ok n :
  17 < n → init_segment (replicate n NUL) = Ok (tt, layout 0 [] (n - 17)).
Proof.
  intros Hn. unfold init_segment.
  replace (replicate n NUL) with ([] ++ replicate 16 NUL ++ replicate (n - 16) NUL)
    by (rewrite app_nil_l, <- replicate_add; f_equal; lia).
  erewrite bind_Ok by (apply (memcpy_ok []); done). cbv beta.
  replace (n - 16) with (S (n - 17)) by lia. cbn [replicate app].
  erewrite bind_Ok by apply (wr_mid rqHeader). cbv beta.
  erewrite bind_Ok by done. cbv beta.
  replace (n - 17) with (n - 18 + 1) by lia. rewrite replicate_add. simpl replicate at 2 4.
  replace (length (rqHeader ++ LT :: replicate (n - 18) NUL ++ [NUL]) - 1)
    with (length (rqHeader ++ LT :: replicate (n - 18) NUL))
    by (rewrite !length_app; simpl; rewrite length_app, length_replicate; simpl; lia).
  replace (rqHeader ++ LT :: replicate (n - 18) NUL ++ [NUL])
    with ((rqHeader ++ LT :: replicate (n - 18) NUL) ++ [NUL]) by (by rewrite <- app_assoc).
  rewrite wr_mid. do 2 f_equal. unfold layout. rewrite replicate_add, <- app_assoc. done.
Qed.

Lemma no_lt k reqs : Forall clean reqs → LT ∉ replicate k SP ++ rqHeader ++ mjoin (closed <$> reqs).
Proof.
  intros Hr. rewrite !not_elem_of_app. split; [by intros [? _]%elem_of_replicate|].
  split; [apply (bool_decide_unpack _); by vm_compute|].
  induction Hr as [|r reqs (_ & Hl & _) _ IH]; [apply not_elem_of_nil|].
  rewrite fmap_cons, mjoin_cons. unfold closed at 1. rewrite !not_elem_of_app. split; [|done].
  split; [done|]. by intros ?%list_elem_of_singleton.
Qed.

Lemma front_no_nul k reqs : Forall clean reqs → NUL ∉ front_of k reqs.
Proof.
  intros Hr. unfold front_of. rewrite !not_elem_of_app. split; [by intros [? _]%elem_of_replicate|].
  split; [apply (bool_decide_unpack _); by vm_compute|].
  induction Hr as [|r reqs (_ & _ & H0) _ IH]; [apply not_elem_of_nil|].
  rewrite fmap_cons, mjoin_cons. unfold closed at 1. rewrite !not_elem_of_app. split; [|done].
  split; [done|]. by intros ?%list_elem_of_singleton.
Qed.

(** The mark is preceded by '>'. *)
Lemma before_mark k reqs :
  ∃ pre, replicate k SP ++ rqHeader ++ mjoin (closed <$> reqs) = pre ++ [GT].
Proof.
  destruct reqs as [|r reqs _] using rev_ind.
  - exists (replicate k SP ++ lit "Request Queue -"). by rewrite <- app_assoc, app_nil_r.
  - exists (replicate k SP ++ rqHeader ++ mjoin (closed <$> reqs) ++ r).
    rewrite mjoin_snoc. unfold closed at 2. by rewrite <- !app_assoc.
Qed.

(** [charcount] counts up to the mark. *)
Lemma charcount_from fuel c pre mid post n :
  LT ∉ mid → length mid < fuel →
  loop fuel (charcount_body c) (length pre, n) (pre ++ mid ++ LT :: post) =
    Ok ((n + Z.of_nat (length (filter (λ x, x = c) mid)))%Z, pre ++ mid ++ LT :: post).
Proof.
  revert fuel pre n. induction mid as [|x mid IH]; intros [|fuel] pre n Hm Hf; simpl in Hf; try lia.
  - apply loop_done. unfold charcount_body. erewrite bind_Ok.
    2:{ apply rd_ok. rewrite lookup_app_r, Nat.sub_diag by lia. done. }
    cbv beta. rewrite decide_True by done. simpl. by rewrite Z.add_0_r.
  - apply not_elem_of_cons in Hm as [Hx Hm]. erewrite loop_step.
    2:{ unfold charcount_body. erewrite bind_Ok.
        2:{ apply rd_ok. rewrite lookup_app_r, Nat.sub_diag by lia. done. }
        cbv beta. rewrite decide_False by done.
        instantiate (1 := pre ++ (x :: mid) ++ LT :: post).
        instantiate (1 := (S (length pre), (n + if decide (x = c) then 1 else 0)%Z)).
        case_decide; by rewrite ?Z.add_0_r. }
    replace (S (length pre)) with (length (pre ++ [x])) by (rewrite length_app; simpl; lia).
    replace (pre ++ (x :: mid) ++ LT :: post) with ((pre ++ [x]) ++ mid ++ LT :: post)
      by by rewrite <- !app_assoc.
    rewrite IH by (done || lia). rewrite filter_cons. do 2 f_equal. case_decide; simpl; lia.
Qed.

Lemma count_marks k reqs :
  Forall clean reqs →
  length (filter (λ x, x = GT) (replicate k SP ++ rqHeader ++ mjoin (closed <$> reqs))) = S (length reqs).
Proof.
  intros Hr. rewrite !filter_app, !length_app.
  assert (filter (λ x, x = GT) (replicate k SP) = []) as ->.
  { clear. induction k as [|k IH]; [done|]. simpl. by rewrite filter_cons_False. }
  change (length (filter (λ x, x = GT) rqHeader)) with 1. simpl. f_equal.
  induction Hr as [|r reqs (Hg & _) _ IH]; [done|].
  rewrite fmap_cons, mjoin_cons, filter_app, length_app, IH. unfold closed. rewrite filter_app, length_app.
  assert (filter (λ x, x = GT) r = []) as ->; [|done].
  clear -Hg. induction r as [|x r IH]; [done|]. apply not_elem_of_cons in Hg as [? ?].
  rewrite filter_cons_False by done. by apply IH.
Qed.

Lemma layout_eq k reqs room :
  layout k reqs room = (replicate k SP ++ rqHeader ++ mjoin (closed <$> reqs)) ++ LT :: replicate room NUL.
Proof. unfold layout. by rewrite <- !app_assoc. Qed.

Lemma charcount_ok k reqs room :
  Forall clean reqs →
  charcount GT (layout k reqs room) = Ok (Z.of_nat (S (length reqs)), layout k reqs room).
Proof.
  intros Hr. unfold charcount. erewrite bind_Ok by done. cbv beta. rewrite layout_eq.
  etrans; [apply (charcount_from _ GT [] _ _ 0%Z); [by apply no_lt|rewrite !length_app; lia]|].
  by rewrite count_marks.
Qed.

(** A request is added at the end. *)
Lemma AddReq_prefix k reqs room r :
  Forall clean reqs →
  ∃ pre, layout k reqs room = pre ++ LT :: replicate room NUL ∧ length pre = k + 16 + used reqs ∧
    (e ← scan LT 0; rscan GT e) (layout k reqs room) = Ok (length pre - 1, layout k reqs room) ∧
    layout k (reqs ++ [r]) (room - S (length r)) =
      pre ++ closed r ++ LT :: replicate (room - S (length r)) NUL ∧ 0 < length pre.
Proof.
  intros Hr. destruct (before_mark k reqs) as [p Hp].
  exists (replicate k SP ++ rqHeader ++ mjoin (closed <$> reqs)).
  split; [apply layout_eq|]. split.
  { rewrite !length_app, length_replicate. unfold used. simpl. lia. }
  split; [|split].
  - rewrite layout_eq. pose proof (no_lt k reqs Hr) as Hlt.
    erewrite bind_Ok by (apply (scan_ok LT []); done). cbv beta.
    rewrite Hp. rewrite <- app_assoc. simpl. rewrite length_app. simpl.
    replace (length p + 1) with (S (length p)) by lia. simpl. rewrite Nat.sub_0_r.
    unfold rscan. erewrite loop_step.
    2:{ unfold rscan_body. erewrite bind_Ok.
        2:{ apply rd_ok. rewrite lookup_app_r by lia. replace (S (length p) - length p) with 1 by lia. done. }
        cbv beta. by rewrite decide_False. }
    pose proof (rscan_from (S (length p)) GT p [] (LT :: replicate room NUL)) as Hs.
    simpl app in Hs. rewrite Nat.add_0_r in Hs. apply Hs; [apply not_elem_of_nil|simpl; lia].
  - unfold layout. rewrite mjoin_snoc. by rewrite <- !app_assoc.
  - rewrite !length_app. simpl. lia.
Qed.

Lemma AddReq_ok k reqs room r :
  Forall clean reqs → S (length r) ≤ room →
  AddReq r (layout k reqs room) = Ok (tt, layout k (reqs ++ [r]) (room - S (length r))).
Proof.
  intros Hr Hroom. destruct (AddReq_prefix k reqs room r Hr) as (pre & El & _ & Hscan & -> & Hpos).
  unfold AddReq. rewrite <- bind_assoc. erewrite bind_Ok by exact Hscan. cbv beta zeta.
  replace (S (length pre - 1)) with (length pre) by lia. rewrite El.
  set (n := length r) in *. replace (LT :: replicate room NUL)
    with ((LT :: replicate n NUL) ++ NUL :: replicate (room - S n) NUL).
  2:{ simpl. f_equal. change (NUL :: replicate (room - S n) NUL) with (replicate (S (room - S n)) NUL).
      rewrite <- replicate_add. f_equal. lia. }
  erewrite bind_Ok.
  2:{ apply memcpy_ok. simpl. rewrite length_app, length_replicate. simpl. lia. }
  cbv beta. subst n. rewrite <- app_assoc.
  replace (length pre + length r) with (length (pre ++ r)) by by rewrite length_app.
  rewrite app_assoc. erewrite bind_Ok by apply wr_mid. cbv beta.
  replace (S (length (pre ++ r))) with (length ((pre ++ r) ++ [GT])) by (rewrite !length_app; simpl; lia).
  replace ((pre ++ r) ++ GT :: NUL :: replicate (room - S (length r)) NUL)
    with (((pre ++ r) ++ [GT]) ++ NUL :: replicate (room - S (length r)) NUL) by by rewrite <- !app_assoc.
  rewrite wr_mid. unfold closed. by rewrite <- !app_assoc.
Qed.

(** One that does not fit is written over the end of the segment. *)
Lemma AddReq_full k reqs room r :
  Forall clean reqs → room ≤ length r → AddReq r (layout k reqs room) = Ub BadAccess.
Proof.
  intros Hr Hroom. destruct (AddReq_prefix k reqs room r Hr) as (pre & El & _ & Hscan & _ & Hpos).
  unfold AddReq. rewrite <- bind_assoc. erewrite bind_Ok by exact Hscan. cbv beta zeta.
  replace (S (length pre - 1)) with (length pre) by lia. rewrite El.
  destruct (decide (room = length r)) as [->|Hne].
  - (* the two marks do not fit *)
    erewrite bind_Ok.
    2:{ rewrite <- (app_nil_r (LT :: replicate _ _)). apply memcpy_ok.
        simpl. rewrite length_app, length_replicate. simpl. lia. }
    cbv beta. rewrite app_nil_r, app_assoc.
    replace (length pre + length r) with (length (pre ++ r)) by by rewrite length_app.
    erewrite bind_Ok by apply wr_mid. cbv beta. unfold wr. rewrite decide_False; [done|].
    rewrite !length_app. simpl. lia.
  - apply bind_Ub, memcpy_overflow; rewrite !length_app; simpl; rewrite ?length_replicate; lia.
Qed.

(** *** dequeueItem *)

Lemma take_from fuel pre mid post str :
  GT ∉ mid → length str + length mid ≤ 1024 → length mid < fuel →
  loop fuel take_body (length pre, str) (pre ++ mid ++ GT :: post) =
    Ok ((length pre + length mid, str ++ mid), pre ++ mid ++ GT :: post).
Proof.
  revert fuel pre str. induction mid as [|x mid IH]; intros [|fuel] pre str Hm Hl Hf; simpl in Hl, Hf; try lia.
  - apply loop_done. unfold take_body. erewrite bind_Ok.
    2:{ apply rd_ok. rewrite lookup_app_r, Nat.sub_diag by lia. done. }
    cbv beta. rewrite decide_True by done. by rewrite Nat.add_0_r, app_nil_r.
  - apply not_elem_of_cons in Hm as [Hx Hm]. erewrite loop_step.
    2:{ unfold take_body. erewrite bind_Ok.
        2:{ apply rd_ok. rewrite lookup_app_r, Nat.sub_diag by lia. done. }
        cbv beta. rewrite decide_False by done. rewrite decide_True by lia. done. }
    replace (S (length pre)) with (length (pre ++ [x])) by (rewrite length_app; simpl; lia).
    replace (pre ++ (x :: mid) ++ GT :: post) with ((pre ++ [x]) ++ mid ++ GT :: post)
      by by rewrite <- !app_assoc.
    rewrite IH by (done || rewrite ?length_app; simpl; lia).
    rewrite <- app_assoc, length_app. simpl. do 3 f_equal. lia.
Qed.

Lemma take_overflow fuel pre mid post str :
  GT ∉ mid → length str ≤ 1024 → 1024 < length str + length mid → 1025 - length str < fuel →
  loop fuel take_body (length pre, str) (pre ++ mid ++ post) = Ub Overflow.
Proof.
  revert fuel pre str. induction mid as [|x mid IH]; intros [|fuel] pre str Hm Hs Hl Hf; simpl in Hl, Hf; try lia.
  apply not_elem_of_cons in Hm as [Hx Hm].
  assert (Hrd : rd (length pre) (pre ++ (x :: mid) ++ post) = Ok (x, pre ++ (x :: mid) ++ post)).
  { apply rd_ok. rewrite lookup_app_r, Nat.sub_diag by lia. done. }
  destruct (decide (length str < 1024)) as [Hs'|Hs'].
  - erewrite loop_step.
    2:{ unfold take_body. erewrite bind_Ok by exact Hrd.
        cbv beta. rewrite decide_False by done. rewrite decide_True by lia. done. }
    replace (S (length pre)) with (length (pre ++ [x])) by (rewrite length_app; simpl; lia).
    replace (pre ++ (x :: mid) ++ post) with ((pre ++ [x]) ++ mid ++ post) by by rewrite <- !app_assoc.
    apply IH; (done || rewrite length_app; simpl; lia).
  - simpl loop. apply bind_Ub. unfold take_body. erewrite bind_Ok by exact Hrd. cbv beta.
    rewrite decide_False by done. by rewrite decide_False.
Qed.

(** Without a mark the copy runs behind the segment. *)
Lemma take_runs_off fuel pre mid str :
  GT ∉ mid → length str + length mid ≤ 1024 → length mid < fuel →
  loop fuel take_body (length pre, str) (pre ++ mid) = Ub BadAccess.
Proof.
  revert fuel pre str. induction mid as [|x mid IH]; intros [|fuel] pre str Hm Hl Hf; simpl in Hl, Hf; try lia.
  - simpl loop. apply bind_Ub. unfold take_body. apply bind_Ub. unfold rd.
    by rewrite lookup_ge_None_2 by (rewrite app_nil_r; lia).
  - apply not_elem_of_cons in Hm as [Hx Hm]. erewrite loop_step.
    2:{ unfold take_body. erewrite bind_Ok.
        2:{ apply rd_ok. rewrite lookup_app_r, Nat.sub_diag by lia. done. }
        cbv beta. rewrite decide_False by done. rewrite decide_True by lia. done. }
    replace (S (length pre)) with (length (pre ++ [x])) by (rewrite length_app; simpl; lia).
    replace (pre ++ x :: mid) with ((pre ++ [x]) ++ mid) by by rewrite <- app_assoc.
    apply IH; (done || rewrite ?length_app; simpl; lia).
Qed.

Lemma move_header_ok n r s :
  r ≤ n → r ≤ length rqHeader → n ≤ length s →
  move_header n r s = Ok (tt, replicate (n - r) SP ++ take r rqHeader ++ drop n s).
Proof.
  revert r s. induction n as [|n IH]; intros r s Hr Hh Hn.
  { replace r with 0 by lia. done. }
  destruct r as [|r]; cbn [move_header].
  - erewrite bind_Ok by (apply wr_ok; lia). cbv beta. rewrite IH by (rewrite ?length_insert; lia).
    rewrite !Nat.sub_0_r. cbn [take app]. rewrite (drop_S _ SP n) by (apply list_lookup_insert_eq; lia).
    rewrite drop_insert_lt by lia. rewrite replicate_S_end, <- app_assoc. done.
  - destruct (lookup_lt_is_Some_2 rqHeader r ltac:(lia)) as [c Hc].
    rewrite Hc. cbn [default]. erewrite bind_Ok by (apply wr_ok; lia). cbv beta.
    rewrite IH by (rewrite ?length_insert; lia).
    rewrite (drop_S _ c n) by (apply list_lookup_insert_eq; lia).
    rewrite drop_insert_lt by lia. rewrite (take_S_r _ _ _ Hc), <- app_assoc. done.
Qed.

Lemma c_str_front a b : NUL ∉ a → c_str (a ++ b) = a ++ c_str b.
Proof.
  induction a as [|c a IH]; [done|]. intros [Hc Ha]%not_elem_of_cons. cbn [app c_str].
  rewrite decide_False by done. by rewrite IH.
Qed.

Lemma c_str_layout k reqs room :
  Forall clean reqs → 0 < room →
  c_str (layout k reqs room) = replicate k SP ++ rqHeader ++ mjoin (closed <$> reqs) ++ [LT].
Proof.
  intros Hr Hroom. rewrite layout_eq. destruct room as [|room]; [lia|]. cbn [replicate].
  rewrite cons_middle, app_assoc, c_str_app; [by rewrite <- !app_assoc|].
  rewrite !not_elem_of_app. split.
  - split; [by intros [? _]%elem_of_replicate|].
    split; [apply (bool_decide_unpack _); by vm_compute|].
    induction Hr as [|r reqs (_ & _ & H0) _ IH]; [apply not_elem_of_nil|].
    rewrite fmap_cons, mjoin_cons. unfold closed at 1. rewrite !not_elem_of_app.
    split; [|done]. split; [done|]. by intros ?%list_elem_of_singleton.
  - by intros ?%list_elem_of_singleton.
Qed.

(** The header is found behind the blanks. *)
Lemma find_header n x : strstr (replicate n SP ++ rqHeader ++ x) rqHeader = Some n.
Proof.
  rewrite <- (length_replicate n SP) at 2. apply strstr_first. intros i Hi.
  rewrite length_replicate in Hi.
  rewrite (drop_S _ SP i); [done|].
  by rewrite lookup_app_l, lookup_replicate_2 by (rewrite ?length_replicate; lia).
Qed.

Lemma drop_layout rq k reqs room :
  rq ≤ k → drop rq (layout k reqs room) = layout (k - rq) reqs room.
Proof.
  intros H. unfold layout. rewrite drop_app_le by (rewrite length_replicate; lia).
  by rewrite drop_replicate.
Qed.

Lemma header_found k reqs room : strstr (c_str (layout k reqs room)) rqHeader = Some k.
Proof.
  unfold layout. rewrite app_assoc, c_str_front; [rewrite <- app_assoc; apply find_header|].
  rewrite not_elem_of_app. split; [by intros [? _]%elem_of_replicate|].
  apply (bool_decide_unpack _); by vm_compute.
Qed.

(** The first request, up to the strings of the item. *)
Lemma dequeue_shape junk rq k r reqs room :
  Forall clean (r :: reqs) → length r ≤ 1024 → rq ≤ k + S (length r) →
  dequeue junk rq (layout k (r :: reqs) room) =
    (str ← str_of (r ++ [junk rq (length r)]);
     it ← split_item str;
     Ok ((k + S (length r), it), layout (k + S (length r)) reqs room)).
Proof.
  intros Hr Hl Hrq. apply Forall_cons in Hr as [(Hg & _ & _) Hr]. unfold dequeue.
  set (pre := replicate k SP ++ lit "Request Queue -").
  set (post := mjoin (closed <$> reqs) ++ LT :: replicate room NUL).
  assert (E1 : layout k (r :: reqs) room = [] ++ pre ++ GT :: r ++ GT :: post).
  { unfold layout, pre, post. rewrite fmap_cons, mjoin_cons. unfold closed at 1.
    by rewrite <- !app_assoc. }
  assert (E2 : layout k (r :: reqs) room = (pre ++ [GT]) ++ r ++ GT :: post).
  { rewrite E1. by rewrite <- !app_assoc. }
  assert (Hpre : length pre = k + 15) by (unfold pre; by rewrite length_app, length_replicate).
  rewrite E1. erewrite bind_Ok.
  2:{ apply (scan_ok GT []). unfold pre. rewrite not_elem_of_app. split.
      - by intros [? _]%elem_of_replicate.
      - apply (bool_decide_unpack _); by vm_compute. }
  cbv beta. rewrite <- E1, E2.
  erewrite bind_Ok.
  2:{ replace (S (length [] + length pre)) with (length (pre ++ [GT])) by (rewrite length_app; simpl; lia).
      apply take_from; [done|simpl; lia|lia]. }
  assert (Hpre1 : length (pre ++ [GT]) = k + 16) by (rewrite length_app, Hpre; simpl; lia).
  cbv beta iota. rewrite Hpre1.
  erewrite bind_Ok.
  2:{ apply move_header_ok; [simpl; lia|done|].
      rewrite !length_app, Hpre. simpl. lia. }
  cbv beta. assert (Hseg : replicate (S (k + 16 + length r) - length rqHeader) SP ++
      take (length rqHeader) rqHeader ++ drop (S (k + 16 + length r)) ((pre ++ [GT]) ++ r ++ GT :: post) =
    layout (k + S (length r)) reqs room).
  { unfold layout. rewrite firstn_all. f_equal; [f_equal; simpl; lia|]. f_equal.
    rewrite (app_assoc (pre ++ [GT]) r), cons_middle, (app_assoc _ [GT] post).
    rewrite drop_app_length'; [done|]. rewrite !length_app, Hpre. simpl. lia. }
  rewrite Hseg. erewrite bind_Ok by done. cbv beta.
  rewrite drop_layout, header_found by done. rewrite app_nil_l.
  rewrite lift_bind. destruct (str_of (r ++ [junk rq (length r)])) as [s|?|?|]; [|done..]. simpl.
  rewrite lift_bind. destruct (split_item s) as [it|?|?|]; [|done..]. simpl.
  unfold mret, M_ret. do 3 f_equal. lia.
Qed.

Lemma dequeue_ok junk rq k path kw reqs room :
  let r := path ++ SP :: kw in
  Forall clean (r :: reqs) → SP ∉ path → length r ≤ 1024 → rq ≤ k + S (length r) →
  junk rq (length r) = NUL →
  dequeue junk rq (layout k (r :: reqs) room) =
    Ok ((k + S (length r), Item path kw), layout (k + S (length r)) reqs room).
Proof.
  intros r Hr Hsp Hl Hrq Hj. rewrite dequeue_shape by done. rewrite Hj.
  apply Forall_cons in Hr as [(_ & _ & H0) _]. unfold str_of.
  rewrite decide_True by (apply elem_of_app; right; left). rewrite c_str_app by done.
  change (Ok r ≫= ?f) with (f r). cbv beta. unfold split_item, r. rewrite strchr_ok by done.
  cbn. rewrite take_app_length. rewrite cons_middle, app_assoc.
  by rewrite drop_app_length' by (rewrite length_app; simpl; lia).
Qed.

(** taking a request gives its directory and keyword, and leaves a queue
    without it whose header has moved behind it - provided that the byte which the
    program does not write after the copied request is NUL. *)
Theorem dequeueItem_takes_the_first junk rq k path kw reqs room :
  let r := path ++ SP :: kw in
  Forall clean (r :: reqs) → SP ∉ path → length r ≤ 1024 → rq ≤ k + S (length r) → 0 < room →
  junk rq (length r) = NUL →
  dequeue junk rq (layout k (r :: reqs) room) =
    Ok ((k + S (length r), Item path kw), layout (k + S (length r)) reqs room).
Proof. intros r Hr Hsp Hl Hrq _. by apply dequeue_ok. Qed.

(** The ways in which it goes wrong. *)
Lemma dequeue_unterminated junk rq k r reqs room :
  Forall clean (r :: reqs) → rq ≤ k + S (length r) → length r ≤ 1024 → junk rq (length r) ≠ NUL →
  dequeue junk rq (layout k (r :: reqs) room) = Ub BadAccess.
Proof.
  intros Hr Hrq Hl Hj. rewrite dequeue_shape by done. apply Forall_cons in Hr as [(_ & _ & H0) _].
  unfold str_of. rewrite decide_False; [done|].
  rewrite not_elem_of_app. split; [done|]. by intros E%list_elem_of_singleton.
Qed.

Lemma dequeue_split junk rq k r reqs room :
  Forall clean (r :: reqs) → rq ≤ k + S (length r) → length r ≤ 1024 → junk rq (length r) = NUL →
  dequeue junk rq (layout k (r :: reqs) room) =
    (it ← split_item r; Ok ((k + S (length r), it), layout (k + S (length r)) reqs room)).
Proof.
  intros Hr Hrq Hl Hj. rewrite dequeue_shape by done. rewrite Hj. apply Forall_cons in Hr as [(_ & _ & H0) _].
  unfold str_of. rewrite decide_True by (apply elem_of_app; right; left). by rewrite c_str_app.
Qed.

Lemma split_no_blank r : SP ∉ r → split_item r = Ub BadAccess.
Proof.
  intros Hsp. unfold split_item, strchr. assert (strstr r [SP] = None) as ->; [|done].
  apply strstr_None. intros (a & b & ->). apply Hsp. apply elem_of_app. right. left.
Qed.

(** Where the first request begins. *)
Lemma first_request k l post :
  ∃ pre, layout k l post = (pre ++ [GT]) ++ mjoin (closed <$> l) ++ LT :: replicate post NUL ∧
    GT ∉ pre ∧ scan GT 0 (layout k l post) = Ok (length pre, layout k l post).
Proof.
  set (pre := replicate k SP ++ lit "Request Queue -"). exists pre.
  assert (Hpre : GT ∉ pre).
  { unfold pre. rewrite not_elem_of_app. split; [by intros [? _]%elem_of_replicate|].
    apply (bool_decide_unpack _); by vm_compute. }
  assert (E : layout k l post = (pre ++ [GT]) ++ mjoin (closed <$> l) ++ LT :: replicate post NUL).
  { unfold layout, pre. by rewrite <- !app_assoc. }
  split; [done|]. split; [done|]. rewrite E, <- app_assoc. by apply (scan_ok GT []).
Qed.

Lemma dequeue_overflow junk rq k r reqs room :
  GT ∉ r → 1024 < length r → dequeue junk rq (layout k (r :: reqs) room) = Ub Overflow.
Proof.
  intros Hg Hl. unfold dequeue. destruct (first_request k (r :: reqs) room) as (pre & E & Hpre & Hs).
  erewrite bind_Ok by exact Hs. cbv beta. apply bind_Ub. rewrite E, fmap_cons, mjoin_cons.
  unfold closed at 1. rewrite <- (app_assoc r), <- (app_assoc r).
  replace (S (length pre)) with (length (pre ++ [GT])) by (rewrite length_app; simpl; lia).
  apply take_overflow; [done|simpl; lia|simpl; lia|simpl; lia].
Qed.

(** A queue without a request: the bytes behind the header are copied, the end mark first, until
    the segment or the copy ends. *)
Lemma dequeue_empty junk rq k room :
  dequeue junk rq (layout k [] room) = Ub (if decide (room < 1024) then BadAccess else Overflow).
Proof.
  unfold dequeue. destruct (first_request k [] room) as (pre & E & Hpre & Hs).
  erewrite bind_Ok by exact Hs. cbv beta. apply bind_Ub. rewrite E. change (mjoin (closed <$> [])) with (@nil ascii).
  assert (Hg : GT ∉ LT :: replicate room NUL).
  { apply not_elem_of_cons. split; [done|]. by intros [? _]%elem_of_replicate. }
  replace (S (length pre)) with (length (pre ++ [GT])) by (rewrite length_app; simpl; lia).
  case_decide as Hroom; rewrite app_nil_l.
  - apply take_runs_off; [done|simpl; rewrite ?length_replicate; lia..].
  - rewrite <- (app_nil_r (LT :: replicate room NUL)).
    apply take_overflow; [done|simpl; rewrite ?length_replicate; lia..].
Qed.

(** C25: the ways in which taking a request goes wrong: no blank in it, the byte
    after the copy not NUL, more than 1024 bytes. *)
Theorem dequeueItem_errors junk rq k r reqs room :
  Forall clean (r :: reqs) → rq ≤ k + S (length r) → 0 < room →
  (length r ≤ 1024 → junk rq (length r) ≠ NUL →
     dequeue junk rq (layout k (r :: reqs) room) = Ub BadAccess) ∧
  (length r ≤ 1024 → junk rq (length r) = NUL → SP ∉ r →
     dequeue junk rq (layout k (r :: reqs) room) = Ub BadAccess) ∧
  (1024 < length r → dequeue junk rq (layout k (r :: reqs) room) = Ub Overflow).
Proof.
  intros Hr Hrq _. split; [|split].
  - by apply dequeue_unterminated.
  - intros Hl Hj Hsp. by rewrite dequeue_split, split_no_blank.
  - apply dequeue_overflow. by apply Forall_cons in Hr as [(? & _ & _) _].
Qed.

Definition demo_queue : bytes := layout 0 [lit "/d int"; lit "/e x"] 10.

Lemma dequeueItem_takes_the_first_witness :
  dequeue (λ _ _, NUL) 0 demo_queue = Ok ((7, Item (lit "/d") (lit "int")), layout 7 [lit "/e x"] 10).
Proof.
  refine (dequeueItem_takes_the_first (λ _ _, NUL) 0 0 (lit "/d") (lit "int") [lit "/e x"] 10 _ _ _ _ _ _);
    try (apply (bool_decide_unpack _); vm_compute; exact I); try done; simpl; lia.
Defined.

Lemma dequeueItem_errors_witness :
  dequeue (λ _ _, "x"%char) 0 demo_queue = Ub BadAccess.
Proof.
  refine (proj1 (dequeueItem_errors (λ _ _, "x"%char) 0 0 (lit "/d int") [lit "/e x"] 10 _ _ _) _ _);
    try (apply (bool_decide_unpack _); vm_compute; exact I); try done; simpl; lia.
Defined.

(** ** The queue over time *)

Definition no_exit (r : bytes) : Prop := ¬ occurs exit_word r.

#[export] Instance no_exit_dec r : Decision (no_exit r).
Proof. unfold no_exit. apply _. Defined.

(** The word does not reach over a mark, a blank or the header. *)
Lemma occurs_front k reqs x :
  occurs exit_word (front_of k reqs ++ x) ↔ (∃ r, r ∈ reqs ∧ occurs exit_word r) ∨ occurs exit_word x.
Proof.
  assert (Hn : ∀ d, d ∈ [GT; SP] → d ∉ exit_word).
  { intros d Hd. rewrite !elem_of_cons, elem_of_nil in Hd.
    destruct Hd as [->|[->|[]]]; apply (bool_decide_unpack _); by vm_compute. }
  unfold front_of. rewrite <- !app_assoc. induction k as [|k IH].
  - cbn [replicate app]. change rqHeader with (lit "Request Queue -" ++ [GT]).
    rewrite <- app_assoc. cbn [app]. rewrite (occurs_split _ _ GT) by (apply Hn; left).
    assert (¬ occurs exit_word (lit "Request Queue -")) as Hh.
    { rewrite <- strstr_occurs. vm_compute. by intros [? ?]. }
    induction reqs as [|r reqs IH].
    + cbn [fmap list_fmap app]. rewrite (app_nil_l x : mjoin [] ++ x = x). split; [tauto|].
      intros [(r & []%elem_of_nil & _)|?]; tauto.
    + rewrite fmap_cons, mjoin_cons. unfold closed at 1.
      rewrite <- !app_assoc. cbn [app]. rewrite (occurs_split _ _ GT) by (apply Hn; left).
      setoid_rewrite elem_of_cons. split.
      * intros [?|[?|H]]; [done|left; exists r; tauto|].
        destruct (proj1 IH (or_intror H)) as [(r' & ? & ?)|?]; [left; exists r'; tauto|by right].
      * intros [(r' & [->|Hr] & Ho)|Ho]; [tauto| |].
        -- destruct (proj2 IH (or_introl (ex_intro _ r' (conj Hr Ho)))); tauto.
        -- destruct (proj2 IH (or_intror Ho)); tauto.
  - cbn [replicate app]. change (SP :: ?y) with ([] ++ SP :: y).
    rewrite (occurs_split _ _ SP) by (apply Hn; right; left). rewrite IH.
    assert (¬ occurs exit_word []) by (intros (a & b & E); by destruct a). tauto.
Qed.

(** Nor is the end mark in it. *)
Lemma occurs_end s : occurs exit_word (s ++ [LT]) ↔ occurs exit_word s.
Proof.
  rewrite (occurs_split _ _ LT) by (apply (bool_decide_unpack _); by vm_compute).
  assert (¬ occurs exit_word []) by (intros (a & b & E); by destruct a). tauto.
Qed.

Lemma has_exit_layout k reqs room :
  Forall clean reqs → 0 < room →
  has_exit (layout k reqs room) = true ↔ ∃ r, r ∈ reqs ∧ occurs exit_word r.
Proof.
  intros Hr Hroom. unfold has_exit. rewrite bool_decide_eq_true, strstr_occurs, c_str_layout by done.
  rewrite 2!app_assoc, occurs_end, <- (app_assoc (replicate k SP)).
  pose proof (occurs_front k reqs []) as H. rewrite app_nil_r in H. unfold front_of in H. rewrite H.
  assert (¬ occurs exit_word []) by (intros (a & b & E); by destruct a). tauto.
Qed.

(** the server stops as soon as some waiting request contains "exit". *)
Theorem exit_is_in_a_request k reqs room :
  Forall clean reqs → 0 < room →
  has_exit (layout k reqs room) = true ↔ ∃ r, r ∈ reqs ∧ occurs exit_word r.
Proof. exact (has_exit_layout k reqs room). Qed.

Lemma exit_is_in_a_request_witness : has_exit (layout 0 [lit "/d int"; lit "/exits x"] 10) = true.
Proof.
  refine (proj2 (exit_is_in_a_request 0 [lit "/d int"; lit "/exits x"] 10 _ _) _).
  - apply (bool_decide_unpack _). vm_compute. exact I.
  - lia.
  - exists (lit "/exits x"). split; [right; left|]. exists (lit "/"), (lit "s x"). reflexivity.
Defined.

(** Requests that come and go. *)
Inductive qop := QAdd (r : bytes) | QTake.

Definition run_op (junk : nat → nat → ascii) (RQptr : nat) (o : qop) : Sg (nat * list item) :=
  match o with
  | QAdd r => AddReq r;; mret (RQptr, [])
  | QTake => p ← dequeue junk RQptr; mret (p.1, [p.2])
  end.

Fixpoint run_ops (junk : nat → nat → ascii) (RQptr : nat) (os : list qop) : Sg (nat * list item) :=
  match os with
  | [] => mret (RQptr, [])
  | o :: os' =>
      p ← run_op junk RQptr o;
      q ← run_ops junk p.1 os';
      mret (q.1, p.2 ++ q.2)
  end.

Definition added (os : list qop) : list bytes :=
  omap (λ o, match o with QAdd r => Some r | QTake => None end) os.

Definition request (it : item) : bytes := dirpath it ++ SP :: keyword it.

(** A request that [dequeueItem] can take. *)
Definition takeable (r : bytes) : Prop := clean r ∧ SP ∈ r ∧ length r ≤ 1024.

#[export] Instance takeable_dec r : Decision (takeable r).
Proof. unfold takeable. apply _. Defined.

Lemma split_takeable r : takeable r → ∃ it, split_item r = Ok it ∧ r = request it ∧ SP ∉ dirpath it.
Proof.
  intros (_ & Hsp & _). apply list_elem_of_split_l in Hsp as (p & w & -> & Hp).
  exists (Item p w). split; [|done]. unfold split_item. rewrite strchr_ok by done.
  rewrite take_app_length. rewrite cons_middle, app_assoc.
  by rewrite drop_app_length' by (rewrite length_app; simpl; lia).
Qed.

(** *** The abstract queue *)

(** The requests, with the bytes in front of the header and those behind the end mark. *)
Record aqueue := AQ { aq_front : nat; aq_reqs : list bytes; aq_room : nat }.

Definition aq_seg (a : aqueue) : bytes := layout (aq_front a) (aq_reqs a) (aq_room a).

(** A request needs a byte more than it has, for its mark. *)
Definition aq_add (r : bytes) : M aqueue unit := λ a,
  if decide (length r < aq_room a) then
    Ok (tt, AQ (aq_front a) (aq_reqs a ++ [r]) (aq_room a - S (length r)))
  else Ub BadAccess.

(** The first request is taken, if it has 1024 bytes or less, if the byte behind its copy is
    NUL, and if there is a blank in it. *)
Definition aq_take (junk : nat → nat → ascii) : M aqueue item := λ a,
  match aq_reqs a with
  | [] => Ub (if decide (aq_room a < 1024) then BadAccess else Overflow)
  | r :: reqs =>
      if decide (1024 < length r) then Ub Overflow
      else if decide (junk (aq_front a) (length r) = NUL) then
        it ← split_item r;
        Ok (it, AQ (aq_front a + S (length r)) reqs (aq_room a))
      else Ub BadAccess
  end.

Fixpoint aq_ops (junk : nat → nat → ascii) (os : list qop) : M aqueue (list item) :=
  match os with
  | [] => mret []
  | QAdd r :: os' => aq_add r;; aq_ops junk os'
  | QTake :: os' => it ← aq_take junk; its ← aq_ops junk os'; mret (it :: its)
  end.

Lemma AddReq_abs r a :
  Forall clean (aq_reqs a) →
  AddReq r (aq_seg a) = (p ← aq_add r a; Ok (tt, aq_seg p.2)).
Proof.
  intros Hr. unfold aq_add, aq_seg. case_decide.
  - by rewrite AddReq_ok by (done || lia).
  - by rewrite AddReq_full by (done || lia).
Qed.

Lemma dequeue_abs junk a :
  Forall clean (aq_reqs a) →
  dequeue junk (aq_front a) (aq_seg a) = (p ← aq_take junk a; Ok ((aq_front p.2, p.1), aq_seg p.2)).
Proof.
  intros Hr. destruct a as [k [|r reqs] room]; unfold aq_take, aq_seg; cbn [aq_front aq_reqs aq_room] in *.
  - by rewrite dequeue_empty.
  - pose proof Hr as [(Hg & _ & _) _]%Forall_cons. case_decide; [by rewrite dequeue_overflow|]. case_decide.
    + rewrite dequeue_split by (done || lia). by destruct (split_item r).
    + by rewrite dequeue_unterminated by (done || lia).
Qed.

Lemma split_request r it : split_item r = Ok it → r = request it ∧ SP ∉ dirpath it.
Proof.
  destruct (decide (SP ∈ r)) as [Hsp|Hsp]; [|by rewrite split_no_blank].
  apply list_elem_of_split_l in Hsp as (p & w & -> & Hp). unfold split_item. rewrite strchr_ok by done.
  assert (Hd : drop (S (length p)) (p ++ SP :: w) = w).
  { rewrite cons_middle, app_assoc. apply drop_app_length'. rewrite length_app. simpl. lia. }
  rewrite Hd, take_app_length. by intros [= <-].
Qed.

Lemma split_item_request it : SP ∉ dirpath it → split_item (request it) = Ok it.
Proof.
  destruct it as [p w]. intros Hp. unfold split_item, request. simpl in *. rewrite strchr_ok by done.
  rewrite take_app_length, cons_middle, app_assoc.
  by rewrite drop_app_length' by (rewrite length_app; simpl; lia).
Qed.

Lemma added_takes m : added (replicate m QTake) = [].
Proof. induction m as [|m IH]; [done|]. exact IH. Qed.

(** What the operations do to the requests. *)
Lemma aq_add_inv r a p : aq_add r a = Ok p →
  length r < aq_room a ∧ p.2 = AQ (aq_front a) (aq_reqs a ++ [r]) (aq_room a - S (length r)).
Proof. unfold aq_add. case_decide; [|done]. by intros [= <-]. Qed.

Lemma aq_take_inv junk a p : aq_take junk a = Ok p →
  aq_reqs a = request p.1 :: aq_reqs p.2 ∧ aq_front p.2 = aq_front a + S (length (request p.1)) ∧
  aq_room p.2 = aq_room a.
Proof.
  unfold aq_take. destruct (aq_reqs a) as [|r reqs]; [done|]. case_decide; [done|]. case_decide; [|done].
  destruct (split_item r) as [it| | |] eqn:E; [|done..]. apply split_request in E as [-> _].
  by intros [= <-].
Qed.

(** The segment does what the abstract queue does. *)
Lemma run_ops_abs junk os a :
  Forall clean (aq_reqs a ++ added os) →
  run_ops junk (aq_front a) os (aq_seg a) =
    (p ← aq_ops junk os a; Ok ((aq_front p.2, p.1), aq_seg p.2)).
Proof.
  revert a. induction os as [|[r|] os IH]; intros a Hc; [done|..]; cbn [run_ops run_op aq_ops];
    pose proof Hc as [Hr _]%Forall_app; unfold mbind, M_bind.
  - rewrite AddReq_abs by done. destruct (aq_add r a) as [[[] a']| | |] eqn:E; [|done..]. simpl.
    destruct (aq_add_inv _ _ _ E) as [_ Ea]. simpl in Ea.
    change (added (QAdd r :: os)) with ([r] ++ added os) in Hc. rewrite app_assoc in Hc.
    specialize (IH a'). rewrite Ea in IH |- *. cbn [aq_reqs aq_front] in IH |- *. rewrite (IH Hc).
    by destruct (aq_ops junk os _) as [[]| | |].
  - rewrite dequeue_abs by done. destruct (aq_take junk a) as [[it a']| | |] eqn:E; [|done..]. simpl.
    destruct (aq_take_inv _ _ _ E) as (Ea & _). simpl in Ea.
    change (added (QTake :: os)) with (added os) in Hc. rewrite Ea in Hc. apply Forall_cons in Hc as [_ Hc].
    rewrite (IH a' Hc). by destruct (aq_ops junk os a') as [[]| | |].
Qed.

(** The abstract queue is first in, first out, and no byte is used twice. *)
Lemma aq_ops_fifo junk os a p :
  aq_ops junk os a = Ok p →
  aq_reqs a ++ added os = (request <$> p.1) ++ aq_reqs p.2 ∧
  aq_front p.2 = aq_front a + used (request <$> p.1) ∧ used (added os) + aq_room p.2 = aq_room a.
Proof.
  revert a p. induction os as [|[r|] os IH]; intros a p; cbn [aq_ops].
  - intros [= <-]. simpl. rewrite app_nil_r. change (used []) with 0. by rewrite Nat.add_0_r.
  - change (added (QAdd r :: os)) with (r :: added os). rewrite used_cons. unfold mbind, M_bind.
    destruct (aq_add r a) as [[[] a']| | |] eqn:E; [|done..]. simpl. intros Hp.
    destruct (aq_add_inv _ _ _ E) as [Hlt Ea]. destruct (IH _ _ Hp) as (H1 & H2 & H3). simpl in Ea.
    rewrite Ea in H1, H2, H3. cbn [aq_front aq_reqs aq_room] in H1, H2, H3. rewrite <- app_assoc in H1. split; [done|]. lia.
  - change (added (QTake :: os)) with (added os). unfold mbind, M_bind.
    destruct (aq_take junk a) as [[it a']| | |] eqn:E; [|done..]. simpl.
    destruct (aq_ops junk os a') as [[its a2]| | |] eqn:E'; [|done..]. simpl. intros [= <-]. cbn [fst snd].
    destruct (aq_take_inv _ _ _ E) as (Ea & Ef & Er). destruct (IH _ _ E') as (H1 & H2 & H3).
    cbn [fst snd] in *.
    rewrite fmap_cons, used_cons, Ea. cbn [app]. rewrite H1. split; [done|]. lia.
Qed.

(** It goes on as long as requests that can be taken fit and are there. *)
Fixpoint enough (os : list qop) (waiting : nat) : bool :=
  match os with
  | [] => true
  | QAdd _ :: os' => enough os' (S waiting)
  | QTake :: os' => match waiting with O => false | S w => enough os' w end
  end.

Lemma aq_ops_ok junk os a :
  enough os (length (aq_reqs a)) = true → Forall takeable (aq_reqs a ++ added os) →
  Forall (λ r, ∀ rq, junk rq (length r) = NUL) (aq_reqs a ++ added os) → used (added os) ≤ aq_room a →
  ∃ p, aq_ops junk os a = Ok p.
Proof.
  revert a. induction os as [|[r|] os IH]; intros a He Ht Hj Hu; cbn [aq_ops]; [by eexists|..].
  - change (added (QAdd r :: os)) with ([r] ++ added os) in *. rewrite app_assoc in Ht, Hj.
    cbn [app] in Hu. rewrite used_cons in Hu. unfold aq_add at 1.
    erewrite bind_Ok by (by rewrite decide_True by lia). cbv beta.
    apply IH; cbn [aq_reqs aq_room]; [|done..|lia]. rewrite length_app, Nat.add_1_r. exact He.
  - change (added (QTake :: os)) with (added os) in *. destruct a as [k [|r reqs] room]; [done|].
    cbn [aq_reqs aq_room app] in *. apply Forall_cons in Ht as [Hr Ht]. apply Forall_cons in Hj as [Hjr Hj].
    destruct (split_takeable r Hr) as (it & E & _ & _). destruct Hr as (_ & _ & Hl).
    destruct (IH (AQ (k + S (length r)) reqs room) He Ht Hj Hu) as [p Hp].
    assert (E' : aq_take junk (AQ k (r :: reqs) room) = Ok (it, AQ (k + S (length r)) reqs room)).
    { unfold aq_take. cbn [aq_reqs aq_front aq_room]. rewrite decide_False by lia. rewrite decide_True by done.
      by rewrite E. }
    erewrite bind_Ok by exact E'. cbv beta. destruct p as [its a']. erewrite bind_Ok by exact Hp. by eexists.
Qed.


Definition demo_ops : list qop := [QAdd (lit "/d int"); QAdd (lit "/e x"); QTake; QAdd (lit "/f y"); QTake].


(** ** Well-formed segments *)

(** [n] bytes that hold a queue of requests that can be taken, and end in a NUL. *)
Definition well_formed (n : nat) (s : bytes) : Prop :=
  ∃ k reqs room, s = layout k reqs (S room) ∧ length s = n ∧ Forall takeable reqs.

Lemma takeable_clean reqs : Forall takeable reqs → Forall clean reqs.
Proof. intros H. eapply Forall_impl; [exact H|]. by intros ? []. Qed.

Lemma find_layout_header k reqs room : strstr (layout k reqs room) rqHeader = Some k.
Proof. apply find_header. Qed.

(** The bytes behind the end mark. *)
Definition room_of (s : bytes) : nat :=
  match strchr s LT with Some i => length s - S i | None => 0 end.

Lemma room_of_layout k reqs room : Forall clean reqs → room_of (layout k reqs room) = room.
Proof.
  intros Hr. unfold room_of. rewrite layout_eq, strchr_ok by by apply no_lt.
  rewrite (length_app _ (LT :: _)). simpl. rewrite length_replicate. lia.
Qed.

Lemma well_formed_intro n k reqs room :
  Forall takeable reqs → k + 18 + used reqs + room = n → well_formed n (layout k reqs (S room)).
Proof. intros Hr Hn. exists k, reqs, room. split; [done|]. split; [|done]. rewrite layout_length. lia. Qed.

Lemma AddReq_well_formed n s r :
  well_formed n s → takeable r →
  (S (length r) < room_of s → ∃ s', AddReq r s = Ok (tt, s') ∧ well_formed n s' ∧
     room_of s' = room_of s - S (length r) ∧
     ∀ c, charcount GT s = Ok (c, s) → charcount GT s' = Ok ((c + 1)%Z, s')) ∧
  (S (length r) = room_of s → ∃ s', AddReq r s = Ok (tt, s') ∧ length s' = n ∧ last s' = Some LT) ∧
  (room_of s ≤ length r → AddReq r s = Ub BadAccess).
Proof.
  intros (k & reqs & room & -> & Hl & Hr) Ht. pose proof (takeable_clean reqs Hr) as Hc.
  rewrite layout_length in Hl. rewrite room_of_layout by done.
  assert (Hr' : Forall takeable (reqs ++ [r])) by (apply Forall_app; auto).
  pose proof (takeable_clean _ Hr') as Hc'. split_and!.
  - intros Hfit. exists (layout k (reqs ++ [r]) (S (room - S (length r)))). split_and!.
    + rewrite AddReq_ok by (done || lia). do 3 f_equal. lia.
    + apply well_formed_intro; [done|]. rewrite used_snoc. lia.
    + rewrite room_of_layout by done. lia.
    + intros c. rewrite !charcount_ok by done. intros [= <-]. do 2 f_equal. rewrite length_app. simpl. lia.
  - intros E. exists (layout k (reqs ++ [r]) 0). split_and!.
    + rewrite AddReq_ok by (done || lia). do 3 f_equal. lia.
    + rewrite layout_length, used_snoc. lia.
    + rewrite layout_eq. cbn [replicate]. apply last_snoc.
  - intros Hfit. apply AddReq_full; [done|lia].
Qed.

Lemma dequeue_well_formed junk n RQ s k :
  well_formed n s → strstr s rqHeader = Some k → RQ ≤ k →
  ∃ c, charcount GT s = Ok (c, s) ∧ (1 ≤ c)%Z ∧
    (c = 1%Z → dequeue junk RQ s = Ub (if decide (room_of s < 1024) then BadAccess else Overflow)) ∧
    ((1 < c)%Z → ∃ it, request it ++ [GT] `prefix_of` drop (k + length rqHeader) s ∧
       (junk RQ (length (request it)) = NUL → ∃ k' s', dequeue junk RQ s = Ok ((k', it), s') ∧
          well_formed n s' ∧ charcount GT s' = Ok ((c - 1)%Z, s') ∧ strstr s' rqHeader = Some k' ∧
          room_of s' = room_of s) ∧
       (junk RQ (length (request it)) ≠ NUL → dequeue junk RQ s = Ub BadAccess)).
Proof.
  intros (k0 & reqs & room & -> & Hl & Hr). rewrite find_layout_header. intros [= ->] Hrq.
  exists (Z.of_nat (S (length reqs))). pose proof (takeable_clean reqs Hr) as Hc.
  rewrite room_of_layout by done. split; [by apply charcount_ok|]. split; [lia|].
  rewrite layout_length in Hl. destruct reqs as [|r reqs].
  { split; [intros _; apply dequeue_empty|]. simpl. lia. }
  split; [simpl; lia|]. intros _. pose proof Hr as [Ht Hr']%Forall_cons. pose proof Hc as [_ Hc']%Forall_cons.
  destruct (split_takeable r Ht) as (it & Eit & -> & Hsp). destruct Ht as (_ & _ & Hlr).
  rewrite used_cons in Hl. exists it. split_and!.
  - exists (mjoin (closed <$> reqs) ++ LT :: replicate (S room) NUL). unfold layout.
    rewrite app_assoc, drop_app_length' by (rewrite length_app, length_replicate; done).
    rewrite fmap_cons, mjoin_cons. unfold closed at 1. by rewrite <- !app_assoc.
  - intros Hj. exists (k + S (length (request it))), (layout (k + S (length (request it))) reqs (S room)).
    split_and!; [|apply well_formed_intro; [done|lia]| |apply find_layout_header|by apply room_of_layout].
    + rewrite dequeue_split by (done || lia). by rewrite Eit.
    + rewrite charcount_ok by done. do 2 f_equal. simpl. lia.
  - intros Hj. apply dequeue_unterminated; [done|lia|done..].
Qed.

(** C24: the layout of the segment is kept, with an exact account of its room: init_shm makes a
    well-formed one; AddReq of a request that can be taken gives a well-formed one with a mark
    more if the request, its mark and a NUL fit behind the end mark, one that is filled to the last byte if
    only the NUL does not, and runs over the end otherwise; on a well-formed one charcount finds its marks;
    dequeueItem without a request runs on behind the marks; if there is one it takes the first,
    and leaves a well-formed segment with a mark less and RQptr at its header, when the byte
    that malloc left behind the copy is NUL, and reads beyond the copy when it is not. *)
Theorem queue_layout_kept junk n :
  (17 < n - 1 → ∃ s, init_segment (replicate n NUL) = Ok (tt, s) ∧ well_formed n s ∧ room_of s = n - 17) ∧
  (∀ s r, well_formed n s → takeable r →
     (S (length r) < room_of s → ∃ s', AddReq r s = Ok (tt, s') ∧ well_formed n s' ∧
        room_of s' = room_of s - S (length r) ∧
        ∀ c, charcount GT s = Ok (c, s) → charcount GT s' = Ok ((c + 1)%Z, s')) ∧
     (S (length r) = room_of s → ∃ s', AddReq r s = Ok (tt, s') ∧ length s' = n ∧ last s' = Some LT) ∧
     (room_of s ≤ length r → AddReq r s = Ub BadAccess)) ∧
  (∀ s k RQ, well_formed n s → strstr s rqHeader = Some k → RQ ≤ k →
     ∃ c, charcount GT s = Ok (c, s) ∧ (1 ≤ c)%Z ∧
       (c = 1%Z → dequeue junk RQ s = Ub (if decide (room_of s < 1024) then BadAccess else Overflow)) ∧
       ((1 < c)%Z → ∃ it, request it ++ [GT] `prefix_of` drop (k + length rqHeader) s ∧
          (junk RQ (length (request it)) = NUL → ∃ k' s', dequeue junk RQ s = Ok ((k', it), s') ∧
             well_formed n s' ∧ charcount GT s' = Ok ((c - 1)%Z, s') ∧ strstr s' rqHeader = Some k' ∧
             room_of s' = room_of s) ∧
          (junk RQ (length (request it)) ≠ NUL → dequeue junk RQ s = Ub BadAccess))).
Proof.
  split_and!.
  - intros Hn. exists (layout 0 [] (S (n - 18))). split_and!.
    + rewrite init_segment_ok by lia. do 3 f_equal. lia.
    + apply well_formed_intro; [done|]. change (used []) with 0. lia.
    + rewrite room_of_layout by done. lia.
  - intros s r. apply AddReq_well_formed.
  - intros s k RQ. apply dequeue_well_formed.
Qed.

(** A fresh segment, and one that a request of 32 bytes fills to its last byte. *)
Lemma queue_layout_kept_witness :
  (∃ s, init_segment (replicate 50 NUL) = Ok (tt, s) ∧ well_formed 50 s ∧ room_of s = 33) ∧
  ∃ s', AddReq (lit "/d " ++ replicate 29 "x"%char) (layout 0 [] 33) = Ok (tt, s') ∧
    length s' = 50 ∧ last s' = Some LT.
Proof.
  split.
  - refine (proj1 (queue_layout_kept (λ _ _, NUL) 50) _). apply (bool_decide_unpack _). vm_compute. exact I.
  - refine (proj1 (proj2 (proj1 (proj2 (queue_layout_kept (λ _ _, NUL) 50)) (layout 0 [] 33)
      (lit "/d " ++ replicate 29 "x"%char) _ _)) _).
    + by exists 0, [], 32.
    + apply (bool_decide_unpack _). vm_compute. exact I.
    + reflexivity.
Defined.
