(* ===== verification/AddSteps.v ===== *)
(** * AddReq, one access after the other

    The accesses that AddReq of the clients makes to the segment, each a step, and what they
    do to the part of the segment behind the last mark. *)

From stdpp Require Import base list strings.
From Stdlib Require Import Ascii.
From S2P Require Import Prelude CString Text Segment ReqQueue.

(** ** The client, between two accesses of the segment *)
Inductive adder :=
  | AIdle
  | AScan (r : bytes) (i : nat)       (** [for (s = shm; *s != '<'; s++)] *)
  | ABack (r : bytes) (i : nat)       (** [while (..) s--] *)
  | ACopy (r : bytes) (s j : nat)     (** memcpy has copied [j] bytes to [s] *)
  | AEnd (s : nat).                   (** the new mark is written, the end is not *)

Definition add_step (a : adder) : Sg adder :=
  match a with
  | AIdle => mret AIdle
  | AScan r i => x ← rd i; mret (if decide (x = LT) then ABack r i else AScan r (S i))
  | ABack r i =>
      x ← rd i;
      if decide (x = GT) then mret (ACopy r (S i) 0)
      else match i with O => fail_ub BadAccess | S i' => mret (ABack r i') end
  | ACopy r s j =>
      match (r ++ [NUL]) !! j with
      | Some c => wr (s + j) c;; mret (ACopy r s (S j))
      | None => wr (s + length r) GT;; mret (AEnd (S (s + length r)))
      end
  | AEnd s => wr s LT;; mret AIdle
  end.

(** ** The part behind the last mark *)

(** Requests whose mark is not yet written. *)
Definition in_work (a : adder) : list bytes :=
  match a with AScan r _ | ABack r _ | ACopy r _ _ => [r] | _ => [] end.

(** [p] is the place behind the last mark, [n] the size of the segment. *)
Definition tail_at (a : adder) (p n : nat) (tail : bytes) : Prop :=
  let free := LT :: replicate (n - p - 1) NUL in
  match a with
  | AIdle => tail = free
  | AScan r i => tail = free ∧ i ≤ p
  | ABack r i => tail = free ∧ (i = p ∨ S i = p)
  | ACopy r s j => s = p ∧ j ≤ S (length r) ∧ tail = take j (r ++ [NUL]) ++ drop j free
  | AEnd s => s = p ∧ tail = replicate (n - p) NUL
  end.

(** Writing one byte at the place where the old part ends. *)
Lemma write_up (a b : bytes) j c :
  a !! j = Some c → j < length b →
  <[j:=c]> (take j a ++ drop j b) = take (S j) a ++ drop (S j) b.
Proof.
  intros Hc [d Hd]%lookup_lt_is_Some_2. apply lookup_lt_Some in Hc as Hj.
  rewrite (take_S_r _ _ _ Hc), <- app_assoc, (drop_S _ _ _ Hd).
  rewrite insert_app_r_alt by (rewrite length_take; lia).
  rewrite length_take, Nat.min_l, Nat.sub_diag by lia. done.
Qed.

(** Where a client is after a step, when [p] is the place behind the last mark. *)
Definition next (p : nat) (a : adder) : adder :=
  match a with
  | AScan r i => if decide (i = p) then ABack r i else AScan r (S i)
  | ABack r i => if decide (i = p) then ABack r (p - 1) else ACopy r p 0
  | ACopy r s j => if decide (j ≤ length r) then ACopy r s (S j) else AEnd (S (s + length r))
  | _ => AIdle
  end.

(** The steps that AddReq has still to make. *)
Definition steps_left (p : nat) (a : adder) : nat :=
  match a with
  | AIdle => 0
  | AEnd _ => 1
  | ACopy r _ j => 3 + length r - j
  | ABack r i => 4 + length r + (S i - p)
  | AScan r i => 6 + length r + (p - i)
  end.

Section add_steps.
Context (front : bytes) (n : nat).
Hypothesis front_mark : ∃ g, front = g ++ [GT].
Hypothesis front_no_end : LT ∉ front.

(** Where a step of the client leads: [new] is the request whose mark it writes. *)
Definition adds (a : adder) (tail : bytes) : Prop :=
  ∃ new tail', in_work a = new ++ in_work (next (length front) a) ∧
    (new ≠ [] → steps_left (length front) a = 2) ∧
    steps_left (length front) a =
      S (steps_left (length (front ++ mjoin (closed <$> new))) (next (length front) a)) ∧
    add_step a (front ++ tail) = Ok (next (length front) a, (front ++ mjoin (closed <$> new)) ++ tail') ∧
    tail_at (next (length front) a) (length (front ++ mjoin (closed <$> new))) n tail'.

(** A step that writes no mark. *)
Lemma adds_nothing a tail tail' :
  in_work a = in_work (next (length front) a) →
  steps_left (length front) a = S (steps_left (length front) (next (length front) a)) →
  add_step a (front ++ tail) = Ok (next (length front) a, front ++ tail') →
  tail_at (next (length front) a) (length front) n tail' → adds a tail.
Proof using All.
  intros Hw Hs E Ht. exists [], tail'. assert (E0 : front ++ mjoin (closed <$> []) = front) by apply app_nil_r.
  by rewrite E0.
Qed.

Lemma scan_adds r i tail : tail_at (AScan r i) (length front) n tail → adds (AScan r i) tail.
Proof using All.
  intros [-> Hi]. apply (adds_nothing _ _ (LT :: replicate (n - length front - 1) NUL));
    cbn [next add_step]; case_decide as E; try done; try (simpl; lia).
  - erewrite bind_Ok by (apply rd_ok; by rewrite E, lookup_app_r, Nat.sub_diag by done).
    cbv beta. by rewrite decide_True.
  - destruct (lookup_lt_is_Some_2 front i ltac:(lia)) as [x Hx].
    erewrite bind_Ok by (apply rd_ok; by apply lookup_app_l_Some).
    cbv beta. rewrite decide_False; [done|]. intros ->. by apply front_no_end, list_elem_of_lookup; eauto.
  - split; [done|by left].
  - split; [done|lia].
Qed.

Lemma back_adds r i tail : tail_at (ABack r i) (length front) n tail → adds (ABack r i) tail.
Proof using All.
  intros [-> Hi]. destruct front_mark as [g Hg]. apply (f_equal length) in Hg as Hl.
  rewrite length_app in Hl. simpl in Hl.
  apply (adds_nothing _ _ (LT :: replicate (n - length front - 1) NUL));
    cbn [next add_step]; case_decide as E; try done; try (simpl; lia).
  - erewrite bind_Ok by (apply rd_ok; by rewrite E, lookup_app_r, Nat.sub_diag by done).
    cbv beta. rewrite decide_False by done. rewrite E. destruct (length front) as [|p]; [lia|].
    by rewrite Nat.sub_succ, Nat.sub_0_r.
  - destruct Hi as [?|Hi]; [done|]. erewrite bind_Ok.
    2:{ apply rd_ok. apply lookup_app_l_Some. rewrite Hg, lookup_app_r by lia.
        by replace (i - length g) with 0 by lia. }
    cbv beta. rewrite decide_True by done. by rewrite Hi.
  - split; [done|right; lia].
  - split; [done|]. split; [lia|done].
Qed.

Lemma copy_adds r s j tail :
  tail_at (ACopy r s j) (length front) n tail → length front + S (length r) < n → adds (ACopy r s j) tail.
Proof using All.
  intros (-> & Hj & ->) Hroom. set (free := LT :: replicate (n - length front - 1) NUL).
  assert (Hfree : length free = n - length front) by (unfold free; simpl; rewrite length_replicate; lia).
  destruct ((r ++ [NUL]) !! j) as [c|] eqn:Hc.
  - apply lookup_lt_Some in Hc as Hjl. rewrite length_app in Hjl. simpl in Hjl.
    apply (adds_nothing _ _ (take (S j) (r ++ [NUL]) ++ drop (S j) free)); cbn [next add_step];
      rewrite ?decide_True by lia; try done; try (simpl; lia); [|split; [done|split; [lia|done]]].
    rewrite Hc. erewrite bind_Ok.
    2:{ apply wr_ok. rewrite !length_app, length_take, length_drop, length_app. rewrite Hfree. cbn [length]. lia. }
    cbv beta. rewrite insert_app_r_alt by lia. rewrite Nat.add_comm, Nat.add_sub.
    by rewrite write_up by (done || lia).
  - pose proof Hc as Hge. apply lookup_ge_None in Hge. rewrite length_app in Hge. simpl in Hge.
    exists [r], (replicate (n - length front - 1 - length r) NUL).
    assert (Hn : length (front ++ mjoin (closed <$> [r])) = S (length front + length r)).
    { rewrite length_app. change (length (mjoin (closed <$> [r]))) with (used [r]).
      rewrite used_cons. change (used []) with 0. lia. }
    rewrite Hn. cbn [next add_step]. rewrite decide_False by lia.
    split; [done|]. split; [simpl; lia|]. split; [simpl; lia|]. split; [|split; [done|]; f_equal; lia].
    rewrite Hc. assert (j = S (length r)) as -> by lia.
    rewrite take_ge by (rewrite length_app; simpl; lia). rewrite <- (app_assoc r). erewrite bind_Ok.
    2:{ apply wr_ok. rewrite !length_app, length_drop. simpl. lia. }
    cbv beta. rewrite insert_app_r_alt by lia. rewrite Nat.add_comm, Nat.add_sub.
    rewrite insert_app_r_alt, Nat.sub_diag by done. unfold free. simpl. rewrite drop_replicate.
    unfold closed. rewrite app_nil_r. by rewrite <- !app_assoc.
Qed.

Lemma end_adds s tail : tail_at (AEnd s) (length front) n tail → length front < n → adds (AEnd s) tail.
Proof using All.
  intros [-> ->] Hroom. apply (adds_nothing _ _ (LT :: replicate (n - length front - 1) NUL)); try done.
  cbn [add_step next]. erewrite bind_Ok by (apply wr_ok; rewrite length_app, length_replicate; lia).
  cbv beta. rewrite insert_app_r_alt, Nat.sub_diag by done.
  assert (replicate (n - length front) NUL = NUL :: replicate (n - length front - 1) NUL) as ->; [|done].
  change (NUL :: replicate (n - length front - 1) NUL) with (replicate (S (n - length front - 1)) NUL).
  f_equal. lia.
Qed.

Lemma add_step_ok a tail :
  tail_at a (length front) n tail → a ≠ AIdle → length front + used (in_work a) < n → adds a tail.
Proof using All.
  intros Ht Ha Hroom. destruct a as [|r i|r i|r s j|s]; [done|..].
  - by apply scan_adds.
  - by apply back_adds.
  - apply copy_adds; [done|]. simpl in Hroom. rewrite used_cons in Hroom. lia.
  - apply end_adds; [done|]. lia.
Qed.
End add_steps.

Lemma tail_no_mark a p n tail : tail_at a p n tail → Forall clean (in_work a) → GT ∉ tail.
Proof.
  assert (Hfree : ∀ m, GT ∉ LT :: replicate m NUL).
  { intros m [?|[? _]%elem_of_replicate]%elem_of_cons; done. }
  destruct a as [|r i|r i|r s j|s]; simpl.
  - intros -> _. apply Hfree.
  - intros [-> _] _. apply Hfree.
  - intros [-> _] _. apply Hfree.
  - intros (_ & _ & ->) [(Hg & _) _]%Forall_cons. apply not_elem_of_app. split.
    + apply not_elem_of_take, not_elem_of_app. split; [done|]. by intros ?%list_elem_of_singleton.
    + apply not_elem_of_drop, Hfree.
  - intros [_ ->] _ [? _]%elem_of_replicate. done.
Qed.


(** ** What strstr sees

    The segment is a string up to its first NUL: what is copied of a request is a part of it. *)
Definition shown (a : adder) : bytes := match a with ACopy r _ j => take j r | _ => [] end.

Lemma c_str_nuls m : c_str (replicate m NUL) = [].
Proof. by destruct m. Qed.

Lemma c_str_tail a p n tail :
  tail_at a p n tail → Forall clean (in_work a) → c_str tail = shown a ∨ c_str tail = shown a ++ [LT].
Proof.
  assert (Hfree : ∀ m, c_str (LT :: replicate m NUL) = [LT]).
  { intros m. cbn [c_str]. rewrite decide_False by done. by rewrite c_str_nuls. }
  destruct a as [|r i|r i|r s j|s]; simpl; intros Ht Hc.
  - subst tail. right. apply Hfree.
  - destruct Ht as [-> _]. right. apply Hfree.
  - destruct Ht as [-> _]. right. apply Hfree.
  - destruct Ht as (_ & _ & ->). apply Forall_cons in Hc as [(_ & _ & H0) _].
    destruct j as [|j]; [right; apply Hfree|left]. cbn [drop]. rewrite drop_replicate.
    destruct (decide (S j ≤ length r)) as [Hj|Hj].
    + rewrite take_app_le by done. rewrite c_str_front by by apply not_elem_of_take.
      by rewrite c_str_nuls, app_nil_r.
    + rewrite (take_ge r) by lia. rewrite take_ge by (rewrite length_app; simpl; lia).
      rewrite <- app_assoc. by apply c_str_app.
  - destruct Ht as [_ ->]. left. apply c_str_nuls.
Qed.

(** When the front is whole, "exit" is seen if it is in a request or in what is copied of one. *)
Definition exit_put (q : list bytes) (a : adder) : Prop :=
  (∃ r, r ∈ q ∧ occurs exit_word r) ∨ occurs exit_word (shown a).

Lemma has_exit_put k q a n tail :
  tail_at a (length (front_of k q)) n tail → Forall clean q → Forall clean (in_work a) →
  has_exit (front_of k q ++ tail) = true ↔ exit_put q a.
Proof.
  intros Ht Hq Hw. unfold has_exit, exit_put. rewrite bool_decide_eq_true, strstr_occurs.
  rewrite c_str_front by by apply front_no_nul. 
  destruct (c_str_tail _ _ _ _ Ht Hw) as [->| ->].
  - apply occurs_front.
  - rewrite app_assoc, occurs_end. apply occurs_front.
Qed.

Lemma occurs_prefix p s s' : occurs p s → s `prefix_of` s' → occurs p s'.
Proof. intros (a & b & ->) [c ->]. exists a, (b ++ c). by rewrite <- !app_assoc. Qed.

(** A client only adds to what is seen. *)
Lemma exit_put_step p q a new :
  in_work a = new ++ in_work (next p a) → exit_put q a → exit_put (q ++ new) (next p a).
Proof.
  intros Hw [(r & Hr & Ho)|Ho]; [left; exists r; rewrite elem_of_app; tauto|].
  destruct a as [|r i|r i|r s j|s]; simpl in *.
  1-3, 5: by destruct Ho as ([|] & ? & ?).
  destruct (decide (j ≤ length r)) as [Hj|Hj]; simpl in *.
  - right. eapply occurs_prefix; [exact Ho|]. exists (take 1 (drop j r)).
    rewrite take_take_drop. by rewrite Nat.add_1_r.
  - rewrite app_nil_r in Hw. left. exists r. rewrite <- Hw. split; [apply elem_of_app; right; left|].
    by rewrite take_ge in Ho by lia.
Qed.

Lemma exit_put_in q a : exit_put q a → ∃ r, r ∈ q ++ in_work a ∧ occurs exit_word r.
Proof.
  intros [(r & Hr & Ho)|Ho]; [exists r; rewrite elem_of_app; tauto|].
  destruct a as [|r i|r i|r s j|s]; simpl in *.
  1-3, 5: by destruct Ho as ([|] & ? & ?).
  exists r. split; [apply elem_of_app; right; left|].
  eapply occurs_prefix; [exact Ho|]. exists (drop j r). by rewrite take_drop.
Qed.
