(* ===== verification/MainSteps.v ===== *)
(** * The main loop of the server, one access after the other

    main of server.c from its loop on: the tests of strstr(shm, "exit"), charcount and
    dequeueItem, every access to the segment a step (strstr reads the segment at one moment),
    and what the steps do to the part of the segment in front of the end mark. *)

From stdpp Require Import base list strings.
From Stdlib Require Import Ascii.
From S2P Require Import Prelude CString Text Segment ReqQueue AddSteps.

(** ** The server, between two accesses *)
Inductive taker :=
  | TPoll                                 (** [while (strstr(shm,"exit") == NULL)] *)
  | TCount (i : nat) (n : Z)              (** charcount has counted [n] marks before [i] *)
  | TLook                                 (** [if (strstr(shm,"exit") == NULL) curItem = dequeueItem(RQptr);] *)
  | TFind (i : nat)                       (** [for (s = shm; *s != '>'; s++)] *)
  | TTake (i : nat) (str : bytes)         (** the request is copied *)
  | TMove (i r : nat) (str : bytes)       (** the header is written, down from [i] *)
  | TFork (it : option item)              (** [if (strstr(shm,"exit") == NULL) n = fork();] *)
  | TAlone (it : option item)             (** without fork: [if (n == 0 && strstr(shm,"exit") == NULL)] *)
  | TParent                               (** after it: [else if (n != 0 && strstr(shm,"exit") == NULL)] *)
  | TStop (it : option item).             (** main has returned; no child has got [it] *)

Definition exit_now : Sg bool := s ← get_state; mret (has_exit s).

Lemma exit_now_ok s : exit_now s = Ok (has_exit s, s).
Proof. done. Qed.

(** ChildsPlay begins with [curItem]; if there is none it reads what was freed. *)
Definition give (it : option item) (t : taker) (RQptr : nat) : Sg (taker * nat * list item) :=
  match it with Some it => mret (t, RQptr, [it]) | None => fail_ub NullDeref end.

(** One access: where the server is then, [RQptr], and the item if a child is forked for one. *)
Definition main_step (junk : nat → nat → ascii) (RQptr : nat) (t : taker) : Sg (taker * nat * list item) :=
  match t with
  | TPoll => e ← exit_now; mret (if e : bool then TFork None else TCount 0 0, RQptr, [])
  | TCount i n =>
      x ← rd i;
      if decide (x = LT) then mret (if decide (1 < n)%Z then TLook else TPoll, RQptr, [])
      else mret (TCount (S i) (if decide (x = GT) then n + 1 else n)%Z, RQptr, [])
  | TLook => e ← exit_now; mret (if e : bool then TFork None else TFind 0, RQptr, [])
  | TFind i => x ← rd i; mret (if decide (x = GT) then TTake (S i) [] else TFind (S i), RQptr, [])
  | TTake i str =>
      x ← rd i;
      if decide (x = GT) then mret (TMove (S i) (length rqHeader) str, RQptr, [])
      else if decide (length str < 1024) then mret (TTake (S i) (str ++ [x]), RQptr, [])
      else fail_ub Overflow
  | TMove (S s) r str =>
      wr s (match r with S r' => default NUL (rqHeader !! r') | O => SP end);;
      mret (TMove s (pred r) str, RQptr, [])
  | TMove O r str =>
      seg ← get_state;
      match strstr (c_str (drop RQptr seg)) rqHeader with
      | None => fail_ub NullDeref
      | Some n =>
          str ← lift (str_of (str ++ [junk RQptr (length str)]));
          it ← lift (split_item str);
          mret (TFork (Some it), RQptr + n, [])
      end
  | TFork it =>
      e ← exit_now; if (e : bool) then mret (TAlone it, RQptr, []) else give it TParent RQptr
  | TAlone it =>
      e ← exit_now; if (e : bool) then mret (TStop it, RQptr, []) else give it (TStop None) RQptr
  | TParent => e ← exit_now; mret (if e : bool then TStop None else TPoll, RQptr, [])
  | TStop it => mret (TStop it, RQptr, [])
  end.

Definition stopped (t : taker) : bool := match t with TStop _ => true | _ => false end.

(** The two places where the server reads what is not its: behind a segment of [n] bytes, when
    charcount has not met the end mark; and behind the copy of a request, which strdup takes for
    a string, when the byte that malloc left there is not NUL. *)
Definition behind (n : nat) (t : taker) : Prop :=
  match t with TCount i _ => n ≤ i | _ => False end.
Definition unterminated (junk : nat → nat → ascii) (RQptr : nat) (t : taker) : Prop :=
  match t with TMove O _ str => junk RQptr (length str) ≠ NUL | _ => False end.
Definition misreads (junk : nat → nat → ascii) (n RQptr : nat) (t : taker) : Prop :=
  behind n t ∨ unterminated junk RQptr t.

(** States in which nothing of a request has been read. *)
Definition polling (t : taker) : Prop :=
  match t with TPoll | TCount _ _ | TLook | TParent => True | _ => False end.

(** ** The part in front of the end mark *)

(** Around the request that is taken, before and after the header has moved. *)
Definition before_move (k : nat) (str : bytes) : bytes := replicate k SP ++ rqHeader ++ closed str.
Definition after_move (k : nat) (str : bytes) : bytes := replicate (k + S (length str)) SP ++ rqHeader.

(** Requests that the server has taken and no child has got. *)
Definition in_hand (t : taker) : list bytes :=
  match t with
  | TMove _ _ str => [str]
  | TFork (Some it) | TAlone (Some it) | TStop (Some it) => [request it]
  | _ => []
  end.

(** The server has seen "exit". *)
Definition stopping (t : taker) : Prop :=
  match t with TFork None | TAlone _ | TStop _ => True | _ => False end.

Definition marks (l : bytes) : Z := Z.of_nat (length (filter (λ x, x = GT) l)).

Definition front_at (t : taker) (k : nat) (q : list bytes) (front : bytes) : Prop :=
  match t with
  | TCount i n => front = front_of k q ∧ (n ≤ marks (take i front))%Z
  | TLook => front = front_of k q ∧ q ≠ []
  | TFind i => front = front_of k q ∧ i ≤ k + 15 ∧ ∃ r q', q = r :: q' ∧ no_exit r
  | TTake i str => front = front_of k q ∧ i = k + 16 + length str ∧
                   ∃ rest q', q = (str ++ rest) :: q' ∧ no_exit (str ++ rest)
  | TMove m r str => m ≤ length (before_move k str) ∧ r = m - (k + S (length str)) ∧
                     front = take m (before_move k str) ++ drop m (after_move k str) ++ mjoin (closed <$> q)
  | _ => front = front_of k q
  end.

Lemma write_down (a b : bytes) j c :
  b !! j = Some c → j < length a →
  <[j:=c]> (take (S j) a ++ drop (S j) b) = take j a ++ drop j b.
Proof.
  intros Hc Ha. apply lookup_lt_is_Some_2 in Ha as Hd. destruct Hd as [d Hd].
  rewrite (take_S_r _ _ _ Hd), <- app_assoc.
  rewrite insert_app_r_alt by (rewrite length_take; lia).
  rewrite length_take, Nat.min_l, Nat.sub_diag by lia. simpl. by rewrite (drop_S _ _ _ Hc).
Qed.

Lemma length_before k str : length (before_move k str) = k + 17 + length str.
Proof. unfold before_move, closed. rewrite !length_app, length_replicate. simpl. lia. Qed.
Lemma length_after k str : length (after_move k str) = k + 17 + length str.
Proof. unfold after_move. rewrite length_app, length_replicate. simpl. lia. Qed.

Lemma front_of_cons k r q : front_of k (r :: q) = before_move k r ++ mjoin (closed <$> q).
Proof. unfold front_of, before_move. rewrite fmap_cons, mjoin_cons. by rewrite <- !app_assoc. Qed.
Lemma front_of_after k str q :
  after_move k str ++ mjoin (closed <$> q) = front_of (k + S (length str)) q.
Proof. unfold front_of, after_move. by rewrite <- !app_assoc. Qed.
Lemma front_of_snoc k q r : front_of k (q ++ [r]) = front_of k q ++ closed r.
Proof. unfold front_of. rewrite mjoin_snoc. by rewrite <- !app_assoc. Qed.

Lemma front_of_ends k q : ∃ g, front_of k q = g ++ [GT].
Proof. exact (before_mark k q). Qed.

(** What the client relies on: there is no '<' up to the last mark, and a mark at its end. *)
Lemma front_ends t k q front :
  front_at t k q front → Forall clean (in_hand t ++ q) → (∃ g, front = g ++ [GT]) ∧ LT ∉ front.
Proof.
  intros Hf Hc. assert (front = front_of k q ∨ ∃ m r str, t = TMove m r str) as [->|(m & r & str & ->)].
  { destruct t; simpl in Hf; try (by left); first [by left; apply Hf|right; eauto]. }
  { apply Forall_app in Hc as [_ Hq]. split; [apply front_of_ends|by apply no_lt]. }
  destruct Hf as (Hm & _ & ->). simpl in Hc. pose proof Hc as [Hs Hq]%Forall_cons.
  pose proof (no_lt k (str :: q) Hc) as Hold. change (LT ∉ front_of k (str :: q)) in Hold.
  rewrite front_of_cons in Hold. apply not_elem_of_app in Hold as [Hold Hj].
  pose proof (no_lt (k + S (length str)) q Hq) as Hnew. change (LT ∉ front_of (k + S (length str)) q) in Hnew.
  rewrite <- front_of_after in Hnew. apply not_elem_of_app in Hnew as [Hnew _].
  split.
  - destruct (decide (m = length (before_move k str))) as [->|Hne].
    + rewrite firstn_all. rewrite length_before, <- (length_after k), drop_all, app_nil_l, <- front_of_cons.
      apply front_of_ends.
    + destruct (front_of_ends (k + S (length str)) q) as [g Hg]. rewrite <- front_of_after in Hg.
      exists (take m (before_move k str) ++ drop m g). rewrite <- app_assoc. f_equal.
      rewrite <- (drop_app_le _ (mjoin (closed <$> q))) by (rewrite length_after, <- (length_before k); lia).
      rewrite Hg. apply drop_app_le. apply (f_equal length) in Hg. rewrite !length_app, length_after in Hg.
      rewrite length_before in *. simpl in Hg. lia.
  - rewrite !not_elem_of_app. split_and!; [by apply not_elem_of_take|by apply not_elem_of_drop|done].
Qed.

(** ** A step of the client *)
Lemma marks_app a b : marks (a ++ b) = (marks a + marks b)%Z.
Proof. unfold marks. rewrite filter_app, length_app. lia. Qed.

Lemma front_grows t k q front new :
  front_at t k q front → front_at t k (q ++ new) (front ++ mjoin (closed <$> new)).
Proof.
  assert (E : ∀ q, mjoin (closed <$> q ++ new) = mjoin (closed <$> q) ++ mjoin (closed <$> new))
    by (intros; by rewrite fmap_app, mjoin_app).
  assert (Ef : front_of k q ++ mjoin (closed <$> new) = front_of k (q ++ new)).
  { unfold front_of. rewrite E. by rewrite <- !app_assoc. }
  assert (Ec : ∀ r q', q = r :: q' → q ++ new = r :: (q' ++ new)) by (by intros ? ? ->).
  destruct t as [|i c| |i|i str|m r str|it|it| |it]; simpl; try by intros ->.
  - intros [-> Hc]. split; [done|]. rewrite take_app, marks_app. unfold marks in *. lia.
  - intros (-> & Hq). split; [done|]. by destruct q.
  - intros (-> & Hi & r & q' & E' & Hn). split; [done|]. split; [done|]. eauto.
  - intros (-> & Hi & rest & q' & E' & Hn). split; [done|]. split; [done|]. eauto.
  - intros (Hm & Hr & ->). split; [done|]. split; [done|]. by rewrite E, <- !app_assoc.
Qed.

(** ** A step of the server *)
Lemma rd_at (s : bytes) i : (∃ x, s !! i = Some x ∧ rd i s = Ok (x, s)) ∨ length s ≤ i.
Proof.
  destruct (s !! i) as [x|] eqn:E; [left; exists x; by rewrite (rd_ok _ _ _ E)|].
  right. by apply lookup_ge_None.
Qed.

Lemma marks_front k q : Forall clean q → marks (front_of k q) = Z.of_nat (S (length q)).
Proof. intros Hq. unfold marks, front_of. by rewrite count_marks. Qed.

Lemma marks_take i l : (0 ≤ marks (take i l) ≤ marks l)%Z.
Proof. rewrite <- (take_drop i l) at 3. rewrite marks_app. unfold marks. lia. Qed.

Lemma marks_take_S i (l : bytes) x : l !! i = Some x →
  marks (take (S i) l) = (marks (take i l) + if decide (x = GT) then 1 else 0)%Z.
Proof.
  intros Hx. rewrite (take_S_r _ _ _ Hx), marks_app. f_equal. unfold marks. rewrite filter_cons.
  by case_decide.
Qed.

(** A request that the server can take, or that ends it. *)
Definition acceptable (r : bytes) : Prop := clean r ∧ (occurs exit_word r ∨ takeable r).

#[export] Instance acceptable_dec r : Decision (acceptable r).
Proof. unfold acceptable. apply _. Defined.

Lemma acceptable_takeable r : acceptable r → no_exit r → takeable r.
Proof. by intros [_ [?|?]] ?. Qed.

(** Where a step of the server leads, when the client is at [a]. *)
Record leads (junk : nat → nat → ascii) (RQptr : nat) (t : taker) (a : adder) (k : nat) (q : list bytes)
    (front tail : bytes) (t' : taker) (RQ' : nat) (out : list item) (k' : nat) (q' : list bytes)
    (front' : bytes) : Prop := {
  le_step : main_step junk RQptr t (front ++ tail) = Ok ((t', RQ', out), front' ++ tail);
  le_len : length front' = length front;
  le_reqs : in_hand t ++ q = (request <$> out) ++ in_hand t' ++ q';
  le_hand : Forall no_exit ((request <$> out) ++ in_hand t');
  le_front : front_at t' k' q' front';
  le_rq : RQ' ≤ k';
  le_stop : stopping t' → exit_put q' a;
  le_put : exit_put q a → exit_put q' a ∧ out = [];
}.

Section server_steps.
Context (junk : nat → nat → ascii) (RQ : nat) (a : adder) (k : nat) (q : list bytes) (front tail : bytes).
Hypothesis HRQ : RQ ≤ k.
Hypothesis Hsee : front = front_of k q → has_exit (front ++ tail) = true ↔ exit_put q a.

Abbreviation moves t := (∃ t' RQ' out k' q' front', leads junk RQ t a k q front tail t' RQ' out k' q' front').

(** A step that only reads. *)
Lemma reads t t' :
  main_step junk RQ t (front ++ tail) = Ok ((t', RQ, []), front ++ tail) →
  in_hand t = in_hand t' → Forall no_exit (in_hand t) → front_at t' k q front →
  (stopping t' → exit_put q a) → moves t.
Proof using HRQ. intros E Hq Hh Hf Hs. exists t', RQ, [], k, q, front. constructor; try done; by rewrite <- Hq. Qed.

(** A test of strstr(shm, "exit"): where it leads without and with the word. *)
Lemma tests t (t0 : taker * nat * list item) t1 :
  front = front_of k q →
  main_step junk RQ t (front ++ tail) =
    Ok (if has_exit (front ++ tail) then (t1, RQ, []) else t0, front ++ tail) →
  (¬ exit_put q a → main_step junk RQ t (front ++ tail) = Ok (t0, front ++ tail) → moves t) →
  in_hand t = in_hand t1 → Forall no_exit (in_hand t) → front_at t1 k q front → moves t.
Proof using HRQ Hsee.
  intros Ef E H0 Hq Hh Hf. destruct (has_exit (front ++ tail)) eqn:Ex.
  - apply (reads _ t1); try done. intros _. by apply Hsee.
  - apply H0; [|done]. by rewrite <- (Hsee Ef).
Qed.

Lemma poll_moves : front_at TPoll k q front → moves TPoll.
Proof using All.
  intros Hf. apply (tests _ (TCount 0 0, RQ, []) (TFork None)); try done.
  - cbn [main_step]. erewrite bind_Ok by apply exit_now_ok. by destruct (has_exit _).
  - intros _ E. apply (reads _ (TCount 0 0)); try done.
Qed.

Lemma look_moves : Forall acceptable q → front_at TLook k q front → moves TLook.
Proof using All.
  intros Hq [Hf Hne]. apply (tests _ (TFind 0, RQ, []) (TFork None)); try done.
  - cbn [main_step]. erewrite bind_Ok by apply exit_now_ok. by destruct (has_exit _).
  - intros Hno E. apply (reads _ (TFind 0)); try done. split; [done|]. split; [lia|].
    destruct q as [|r q']; [done|]. exists r, q'. split; [done|]. intros Ho. apply Hno. left.
    exists r. split; [left|done].
Qed.

Lemma parent_moves : front_at TParent k q front → moves TParent.
Proof using All.
  intros Hf. apply (tests _ (TPoll, RQ, []) (TStop None)); try done.
  - cbn [main_step]. erewrite bind_Ok by apply exit_now_ok. by destruct (has_exit _).
  - intros _ E. by apply (reads _ TPoll).
Qed.

(** The fork; without an item the word has been seen. *)
Lemma fork_moves it :
  Forall no_exit (in_hand (TFork it)) → (it = None → exit_put q a) →
  front_at (TFork it) k q front → moves (TFork it).
Proof using All.
  intros Hh Hs Hf. destruct (has_exit (front ++ tail)) eqn:Ex.
  - apply (reads _ (TAlone it)); try done; [|by intros _; apply Hsee].
    cbn [main_step]. erewrite bind_Ok by apply exit_now_ok. by rewrite Ex.
  - assert (¬ exit_put q a) as Hno by (by rewrite <- (Hsee Hf)).
    destruct it as [it|]; [|by destruct (Hno (Hs eq_refl))].
    exists TParent, RQ, [it], k, q, front. constructor; try done.
    cbn [main_step]. erewrite bind_Ok by apply exit_now_ok. by rewrite Ex.
Qed.

Lemma alone_moves it :
  Forall no_exit (in_hand (TAlone it)) → exit_put q a → front_at (TAlone it) k q front → moves (TAlone it).
Proof using All.
  intros Hh Hs Hf. apply (reads _ (TStop it)); try done. cbn [main_step]. erewrite bind_Ok by apply exit_now_ok.
  by rewrite (proj2 (Hsee Hf) Hs).
Qed.

Lemma count_moves i n :
  Forall clean q → GT ∉ tail → front_at (TCount i n) k q front →
  length (front ++ tail) ≤ i ∨ moves (TCount i n).
Proof using All.
  intros Hq Ht [Hf Hn]. destruct (rd_at (front ++ tail) i) as [(x & Hx & E)|?]; [right|by left].
  destruct (decide (x = LT)) as [Hlt|Hlt].
  - apply (reads _ (if decide (1 < n)%Z then TLook else TPoll)).
    + cbn [main_step]. erewrite bind_Ok by exact E. cbv beta. by rewrite decide_True.
    + by case_decide.
    + done.
    + case_decide as H1; [|done]. split; [done|]. intros Eq. rewrite Hf, Eq in Hn.
      pose proof (marks_take i (front_of k [])). rewrite (marks_front k [] (Forall_nil_2 _)) in *. simpl in *. lia.
    + by case_decide.
  - apply (reads _ (TCount (S i) (if decide (x = GT) then n + 1 else n)%Z)); try done.
    + cbn [main_step]. erewrite bind_Ok by exact E. cbv beta. by rewrite decide_False.
    + split; [done|]. destruct (decide (i < length front)) as [Hi|Hi].
      * rewrite lookup_app_l in Hx by done. rewrite (marks_take_S _ _ _ Hx). case_decide; lia.
      * rewrite lookup_app_r in Hx by lia. rewrite decide_False.
        2:{ intros ->. apply Ht, list_elem_of_lookup. eauto. }
        rewrite take_ge in * by lia. done.
Qed.

Lemma find_moves i : front_at (TFind i) k q front → moves (TFind i).
Proof using All.
  intros (Hf & Hi & r & q' & Eq & Hno'). set (pre := replicate k SP ++ lit "Request Queue -").
  assert (Hpre : length pre = k + 15) by (unfold pre; by rewrite length_app, length_replicate).
  assert (E : front = pre ++ GT :: mjoin (closed <$> q)).
  { rewrite Hf. unfold front_of, pre. by rewrite <- app_assoc. }
  assert (Hno : GT ∉ pre).
  { unfold pre. rewrite not_elem_of_app. split; [by intros [? _]%elem_of_replicate|].
    apply (bool_decide_unpack _); by vm_compute. }
  destruct (decide (i = k + 15)) as [->|Hik].
  - apply (reads _ (TTake (S (k + 15)) [])); try done.
    + cbn [main_step]. erewrite bind_Ok.
      2:{ apply rd_ok. rewrite E, <- app_assoc, lookup_app_r, Hpre, Nat.sub_diag by lia. done. }
      cbv beta. by rewrite decide_True.
    + split; [done|]. split; [simpl; lia|]. by exists r, q'.
  - destruct (lookup_lt_is_Some_2 pre i ltac:(lia)) as [x Hx].
    apply (reads _ (TFind (S i))); try done.
    + cbn [main_step]. erewrite bind_Ok.
      2:{ apply rd_ok. rewrite E, <- app_assoc. by apply lookup_app_l_Some. }
      cbv beta. rewrite decide_False; [done|]. intros ->. apply Hno, list_elem_of_lookup. eauto.
    + split; [done|]. split; [lia|]. by exists r, q'.
Qed.

Lemma take_moves i str :
  Forall acceptable q → front_at (TTake i str) k q front → moves (TTake i str).
Proof using All.
  intros Hq (Hf & Hi & rest & q' & Eq & Hno). set (pre := replicate k SP ++ rqHeader ++ str).
  assert (Hpre : length pre = i).
  { unfold pre. rewrite !length_app, length_replicate. simpl. lia. }
  assert (E : front = pre ++ rest ++ GT :: mjoin (closed <$> q')).
  { rewrite Hf, Eq. unfold front_of, pre. rewrite fmap_cons, mjoin_cons. unfold closed at 1.
    by rewrite <- !app_assoc. }
  assert (Hrd : ∀ x l, rest ++ [GT] = x :: l → rd i (front ++ tail) = Ok (x, front ++ tail)).
  { intros x l Hx. apply rd_ok. rewrite E, cons_middle, (app_assoc rest), Hx, <- !app_assoc.
    by rewrite lookup_app_r, Hpre, Nat.sub_diag by lia. }
  pose proof Hq as Ht. rewrite Eq in Ht. apply Forall_cons in Ht as [Ht _].
  destruct (acceptable_takeable _ Ht Hno) as ((Hg & _) & _ & Hl).
  destruct rest as [|x rest].
  - rewrite app_nil_r in Eq, Hno. exists (TMove (S i) (length rqHeader) str), RQ, [], k, q', front.
    constructor; try done.
    + cbn [main_step]. erewrite bind_Ok by by apply (Hrd GT []). cbv beta. by rewrite decide_True.
    + by apply Forall_singleton.
    +  split; [rewrite length_before; lia|]. split; [simpl; lia|].
      rewrite take_ge, drop_ge by (rewrite ?length_before, ?length_after; lia).
      by rewrite Hf, Eq, front_of_cons.
    + intros Hp. split; [|done]. destruct Hp as [(r & Hr & Ho)|?]; [|by right]. left. exists r. split; [|done].
      rewrite Eq in Hr. by apply elem_of_cons in Hr as [->|?].
  - apply not_elem_of_app in Hg as [_ [Hx _]%not_elem_of_cons]. rewrite length_app in Hl. simpl in Hl.
    apply (reads _ (TTake (S i) (str ++ [x]))); try done.
    + cbn [main_step]. erewrite bind_Ok by by apply (Hrd x (rest ++ [GT])). cbv beta.
      rewrite decide_False by done. rewrite decide_True by lia. done.
    + split; [done|]. split; [rewrite length_app; simpl; lia|]. exists rest, q'. by rewrite <- app_assoc.
Qed.

Lemma move_moves i r str :
  no_exit str → front_at (TMove (S i) r str) k q front → moves (TMove (S i) r str).
Proof using All.
  intros Hs (Hi & Hr & Hf). pose proof (length_before k str) as Hb. pose proof (length_after k str) as Ha.
  assert (Hw : after_move k str !! i = Some (match r with S r' => default NUL (rqHeader !! r') | O => SP end)).
  { unfold after_move. destruct r as [|r'].
    - rewrite lookup_app_l by (rewrite length_replicate; lia). apply lookup_replicate_2. lia.
    - rewrite lookup_app_r by (rewrite length_replicate; lia). rewrite length_replicate.
      replace (i - (k + S (length str))) with r' by lia.
      destruct (lookup_lt_is_Some_2 rqHeader r') as [c Hc]; [simpl; lia|]. by rewrite Hc. }
  exists (TMove i (pred r) str), RQ, [], k, q,
    (take i (before_move k str) ++ drop i (after_move k str) ++ mjoin (closed <$> q)).
  assert (Hlen : length front = k + 17 + length str + length (mjoin (closed <$> q))).
  { rewrite Hf, !length_app, length_take, length_drop. lia. }
  constructor; try done.
  - cbn [main_step]. erewrite bind_Ok by (apply wr_ok; rewrite length_app; lia). cbv beta.
    do 2 f_equal. rewrite Hf, !(app_assoc _ (drop _ _)).
    rewrite <- !(app_assoc (_ ++ drop _ _)), insert_app_l.
    + by rewrite (write_down _ _ _ _ Hw) by lia.
    + rewrite length_app, length_take, length_drop. lia.
  - rewrite Hlen, !length_app, length_take, length_drop. lia.
  - by apply Forall_singleton.
  - split; [lia|]. split; [lia|done].
Qed.

(** The header has moved: where RQptr points to then. *)
Lemma end_step r str :
  front_at (TMove O r str) k q front →
  front = front_of (k + S (length str)) q ∧
  main_step junk RQ (TMove O r str) (front ++ tail) =
    (s ← str_of (str ++ [junk RQ (length str)]);
     it ← split_item s;
     Ok ((TFork (Some it), k + S (length str), []), front ++ tail)).
Proof using All.
  intros (_ & _ & Hf). rewrite take_0, drop_0, app_nil_l, front_of_after in Hf.
  set (k' := k + S (length str)) in *. split; [done|]. cbn [main_step].
  assert (Hstr : strstr (c_str (drop RQ (front ++ tail))) rqHeader = Some (k' - RQ)).
  { rewrite Hf. unfold front_of. rewrite <- app_assoc, drop_app_le by (rewrite length_replicate; lia).
    rewrite drop_replicate, <- (app_assoc rqHeader), app_assoc, c_str_front.
    - rewrite <- app_assoc. apply find_header.
    - rewrite not_elem_of_app. split; [by intros [? _]%elem_of_replicate|].
      apply (bool_decide_unpack _); by vm_compute. }
  erewrite bind_Ok by done. cbv beta. rewrite Hstr.
  rewrite lift_bind. destruct (str_of (str ++ [junk RQ (length str)])) as [s| | |]; [|done..]. simpl.
  rewrite lift_bind. destruct (split_item s) as [it| | |]; [|done..]. simpl.
  unfold mret, M_ret. do 4 f_equal. lia.
Qed.

Lemma end_moves r str :
  takeable str → no_exit str → junk RQ (length str) = NUL → front_at (TMove O r str) k q front →
  moves (TMove O r str).
Proof using All.
  intros Hs Hno Hj Hf. destruct (split_takeable str Hs) as (it & Eit & Er & _).
  destruct (end_step r str Hf) as [Hf' E].
  exists (TFork (Some it)), (k + S (length str)), [], (k + S (length str)), q, front.
  constructor; try done; try (simpl; rewrite <- ?Er; (done || lia || by apply Forall_singleton)).
  rewrite E, Hj. destruct Hs as ((_ & _ & H0) & _). unfold str_of.
  rewrite decide_True by (apply elem_of_app; right; left). rewrite c_str_app by done. simpl. by rewrite Eit.
Qed.

Lemma end_wrong r str :
  clean str → junk RQ (length str) ≠ NUL → front_at (TMove O r str) k q front →
  main_step junk RQ (TMove O r str) (front ++ tail) = Ub BadAccess.
Proof using All.
  intros (_ & _ & H0) Hj Hf. destruct (end_step r str Hf) as [_ ->]. unfold str_of.
  rewrite decide_False; [done|]. rewrite not_elem_of_app. split; [done|]. by intros E%list_elem_of_singleton.
Qed.
End server_steps.

(** The server stops, reads what is not its, or makes a step. *)
Lemma main_step_ok junk RQ t a k q front tail :
  Forall acceptable q → Forall acceptable (in_hand t) → Forall no_exit (in_hand t) →
  RQ ≤ k → GT ∉ tail → front_at t k q front → (stopping t → exit_put q a) →
  (front = front_of k q → has_exit (front ++ tail) = true ↔ exit_put q a) →
  stopped t = true ∨
  (misreads junk (length (front ++ tail)) RQ t ∧ main_step junk RQ t (front ++ tail) = Ub BadAccess) ∨
  ∃ t' RQ' out k' q' front', leads junk RQ t a k q front tail t' RQ' out k' q' front'.
Proof.
  intros Hq Hh Hx HRQ Htl Hf Hs Hsee.
  assert (Hc : Forall clean q) by (eapply Forall_impl; [exact Hq|]; by intros ? []).
  destruct t as [|i n| |i|i str|[|i] r str|it|it| |it]; [..|by left]; right.
  - right. by apply poll_moves.
  - destruct (count_moves junk RQ a k q front tail HRQ Hsee i n Hc Htl Hf) as [Hi|?]; [left|by right].
    split; [by left|]. cbn [main_step]. apply bind_Ub. unfold rd. by rewrite lookup_ge_None_2.
  - right. by apply look_moves.
  - right. by apply find_moves.
  - right. by apply take_moves.
  - apply Forall_cons in Hh as [Ha _], Hx as [? _].
    destruct (decide (junk RQ (length str) = NUL)) as [Hj|Hj].
    + right. apply end_moves; try done. by apply acceptable_takeable.
    + left. split; [by right|]. apply (end_wrong junk RQ a k q); try done. by destruct Ha.
  - right. apply Forall_cons in Hx as [? _]. by apply move_moves.
  - right. apply fork_moves; try done. by intros ->; apply Hs.
  - right. by apply alone_moves; try apply Hs.
  - right. by apply parent_moves.
Qed.

(** ** How many steps are left when "exit" is in the queue; [n] is the size of the segment *)
Definition rank (n : nat) (t : taker) : nat :=
  match t with
  | TStop _ => 0
  | TAlone _ | TParent => 1
  | TFork _ => 2
  | TPoll | TLook => 3
  | TMove m _ _ => 3 + m
  | TCount i _ => 4 + (n - i)
  | TTake i _ => 5 + n + (n - i)
  | TFind i => 6 + 2 * n + (n - i)
  end.

(** States in which the next access is strstr(shm, "exit"). *)
Definition testing (t : taker) : bool :=
  match t with TPoll | TLook | TFork _ | TAlone _ | TParent => true | _ => false end.

Lemma rd_inv i s x s' : rd i s = Ok (x, s') → i < length s.
Proof. unfold rd. destruct (s !! i) eqn:E; [|done]. intros _. by eapply lookup_lt_Some. Qed.

Lemma main_rank_step junk RQ t s t' RQ' out s' :
  main_step junk RQ t s = Ok ((t', RQ', out), s') → (testing t = true → has_exit s = true) →
  stopped t = false → rank (length s) t' < rank (length s) t.
Proof.
  intros E Ht Hs. destruct t as [|i n| |i|i str|[|i] r str|it|it| |it]; cbn [main_step] in E; [..|done].
  all: apply bind_inv in E as (x & s1 & E1 & E).
  all: try (rewrite exit_now_ok, (Ht eq_refl) in E1; injection E1 as <- <-; injection E as <- _ _ _; simpl; lia).
  - apply rd_inv in E1. case_decide; [|injection E as <- _ _ _; simpl; lia].
    injection E as <- _ _ _. case_decide; simpl; lia.
  - apply rd_inv in E1. injection E as <- _ _ _. case_decide; simpl; lia.
  - apply rd_inv in E1. case_decide; [injection E as <- _ _ _; simpl; lia|].
    case_decide; [injection E as <- _ _ _; simpl; lia|done].
  - destruct (strstr _ _); [|done]. apply bind_inv in E as (y & s2 & _ & E).
    apply bind_inv in E as (it & s3 & _ & E). injection E as <- _ _ _. simpl. lia.
  - injection E as <- _ _ _. simpl. lia.
Qed.
