(* ===== verification/SharedQueue.v ===== *)
(** * AddReq and the main loop of the server at the same time

    SEMrq keeps clients apart, and the server never waits for it: while a client runs AddReq
    the server looks for "exit", polls with charcount and takes requests with dequeueItem on
    the same segment. This file interleaves the accesses of AddSteps and MainSteps. *)

From stdpp Require Import base list strings relations.
From Stdlib Require Import Ascii.
From S2P Require Import Prelude CString Text Segment ReqQueue AddSteps MainSteps.

(** ** Both *)
Record qstate := QState {
  segment : bytes; todo : list bytes; client : adder;
  server : taker; RQptr : nat; taken : list item
}.

(** A client that gets SEMrq begins with the next request; nothing is left to do without one. *)
Definition client_step (s : qstate) : option (outcome qstate) :=
  match client s, todo s with
  | AIdle, [] => None
  | AIdle, r :: rs => Some (Ok (QState (segment s) rs (AScan r 0) (server s) (RQptr s) (taken s)))
  | a, _ => Some (p ← add_step a (segment s);
                  Ok (QState p.2 (todo s) p.1 (server s) (RQptr s) (taken s)))
  end.

(** [taken]: the items for which a child was forked. A server that has stopped makes no step. *)
Definition server_step (junk : nat → nat → ascii) (s : qstate) : option (outcome qstate) :=
  if stopped (server s) then None
  else Some (p ← main_step junk (RQptr s) (server s) (segment s);
             Ok (QState p.2 (todo s) (client s) p.1.1.1 p.1.1.2 (taken s ++ p.1.2))).

Inductive qstep (junk : nat → nat → ascii) (s : qstate) : qstate → Prop :=
  | q_client s' : client_step s = Some (Ok s') → qstep junk s s'
  | q_server s' : server_step junk s = Some (Ok s') → qstep junk s s'.

Definition q_init (reqs : list bytes) (n : nat) : qstate :=
  QState (layout 0 [] (n - 17)) reqs AIdle TPoll 0 [].

(** A schedule: whose turn it is. *)
Fixpoint q_run (junk : nat → nat → ascii) (turns : list bool) (s : qstate) : option qstate :=
  match turns with
  | [] => Some s
  | b :: ts =>
      match (if b then client_step s else server_step junk s) with
      | Some (Ok s') => q_run junk ts s'
      | _ => None
      end
  end.

Lemma q_run_steps junk ts s s' : q_run junk ts s = Some s' → rtc (qstep junk) s s'.
Proof.
  revert s. induction ts as [|[] ts IH]; intros s H; simpl in H; [by injection H as ->| |].
  - destruct (client_step s) as [[s1| | |]|] eqn:E; try done. eapply rtc_l; [by apply q_client|]. by apply IH.
  - destruct (server_step junk s) as [[s1| | |]|] eqn:E; try done. eapply rtc_l; [by apply q_server|]. by apply IH.
Qed.

(** ** The invariant *)

(** The segment in two parts: the server writes only up to the last mark, the client only
    behind it. *)
Record qinv (reqs : list bytes) (n : nat) (s : qstate) (k : nat) (q : list bytes) (front tail : bytes) : Prop := {
  qi_seg : segment s = front ++ tail;
  qi_reqs : reqs = (request <$> taken s) ++ in_hand (server s) ++ q ++ in_work (client s) ++ todo s;
  qi_hand : Forall no_exit ((request <$> taken s) ++ in_hand (server s));
  qi_stop : stopping (server s) → exit_put q (client s);
  qi_front : front_at (server s) k q front;
  qi_rq : RQptr s ≤ k;
  qi_tail : tail_at (client s) (length front) n tail;
  qi_room : length front + used (in_work (client s)) + used (todo s) < n;
}.

Section runs.
Context (junk : nat → nat → ascii) (reqs : list bytes) (n : nat).
Hypothesis acceptable_reqs : Forall acceptable reqs.

Lemma qinv_parts s k q front tail :
  qinv reqs n s k q front tail →
  Forall acceptable q ∧ Forall acceptable (in_hand (server s)) ∧ Forall no_exit (in_hand (server s)) ∧
  Forall clean (in_hand (server s) ++ q) ∧ Forall clean (in_work (client s)) ∧ GT ∉ tail.
Proof using All.
  intros [_ Hr Hx _ _ _ Ht _]. pose proof acceptable_reqs as H1.
  rewrite Hr in H1. apply Forall_app in Hx as [_ Hx]. rewrite !Forall_app in H1. destruct H1 as (_ & Hh & Hq & Hw & _).
  assert (Hc : ∀ l, Forall acceptable l → Forall clean l).
  { intros l Hl. eapply Forall_impl; [exact Hl|]. by intros ? []. }
  rewrite !Forall_app. split_and!; try (by apply Hc); try done; try tauto.
  eapply tail_no_mark; [exact Ht|]. by apply Hc.
Qed.

(** What strstr(shm, "exit") finds. *)
Lemma qinv_sees s k q front tail :
  qinv reqs n s k q front tail → front = front_of k q →
  has_exit (front ++ tail) = true ↔ exit_put q (client s).
Proof using All.
  intros Hi ->. pose proof (qinv_parts _ _ _ _ _ Hi) as (_ & _ & _ & Hc & Hw & _).
  eapply has_exit_put; [exact (qi_tail _ _ _ _ _ _ _ Hi)|by apply Forall_app in Hc as [_ ?]|done].
Qed.

Lemma client_moves s k q front tail :
  qinv reqs n s k q front tail → client s ≠ AIdle →
  ∃ s' new tail', client_step s = Some (Ok s') ∧
    client s' = next (length front) (client s) ∧ server s' = server s ∧
    steps_left (length front) (client s) =
      S (steps_left (length (front ++ mjoin (closed <$> new))) (client s')) ∧
    (new ≠ [] → steps_left (length front) (client s) = 2) ∧
    in_work (client s) = new ++ in_work (client s') ∧
    qinv reqs n s' k (q ++ new) (front ++ mjoin (closed <$> new)) tail'.
Proof using All.
  intros Hi Ha. pose proof (qinv_parts _ _ _ _ _ Hi) as (_ & _ & _ & Hc & _).
  destruct Hi as [Hs Hr Hx Hst Hf Hrq Ht Hroom]. destruct s as [sg td a t rq tk]; simpl in *.
  destruct (front_ends _ _ _ _ Hf Hc) as [Hg Hlt].
  destruct (add_step_ok front n Hg Hlt a tail Ht Ha ltac:(lia)) as (new & tail' & Hw & Hn & Hl & E & Ht').
  exists (QState ((front ++ mjoin (closed <$> new)) ++ tail') td (next (length front) a) t rq tk), new, tail'.
  split.
  { clear -Hs Ha E. unfold client_step. rewrite Hs. destruct a; [done|..]; cbn [client segment]; by rewrite E. }
  split; [done|]. split; [done|]. split; [done|]. split; [done|]. split; [done|]. constructor; simpl; try done.
  - rewrite Hr, Hw. by rewrite <- !app_assoc.
  - intros H. by apply exit_put_step, Hst.
  - by apply front_grows.
  - rewrite Hw, used_app in Hroom. rewrite length_app. change (length (mjoin (closed <$> new))) with (used new). lia.
Qed.

Lemma client_begins s k q front tail r rs :
  qinv reqs n s k q front tail → client s = AIdle → todo s = r :: rs →
  ∃ s', client_step s = Some (Ok s') ∧ client s' = AScan r 0 ∧ server s' = server s ∧
    qinv reqs n s' k q front tail.
Proof using All.
  intros [Hs Hr Hx Hst Hf Hrq Ht Hroom] Ha Htd. destruct s as [sg td a t rq tk]; simpl in *. subst a td.
  eexists. split; [done|]. split; [done|]. split; [done|]. constructor; simpl; try done; [split; [done|lia]|].
  rewrite !used_cons in *. change (used []) with 0 in *. lia.
Qed.

Lemma client_step_ok s k q front tail :
  qinv reqs n s k q front tail →
  match client_step s with
  | None => client s = AIdle ∧ todo s = []
  | Some o => ∃ s' q' front' tail', o = Ok s' ∧ qinv reqs n s' k q' front' tail'
  end.
Proof using All.
  intros Hi. assert (client s = AIdle ∨ client s ≠ AIdle) as [Ha|Ha] by (destruct (client s); auto).
  - destruct (todo s) as [|r rs] eqn:Et; [unfold client_step; by rewrite Ha, Et|].
    destruct (client_begins s k q front tail r rs Hi Ha Et) as (s' & -> & _ & _ & Hi').
    by exists s', q, front, tail.
  - destruct (client_moves s k q front tail Hi Ha) as (s' & new & tail' & -> & _ & _ & _ & _ & _ & Hi').
    by exists s', (q ++ new), (front ++ mjoin (closed <$> new)), tail'.
Qed.

Lemma segment_length s k q front tail : qinv reqs n s k q front tail → length (segment s) = n.
Proof using All.
  intros [-> _ _ _ _ _ Ht Hroom]. rewrite length_app.
  destruct (client s); simpl in Ht, Hroom; repeat match goal with H : _ ∧ _ |- _ => destruct H end; subst tail;
    simpl; rewrite ?length_app, ?length_take, ?length_drop, ?length_app; simpl; rewrite ?length_replicate; try lia.
  all: rewrite used_cons in Hroom; simpl; lia.
Qed.

Lemma server_step_ok s k q front tail :
  qinv reqs n s k q front tail →
  match server_step junk s with
  | None => stopped (server s) = true
  | Some o =>
      (misreads junk n (RQptr s) (server s) ∧ o = Ub BadAccess) ∨
      ∃ s' k' q' front', o = Ok s' ∧ client s' = client s ∧ todo s' = todo s ∧
        length front' = length front ∧ qinv reqs n s' k' q' front' tail ∧
        (exit_put q (client s) → exit_put q' (client s') ∧ taken s' = taken s)
  end.
Proof using All.
  intros Hi. pose proof (qinv_parts _ _ _ _ _ Hi) as (Hq & Hh & Hx & _ & _ & Hgt).
  pose proof (segment_length _ _ _ _ _ Hi) as Hn. pose proof (qinv_sees _ _ _ _ _ Hi) as Hsee.
  destruct Hi as [Hs Hr Hxt Hst Hf Hrq Ht Hroom]. unfold server_step.
  destruct (stopped (server s)) eqn:Es; [done|]. rewrite Hs in Hn |- *.
  destruct (main_step_ok junk (RQptr s) (server s) (client s) k q front tail Hq Hh Hx Hrq Hgt Hf Hst Hsee)
    as [?|[[Hm E]|(t' & RQ' & out & k' & q' & front' & [E Hlen Hq' Hx' Hf' Hrq' Hst' Hput])]];
    [congruence|left|right].
  - rewrite Hn in Hm. split; [done|]. by rewrite E.
  - rewrite E. eexists _, k', q', front'. split; [done|]. split; [done|]. split; [done|]. split; [done|].
    split; [constructor; simpl; try done; rewrite ?Hlen; try done|].
    + rewrite fmap_app, <- !app_assoc. rewrite Hr, (app_assoc (in_hand _)), Hq'. by rewrite <- !app_assoc.
    + rewrite fmap_app, <- app_assoc. apply Forall_app in Hxt as [? _]. by apply Forall_app.
    + simpl. intros Hp. destruct (Hput Hp) as [? ->]. by rewrite app_nil_r.
Qed.

Definition q_ok (s : qstate) : Prop := ∃ k q front tail, qinv reqs n s k q front tail.

Lemma q_ok_init : 17 + used reqs < n → q_ok (q_init reqs n).
Proof using All.
  intros Hn. exists 0, [], (front_of 0 []), (LT :: replicate (n - 17) NUL).
  constructor.
  - done.
  - done.
  - constructor.
  - done.
  - done.
  - done.
  - simpl. do 2 f_equal. lia.
  - change (length (front_of 0 [])) with 16. change (used []) with 0. simpl. lia.
Qed.

Lemma q_ok_step s s' : q_ok s → qstep junk s s' → q_ok s'.
Proof using All.
  intros (k & q & front & tail & Hi) [s1 E|s1 E].
  - pose proof (client_step_ok _ _ _ _ _ Hi) as Hc. rewrite E in Hc.
    destruct Hc as (? & q' & front' & tail' & [= <-] & Hi'). by exists k, q', front', tail'.
  - pose proof (server_step_ok _ _ _ _ _ Hi) as Hs. rewrite E in Hs.
    destruct Hs as [[_ ?]|(? & k' & q' & front' & [= <-] & _ & _ & _ & Hi' & _)]; [done|].
    by exists k', q', front', tail.
Qed.

Lemma q_ok_run s s' : rtc (qstep junk) s s' → q_ok s → q_ok s'.
Proof using All. apply rtc_preserves. apply q_ok_step. Qed.

Lemma steps_bound s k q front tail :
  qinv reqs n s k q front tail → client s ≠ AIdle → steps_left (length front) (client s) ≤ n + 6.
Proof using All.
  intros [_ _ _ _ _ _ Ht Hroom] Ha. destruct (client s); simpl in *; rewrite ?used_cons in Hroom; lia.
Qed.

(** A client that is given enough turns ends, however many the server has. *)
Lemma client_ends ts : ∀ s s' k q front tail,
  qinv reqs n s k q front tail → q_run junk ts s = Some s' →
  steps_left (length front) (client s) ≤ length (filter (λ b, b = true) ts) →
  ∃ us s1, us `prefix_of` ts ∧ q_run junk us s = Some s1 ∧ client s1 = AIdle.
Proof using All.
  induction ts as [|b ts IH]; intros s s' k q front tail Hi Hr Hl.
  all: assert (client s = AIdle ∨ client s ≠ AIdle) as [Ha|Ha] by (destruct (client s); auto);
    [exists [], s; split; [apply prefix_nil|done]|].
  - destruct (client_moves _ _ _ _ _ Hi Ha) as (? & ? & ? & _ & _ & _ & Hs & _). simpl in Hl. lia.
  - assert (∃ s1 k1 q1 front1 tail1, (if b then client_step s else server_step junk s) = Some (Ok s1) ∧
      qinv reqs n s1 k1 q1 front1 tail1 ∧
      steps_left (length front1) (client s1) ≤ length (filter (λ b, b = true) ts))
      as (s1 & k1 & q1 & front1 & tail1 & E & Hi1 & Hl1).
    { destruct b; cbn [q_run] in Hr.
      - destruct (client_moves _ _ _ _ _ Hi Ha) as (s1 & new & tail' & E & En & _ & Hs & Hn & _ & Hi1).
        exists s1, k, (q ++ new), (front ++ mjoin (closed <$> new)), tail'. split; [done|]. split; [done|].
        rewrite filter_cons_True in Hl by done. cbn [length] in Hl. lia.
      - pose proof (server_step_ok _ _ _ _ _ Hi) as Hs. destruct (server_step junk s) as [o|]; [|done].
        destruct Hs as [[_ ->]|(s1 & k1 & q1 & front1 & -> & Ec & _ & Ep & Hi1 & _)]; [done|].
        exists s1, k1, q1, front1, tail. split; [done|]. split; [done|].
        rewrite filter_cons_False in Hl by done. by rewrite Ec, Ep. }
    cbn [q_run] in Hr. rewrite E in Hr. destruct (IH _ _ _ _ _ _ Hi1 Hr Hl1) as (us & s2 & Hp & Hu & Hc).
    exists (b :: us), s2. split; [by apply prefix_cons|]. cbn [q_run]. by rewrite E.
Qed.

(** ** charcount in the middle of AddReq *)

(** Left alone, a client copies its request, and the end mark is then overwritten. *)
Lemma client_copies m : ∀ s k q front tail r,
  qinv reqs n s k q front tail → in_work (client s) = [r] → steps_left (length front) (client s) = m →
  ∃ s' tail', rtc (qstep junk) s s' ∧ server s' = server s ∧
    client s' = ACopy r (length front) (S (length r)) ∧ qinv reqs n s' k q front tail'.
Proof using All.
  induction m as [|m IH]; intros s k q front tail r Hi Hw Hm.
  all: assert (Ha : client s ≠ AIdle) by (intros E; by rewrite E in Hw).
  all: destruct (client_moves _ _ _ _ _ Hi Ha) as (s1 & new & tail1 & E & _ & Hsv & Hst & Hn & Hw1 & Hi1).
  - lia.
  - destruct new as [|x new].
    + assert (E0 : front ++ mjoin (closed <$> []) = front) by apply app_nil_r.
      rewrite E0 in Hi1, Hst. rewrite (app_nil_r q) in Hi1. simpl in Hw1.
      destruct (IH s1 k q front tail1 r Hi1) as (s' & tail' & Hr & Hsv' & Hc & Hi'); [congruence|lia|].
      exists s', tail'. split; [|by rewrite Hsv', Hsv]. eapply rtc_l; [by apply q_client|done].
    + exists s, tail. split; [apply rtc_refl|]. split; [done|]. split; [|done].
      specialize (Hn ltac:(done)). destruct Hi as [_ _ _ _ _ _ Ht _].
      destruct (client s) as [|y i|y i|y sx j|sx]; simpl in Hw, Hn, Ht; try done; try lia.
      injection Hw as ->. destruct Ht as (-> & Hj & _). f_equal. lia.
Qed.

Lemma count_runs_on d : ∀ s i c,
  server s = TCount i c → LT ∉ segment s → length (segment s) = i + d →
  ∃ s', rtc (qstep junk) s s' ∧ server_step junk s' = Some (Ub BadAccess).
Proof using All.
  induction d as [|d IH]; intros s i c Hs Hlt Hl.
  - exists s. split; [apply rtc_refl|]. unfold server_step. rewrite Hs. cbn [main_step stopped].
    rewrite bind_Ub with (u := BadAccess); [done|]. unfold rd. by rewrite lookup_ge_None_2 by lia.
  - destruct (lookup_lt_is_Some_2 (segment s) i ltac:(lia)) as [x Hx].
    set (c' := if decide (x = GT) then (c + 1)%Z else c).
    destruct (IH (QState (segment s) (todo s) (client s) (TCount (S i) c') (RQptr s) (taken s)) (S i) c')
      as (s' & Hr & E); [done|done|simpl; lia|].
    exists s'. split; [|done]. eapply rtc_l; [|exact Hr]. apply q_server.
    unfold server_step. rewrite Hs. cbn [main_step stopped]. erewrite bind_Ok by by apply rd_ok. cbv beta.
    rewrite decide_False.
    + cbn. by rewrite app_nil_r.
    + intros ->. by apply Hlt, list_elem_of_lookup; eauto.
Qed.

Lemma no_end_mark s k q front tail r :
  qinv reqs n s k q front tail → client s = ACopy r (length front) (S (length r)) → LT ∉ segment s.
Proof using All.
  intros Hi Hc. pose proof (qinv_parts _ _ _ _ _ Hi) as (_ & _ & _ & Hq & Hw & _).
  destruct Hi as [-> _ _ _ Hf _ Ht _]. rewrite Hc in Ht, Hw. simpl in Ht, Hw. destruct Ht as (_ & _ & ->).
  destruct (front_ends _ _ _ _ Hf Hq) as [_ Hlt]. apply Forall_cons in Hw as [(_ & Hr & _) _].
  rewrite !not_elem_of_app. split; [done|]. split.
  - apply not_elem_of_take, not_elem_of_app. split; [done|]. by intros ?%list_elem_of_singleton.
  - rewrite drop_replicate. by intros [? _]%elem_of_replicate.
Qed.

Lemma overrun s :
  q_ok s → client s = AIdle → todo s ≠ [] → server s = TCount 0 0 →
  ∃ s', rtc (qstep junk) s s' ∧ server_step junk s' = Some (Ub BadAccess).
Proof using All.
  intros (k & q & front & tail & Hi) Ha Ht Hs. destruct (todo s) as [|r rs] eqn:Et; [done|].
  destruct (client_begins _ _ _ _ _ _ _ Hi Ha Et) as (s1 & E1 & Hc1 & Hs1 & Hi1).
  destruct (client_copies (steps_left (length front) (client s1)) s1 k q front tail r Hi1) as (s2 & tail2 & Hr2 & Hs2 & Hc2 & Hi2);
    [by rewrite Hc1|done|].
  destruct (count_runs_on n s2 0 0) as (s3 & Hr3 & E3).
  - by rewrite Hs2, Hs1.
  - by eapply no_end_mark.
  - by rewrite (segment_length _ _ _ _ _ Hi2).
  - exists s3. split; [|done]. eapply rtc_l; [by apply q_client|]. by etrans.
Qed.

(** ** The queue when nobody is at work on it *)
Lemma q_ok_facts s : q_ok s →
  (∃ rest, reqs = (request <$> taken s) ++ rest) ∧ Forall no_exit (request <$> taken s) ∧
  (∀ o, client_step s = Some o → ∃ s', o = Ok s') ∧
  (∀ o, server_step junk s = Some o →
     (∃ s', o = Ok s') ∨ o = Ub BadAccess ∧ misreads junk n (RQptr s) (server s)) ∧
  (stopped (server s) = true → Exists (occurs exit_word) reqs) ∧
  (client s = AIdle → polling (server s) →
     ∃ k waiting room, segment s = layout k waiting room ∧
       reqs = (request <$> taken s) ++ waiting ++ todo s).
Proof using All.
  intros (k & q & front & tail & Hi). split_and!.
  - rewrite (qi_reqs _ _ _ _ _ _ _ Hi). eauto.
  - by pose proof (qi_hand _ _ _ _ _ _ _ Hi) as [? _]%Forall_app.
  - intros o Ho. pose proof (client_step_ok _ _ _ _ _ Hi) as Hc. rewrite Ho in Hc.
    destruct Hc as (s' & _ & _ & _ & -> & _). eauto.
  - intros o Ho. pose proof (server_step_ok _ _ _ _ _ Hi) as Hs. rewrite Ho in Hs.
    destruct Hs as [[? ?]|(s' & _ & _ & _ & -> & _)]; eauto.
  - intros Hs. destruct (exit_put_in q (client s)) as (r & Hr & Ho).
    { apply (qi_stop _ _ _ _ _ _ _ Hi). by destruct (server s). }
    apply Exists_exists. exists r. split; [|done]. rewrite (qi_reqs _ _ _ _ _ _ _ Hi), !elem_of_app in *. tauto.
  - destruct Hi as [Hs Hr _ _ Hf _ Ht _]. intros Hc Et. rewrite Hc in *. simpl in Ht.
    assert (front = front_of k q ∧ in_hand (server s) = []) as [-> Eh].
    { destruct (server s); try done; simpl in Hf; split; first [apply Hf|done]. }
    rewrite Eh in Hr. subst tail. exists k, q, (n - length (front_of k q) - 1). split; [|done].
    rewrite Hs. symmetry. apply layout_eq.
Qed.

(** Who looks for "exit" finds it only when a request has it, or while the header moves. *)
Definition moving (t : taker) : Prop := match t with TMove _ _ _ => True | _ => False end.

Lemma exit_shown s :
  q_ok s → has_exit (segment s) = true → Exists (occurs exit_word) reqs ∨ moving (server s).
Proof using All.
  intros (k & q & front & tail & Hi) Hx. pose proof (qinv_sees _ _ _ _ _ Hi) as Hsee.
  destruct Hi as [Hs Hr _ _ Hf _ _ _]. rewrite Hs in Hx.
  assert (front = front_of k q ∨ moving (server s)) as [E|?]; [|left|by right].
  { destruct (server s); simpl in Hf |- *; try (by right); left; first [apply Hf|done]. }
  destruct (exit_put_in q (client s)) as (r & Hin & Ho); [by apply Hsee|].
  apply Exists_exists. exists r. split; [|done]. rewrite Hr, !elem_of_app in *. tauto.
Qed.

(** ** After "exit" was added *)

(** The word is in the queue, and [tk] is what was taken. *)
Definition q_exit (tk : list item) (s : qstate) : Prop :=
  ∃ k q front tail, qinv reqs n s k q front tail ∧ exit_put q (client s) ∧ taken s = tk.

Lemma added_exit s added :
  q_ok s → reqs = added ++ todo s → client s = AIdle → Exists (occurs exit_word) added → q_exit (taken s) s.
Proof using All.
  intros (k & q & front & tail & Hi) Hr Ha (r & Hin & Ho)%Exists_exists. exists k, q, front, tail.
  split; [done|]. split; [|done]. left. exists r. split; [|done].
  pose proof (qi_reqs _ _ _ _ _ _ _ Hi) as Hr'. rewrite Ha in Hr'. simpl in Hr'.
  rewrite Hr, !app_assoc in Hr'. apply app_inv_tail in Hr'. rewrite Hr', elem_of_app in Hin.
  destruct Hin as [Hin|?]; [|done]. pose proof (qi_hand _ _ _ _ _ _ _ Hi) as Hx.
  rewrite Forall_forall in Hx. by destruct (Hx r Hin).
Qed.

(** The steps that both have still to make. *)
Definition work_left (p : nat) (s : qstate) : nat :=
  used (todo s) + (n + 8) * length (todo s) + steps_left p (client s) + rank n (server s).

Lemma exit_client_step s s' k q front tail :
  qinv reqs n s k q front tail → exit_put q (client s) → client_step s = Some (Ok s') →
  ∃ q' front' tail', qinv reqs n s' k q' front' tail' ∧ exit_put q' (client s') ∧ taken s' = taken s ∧
    work_left (length front') s' < work_left (length front) s.
Proof using All.
  intros Hi Hp E. assert (client s = AIdle ∨ client s ≠ AIdle) as [Ha|Ha] by (destruct (client s); auto).
  - destruct (todo s) as [|r rs] eqn:Et; [unfold client_step in E; by rewrite Ha, Et in E|].
    destruct (client_begins _ _ _ _ _ _ _ Hi Ha Et) as (s1 & E1 & Hc & Hsv & Hi').
    rewrite E1 in E. injection E as ->. exists q, front, tail. split; [done|].
    unfold client_step in E1. rewrite Ha, Et in E1. injection E1 as <-. simpl. rewrite Ha in Hp.
    split; [done|]. split; [done|]. pose proof (qi_room _ _ _ _ _ _ _ Hi). unfold work_left. simpl.
    rewrite Ha, Et, used_cons. simpl. lia.
  - destruct (client_moves _ _ _ _ _ Hi Ha) as (s1 & new & tail' & E1 & En & Hsv & Hst & _ & Hw & Hi').
    rewrite E1 in E. injection E as ->. exists (q ++ new), (front ++ mjoin (closed <$> new)), tail'.
    split; [done|]. split; [rewrite En in *; by apply exit_put_step|].
    assert (taken s' = taken s ∧ todo s' = todo s) as [Ek Etd].
    { unfold client_step in E1. destruct (client s); [done|..]; destruct (add_step _ _); try done;
        by injection E1 as <-. }
    split; [done|]. unfold work_left. rewrite Hst, Hsv, Etd. lia.
Qed.

Lemma exit_server_step s s' k q front tail :
  qinv reqs n s k q front tail → exit_put q (client s) → server_step junk s = Some (Ok s') →
  ∃ k' q' front', qinv reqs n s' k' q' front' tail ∧ exit_put q' (client s') ∧ taken s' = taken s ∧
    work_left (length front') s' < work_left (length front) s.
Proof using All.
  intros Hi Hp E. pose proof (server_step_ok _ _ _ _ _ Hi) as Hs. rewrite E in Hs.
  destruct Hs as [[_ ?]|(s1 & k' & q' & front' & [= <-] & Ec & Etd & Hlen & Hi' & Hput)]; [done|].
  destruct (Hput Hp) as [Hp' Etk]. exists k', q', front'. do 3 (split; [done|]).
  unfold work_left. rewrite Ec, Etd, Hlen. apply Nat.add_lt_mono_l.
  unfold server_step in E. destruct (stopped (server s)) eqn:Es; [done|].
  destruct (main_step junk (RQptr s) (server s) (segment s)) as [[[[t' rq'] out] seg']| | |] eqn:Em; try done.
  injection E as <-. cbn [server]. rewrite <- (segment_length _ _ _ _ _ Hi).
  eapply main_rank_step; [exact Em| |done]. intros Et. rewrite (qi_seg _ _ _ _ _ _ _ Hi).
  apply (qinv_sees _ _ _ _ _ Hi); [|done]. pose proof (qi_front _ _ _ _ _ _ _ Hi) as Hf.
  destruct (server s); try done; simpl in Hf; first [exact Hf|apply Hf].
Qed.

Lemma q_exit_run s s' tk : rtc (qstep junk) s s' → q_exit tk s → q_exit tk s'.
Proof using All.
  apply rtc_preserves. intros s1 s2 (k & q & front & tail & Hi & Hp & Htk) [s3 E|s3 E].
  - destruct (exit_client_step _ _ _ _ _ _ Hi Hp E) as (q' & front' & tail' & ? & ? & Ht & _).
    exists k, q', front', tail'. by rewrite Ht.
  - destruct (exit_server_step _ _ _ _ _ _ Hi Hp E) as (k' & q' & front' & ? & ? & Ht & _).
    exists k', q', front', tail. by rewrite Ht.
Qed.

Lemma q_exit_ends s tk : q_exit tk s → Acc (λ s2 s1, qstep junk s1 s2) s.
Proof using All.
  intros (k & q & front & tail & Hi & Hp & _). remember (work_left (length front) s) as m eqn:Em.
  revert s k q front tail Hi Hp Em. induction (lt_wf m) as [m _ IH]. intros s k q front tail Hi Hp ->.
  constructor. intros s2 [s' E|s' E].
  - destruct (exit_client_step _ _ _ _ _ _ Hi Hp E) as (q' & front' & tail' & ? & ? & _ & Hl).
    by eapply IH; [exact Hl|..].
  - destruct (exit_server_step _ _ _ _ _ _ Hi Hp E) as (k' & q' & front' & ? & ? & _ & Hl).
    by eapply IH; [exact Hl|..].
Qed.

(** Where nothing can go on. *)
Lemma q_stuck s : q_ok s → (∀ s', ¬ qstep junk s s') →
  client s = AIdle ∧ todo s = [] ∧
  (stopped (server s) = true ∨
   misreads junk n (RQptr s) (server s) ∧ server_step junk s = Some (Ub BadAccess)).
Proof using All.
  intros (k & q & front & tail & Hi) Hno.
  pose proof (client_step_ok _ _ _ _ _ Hi) as Hc. pose proof (server_step_ok _ _ _ _ _ Hi) as Hs.
  destruct (client_step s) as [o|] eqn:Ec.
  { destruct Hc as (s' & _ & _ & _ & -> & _). destruct (Hno s'). by apply q_client. }
  destruct Hc as [Ha Htd]. split; [done|]. split; [done|].
  destruct (server_step junk s) as [o|] eqn:Es; [right|by left].
  destruct Hs as [[? ->]|(s' & _ & _ & _ & -> & _)]; [done|]. destruct (Hno s'). by apply q_server.
Qed.
End runs.

(** C21: clients that add requests one after the other (without marks and NULs, with "exit" in them
    or else a blank and at most 1024 bytes, all of which fit in the segment) and the server, which
    takes no lock, keep a first-in-first-out queue in the segment under every interleaving of
    their reads and writes, and whatever malloc gives: what children were forked for is the front
    of what was added, and has no "exit" in it; no access of a client goes wrong, and of the server
    only two: charcount that looks for the end mark behind the segment, and strdup that reads
    behind the copy of a request where malloc left no NUL; the server stops only when "exit" was
    added; between two AddReq, while the server polls, the segment is the queue of the requests that
    wait; and a client that has been given as many turns as the segment has bytes, and six, has
    ended. *)
Theorem queue_without_lock junk reqs n s :
  Forall acceptable reqs → 17 + used reqs < n →
  rtc (qstep junk) (q_init reqs n) s →
  (∃ rest, reqs = (request <$> taken s) ++ rest) ∧ Forall no_exit (request <$> taken s) ∧
  (∀ o, client_step s = Some o → ∃ s', o = Ok s') ∧
  (∀ o, server_step junk s = Some o →
     (∃ s', o = Ok s') ∨ o = Ub BadAccess ∧ misreads junk n (RQptr s) (server s)) ∧
  (stopped (server s) = true → Exists (occurs exit_word) reqs) ∧
  (client s = AIdle → polling (server s) →
     ∃ k waiting room, segment s = layout k waiting room ∧
       reqs = (request <$> taken s) ++ waiting ++ todo s) ∧
  (∀ ts s', q_run junk ts s = Some s' → n + 6 ≤ length (filter (λ b, b = true) ts) →
     ∃ us s1, us `prefix_of` ts ∧ q_run junk us s = Some s1 ∧ client s1 = AIdle).
Proof.
  intros Ht Hn Hr. assert (Hok : q_ok reqs n s).
  { eapply q_ok_run; [done|exact Hr|]. by eapply q_ok_init. }
  destruct (q_ok_facts junk reqs n Ht s Hok) as (H1 & H2 & H3 & H4 & H5 & H6). split_and!; try done.
  intros ts s' Hts Hl. destruct Hok as (k & q & front & tail & Hi).
  assert (client s = AIdle ∨ client s ≠ AIdle) as [Ha|Ha] by (destruct (client s); auto).
  - exists [], s. split; [apply prefix_nil|done].
  - eapply client_ends; [done..|]. etrans; [by eapply steps_bound|done].
Qed.

(** C28: once a request with "exit" in it has been added no child is forked any more, however many
    requests wait in front of it, and no run goes on for ever; where it ends, under every
    interleaving, the client has added what it had, and main of the server has returned or has
    gone wrong at one of two places: charcount has run behind the segment, or strdup reads behind
    the copy of a request that it was taking, where malloc left no NUL. (The requests are
    as for C21.) *)
Theorem exit_stops_server junk reqs n s added :
  Forall acceptable reqs → 17 + used reqs < n →
  rtc (qstep junk) (q_init reqs n) s →
  reqs = added ++ todo s → client s = AIdle → Exists (occurs exit_word) added →
  (∀ s', rtc (qstep junk) s s' → taken s' = taken s) ∧
  Acc (λ s2 s1, qstep junk s1 s2) s ∧
  (∀ s', rtc (qstep junk) s s' → (∀ s'', ¬ qstep junk s' s'') →
     client s' = AIdle ∧ todo s' = [] ∧
     (stopped (server s') = true ∨
        misreads junk n (RQptr s') (server s') ∧ server_step junk s' = Some (Ub BadAccess))).
Proof.
  intros Ht Hn Hr Hadd Ha Hx. assert (Hok : q_ok reqs n s).
  { eapply q_ok_run; [done|exact Hr|]. by eapply q_ok_init. }
  pose proof (added_exit junk reqs n Ht s added Hok Hadd Ha Hx) as He. split_and!.
  - intros s' Hs. by destruct (q_exit_run junk reqs n Ht _ _ _ Hs He) as (? & ? & ? & ? & _ & _ & ?).
  - exact (q_exit_ends junk reqs n Ht _ _ He).
  - intros s' Hs. apply (q_stuck junk reqs n Ht). exact (q_ok_run junk reqs n Ht _ _ Hs Hok).
Qed.

(** C23: whenever the server begins to count while a client is about to add a request, the
    two can interleave so that charcount reads behind the segment: AddReq overwrites the end
    mark before it writes the new one. *)
Theorem charcount_overruns junk reqs n s :
  Forall acceptable reqs → 17 + used reqs < n →
  rtc (qstep junk) (q_init reqs n) s →
  client s = AIdle → todo s ≠ [] → server s = TCount 0 0 →
  ∃ s', rtc (qstep junk) s s' ∧ server_step junk s' = Some (Ub BadAccess).
Proof.
  intros Ht Hn Hr. apply (overrun junk reqs n Ht). eapply q_ok_run; [done|exact Hr|].
  by eapply q_ok_init.
Qed.

(** ** A run *)
Definition demo_reqs : list bytes := [lit "/d int"; lit "/e x"].
(** The first request is added and counted; the second is added while the first is taken. *)
Definition demo_turns : list bool :=
  replicate 29 true ++ replicate 26 false ++ mjoin (replicate 34 [true; false]) ++ replicate 17 false.

Lemma demo_acceptable : Forall acceptable demo_reqs ∧ acceptable exit_word.
Proof. apply (bool_decide_unpack _). vm_compute. exact I. Qed.

Lemma queue_without_lock_witness :
  ∃ s, q_run (λ _ _, NUL) demo_turns (q_init demo_reqs 60) = Some s ∧
    taken s = [Item (lit "/d") (lit "int")] ∧
    ∃ k waiting room, segment s = layout k waiting room ∧
      demo_reqs = (request <$> taken s) ++ waiting ++ todo s.
Proof.
  destruct (q_run (λ _ _, NUL) demo_turns (q_init demo_reqs 60)) as [s|] eqn:E; [|exfalso; vm_compute in E; done].
  exists s. split; [reflexivity|]. pose proof E as E1. vm_compute in E1. injection E1 as Es.
  split; [by rewrite <- Es|].
  apply (queue_without_lock (λ _ _, NUL) demo_reqs 60 s).
  - apply demo_acceptable.
  - apply (bool_decide_unpack _). vm_compute. exact I.
  - exact (q_run_steps _ demo_turns _ _ E).
  - rewrite <- Es. reflexivity.
  - rewrite <- Es. exact I.
Defined.

(** The two requests and "exit" are added before the server looks: it takes neither. *)
Lemma exit_stops_server_witness :
  ∃ s, q_run (λ _ _, NUL) (replicate 102 true) (q_init (demo_reqs ++ [exit_word]) 60) = Some s ∧
    (∀ s', rtc (qstep (λ _ _, NUL)) s s' → taken s' = []) ∧
    Acc (λ s2 s1, qstep (λ _ _, NUL) s1 s2) s.
Proof.
  destruct (q_run (λ _ _, NUL) (replicate 102 true) (q_init (demo_reqs ++ [exit_word]) 60)) as [s|] eqn:E;
    [|exfalso; vm_compute in E; done].
  exists s. split; [reflexivity|]. pose proof E as E1. vm_compute in E1. injection E1 as Es.
  destruct (exit_stops_server (λ _ _, NUL) (demo_reqs ++ [exit_word]) 60 s (demo_reqs ++ [exit_word]))
    as (H1 & H2 & _).
  - apply Forall_app. split; [apply demo_acceptable|]. apply Forall_singleton, demo_acceptable.
  - apply (bool_decide_unpack _). vm_compute. exact I.
  - exact (q_run_steps _ (replicate 102 true) _ _ E).
  - rewrite <- Es. reflexivity.
  - rewrite <- Es. reflexivity.
  - apply Exists_exists. exists exit_word. split; [apply elem_of_app; right; left|by exists [], []].
  - split; [|exact H2]. intros s' Hs. rewrite (H1 s' Hs), <- Es. reflexivity.
Defined.

Lemma charcount_overruns_witness :
  ∃ s', rtc (qstep (λ _ _, NUL)) (q_init demo_reqs 60) s' ∧
    server_step (λ _ _, NUL) s' = Some (Ub BadAccess).
Proof.
  destruct (charcount_overruns (λ _ _, NUL) demo_reqs 60
    (QState (layout 0 [] 43) demo_reqs AIdle (TCount 0 0) 0 [])) as (s' & Hr & E).
  - apply demo_acceptable.
  - apply (bool_decide_unpack _). vm_compute. exact I.
  - eapply rtc_l; [|apply rtc_refl]. apply q_server. reflexivity.
  - reflexivity.
  - discriminate.
  - reflexivity.
  - exists s'. split; [|exact E]. eapply rtc_l; [|exact Hr]. apply q_server. reflexivity.
Defined.

(** While the header moves over a request with "exi" at a certain place, a child that looks at the
    queue finds an "exit" that nobody has added. *)
Lemma moving_header_shows_exit :
  ∃ s, rtc (qstep (λ _ _, NUL)) (q_init [lit "/a/exi keyword1"] 60) s ∧ no_exit (lit "/a/exi keyword1") ∧
    has_exit (segment s) = true.
Proof.
  destruct (q_run (λ _ _, NUL) (replicate 38 true ++ replicate 77 false) (q_init [lit "/a/exi keyword1"] 60))
    as [s|] eqn:E; [|exfalso; vm_compute in E; done].
  exists s. split; [exact (q_run_steps _ _ _ _ E)|]. split; [apply (bool_decide_unpack _); vm_compute; exact I|].
  vm_compute in E. injection E as <-. vm_compute. reflexivity.
Qed.
