(* ===== verification/ClientTurns.v ===== *)
(** * Several clients and the server

    Every client waits for SEMrq, adds the requests of its file one after the other, and signals
    SEMrq; the server runs in between without waiting for it. *)

From stdpp Require Import base list strings relations.
From Stdlib Require Import Ascii.
From S2P Require Import Prelude CString Text Segment ReqQueue AddSteps MainSteps SharedQueue.

(** Where a client is: before [waits(SEMrq)] with all its requests, in AddReq or between two with the
    requests that are left, after [signals(SEMrq)]. *)
Inductive phase :=
  | CWaits (script : list bytes)
  | CAdds (a : adder) (left : list bytes)
  | CDone.

Record mstate := MState {
  ms_seg : bytes; ms_sem : Z; ms_clients : list phase;
  ms_server : taker; ms_rq : nat; ms_taken : list item
}.

(** A step of a client. *)
Inductive cstep : mstate → mstate → Prop :=
  | m_waits i script seg sem cs t rq tk :
      cs !! i = Some (CWaits script) → (0 < sem)%Z →
      cstep (MState seg sem cs t rq tk) (MState seg (sem - 1) (<[i:=CAdds AIdle script]> cs) t rq tk)
  | m_begins i r rs seg sem cs t rq tk :
      cs !! i = Some (CAdds AIdle (r :: rs)) →
      cstep (MState seg sem cs t rq tk) (MState seg sem (<[i:=CAdds (AScan r 0) rs]> cs) t rq tk)
  | m_adds i a a' rs seg seg' sem cs t rq tk :
      cs !! i = Some (CAdds a rs) → a ≠ AIdle → add_step a seg = Ok (a', seg') →
      cstep (MState seg sem cs t rq tk) (MState seg' sem (<[i:=CAdds a' rs]> cs) t rq tk)
  | m_signals i seg sem cs t rq tk :
      cs !! i = Some (CAdds AIdle []) →
      cstep (MState seg sem cs t rq tk) (MState seg (sem + 1) (<[i:=CDone]> cs) t rq tk).

Section clients.
Context (junk : nat → nat → ascii).

(** A step of a client or of the server. *)
Inductive mstep : mstate → mstate → Prop :=
  | m_client s s' : cstep s s' → mstep s s'
  | m_server seg seg' sem cs t t' rq rq' tk out :
      stopped t = false → main_step junk rq t seg = Ok ((t', rq', out), seg') →
      mstep (MState seg sem cs t rq tk) (MState seg' sem cs t' rq' (tk ++ out)).

Definition m_init (scripts : list (list bytes)) (n : nat) : mstate :=
  MState (layout 0 [] (n - 17)) 1 (CWaits <$> scripts) TPoll 0 [].

(** ** One request more *)
Definition more (s : qstate) (x : bytes) : qstate :=
  QState (segment s) (todo s ++ [x]) (client s) (server s) (RQptr s) (taken s).

Lemma step_more s s' x : qstep junk s s' → qstep junk (more s x) (more s' x).
Proof using.
  intros [s1 E|s1 E].
  - apply q_client. destruct s as [seg td a t rq tk]. unfold client_step, more in *.
    cbn [client todo segment server RQptr taken] in *.
    destruct a as [|r i|r i|r sx j|sx]; [destruct td as [|r td]; [done|by injection E as <-]|..].
    all: destruct (add_step _ seg) as [[a' seg']| | |]; try done; by injection E as <-.
  - apply q_server. unfold server_step, more in *. destruct s as [seg td a t rq tk].
    cbn [client todo segment server RQptr taken] in *.
    destruct (stopped t); [done|].
    destruct (main_step junk rq t seg) as [[[[t' rq'] out] seg']| | |]; try done. by injection E as <-.
Qed.

Lemma run_more reqs n s x :
  rtc (qstep junk) (q_init reqs n) s → rtc (qstep junk) (q_init (reqs ++ [x]) n) (more s x).
Proof using.
  intros H. change (q_init (reqs ++ [x]) n) with (more (q_init reqs n) x).
  induction H as [|s1 s2 s3 Hst _ IH]; [apply rtc_refl|]. eapply rtc_l; [by apply step_more|exact IH].
Qed.

(** ** The client that has SEMrq *)
Section turns.
Context (scripts : list (list bytes)) (n : nat).

Definition script_of (i : nat) : list bytes := default [] (scripts !! i).

(** What it has begun to add, where it is, and what is left. *)
Record holder := Holder { h_client : nat; h_begun : list bytes; h_pc : adder; h_left : list bytes }.
Definition begun (cur : option holder) : list bytes := from_option h_begun [] cur.
Definition pc (cur : option holder) : adder := from_option h_pc AIdle cur.

(** The clients as one that adds what they have begun to add. *)
Definition as_one (s : mstate) (a : adder) : qstate :=
  QState (ms_seg s) [] a (ms_server s) (ms_rq s) (ms_taken s).
Definition order (fin : list nat) (cur : option holder) : list bytes :=
  mjoin (script_of <$> fin) ++ begun cur.

(** [fin]: the clients that have ended, in the order of their signals. *)
Record minv (s : mstate) (fin : list nat) (cur : option holder) : Prop := {
  mi_len : length (ms_clients s) = length scripts;
  mi_sem : ms_sem s = if cur then 0%Z else 1%Z;
  mi_fin : NoDup fin ∧ ∀ i, i ∈ fin ↔ ms_clients s !! i = Some CDone;
  mi_cur : ∀ h, cur = Some h → ms_clients s !! h_client h = Some (CAdds (h_pc h) (h_left h)) ∧
             script_of (h_client h) = h_begun h ++ h_left h;
  mi_others : ∀ i p, ms_clients s !! i = Some p → h_client <$> cur ≠ Some i →
                p = CDone ∨ p = CWaits (script_of i);
  mi_one : rtc (qstep junk) (q_init (order fin cur) n) (as_one s (pc cur));
}.

Lemma minv_init : minv (m_init scripts n) [] None.
Proof using.
  constructor; simpl; try done.
  - by rewrite length_fmap.
  - split; [constructor|]. intros i. rewrite list_lookup_fmap. split; [by intros ?%elem_of_nil|].
    destruct (scripts !! i); done.
  - intros i p. rewrite list_lookup_fmap. unfold script_of. destruct (scripts !! i); [|done].
    intros [= <-] _. by right.
Qed.

(** Only the holder is adding. *)
Lemma adding_holder s fin cur i a left :
  minv s fin cur → ms_clients s !! i = Some (CAdds a left) →
  ∃ b, cur = Some (Holder i b a left) ∧ script_of i = b ++ left.
Proof using.
  intros [_ _ _ Hc Ho _] Hi. destruct (decide (h_client <$> cur = Some i)) as [E|E].
  - destruct cur as [[j b a' l']|]; [|done]. simpl in E. injection E as ->.
    destruct (Hc _ eq_refl) as [Hc1 Hc2]. simpl in *. rewrite Hi in Hc1. injection Hc1 as -> ->.
    by exists b.
  - by destruct (Ho i _ Hi E).
Qed.

(** The holder, or a new one, moves. *)
Lemma minv_move s seg fin cur i p h' :
  minv s fin cur → (h_client <$> cur = Some i ∨ cur = None) →
  ms_clients s !! i = Some p → p ≠ CDone →
  h_client h' = i → script_of i = h_begun h' ++ h_left h' →
  rtc (qstep junk) (q_init (order fin (Some h')) n)
    (QState seg [] (h_pc h') (ms_server s) (ms_rq s) (ms_taken s)) →
  minv (MState seg 0 (<[i:=CAdds (h_pc h') (h_left h')]> (ms_clients s)) (ms_server s) (ms_rq s) (ms_taken s))
    fin (Some h').
Proof using.
  intros [Hl _ [Hnd Hf] _ Ho _] Hcur Hi Hp Eh Hscr Hone. apply lookup_lt_Some in Hi as Hlt.
  constructor; simpl; try done.
  - by rewrite length_insert.
  - split; [done|]. intros j. rewrite Hf. destruct (decide (j = i)) as [->|Hne].
    + rewrite list_lookup_insert_eq by done. split; intros E; [congruence|done].
    + by rewrite list_lookup_insert_ne.
  - intros h [= <-]. rewrite Eh, list_lookup_insert_eq by done. by split.
  - intros j q Hj Hne. rewrite list_lookup_insert_ne in Hj by congruence.
    apply (Ho j q Hj). destruct Hcur as [->| ->]; simpl; congruence.
Qed.

Lemma minv_step s s' fin cur :
  minv s fin cur → mstep s s' → ∃ fin' cur', minv s' fin' cur'.
Proof using.
  intros Hi Hst.
  destruct Hst as [? ? [i script seg sem cs t rq tk Hc Hpos|i r rs seg sem cs t rq tk Hc
    |i a a' rs seg seg' sem cs t rq tk Hc Ha E|i seg sem cs t rq tk Hc]|seg seg' sem cs t t' rq rq' tk out Hrun E].
  - pose proof (mi_sem _ _ _ Hi) as Hs. simpl in Hs. destruct cur as [h|]; [lia|]. subst sem.
    destruct (mi_others _ _ _ Hi i _ Hc ltac:(done)) as [?|[= ->]]; [done|].
    exists fin, (Some (Holder i [] AIdle (script_of i))).
    apply (minv_move _ seg fin None i (CWaits (script_of i)) (Holder i [] AIdle (script_of i)) Hi); try done; [by right|].
    exact (mi_one _ _ _ Hi).
  - destruct (adding_holder _ _ _ _ _ _ Hi Hc) as (b & -> & Hscr).
    pose proof (mi_sem _ _ _ Hi) as Hs. simpl in Hs. subst sem.
    exists fin, (Some (Holder i (b ++ [r]) (AScan r 0) rs)).
    apply (minv_move _ seg fin _ i (CAdds AIdle (r :: rs)) (Holder i (b ++ [r]) (AScan r 0) rs) Hi); try done; [by left| |].
    + simpl. by rewrite Hscr, <- app_assoc.
    + pose proof (run_more _ _ _ r (mi_one _ _ _ Hi)) as Hm. unfold order, begun in *. simpl in *.
      rewrite <- app_assoc in Hm. eapply rtc_r; [exact Hm|]. by apply q_client.
  - destruct (adding_holder _ _ _ _ _ _ Hi Hc) as (b & -> & Hscr).
    pose proof (mi_sem _ _ _ Hi) as Hs. simpl in Hs. subst sem.
    exists fin, (Some (Holder i b a' rs)).
    apply (minv_move _ seg' fin _ i (CAdds a rs) (Holder i b a' rs) Hi); try done; [by left|].
    eapply rtc_r; [exact (mi_one _ _ _ Hi)|]. apply q_client. unfold client_step, as_one.
    cbn [client todo segment server RQptr taken pc from_option h_pc ms_seg ms_server ms_rq ms_taken].
    destruct a; [done|..]; by rewrite E.
  - destruct (adding_holder _ _ _ _ _ _ Hi Hc) as (b & -> & Hscr).
    destruct Hi as [Hl Hs [Hnd Hf] _ Ho Hone]. simpl in *. apply lookup_lt_Some in Hc as Hlt.
    exists (fin ++ [i]), None. constructor; simpl; try done.
    + by rewrite length_insert.
    + lia.
    + assert (Hnot : i ∉ fin) by (rewrite Hf; congruence). split.
      * apply NoDup_app. split; [done|]. split; [|apply NoDup_singleton].
        by intros j Hj ->%list_elem_of_singleton.
      * intros j. rewrite elem_of_app, list_elem_of_singleton, Hf. destruct (decide (j = i)) as [->|Hne].
        -- rewrite list_lookup_insert_eq by done. tauto.
        -- rewrite list_lookup_insert_ne by done. tauto.
    + intros j q Hj _. destruct (decide (j = i)) as [->|Hne].
      * rewrite list_lookup_insert_eq in Hj by done. injection Hj as <-. by left.
      * rewrite list_lookup_insert_ne in Hj by done. apply (Ho j q Hj). simpl. congruence.
    + unfold order, begun in *. simpl in *. rewrite fmap_app, mjoin_app.
      change (mjoin (script_of <$> [i])) with (script_of i ++ []). rewrite !app_nil_r, Hscr, app_nil_r. exact Hone.
  - exists fin, cur. destruct Hi as [Hl Hs Hf Hc Ho Hone]. constructor; simpl in *; try done.
    eapply rtc_r; [exact Hone|]. apply q_server. unfold server_step, as_one. simpl. by rewrite Hrun, E.
Qed.

Lemma minv_run s : rtc mstep (m_init scripts n) s → ∃ fin cur, minv s fin cur.
Proof using.
  intros Hr. apply (rtc_preserves mstep (λ s, ∃ fin cur, minv s fin cur) (m_init scripts n) s); [|exact Hr|].
  - intros s1 s2 (f & c & Hi). by eapply minv_step.
  - exists [], None. apply minv_init.
Qed.

(** ** What was begun is a part of what the clients have *)
Lemma all_scripts : script_of <$> seq 0 (length scripts) = scripts.
Proof using. apply fmap_lookup_seq. Qed.

Lemma indices_part idx :
  NoDup idx → (∀ i, i ∈ idx → i < length scripts) →
  ∃ rest, mjoin scripts ≡ₚ mjoin (script_of <$> idx) ++ rest.
Proof using.
  intros Hnd Hlt. assert (idx ⊆+ seq 0 (length scripts)) as Hsub.
  { apply NoDup_submseteq; [done|]. intros i Hi. apply elem_of_seq. specialize (Hlt i Hi). lia. }
  apply submseteq_Permutation in Hsub as [k Hk]. exists (mjoin (script_of <$> k)).
  rewrite <- mjoin_app, <- fmap_app, <- all_scripts at 1. by rewrite Hk.
Qed.

Lemma order_part s fin cur : minv s fin cur → ∃ rest, mjoin scripts ≡ₚ order fin cur ++ rest.
Proof using.
  intros [Hl _ [Hnd Hf] Hc _ _].
  assert (Hlt : ∀ i, i ∈ fin → i < length scripts).
  { intros i Hi. apply Hf, lookup_lt_Some in Hi. lia. }
  destruct cur as [[i b a l]|].
  - destruct (Hc _ eq_refl) as [Hi Hscr]. simpl in *.
    destruct (indices_part (fin ++ [i])) as [rest Hr].
    + apply NoDup_app. split; [done|]. split; [|apply NoDup_singleton].
      intros j Hj ->%list_elem_of_singleton. apply Hf in Hj. congruence.
    + intros j [Hj|Hj%list_elem_of_singleton]%elem_of_app; [by apply Hlt|subst j].
      apply lookup_lt_Some in Hi. lia.
    + exists (l ++ rest). rewrite Hr, fmap_app, mjoin_app.
      change (mjoin (script_of <$> [i])) with (script_of i ++ []). rewrite app_nil_r, Hscr.
      unfold order, begun. simpl. by rewrite <- !app_assoc.
  - destruct (indices_part fin Hnd Hlt) as [rest Hr]. exists rest. rewrite Hr. unfold order, begun. simpl.
    by rewrite app_nil_r.
Qed.

Lemma minv_as_one s fin cur :
  Forall acceptable (mjoin scripts) → 17 + used (mjoin scripts) < n → minv s fin cur →
  Forall acceptable (order fin cur) ∧ q_ok (order fin cur) n (as_one s (pc cur)).
Proof using.
  intros Ht Hn Hi. destruct (order_part s fin cur Hi) as [more' Hp].
  assert (Hto : Forall acceptable (order fin cur)) by (rewrite Hp in Ht; by apply Forall_app in Ht as [? _]).
  split; [done|]. eapply q_ok_run; [done|exact (mi_one _ _ _ Hi)|]. apply (q_ok_init junk); [done|].
  rewrite (used_Permutation _ _ Hp), used_app in Hn. lia.
Qed.

(** Where "exit" comes from, for who looks for it. *)
Lemma minv_exit s fin cur :
  Forall acceptable (mjoin scripts) → 17 + used (mjoin scripts) < n → minv s fin cur →
  has_exit (ms_seg s) = true → Exists (occurs exit_word) (mjoin scripts) ∨ moving (ms_server s).
Proof using.
  intros Ht Hn Hi Hx. destruct (minv_as_one s fin cur Ht Hn Hi) as [Hto Hok].
  destruct (exit_shown junk _ n Hto _ Hok Hx) as [He|?]; [left|by right].
  destruct (order_part s fin cur Hi) as [more' Hp]. rewrite Exists_exists in He |- *.
  destruct He as (r & Hr & Ho). exists r. split; [|done]. rewrite Hp. apply elem_of_app. by left.
Qed.

(** What the queue of one client is to all. *)
Lemma minv_facts s fin cur :
  Forall acceptable (mjoin scripts) →
  17 + used (mjoin scripts) < n → minv s fin cur →
  (∀ i a l, ms_clients s !! i = Some (CAdds a l) → ∃ p, add_step a (ms_seg s) = Ok p) ∧
  ((∃ p, main_step junk (ms_rq s) (ms_server s) (ms_seg s) = Ok p) ∨
   (misreads junk n (ms_rq s) (ms_server s) ∧
    main_step junk (ms_rq s) (ms_server s) (ms_seg s) = Ub BadAccess)) ∧
  (stopped (ms_server s) = true → Exists (occurs exit_word) (mjoin scripts)) ∧
  Forall no_exit (request <$> ms_taken s) ∧
  ∃ rest, order fin cur = (request <$> ms_taken s) ++ rest ∧
    (pc cur = AIdle → polling (ms_server s) → ∃ k room, ms_seg s = layout k rest room).
Proof using.
  intros Ht Hn Hi. destruct (order_part s fin cur Hi) as [more' Hp].
  destruct (minv_as_one s fin cur Ht Hn Hi) as [Hto Hok].
  destruct (q_ok_facts junk _ n Hto _ Hok) as (H1 & Hx & H2 & H3 & Hst & H4). split_and!.
  - intros i a l Hc. destruct (adding_holder _ _ _ _ _ _ Hi Hc) as (b & -> & _).
    assert (a = AIdle ∨ a ≠ AIdle) as [->|Ha] by (destruct a; auto); [by eexists|].
    destruct (H2 (p ← add_step a (ms_seg s); Ok (QState p.2 [] p.1 (ms_server s) (ms_rq s) (ms_taken s))))
      as [s' E].
    + unfold client_step, as_one. cbn [client todo segment server RQptr taken pc from_option h_pc].
      by destruct a.
    + destruct (add_step a (ms_seg s)); try done. by eexists.
  - unfold server_step, as_one in H3. simpl in H3. destruct (stopped (ms_server s)) eqn:Es.
    { left. destruct (ms_server s); try done. by eexists. }
    destruct (H3 _ eq_refl) as [[s' E]|[E ?]];
      [left; destruct (main_step junk (ms_rq s) (ms_server s) (ms_seg s)); try done; by eexists|right].
    split; [done|]. destruct (main_step junk (ms_rq s) (ms_server s) (ms_seg s)); try done.
    simpl in E. by injection E as ->.
  - intros Hs. apply Hst in Hs. simpl in Hs. rewrite Exists_exists in Hs |- *.
    destruct Hs as (r & Hr & Ho). exists r. split; [|done]. rewrite Hp. apply elem_of_app. by left.
  - done.
  - destruct H1 as [rest Hr]. simpl in Hr. exists rest. split; [done|]. intros Ha Hs.
    destruct (H4 Ha Hs) as (k & waiting & room & Eseg & Er). simpl in *. rewrite app_nil_r in Er.
    exists k, room. assert (rest = waiting) as ->; [|done]. apply (app_inv_head (request <$> ms_taken s)).
    congruence.
Qed.
End turns.

(** Until all clients have ended one of them can go on. *)
Lemma client_progress scripts n s fin cur :
  minv scripts n s fin cur →
  (∀ i a l, ms_clients s !! i = Some (CAdds a l) → ∃ p, add_step a (ms_seg s) = Ok p) →
  (∃ i p, ms_clients s !! i = Some p ∧ p ≠ CDone) → ∃ s', cstep s s'.
Proof using.
  intros Hi Hadd (i & p & Hp & Hd). destruct s as [seg sem cs t rq tk]. simpl in *.
  assert (Hgo : ∀ j a l, cs !! j = Some (CAdds a l) → ∃ s', cstep (MState seg sem cs t rq tk) s').
  { intros j a l Hj. assert (a = AIdle ∨ a ≠ AIdle) as [->|Ha] by (destruct a; auto).
    - destruct l as [|r rs]; eexists; first [eapply m_signals; exact Hj|eapply m_begins; exact Hj].
    - destruct (Hadd _ _ _ Hj) as [[a' seg'] E]. eexists. eapply m_adds; [exact Hj|exact Ha|exact E]. }
  destruct cur as [h|].
  - destruct (mi_cur _ _ _ _ _ Hi h eq_refl) as [Hh _]. simpl in Hh. by eapply Hgo.
  - destruct (mi_others _ _ _ _ _ Hi i p Hp ltac:(done)) as [?|E]; [done|]. subst p.
    pose proof (mi_sem _ _ _ _ _ Hi) as Hs. simpl in Hs. eexists. eapply m_waits; [exact Hp|lia].
Qed.

(** The order in which the requests come into the queue. *)
Lemma clients_order scripts n s :
  Forall acceptable (mjoin scripts) →
  17 + used (mjoin scripts) < n → rtc mstep (m_init scripts n) s →
  ∃ fin b rest, NoDup fin ∧ (∀ i, i ∈ fin ↔ ms_clients s !! i = Some CDone) ∧
    mjoin (script_of scripts <$> fin) ++ b = (request <$> ms_taken s) ++ rest ∧
    (b = [] ∨ ∃ i, i ∉ fin ∧ b `prefix_of` script_of scripts i) ∧
    ((∀ i p, ms_clients s !! i = Some p → p = CDone) →
       b = [] ∧ fin ≡ₚ seq 0 (length scripts) ∧
       (polling (ms_server s) → ∃ k room, ms_seg s = layout k rest room)).
Proof using.
  intros Ht Hn Hr. destruct (minv_run scripts n s Hr) as (fin & cur & Hi).
  destruct (minv_facts scripts n s fin cur Ht Hn Hi) as (_ & _ & _ & _ & rest & Hrest & Hlay).
  destruct Hi as [Hl _ [Hnd Hf] Hc _ _]. exists fin, (begun cur), rest.
  split; [done|]. split; [done|]. split; [exact Hrest|]. split.
  - destruct cur as [[i b a l]|]; [right|by left]. destruct (Hc _ eq_refl) as [Hi Hscr]. simpl in *.
    exists i. split; [rewrite Hf; congruence|]. rewrite Hscr. by exists l.
  - intros Hall. assert (cur = None) as ->.
    { destruct cur as [h|]; [|done]. destruct (Hc _ eq_refl) as [Hi _]. by apply Hall in Hi. }
    split; [done|]. split; [|by apply Hlay]. apply NoDup_Permutation; [done|apply NoDup_seq|].
    intros i. rewrite Hf, elem_of_seq, <- Hl. split.
    + intros H%lookup_lt_Some. lia.
    + intros [_ H]. destruct (lookup_lt_is_Some_2 (ms_clients s) i H) as [p Hp]. rewrite Hp. f_equal. by eapply Hall.
Qed.

(** C22: clients that wait for SEMrq exclude each other, and never block each other for good while
    the server process lives (its end, when SEM_UNDO takes back its signal of SEMrq, is in Processes.v); their
    requests (without marks and NULs, with "exit" in them or else a blank and at most 1024 bytes, all of
    which fit in the segment) come into the queue client by client, each client's together and
    in order; the server, which does not wait, gives them to children in this order, and none
    that has "exit" in it; it stops only when such a request was added; no access of a client goes
    wrong, and of the server only two: charcount that runs behind the segment, and strdup that reads
    behind the copy of a request where malloc left no NUL. When all clients have ended every one of them has
    its place in the order, and while the server polls the segment is the queue of what it has
    not taken. *)
Theorem clients_take_turns scripts n s :
  Forall acceptable (mjoin scripts) →
  17 + used (mjoin scripts) < n → rtc mstep (m_init scripts n) s →
  (∀ i j a a' l l', ms_clients s !! i = Some (CAdds a l) → ms_clients s !! j = Some (CAdds a' l') → i = j) ∧
  (∀ i a l, ms_clients s !! i = Some (CAdds a l) → ∃ p, add_step a (ms_seg s) = Ok p) ∧
  ((∃ i p, ms_clients s !! i = Some p ∧ p ≠ CDone) → ∃ s', cstep s s') ∧
  ((∃ p, main_step junk (ms_rq s) (ms_server s) (ms_seg s) = Ok p) ∨
   (misreads junk n (ms_rq s) (ms_server s) ∧
    main_step junk (ms_rq s) (ms_server s) (ms_seg s) = Ub BadAccess)) ∧
  (stopped (ms_server s) = true → Exists (occurs exit_word) (mjoin scripts)) ∧
  Forall no_exit (request <$> ms_taken s) ∧
  ∃ fin b rest, NoDup fin ∧ (∀ i, i ∈ fin ↔ ms_clients s !! i = Some CDone) ∧
    mjoin (script_of scripts <$> fin) ++ b = (request <$> ms_taken s) ++ rest ∧
    (b = [] ∨ ∃ i, i ∉ fin ∧ b `prefix_of` script_of scripts i) ∧
    ((∀ i p, ms_clients s !! i = Some p → p = CDone) →
       b = [] ∧ fin ≡ₚ seq 0 (length scripts) ∧
       (polling (ms_server s) → ∃ k room, ms_seg s = layout k rest room)).
Proof using.
  intros Ht Hn Hr. destruct (minv_run scripts n s Hr) as (fin & cur & Hi).
  destruct (minv_facts scripts n s fin cur Ht Hn Hi) as (H1 & H2 & Hst & Hx & _).
  split; [|split; [exact H1|split; [by eapply client_progress|split; [exact H2|split; [exact Hst|split; [exact Hx|]]]]]].
  - intros i j a a' l l' Ei Ej. destruct (adding_holder _ _ _ _ _ _ _ _ Hi Ei) as (b & -> & _).
    by destruct (adding_holder _ _ _ _ _ _ _ _ Hi Ej) as (b' & [= ->] & _).
  - by eapply clients_order.
Qed.
End clients.

(** ** Runs by a schedule: the client whose turn it is, or the server *)
Definition m_turn (junk : nat → nat → ascii) (who : option nat) (s : mstate) : option mstate :=
  match who with
  | None =>
      if stopped (ms_server s) then None else
      match main_step junk (ms_rq s) (ms_server s) (ms_seg s) with
      | Ok ((t', rq', out), seg') => Some (MState seg' (ms_sem s) (ms_clients s) t' rq' (ms_taken s ++ out))
      | _ => None
      end
  | Some i =>
      let go seg sem p := Some (MState seg sem (<[i:=p]> (ms_clients s)) (ms_server s) (ms_rq s) (ms_taken s)) in
      match ms_clients s !! i with
      | Some (CWaits script) =>
          if decide (0 < ms_sem s)%Z then go (ms_seg s) (ms_sem s - 1)%Z (CAdds AIdle script) else None
      | Some (CAdds AIdle (r :: rs)) => go (ms_seg s) (ms_sem s) (CAdds (AScan r 0) rs)
      | Some (CAdds AIdle []) => go (ms_seg s) (ms_sem s + 1)%Z CDone
      | Some (CAdds a rs) =>
          match add_step a (ms_seg s) with
          | Ok (a', seg') => go seg' (ms_sem s) (CAdds a' rs)
          | _ => None
          end
      | _ => None
      end
  end.

Fixpoint m_run (junk : nat → nat → ascii) (turns : list (option nat)) (s : mstate) : option mstate :=
  match turns with [] => Some s | w :: ws => s' ← m_turn junk w s; m_run junk ws s' end.

Lemma m_turn_client junk i s s' : m_turn junk (Some i) s = Some s' → cstep s s'.
Proof.
  destruct s as [seg sem cs t rq tk]. cbn [m_turn ms_clients ms_seg ms_sem ms_server ms_rq ms_taken].
  destruct (cs !! i) as [[script|a rs|]|] eqn:Hi; [| |done..].
  - case_decide; [|done]. intros [= <-]. by apply m_waits.
  - assert (a = AIdle ∨ a ≠ AIdle) as [->|Ha] by (destruct a; auto).
    + destruct rs as [|r rs]; intros [= <-]; [by apply m_signals|by apply m_begins].
    + intros E. assert (E' : match add_step a seg with
          | Ok (a', seg') => Some (MState seg' sem (<[i:=CAdds a' rs]> cs) t rq tk) | _ => None end = Some s')
        by by destruct a.
      destruct (add_step a seg) as [[a' seg']| | |] eqn:Ea; try done. injection E' as <-. by eapply m_adds.
Qed.

Lemma m_turn_step junk w s s' : m_turn junk w s = Some s' → mstep junk s s'.
Proof.
  destruct w as [i|]; [intros E; by eapply m_client, m_turn_client|].
  destruct s as [seg sem cs t rq tk]. cbn [m_turn ms_clients ms_seg ms_sem ms_server ms_rq ms_taken].
  destruct (stopped t) eqn:Et; [done|].
  destruct (main_step junk rq t seg) as [[[[t' rq'] out] seg']| | |] eqn:E; try done.
  intros [= <-]. by apply m_server.
Qed.

Lemma m_run_steps junk ws s s' : m_run junk ws s = Some s' → rtc (mstep junk) s s'.
Proof.
  revert s. induction ws as [|w ws IH]; intros s H; simpl in H; [by injection H as ->|].
  destruct (m_turn junk w s) as [s1|] eqn:E; [|done]. eapply rtc_l; [by eapply m_turn_step|]. by apply IH.
Qed.

(** The second client is first; the server takes its request while the other adds one. *)
Definition demo_scripts : list (list bytes) := [[lit "/e x"]; [lit "/d int"]].
Definition demo_schedule : list (option nat) :=
  replicate 31 (Some 1) ++ replicate 26 None ++ mjoin (replicate 34 [Some 0; None]) ++ replicate 17 None ++
  replicate 2 (Some 0).

Lemma clients_take_turns_witness :
  ∃ s, m_run (λ _ _, NUL) demo_schedule (m_init demo_scripts 60) = Some s ∧
    ms_taken s = [Item (lit "/d") (lit "int")] ∧
    ∃ fin b rest, NoDup fin ∧ (∀ i, i ∈ fin ↔ ms_clients s !! i = Some CDone) ∧
      mjoin (script_of demo_scripts <$> fin) ++ b = (request <$> ms_taken s) ++ rest ∧
      (b = [] ∨ ∃ i, i ∉ fin ∧ b `prefix_of` script_of demo_scripts i) ∧
      ((∀ i p, ms_clients s !! i = Some p → p = CDone) →
         b = [] ∧ fin ≡ₚ seq 0 (length demo_scripts) ∧
         (polling (ms_server s) → ∃ k room, ms_seg s = layout k rest room)).
Proof.
  destruct (m_run (λ _ _, NUL) demo_schedule (m_init demo_scripts 60)) as [s|] eqn:E;
    [|exfalso; vm_compute in E; discriminate E].
  exists s. split; [reflexivity|]. pose proof E as E1. vm_compute in E1. injection E1 as Es.
  split; [rewrite <- Es; reflexivity|].
  apply (clients_take_turns (λ _ _, NUL) demo_scripts 60 s).
  - apply (bool_decide_unpack _). vm_compute. exact I.
  - apply (bool_decide_unpack _). vm_compute. exact I.
  - apply (m_run_steps _ demo_schedule). exact E.
Defined.
