(* ===== verification/Processes.v ===== *)
(** * Clients, server and children as processes

    All processes of a run of client.c with server.c, or of client-rev1.c with server-rev1.c: the
    clients and main of the server as in ClientTurns, a child for every request that was taken,
    and the threads that the children create, which write to output.txt. What the threads
    do is behind an interface, since the two versions of the server differ in it. *)

From stdpp Require Import base list gmap strings relations.
From Stdlib Require Import Ascii.
From S2P Require Import Prelude CString Text Segment ReqQueue AddSteps MainSteps SharedQueue ClientTurns.

(** ** The threads of the children *)

(** [J]: what the threads of a child have to write; [W]: where the threads of all children are. *)
Class Writers (J W : Type) := {
  ws_start : W;
  ws_spawn : J → W → W;           (** a child creates its threads *)
  ws_step : W → W → Prop;
  ws_joined : nat → W → Prop;     (** the threads that were created at this turn have ended *)
  ws_file : W → bytes;            (** output.txt *)
}.

(** Threads are created, and go on, in any order. *)
Inductive threads_run {J W} `{WR : Writers J W} : list J → W → Prop :=
  | t_start : threads_run [] ws_start
  | t_spawns js w j : threads_run js w → threads_run (js ++ [j]) (ws_spawn j w)
  | t_goes js w w' : threads_run js w → ws_step w w' → threads_run js w'.

(** What the threads promise to the children. *)
Class WritersOk {J W} `{WR : Writers J W} (good : J → Prop) (result : list J → bytes → Prop) := {
  writes_end js w : Forall good js → threads_run js w → Acc (λ w2 w1, ws_step w1 w2) w;
  writes_progress js w : Forall good js → threads_run js w →
    (∃ w', ws_step w w') ∨ (∀ j, j < length js → ws_joined j w) ∧ result js (ws_file w);
  result_perm js js' out : js ≡ₚ js' → result js out → result js' out;
}.

(** ** The children *)

(** Where a child is. *)
Inductive kpc :=
  | KLooks     (** after fork(): [if (n == 0 && strstr(shm,"exit") == NULL)] *)
  | KWaits     (** before [waits(SEMfr)] *)
  | KInside    (** before [openDir] *)
  | KOpened    (** before [signals(SEMfr)] *)
  | KJoins     (** in [joinThreads] *)
  | KDone      (** after [exit(1)] *)
  | KGone.     (** ended without work: it has seen "exit" *)

#[export] Instance kpc_eq_dec : EqDecision kpc.
Proof. solve_decision. Defined.

(** [k_undo]: what the end of the process will add to the semaphore of its directory (SEM_UNDO). *)
Record kid := Kid { k_item : item; k_pc : kpc; k_undo : Z }.

Record gstate {W} := GState {
  g_turns : mstate;       (** segment, clients, main of the server *)
  g_lost : Z;             (** what the end of the server took from SEMrq *)
  g_ini : option Z;       (** the semaphore that main of the server is about to set *)
  g_over : bool;          (** has the server process ended? *)
  g_sems : gmap Z Z;      (** the semaphores of the directories *)
  g_kids : list kid;
  g_order : list nat;     (** the children that have created their threads, in this order *)
  g_out : W
}.
Arguments gstate : clear implicits.
Arguments GState {_}.

Section dirs.
Context (ftok : bytes → Z).

Definition sem_of (k : kid) : Z := ftok (dirpath (k_item k)).

(** The child that gets the item has still to look for "exit", unless main itself is the child. *)
Definition born (t : taker) (it : item) : kid :=
  Kid it (match t with TFork _ => KLooks | _ => KWaits end) 0.

(** SETVAL takes back what the ends of processes would add. *)
Definition forget (id : Z) (k : kid) : kid :=
  if decide (sem_of k = id) then Kid (k_item k) (k_pc k) 0 else k.

(** ** The semaphores of the directories *)

(** What the ends of all children will add to a semaphore. *)
Definition undo_on (id : Z) (k : kid) : Z := if decide (sem_of k = id) then k_undo k else 0.
Definition undone (id : Z) (ks : list kid) : Z := foldr (λ k z, undo_on id k + z)%Z 0%Z ks.

Lemma undone_cons id k ks : undone id (k :: ks) = (undo_on id k + undone id ks)%Z.
Proof. done. Qed.

Lemma undone_app id ks ks' : undone id (ks ++ ks') = (undone id ks + undone id ks')%Z.
Proof. induction ks as [|k ks IH]; [done|]. simpl. rewrite IH. lia. Qed.

Lemma undone_insert id ks i k k' :
  ks !! i = Some k → undone id (<[i:=k']> ks) = (undone id ks - undo_on id k + undo_on id k')%Z.
Proof.
  revert i. induction ks as [|x ks IH]; intros [|i] Hi; simpl in *; [done|done|injection Hi as ->; lia|].
  rewrite IH by done. lia.
Qed.

Lemma undone_forget id ks : undone id (forget id <$> ks) = 0%Z.
Proof.
  induction ks as [|k ks IH]; [done|]. rewrite fmap_cons, !undone_cons, IH. unfold undo_on, forget.
  destruct (decide (sem_of k = id)) as [E|E]; [by case_decide|by rewrite decide_False].
Qed.

Lemma undone_forget_ne id id' ks : id ≠ id' → undone id' (forget id <$> ks) = undone id' ks.
Proof.
  intros Hne. induction ks as [|k ks IH]; [done|]. rewrite fmap_cons, !undone_cons, IH. unfold undo_on, forget.
  destruct (decide (sem_of k = id)) as [E|E]; [|done]. unfold sem_of in *. simpl. by rewrite !decide_False by congruence.
Qed.

Lemma undone_born id t out : undone id (born t <$> out) = 0%Z.
Proof. induction out as [|it out IH]; [done|]. rewrite fmap_cons, undone_cons, IH. unfold undo_on. by case_decide. Qed.

(** Who has the semaphore will give it back: it and what SEM_UNDO adds come to one or more. *)
Definition sems_ok (sems : gmap Z Z) (ks : list kid) : Prop :=
  ∀ id v, sems !! id = Some v → (0 ≤ v ∧ 1 ≤ v + undone id ks)%Z.

Lemma sems_ok_move sems ks i k k' :
  ks !! i = Some k → sem_of k' = sem_of k → k_undo k' = k_undo k →
  sems_ok sems ks → sems_ok sems (<[i:=k']> ks).
Proof.
  intros Hi Es Eu Hs id v Hv. rewrite (undone_insert _ _ _ _ _ Hi). unfold undo_on. rewrite Es, Eu.
  destruct (Hs id v Hv). destruct (decide _); lia.
Qed.

Lemma sems_ok_change sems ks i k k' v v' :
  ks !! i = Some k → sem_of k' = sem_of k → sems !! sem_of k = Some v →
  (0 ≤ v')%Z → (v + k_undo k ≤ v' + k_undo k')%Z →
  sems_ok sems ks → sems_ok (<[sem_of k:=v']> sems) (<[i:=k']> ks).
Proof.
  intros Hi Es Hv H0 Hle Hs id x Hx. rewrite (undone_insert _ _ _ _ _ Hi). unfold undo_on. rewrite Es.
  destruct (decide (sem_of k = id)) as [<-|Hne].
  - rewrite lookup_insert_eq in Hx. injection Hx as <-. destruct (Hs _ _ Hv). lia.
  - rewrite lookup_insert_ne in Hx by done. destruct (Hs _ _ Hx). lia.
Qed.

Lemma sems_ok_set sems ks id : sems_ok sems ks → sems_ok (<[id:=1%Z]> sems) (forget id <$> ks).
Proof.
  intros Hs id' v Hv. destruct (decide (id = id')) as [<-|Hne].
  - rewrite lookup_insert_eq in Hv. injection Hv as <-. rewrite undone_forget. lia.
  - rewrite lookup_insert_ne in Hv by done. rewrite undone_forget_ne by done. by apply Hs.
Qed.

(** Between [waits(SEMfr)] and [signals(SEMfr)]. *)
Definition inside_dir (c : kpc) : bool := match c with KInside | KOpened => true | _ => false end.

(** Where nobody has the semaphore, it is free. *)
Lemma sem_free sems ks id v :
  sems_ok sems ks → (∀ k, k ∈ ks → k_undo k ≤ if inside_dir (k_pc k) then 1 else 0)%Z →
  (∀ k, k ∈ ks → sem_of k = id → inside_dir (k_pc k) = false) → sems !! id = Some v → (0 < v)%Z.
Proof.
  intros Hs Hu Hno Hv. destruct (Hs _ _ Hv) as [_ H1].
  assert (undone id ks ≤ 0)%Z; [|lia]. clear Hs H1 Hv. induction ks as [|k ks IH]; [done|]. simpl.
  assert (undo_on id k ≤ 0)%Z.
  { unfold undo_on. case_decide as E; [|done]. specialize (Hu k ltac:(left)).
    by rewrite (Hno k ltac:(left) E) in Hu. }
  assert (undone id ks ≤ 0)%Z; [|lia]. apply IH; intros k' Hk'; [apply Hu|apply Hno]; by right.
Qed.

(** ** The children and the order of their threads *)
Definition opened (c : kpc) : bool := match c with KOpened | KJoins | KDone => true | _ => false end.

Record kids_ok (sems : gmap Z Z) (ks : list kid) (o : list nat) : Prop := {
  ko_sems : sems_ok sems ks;
  ko_known : ∀ k, k ∈ ks → is_Some (sems !! sem_of k);
  ko_undo : ∀ k, k ∈ ks → (k_undo k ≤ if inside_dir (k_pc k) then 1 else 0)%Z;
  ko_order : NoDup o ∧ ∀ i, i ∈ o ↔ ∃ k, ks !! i = Some k ∧ opened (k_pc k) = true;
}.

Lemma elem_of_inserted {A} (x y : A) (l : list A) (i : nat) : x ∈ <[i:=y]> l → x = y ∨ x ∈ l.
Proof.
  intros (j & Hj)%list_elem_of_lookup. apply list_lookup_insert_Some in Hj as [(_ & -> & _)|[_ Hj]]; [by left|].
  right. by eapply list_elem_of_lookup_2.
Qed.

Lemma sem_of_item k k' : k_item k' = k_item k → sem_of k' = sem_of k.
Proof. unfold sem_of. by intros ->. Qed.

Lemma known_insert (sems : gmap Z Z) id v x : is_Some (sems !! x) → is_Some (<[id:=v]> sems !! x).
Proof. intros [y Hy]. destruct (decide (id = x)) as [->|?]; [rewrite lookup_insert_eq|rewrite lookup_insert_ne by done]; eauto. Qed.

(** One child moves, and perhaps its semaphore with it. *)
Lemma kids_move sems sems' ks o i k k' :
  kids_ok sems ks o → ks !! i = Some k → k_item k' = k_item k → opened (k_pc k') = opened (k_pc k) →
  (k_undo k' ≤ if inside_dir (k_pc k') then 1 else 0)%Z →
  (sems' = sems ∧ k_undo k' = k_undo k ∨
   ∃ v v', sems !! sem_of k = Some v ∧ sems' = <[sem_of k:=v']> sems ∧ (0 ≤ v')%Z ∧
     (v + k_undo k ≤ v' + k_undo k')%Z) →
  kids_ok sems' (<[i:=k']> ks) o.
Proof.
  intros [Hs Hk Hu [Hnd Ho]] Hi Ei Eo Hu' Hsem. pose proof (sem_of_item _ _ Ei) as Es.
  assert (Hk' : ∀ x, x ∈ <[i:=k']> ks → is_Some (sems !! sem_of x)).
  { intros x [->|Hx]%elem_of_inserted; [rewrite Es; by eapply Hk, list_elem_of_lookup_2|by apply Hk]. }
  constructor.
  - destruct Hsem as [[-> E]|(v & v' & Hv & -> & H0 & Hle)].
    + by eapply sems_ok_move.
    + by eapply sems_ok_change.
  - intros x Hx. destruct Hsem as [[-> E]|(v & v' & Hv & -> & H0 & Hle)]; [by apply Hk'|].
    by apply known_insert, Hk'.
  - intros x [->|Hx]%elem_of_inserted; [done|by apply Hu].
  - split; [done|]. intros j. rewrite Ho. destruct (decide (j = i)) as [->|Hne].
    + rewrite list_lookup_insert_eq by by eapply lookup_lt_Some. split; intros (x & Hx & E).
      * exists k'. split; [done|]. congruence.
      * injection Hx as <-. exists k. split; [done|]. congruence.
    + by rewrite list_lookup_insert_ne.
Qed.

(** A child creates its threads. *)
Lemma kids_open sems ks o i it u :
  kids_ok sems ks o → ks !! i = Some (Kid it KInside u) →
  kids_ok sems (<[i:=Kid it KOpened u]> ks) (o ++ [i]).
Proof.
  intros Hok Hi. pose proof (ko_undo _ _ _ Hok _ (list_elem_of_lookup_2 _ _ _ Hi)) as Hu. simpl in Hu.
  pose proof (ko_known _ _ _ Hok _ (list_elem_of_lookup_2 _ _ _ Hi)) as Hk.
  destruct Hok as [Hs Hkn Hun [Hnd Ho]]. constructor.
  - by eapply sems_ok_move.
  - intros x [->|Hx]%elem_of_inserted; [done|by apply Hkn].
  - intros x [->|Hx]%elem_of_inserted; [done|by apply Hun].
  - assert (Hno : i ∉ o) by (rewrite Ho; intros (k & Hk' & E); rewrite Hi in Hk'; by injection Hk' as <-). split.
    + apply NoDup_app. split; [done|]. split; [|apply NoDup_singleton]. by intros j Hj ->%list_elem_of_singleton.
    + intros j. rewrite elem_of_app, list_elem_of_singleton, Ho. destruct (decide (j = i)) as [->|Hne].
      * rewrite list_lookup_insert_eq by by eapply lookup_lt_Some. split; [eauto|by right].
      * rewrite list_lookup_insert_ne by done. naive_solver.
Qed.

(** The server sets a semaphore to 1. *)
Lemma kids_set sems ks o id : kids_ok sems ks o → kids_ok (<[id:=1%Z]> sems) (forget id <$> ks) o.
Proof.
  intros [Hs Hk Hu [Hnd Ho]].
  assert (Hf : ∀ k, sem_of (forget id k) = sem_of k ∧ k_pc (forget id k) = k_pc k ∧
    (k_undo (forget id k) = k_undo k ∨ k_undo (forget id k) = 0%Z)).
  { intros k. unfold forget, sem_of. case_decide; simpl; auto. }
  constructor.
  - by apply sems_ok_set.
  - intros x (k & -> & Hin)%list_elem_of_fmap. destruct (Hf k) as (-> & _). by apply known_insert, Hk.
  - intros x (k & -> & Hin)%list_elem_of_fmap. destruct (Hf k) as (_ & -> & [->| ->]); [by apply Hu|].
    by destruct (inside_dir _).
  - split; [done|]. intros i. rewrite Ho, list_lookup_fmap. split.
    + intros (k & -> & E). exists (forget id k). split; [done|]. by destruct (Hf k) as (_ & -> & _).
    + intros (x & Hx & E). destruct (ks !! i) as [k|]; [|done]. injection Hx as <-. exists k. split; [done|].
      by destruct (Hf k) as (_ & <- & _).
Qed.

(** Children are forked. *)
Lemma kids_born sems ks o t out :
  (∀ it, it ∈ out → is_Some (sems !! ftok (dirpath it))) →
  kids_ok sems ks o → kids_ok sems (ks ++ (born t <$> out)) o.
Proof.
  intros Hout [Hs Hk Hu [Hnd Ho]]. constructor.
  - intros id v Hv. rewrite undone_app, undone_born. destruct (Hs id v Hv). lia.
  - intros x [Hx|(it & -> & Hin)%list_elem_of_fmap]%elem_of_app; [by apply Hk|by apply Hout].
  - intros x [Hx|(it & -> & Hin)%list_elem_of_fmap]%elem_of_app; [by apply Hu|]. by destruct t.
  - split; [done|]. intros i. rewrite Ho. split.
    + intros (k & Hi & E). exists k. split; [by apply lookup_app_l_Some|done].
    + intros (k & [Hi|[_ Hi]]%lookup_app_Some & E); [eauto|].
      apply list_lookup_fmap_Some in Hi as (it & -> & _). unfold born in E. by destruct t.
Qed.

End dirs.

Section processes.
Context {J W} `{WR : Writers J W} (junk : nat → nat → ascii) (ftok : bytes → Z) (job_of : item → outcome J).

(** A step of a child or of a thread. [exit] ends a child; SEM_UNDO does not bring a semaphore below 0. *)
Inductive kstep : gstate W → gstate W → Prop :=
  | k_looks i it u m l p e sems ks o w :
      ks !! i = Some (Kid it KLooks u) →
      kstep (GState m l p e sems ks o w)
        (GState m l p e sems (<[i:=Kid it (if has_exit (ms_seg m) then KGone else KWaits) u]> ks) o w)
  | k_waits i it u v m l p e sems ks o w :
      ks !! i = Some (Kid it KWaits u) → sems !! ftok (dirpath it) = Some v → (0 < v)%Z →
      kstep (GState m l p e sems ks o w)
        (GState m l p e (<[ftok (dirpath it):=(v - 1)%Z]> sems) (<[i:=Kid it KInside (u + 1)]> ks) o w)
  | k_opens i it u j m l p e sems ks o w :
      ks !! i = Some (Kid it KInside u) → job_of it = Ok j →
      kstep (GState m l p e sems ks o w)
        (GState m l p e sems (<[i:=Kid it KOpened u]> ks) (o ++ [i]) (ws_spawn j w))
  | k_signals i it u v m l p e sems ks o w :
      ks !! i = Some (Kid it KOpened u) → sems !! ftok (dirpath it) = Some v →
      kstep (GState m l p e sems ks o w)
        (GState m l p e (<[ftok (dirpath it):=(v + 1)%Z]> sems) (<[i:=Kid it KJoins (u - 1)]> ks) o w)
  | k_exits i j it u v m l p e sems ks o w :
      ks !! i = Some (Kid it KJoins u) → o !! j = Some i → ws_joined j w →
      sems !! ftok (dirpath it) = Some v →
      kstep (GState m l p e sems ks o w)
        (GState m l p e (<[ftok (dirpath it):=(0 `max` (v + u))%Z]> sems) (<[i:=Kid it KDone 0]> ks) o w)
  | k_writes w' m l p e sems ks o w :
      ws_step w w' → kstep (GState m l p e sems ks o w) (GState m l p e sems ks o w').

(** The end of [dequeueItem]: [SEMfr = semget(ftok(item->dirpath,'E'),...); sem_ini(SEMfr,1);] follows. *)
Definition to_set (t t' : taker) : option Z :=
  match t, t' with TMove _ _ _, TFork (Some it) => Some (ftok (dirpath it)) | _, _ => None end.

(** A step of any process. SEMrq has the value [ms_sem m - l]. *)
Inductive gstep : gstate W → gstate W → Prop :=
  | g_child g g' : kstep g g' → gstep g g'
  | g_client m m' l p e sems ks o w :
      cstep m m' → (l ≤ ms_sem m')%Z →
      gstep (GState m l p e sems ks o w) (GState m' l p e sems ks o w)
  | g_main seg seg' sem cs t t' rq rq' tk out l e sems ks o w :
      stopped t = false → main_step junk rq t seg = Ok ((t', rq', out), seg') →
      gstep (GState (MState seg sem cs t rq tk) l None e sems ks o w)
        (GState (MState seg' sem cs t' rq' (tk ++ out)) l (to_set t t') e sems (ks ++ (born t <$> out)) o w)
  | g_sem_ini id m l e sems ks o w :
      gstep (GState m l (Some id) e sems ks o w) (GState m l None e (<[id:=1%Z]> sems) (forget ftok id <$> ks) o w)
  | g_ends m l sems ks o w :
      stopped (ms_server m) = true →
      gstep (GState m l None false sems ks o w)
        (GState m (if decide (0 < ms_sem m)%Z then 1 else 0) None true sems ks o w).

(** The server has made the queue; the clients have their scripts. *)
Definition g_init (scripts : list (list bytes)) (n : nat) : gstate W :=
  GState (m_init scripts n) 0 None false ∅ [] [] ws_start.

(** ** The invariant *)

(** The item that main of the server has and no child yet. *)
Definition held (t : taker) : list item := match t with TFork (Some it) | TAlone (Some it) => [it] | _ => [] end.

(** What a step of main does with items. *)
Lemma main_step_items rq t seg t' rq' out seg' :
  main_step junk rq t seg = Ok ((t', rq', out), seg') →
  (∀ it, it ∈ out → it ∈ held t) ∧
  ∀ it, it ∈ held t' → it ∈ held t ∧ to_set t t' = None ∨
    SP ∉ dirpath it ∧ t' = TFork (Some it) ∧ to_set t t' = Some (ftok (dirpath it)).
Proof using.
  destruct t as [|i c| |i|i str|m r str|it|it| |it]; unfold main_step; intros E.
  - erewrite bind_Ok in E by apply exit_now_ok. destruct (has_exit seg); injection E as <- <- <- <-;
      split; by intros ? ?%elem_of_nil.
  - unfold mbind, M_bind in E. destruct (rd i seg) as [[x s1]| | |]; try done. case_decide; injection E as <- <- <- <-;
      [|split; by intros ? ?%elem_of_nil]. split; [by intros ? ?%elem_of_nil|]. case_decide; by intros ? ?%elem_of_nil.
  - erewrite bind_Ok in E by apply exit_now_ok. destruct (has_exit seg); injection E as <- <- <- <-;
      split; by intros ? ?%elem_of_nil.
  - unfold mbind, M_bind in E. destruct (rd i seg) as [[x s1]| | |]; try done. injection E as <- <- <- <-.
    split; [by intros ? ?%elem_of_nil|]. case_decide; by intros ? ?%elem_of_nil.
  - unfold mbind, M_bind in E. destruct (rd i seg) as [[x s1]| | |]; try done. case_decide.
    + injection E as <- <- <- <-. split; by intros ? ?%elem_of_nil.
    + case_decide; [|done]. injection E as <- <- <- <-. split; by intros ? ?%elem_of_nil.
  - destruct m as [|m].
    + erewrite bind_Ok in E by done. cbv beta in E. destruct (strstr _ rqHeader) as [n|]; [|done].
      rewrite lift_bind in E. destruct (str_of _) as [s1| | |]; try done. cbn in E.
      rewrite lift_bind in E. destruct (split_item s1) as [it| | |] eqn:Es; try done.
      injection E as <- <- <- <-. split; [by intros ? ?%elem_of_nil|]. intros it' ->%list_elem_of_singleton.
      right. by destruct (split_request _ _ Es).
    + unfold mbind, M_bind in E. destruct (wr m _ seg) as [[? s1]| | |]; try done. injection E as <- <- <- <-.
      split; by intros ? ?%elem_of_nil.
  - erewrite bind_Ok in E by apply exit_now_ok. destruct (has_exit seg).
    + injection E as <- <- <- <-. split; [by intros ? ?%elem_of_nil|]. intros it' Hit. left. by destruct it.
    + unfold give in E. destruct it as [it|]; [|done]. injection E as <- <- <- <-.
      split; [by intros ? ?|by intros ? ?%elem_of_nil].
  - erewrite bind_Ok in E by apply exit_now_ok. destruct (has_exit seg).
    + injection E as <- <- <- <-. split; by intros ? ?%elem_of_nil.
    + unfold give in E. destruct it as [it|]; [|done]. injection E as <- <- <- <-.
      split; [by intros ? ?|by intros ? ?%elem_of_nil].
  - erewrite bind_Ok in E by apply exit_now_ok. destruct (has_exit seg); injection E as <- <- <- <-;
      split; by intros ? ?%elem_of_nil.
  - injection E as <- <- <- <-. split; by intros ? ?%elem_of_nil.
Qed.

Section runs.
Context (scripts : list (list bytes)) (n : nat) (good : J → Prop) (result : list J → bytes → Prop).
Context `{!WritersOk good result}.
Context (Hacc : Forall acceptable (mjoin scripts)) (Hroom : 17 + used (mjoin scripts) < n).
Context (Hjobs : ∀ it, request it ∈ mjoin scripts → no_exit (request it) → SP ∉ dirpath it →
  ∃ j, job_of it = Ok j ∧ good j).

Record ginv (g : gstate W) : Prop := {
  gi_run : rtc (mstep junk) (m_init scripts n) (g_turns g);
  gi_items : k_item <$> g_kids g = ms_taken (g_turns g);
  gi_paths : ∀ it, it ∈ held (ms_server (g_turns g)) ∨ it ∈ ms_taken (g_turns g) → SP ∉ dirpath it;
  gi_lost : (0 ≤ g_lost g ≤ ms_sem (g_turns g))%Z ∧ (g_lost g ≤ 1)%Z ∧ (g_over g = false → g_lost g = 0%Z);
  gi_over : g_over g = true → stopped (ms_server (g_turns g)) = true ∧ g_ini g = None;
  gi_held : ∀ it, it ∈ held (ms_server (g_turns g)) →
    g_ini g = Some (ftok (dirpath it)) ∨ g_ini g = None ∧ is_Some (g_sems g !! ftok (dirpath it));
  gi_ini : ∀ id, g_ini g = Some id → ∃ it, it ∈ held (ms_server (g_turns g)) ∧ id = ftok (dirpath it);
  gi_kids : kids_ok ftok (g_sems g) (g_kids g) (g_order g);
  gi_jobs : ∃ jobs, threads_run jobs (g_out g) ∧ Forall good jobs ∧
    Forall2 (λ i j, ∃ it, ms_taken (g_turns g) !! i = Some it ∧ job_of it = Ok j) (g_order g) jobs;
}.

Lemma ginv_init : ginv (g_init scripts n).
Proof using All.
  constructor; cbn.
  - apply rtc_refl.
  - done.
  - by intros it [?%elem_of_nil|?%elem_of_nil].
  - lia.
  - done.
  - by intros it ?%elem_of_nil.
  - done.
  - constructor; [done|by intros k ?%elem_of_nil|by intros k ?%elem_of_nil|]. split; [constructor|].
    intros i. split; [by intros ?%elem_of_nil|]. by intros (k & ? & _).
  - exists []. split; [constructor|]. split; constructor.
Qed.

(** *** A child moves *)
Lemma ginv_move m l p e sems ks o w i k k' sems' o' w' :
  ginv (GState m l p e sems ks o w) → ks !! i = Some k → k_item k' = k_item k →
  (∀ x, is_Some (sems !! x) → is_Some (sems' !! x)) →
  kids_ok ftok sems' (<[i:=k']> ks) o' →
  (∃ jobs, threads_run jobs w' ∧ Forall good jobs ∧
    Forall2 (λ i j, ∃ it, ms_taken m !! i = Some it ∧ job_of it = Ok j) o' jobs) →
  ginv (GState m l p e sems' (<[i:=k']> ks) o' w').
Proof using All.
  intros [Hrun Hit Hp Hl Ho Hh Hn Hk Hj] Hi Ei Hsub Hk' Hj'. constructor; cbn in *; try done.
  - rewrite list_fmap_insert, Ei, <- Hit. apply list_insert_id. by rewrite list_lookup_fmap, Hi.
  - intros it Hin. destruct (Hh it Hin) as [?|[? ?]]; [by left|right; auto].
Qed.

(** What is known of a child's item. *)
Lemma kid_item g i k :
  ginv g → g_kids g !! i = Some k →
  request (k_item k) ∈ mjoin scripts ∧ no_exit (request (k_item k)) ∧ SP ∉ dirpath (k_item k).
Proof using All.
  intros Hi Hk. destruct (minv_run junk scripts n _ (gi_run _ Hi)) as (fin & cur & Hm).
  assert (Hin : k_item k ∈ ms_taken (g_turns g)).
  { rewrite <- (gi_items _ Hi). by eapply list_elem_of_fmap_2, list_elem_of_lookup_2. }
  destruct (minv_facts junk scripts n _ _ _ Hacc Hroom Hm) as (_ & _ & _ & Hx & rest & Hr & _).
  destruct (order_part junk scripts n _ _ _ Hm) as [rest' Hp]. split; [|split].
  - rewrite Hp, Hr, !elem_of_app. left. left. by apply list_elem_of_fmap_2.
  - rewrite Forall_forall in Hx. by apply Hx, list_elem_of_fmap_2.
  - apply (gi_paths _ Hi). by right.
Qed.

Lemma kid_job g i k : ginv g → g_kids g !! i = Some k → ∃ j, job_of (k_item k) = Ok j ∧ good j.
Proof using All. intros Hi Hk. destruct (kid_item _ _ _ Hi Hk) as (? & ? & ?). by apply Hjobs. Qed.

Lemma ginv_kstep g g' : ginv g → kstep g g' → ginv g'.
Proof using All.
  intros Hi Hst. pose proof (gi_kids _ Hi) as Hk. pose proof (gi_jobs _ Hi) as Hj.
  destruct Hst as [i it u m l p e sems ks o w Hc|i it u v m l p e sems ks o w Hc Hv Hpos|
    i it u j m l p e sems ks o w Hc Hjob|i it u v m l p e sems ks o w Hc Hv|
    i j it u v m l p e sems ks o w Hc Ho Hjoin Hv|w' m l p e sems ks o w Hw]; cbn in Hk, Hj;
    try (pose proof (ko_undo _ _ _ _ Hk _ (list_elem_of_lookup_2 _ _ _ Hc)) as Hu; cbn in Hu).
  - eapply ginv_move; [exact Hi|exact Hc|done|done| |exact Hj].
    eapply kids_move; [exact Hk|exact Hc|done|by destruct (has_exit _)| |by left].
    by destruct (has_exit _).
  - eapply ginv_move; [exact Hi|exact Hc|done|by intros; apply known_insert| |exact Hj].
    eapply kids_move; [exact Hk|exact Hc|done|done|cbn; lia|].
    right. exists v, (v - 1)%Z. split; [exact Hv|]. split; [done|]. cbn. lia.
  - destruct Hj as (jobs & Hw & Hg & Ho). eapply ginv_move; [exact Hi|exact Hc|done|done|by apply kids_open|].
    destruct (kid_job _ _ _ Hi Hc) as (j' & Ej & Hgj). cbn in Ej. rewrite Hjob in Ej. injection Ej as <-.
    exists (jobs ++ [j]). split; [by constructor|]. split; [by apply Forall_app; split; [|apply Forall_singleton]|].
    apply Forall2_app; [done|]. constructor; [|constructor]. exists it. split; [|done].
    pose proof (gi_items _ Hi) as Hit. cbn in Hit. by rewrite <- Hit, list_lookup_fmap, Hc.
  - destruct (ko_sems _ _ _ _ Hk _ _ Hv) as [H0 _].
    eapply ginv_move; [exact Hi|exact Hc|done|by intros; apply known_insert| |exact Hj].
    eapply kids_move; [exact Hk|exact Hc|done|done|cbn; lia|].
    right. exists v, (v + 1)%Z. split; [exact Hv|]. split; [done|]. cbn. lia.
  - eapply ginv_move; [exact Hi|exact Hc|done|by intros; apply known_insert| |exact Hj].
    eapply kids_move; [exact Hk|exact Hc|done|done|done|].
    right. exists v, (0 `max` (v + u))%Z. split; [exact Hv|]. split; [done|]. cbn. lia.
  - destruct Hi as [Hrun Hit Hp Hl Hov Hh Hn _ _]. constructor; cbn in *; try done.
    destruct Hj as (jobs & Hjw & Hg & Ho). exists jobs. split; [by eapply t_goes|done].
Qed.

(** *** The other processes move *)

Lemma cstep_server m m' :
  cstep m m' → ms_server m' = ms_server m ∧ ms_taken m' = ms_taken m.
Proof using All. by destruct 1. Qed.

Lemma turns_sem m : rtc (mstep junk) (m_init scripts n) m → (0 ≤ ms_sem m ≤ 1)%Z.
Proof using All.
  intros Hr. destruct (minv_run junk scripts n _ Hr) as (fin & cur & Hm).
  rewrite (mi_sem _ _ _ _ _ _ Hm). by destruct cur.
Qed.

Lemma ginv_client m m' l p e sems ks o w :
  ginv (GState m l p e sems ks o w) → cstep m m' → (l ≤ ms_sem m')%Z → ginv (GState m' l p e sems ks o w).
Proof using All.
  intros [Hrun Hit Hp Hl Ho Hh Hn Hk Hj] Hst Hle. destruct (cstep_server _ _ Hst) as [Es Et].
  constructor; cbn in *; rewrite ?Es, ?Et; try done.
  - eapply rtc_r; [exact Hrun|]. by apply m_client.
  - split; [split; [apply Hl|done]|apply Hl].
Qed.

Lemma ginv_main seg seg' sem cs t t' rq rq' tk out l e sems ks o w :
  ginv (GState (MState seg sem cs t rq tk) l None e sems ks o w) →
  stopped t = false → main_step junk rq t seg = Ok ((t', rq', out), seg') →
  ginv (GState (MState seg' sem cs t' rq' (tk ++ out)) l (to_set t t') e sems (ks ++ (born t <$> out)) o w).
Proof using All.
  intros [Hrun Hit Hp Hl Ho Hh Hn Hk Hj] Hs E. destruct (main_step_items _ _ _ _ _ _ _ E) as [Hout Hheld].
  constructor; cbn in *.
  - eapply rtc_r; [exact Hrun|]. by apply m_server.
  - rewrite fmap_app, Hit, <- list_fmap_compose. f_equal. by rewrite <- (list_fmap_id out) at 2.
  - intros it [Hin|Hin].
    + destruct (Hheld it Hin) as [[? _]|[? _]]; [|done]. apply Hp. by left.
    + apply elem_of_app in Hin as [Hin|Hin]; apply Hp; [by right|left; auto].
  - done.
  - intros Hov. destruct (Ho Hov). congruence.
  - intros it Hin. destruct (Hheld it Hin) as [[Hin' ->]|(_ & _ & ->)]; [|by left].
    right. split; [done|]. by destruct (Hh it Hin') as [?|[_ ?]].
  - intros id Hid. destruct t; try done. destruct t' as [| | | | | |[it|]| | |]; try done.
    injection Hid as <-. exists it. split; [|done]. by apply list_elem_of_singleton.
  - apply kids_born; [|done]. intros it Hin. by destruct (Hh it (Hout it Hin)) as [?|[_ ?]].
  - destruct Hj as (jobs & Hw & Hg & Hf). exists jobs. split; [done|]. split; [done|].
    eapply Forall2_impl; [exact Hf|]. intros i j (it & Hi & ?). exists it. split; [|done].
    by apply lookup_app_l_Some.
Qed.

Lemma ginv_sem_ini id m l e sems ks o w :
  ginv (GState m l (Some id) e sems ks o w) →
  ginv (GState m l None e (<[id:=1%Z]> sems) (forget ftok id <$> ks) o w).
Proof using All.
  intros [Hrun Hit Hp Hl Ho Hh Hn Hk Hj]. constructor; cbn in *; try done.
  - rewrite <- Hit, <- list_fmap_compose. apply list_fmap_ext. intros i k _. unfold compose, forget. by case_decide.
  - intros Hov. by destruct (Ho Hov).
  - intros it Hin. right. split; [done|]. destruct (Hn id eq_refl) as (it' & Hin' & ->).
    assert (it' = it) as ->.
    { destruct (ms_server m) as [| | | | | |[x|]|[x|]| |]; cbn in *; try by apply elem_of_nil in Hin.
      all: by apply list_elem_of_singleton in Hin as ->, Hin' as ->. }
    rewrite lookup_insert_eq. eauto.
  - by apply kids_set.
Qed.

Lemma ginv_ends m l sems ks o w :
  ginv (GState m l None false sems ks o w) → stopped (ms_server m) = true →
  ginv (GState m (if decide (0 < ms_sem m)%Z then 1 else 0) None true sems ks o w).
Proof using All.
  intros [Hrun Hit Hp Hl Ho Hh Hn Hk Hj] Hs. pose proof (turns_sem _ Hrun) as Hsem.
  constructor; cbn in *; try done.
  case_decide; split; [lia|split; [lia|done]|lia|split; [lia|done]].
Qed.

Lemma ginv_gstep g g' : ginv g → gstep g g' → ginv g'.
Proof using All.
  intros Hi Hst. destruct Hst.
  - by eapply ginv_kstep.
  - by eapply ginv_client.
  - by eapply ginv_main.
  - by eapply ginv_sem_ini.
  - by eapply ginv_ends.
Qed.

Lemma ginv_run g : rtc gstep (g_init scripts n) g → ginv g.
Proof using All.
  intros Hr. apply (rtc_preserves gstep ginv (g_init scripts n) g); [|exact Hr|apply ginv_init].
  intros g1 g2. apply ginv_gstep.
Qed.

(** ** The children and threads end *)
Definition k_rank (k : kid) : nat :=
  match k_pc k with KLooks => 5 | KWaits => 4 | KInside => 3 | KOpened => 2 | KJoins => 1 | _ => 0 end.
Definition kids_rank (g : gstate W) : nat := sum_list (k_rank <$> g_kids g).

Lemma kstep_rank g g' :
  kstep g g' → kids_rank g' < kids_rank g ∨ g_kids g' = g_kids g ∧ ws_step (g_out g) (g_out g').
Proof using All.
  assert (Hlt : ∀ (ks : list kid) i k k', ks !! i = Some k → k_rank k' < k_rank k →
    sum_list (k_rank <$> <[i:=k']> ks) < sum_list (k_rank <$> ks)).
  { intros ks i k k' Hi Hr. pose proof (sum_list_fmap_insert k_rank ks i k k' Hi). lia. }
  destruct 1; [left..|by right]; eapply Hlt; try done; cbn; try lia. by case_match; cbn; lia.
Qed.

Lemma kids_end g : ginv g → Acc (λ g2 g1, kstep g1 g2) g.
Proof using All.
  remember (kids_rank g) as r eqn:Er. revert g Er. induction (lt_wf r) as [r _ IHr]. intros g -> Hi.
  destruct (gi_jobs _ Hi) as (jobs & Hw & Hg & _). pose proof (writes_end _ _ Hg Hw) as Hacc'. clear Hw Hg.
  remember (g_out g) as w eqn:Ew. revert g Ew IHr Hi. induction Hacc' as [w _ IHw]. intros g -> IHr Hi.
  constructor. intros g' Hst. pose proof (ginv_kstep _ _ Hi Hst) as Hi'.
  destruct (kstep_rank _ _ Hst) as [Hlt|[Ek Hws]]; [by eapply IHr|].
  eapply IHw; [exact Hws|done| |done]. intros r' Hr'. apply IHr. unfold kids_rank in *. by rewrite <- Ek.
Qed.

(** ** They do not block each other *)
Definition ended (k : kid) : Prop := k_pc k = KDone ∨ k_pc k = KGone.

(** The items of the children that have done their work. *)
Definition worked (g : gstate W) : list item := k_item <$> filter (λ k, k_pc k = KDone) (g_kids g).

Lemma kid_moves g jobs i k :
  ginv g → threads_run jobs (g_out g) →
  Forall2 (λ i j, ∃ it, ms_taken (g_turns g) !! i = Some it ∧ job_of it = Ok j) (g_order g) jobs →
  (∀ j, j < length jobs → ws_joined j (g_out g)) →
  g_kids g !! i = Some k → (k_pc k = KWaits → ∃ v, g_sems g !! sem_of ftok k = Some v ∧ (0 < v)%Z) →
  (∃ g', kstep g g') ∨ ended k.
Proof using All.
  intros Hi Hw Hjobs' Hjoin Hk Hfree. pose proof (gi_kids _ Hi) as Hok. destruct (kid_job _ _ _ Hi Hk) as (j & Ej & _).
  destruct (ko_known _ _ _ _ Hok _ (list_elem_of_lookup_2 _ _ _ Hk)) as [v Hv].
  destruct g as [m l p e sems ks o w], k as [it [] u]; cbn in *.
  - left. eexists. by eapply k_looks.
  - left. destruct (Hfree eq_refl) as (v' & Hv' & Hp). eexists. by eapply k_waits.
  - left. eexists. by eapply k_opens.
  - left. eexists. by eapply k_signals.
  - left. destruct (proj2 (ko_order _ _ _ _ Hok) i) as [_ Hin]. cbn in Hin.
    destruct (list_elem_of_lookup_1 o i) as [t Ht]; [apply Hin; by eexists|].
    eexists. eapply (k_exits i t); [exact Hk|exact Ht| |exact Hv]. apply Hjoin.
    apply Forall2_length in Hjobs'. apply lookup_lt_Some in Ht. lia.
  - right. by left.
  - right. by right.
Qed.

Lemma kids_progress g :
  ginv g → (∃ g', kstep g g') ∨
  (∀ k, k ∈ g_kids g → ended k) ∧
  ∃ jobs, Forall2 (λ it j, job_of it = Ok j) (worked g) jobs ∧ result jobs (ws_file (g_out g)).
Proof using All.
  intros Hi. destruct (gi_jobs _ Hi) as (jobs & Hw & Hg & Hf).
  destruct (writes_progress _ _ Hg Hw) as [[w' Hst]|[Hjoin Hres]].
  { left. destruct g. eexists. by eapply k_writes. }
  assert (Hkid : ∀ k, k ∈ g_kids g → inside_dir (k_pc k) = true → ∃ g', kstep g g').
  { intros k [i Hk]%list_elem_of_lookup Hin.
    destruct (kid_moves _ _ _ _ Hi Hw Hf Hjoin Hk) as [?|[E|E]]; [by destruct (k_pc k)|done|..]; by rewrite E in Hin. }
  destruct (some_or_all (∃ g', kstep g g') (λ k, inside_dir (k_pc k) = false) (g_kids g)) as [?|Hout]; [|by left|].
  { intros k Hk. destruct (inside_dir (k_pc k)) eqn:E; [left; by eapply Hkid|by right]. }
  pose proof (gi_kids _ Hi) as Hok.
  destruct (some_or_all (∃ g', kstep g g') ended (g_kids g)) as [?|Hall]; [|by left|].
  { intros k [i Hk]%list_elem_of_lookup. eapply kid_moves; [done..|]. intros _.
    destruct (ko_known _ _ _ _ Hok _ (list_elem_of_lookup_2 _ _ _ Hk)) as [v Hv]. exists v. split; [done|].
    eapply sem_free; [exact (ko_sems _ _ _ _ Hok)|exact (ko_undo _ _ _ _ Hok)| |exact Hv]. intros k' Hk' _. by apply Hout. }
  right. split; [done|]. destruct (ko_order _ _ _ _ Hok) as [Hnd Ho].
  assert (Hp : omap (λ i, ms_taken (g_turns g) !! i) (g_order g) ≡ₚ worked g).
  { unfold worked. rewrite <- (pick_perm (λ k, k_pc k = KDone) (g_kids g) (g_order g) Hnd).
    - apply reflexive_eq. rewrite <- (gi_items _ Hi). generalize (g_order g). intros o.
      induction o as [|i o IH]; [done|]. cbn. rewrite list_lookup_fmap. destruct (g_kids g !! i); cbn; by rewrite IH.
    - intros i. rewrite Ho. split; intros (k & Hk & E); exists k; (split; [done|]); [|by rewrite E].
      destruct (Hall k (list_elem_of_lookup_2 _ _ _ Hk)) as [?|E']; [done|]. by rewrite E' in E. }
  assert (Hf' : Forall2 (λ it j, job_of it = Ok j) (omap (λ i, ms_taken (g_turns g) !! i) (g_order g)) jobs).
  { clear -Hf. induction Hf as [|i j o js (it & Hi & E) _ IH]; [constructor|]. cbn. rewrite Hi. by constructor. }
  destruct (Permutation_Forall2 Hp Hf') as (jobs' & Hp' & Hf''). exists jobs'. split; [done|].
  by eapply result_perm.
Qed.

(** ** Where a child has no work *)

(** A child ends without work only when it sees "exit": in a request, or while the header moves. *)
Lemma kid_gone g g' i k k' :
  ginv g → gstep g g' → g_kids g !! i = Some k → g_kids g' !! i = Some k' → k_pc k ≠ KGone → k_pc k' = KGone →
  Exists (occurs exit_word) (mjoin scripts) ∨ moving (ms_server (g_turns g)).
Proof using All.
  intros Hi Hst Hk Hk' Hne Hg.
  assert (Hother : ∀ (ks : list kid) (j : nat) x, ks !! i = Some k → <[j:=x]> ks !! i = Some k' → k_pc x = KGone).
  { intros ks j x E [(_ & -> & _)|[_ E']]%list_lookup_insert_Some; [done|]. congruence. }
  destruct Hst as [g g' Hst| | | |]; cbn in *; [|congruence|..|congruence].
  - destruct Hst as [j it u m l p e sems ks o w Hc| | | | |]; cbn in *; try congruence;
      try by (specialize (Hother _ _ _ Hk Hk'); done).
    specialize (Hother _ _ _ Hk Hk'). cbn in Hother. destruct (has_exit (ms_seg m)) eqn:Hx; [|done].
    destruct (minv_run junk scripts n _ (gi_run _ Hi)) as (fin & cur & Hm).
    by eapply (minv_exit junk scripts n m fin cur).
  - rewrite lookup_app_l in Hk' by by eapply lookup_lt_Some. congruence.
  - rewrite list_lookup_fmap, Hk in Hk'. injection Hk' as <-. unfold forget in Hg. by case_decide.
Qed.

(** ** Where nobody can go on *)
Lemma all_stuck g :
  ginv g → (∀ g', ¬ gstep g g') →
  (∀ i p, ms_clients (g_turns g) !! i = Some p → p = CDone ∨ g_over g = true ∧ ∃ s, p = CWaits s) ∧
  (g_over g = true ∨
   misreads junk n (ms_rq (g_turns g)) (ms_server (g_turns g)) ∧
   main_step junk (ms_rq (g_turns g)) (ms_server (g_turns g)) (ms_seg (g_turns g)) = Ub BadAccess) ∧
  ∀ k, k ∈ g_kids g → ended k.
Proof using All.
  intros Hi Hno. destruct (minv_run junk scripts n _ (gi_run _ Hi)) as (fin & cur & Hm).
  destruct (minv_facts junk scripts n _ _ _ Hacc Hroom Hm) as (Hadd & Hmain & _).
  destruct (kids_progress _ Hi) as [[g' Hst]|[Hk _]]; [by destruct (Hno g'); apply g_child|].
  destruct (gi_lost _ Hi) as (Hl & Hl1 & Hl0). pose proof (gi_over _ Hi) as Hov. pose proof (gi_run _ Hi) as Hrun.
  destruct g as [m l p e sems ks o w]; cbn in *.
  assert (p = None) as -> by (destruct p as [id|]; [|done]; exfalso; eapply Hno, g_sem_ini).
  split; [|split; [|done]].
  - intros i ph Hp. assert (ph = CDone ∨ ph ≠ CDone) as [?|Hne] by (destruct ph; auto); [by left|right].
    destruct (client_progress junk scripts n _ _ _ Hm Hadd (ex_intro _ i (ex_intro _ ph (conj Hp Hne)))) as [m' Hst].
    assert (Hs' : rtc (mstep junk) (m_init scripts n) m') by (eapply rtc_r; [exact Hrun|by apply m_client]).
    pose proof (turns_sem _ Hs') as Hsem'. assert (l = 1%Z) as ->.
    { destruct (decide (l ≤ ms_sem m')%Z); [|lia]. exfalso. eapply Hno. by eapply g_client. }
    destruct e; [|by specialize (Hl0 eq_refl)]. split; [done|].
    pose proof (mi_sem _ _ _ _ _ _ Hm) as Hs. destruct cur as [h|]; [lia|].
    destruct (mi_others _ _ _ _ _ _ Hm i ph Hp ltac:(done)) as [?|E]; [done|]. by eexists.
  - destruct e; [by left|]. right. destruct (stopped (ms_server m)) eqn:Es.
    { exfalso. eapply Hno. by apply g_ends. }
    destruct Hmain as [[[[[t' rq'] out] seg'] E]|?]; [|done].
    destruct m as [seg sem cs t rq tk]. exfalso. eapply Hno. by eapply g_main.
Qed.

(** A whole run. *)
Lemma processes_run g :
  rtc gstep (g_init scripts n) g →
  let m := g_turns g in
  k_item <$> g_kids g = ms_taken m ∧
  (∃ fin b rest, NoDup fin ∧ (∀ i, i ∈ fin ↔ ms_clients m !! i = Some CDone) ∧
    mjoin (script_of scripts <$> fin) ++ b = (request <$> ms_taken m) ++ rest ∧
    (b = [] ∨ ∃ i, i ∉ fin ∧ b `prefix_of` script_of scripts i) ∧
    ((∀ i p, ms_clients m !! i = Some p → p = CDone) → b = [] ∧ fin ≡ₚ seq 0 (length scripts) ∧
      (polling (ms_server m) → ∃ k room, ms_seg m = layout k rest room))) ∧
  Acc (λ g2 g1, kstep g1 g2) g ∧
  ((∀ g', ¬ kstep g g') → (∀ k, k ∈ g_kids g → ended k) ∧
    ∃ jobs, Forall2 (λ it j, job_of it = Ok j) (worked g) jobs ∧ result jobs (ws_file (g_out g))) ∧
  (∀ g' i k k', gstep g g' → g_kids g !! i = Some k → g_kids g' !! i = Some k' → k_pc k ≠ KGone → k_pc k' = KGone →
    Exists (occurs exit_word) (mjoin scripts) ∨ moving (ms_server m)) ∧
  ((∀ g', ¬ gstep g g') →
    (∀ i p, ms_clients m !! i = Some p → p = CDone ∨ g_over g = true ∧ ∃ s, p = CWaits s) ∧
    (g_over g = true ∨ misreads junk n (ms_rq m) (ms_server m) ∧
      main_step junk (ms_rq m) (ms_server m) (ms_seg m) = Ub BadAccess)).
Proof using All.
  intros Hr. pose proof (ginv_run _ Hr) as Hi. cbv zeta. split_and?.
  - exact (gi_items _ Hi).
  - exact (clients_order junk scripts n _ Hacc Hroom (gi_run _ Hi)).
  - by apply kids_end.
  - intros Hno. destruct (kids_progress _ Hi) as [[g' ?]|?]; [by destruct (Hno g')|done].
  - intros g' i k k'. by apply kid_gone.
  - intros Hno. destruct (all_stuck _ Hi Hno) as (? & ? & _). done.
Qed.

Lemma worked_item g it :
  rtc gstep (g_init scripts n) g → it ∈ worked g →
  request it ∈ mjoin scripts ∧ no_exit (request it) ∧ SP ∉ dirpath it.
Proof using All.
  intros Hr (k & -> & [_ [i Hk]%list_elem_of_lookup]%list_elem_of_filter)%list_elem_of_fmap.
  eapply kid_item; [by apply ginv_run|done].
Qed.

End runs.
End processes.

(** ** Runs by a schedule *)

(** Whose turn it is; the end of a child has a turn of its own, and [V] says which thread goes on. *)
Inductive who (V : Type) := SClient (i : nat) | SMain | SIni | SEnds | SChild (i : nat) | SThread (v : V).
Arguments SClient {V}. Arguments SMain {V}. Arguments SIni {V}. Arguments SEnds {V}. Arguments SChild {V}.
Arguments SThread {V}.

Section schedule.
Context {J W} `{WR : Writers J W} {V : Type} (turn : V → W → option W) (joined : nat → W → bool).
Context (Hturn : ∀ v w w', turn v w = Some w' → ws_step w w') (Hjoined : ∀ j w, joined j w = true → ws_joined j w).
Context (junk : nat → nat → ascii) (ftok : bytes → Z) (job_of : item → outcome J).

Definition k_turn (i : nat) (g : gstate W) : option (gstate W) :=
  let '(GState m l p e sems ks o w) := g in
  match ks !! i with
  | None => None
  | Some (Kid it c u) =>
      let go c' u' := <[i:=Kid it c' u']> ks in
      let id := ftok (dirpath it) in
      match c, sems !! id with
      | KLooks, _ => Some (GState m l p e sems (go (if has_exit (ms_seg m) then KGone else KWaits) u) o w)
      | KWaits, Some v =>
          if decide (0 < v)%Z then Some (GState m l p e (<[id:=(v - 1)%Z]> sems) (go KInside (u + 1)%Z) o w) else None
      | KInside, _ =>
          match job_of it with
          | Ok j => Some (GState m l p e sems (go KOpened u) (o ++ [i]) (ws_spawn j w))
          | _ => None
          end
      | KOpened, Some v => Some (GState m l p e (<[id:=(v + 1)%Z]> sems) (go KJoins (u - 1)%Z) o w)
      | KJoins, Some v =>
          match list_find (λ x, x = i) o with
          | Some (j, _) =>
              if joined j w then Some (GState m l p e (<[id:=(0 `max` (v + u))%Z]> sems) (go KDone 0%Z) o w) else None
          | None => None
          end
      | _, _ => None
      end
  end.

Definition g_turn (s : who V) (g : gstate W) : option (gstate W) :=
  let '(GState m l p e sems ks o w) := g in
  match s with
  | SClient i =>
      match m_turn junk (Some i) m with
      | Some m' => if decide (l ≤ ms_sem m')%Z then Some (GState m' l p e sems ks o w) else None
      | None => None
      end
  | SMain =>
      let '(MState seg sem cs t rq tk) := m in
      if decide (p = None ∧ stopped t = false) then
        match main_step junk rq t seg with
        | Ok ((t', rq', out), seg') =>
            Some (GState (MState seg' sem cs t' rq' (tk ++ out)) l (to_set ftok t t') e sems (ks ++ (born t <$> out)) o w)
        | _ => None
        end
      else None
  | SIni =>
      match p with Some id => Some (GState m l None e (<[id:=1%Z]> sems) (forget ftok id <$> ks) o w) | None => None end
  | SEnds =>
      if decide (p = None ∧ e = false ∧ stopped (ms_server m) = true) then
        Some (GState m (if decide (0 < ms_sem m)%Z then 1 else 0) None true sems ks o w)
      else None
  | SChild i => k_turn i g
  | SThread v => match turn v w with Some w' => Some (GState m l p e sems ks o w') | None => None end
  end.

Fixpoint g_run (ss : list (who V)) (g : gstate W) : option (gstate W) :=
  match ss with [] => Some g | s :: ss' => g' ← g_turn s g; g_run ss' g' end.

Lemma k_turn_ok i g g' : k_turn i g = Some g' → kstep ftok job_of g g'.
Proof using Hjoined.
  destruct g as [m l p e sems ks o w]. cbn. destruct (ks !! i) as [[it c u]|] eqn:Hi; [|done].
  destruct c; [|destruct (sems !! ftok (dirpath it)) as [v|] eqn:Hv; [|done]| |
    destruct (sems !! ftok (dirpath it)) as [v|] eqn:Hv; [|done]|
    destruct (sems !! ftok (dirpath it)) as [v|] eqn:Hv; [|done]|done|done].
  - intros [= <-]. by apply k_looks.
  - case_decide; [|done]. intros [= <-]. by apply k_waits.
  - destruct (job_of it) as [j| | |] eqn:Ej; try done. intros [= <-]. by apply k_opens.
  - intros [= <-]. by apply k_signals.
  - destruct (list_find _ o) as [[j x]|] eqn:Hf; [|done]. apply list_find_Some in Hf as (Hj & -> & _).
    destruct (joined j w) eqn:Hw; [|done]. intros [= <-]. eapply k_exits; eauto.
Qed.

Lemma g_turn_ok s g g' : g_turn s g = Some g' → gstep junk ftok job_of g g'.
Proof using Hjoined Hturn.
  destruct s as [i| | | |i|v]; [| | | |intros E; apply g_child; by eapply k_turn_ok; destruct g|];
    destruct g as [m l p e sems ks o w]; cbn [g_turn].
  - destruct (m_turn junk (Some i) m) as [m'|] eqn:E; [|done]. case_decide; [|done]. intros [= <-].
    eapply g_client; [by eapply m_turn_client|done].
  - destruct m as [seg sem cs t rq tk]. case_decide as Hc; [|done]. destruct Hc as [-> Hs].
    destruct (main_step junk rq t seg) as [[[[t' rq'] out] seg']| | |] eqn:E; try done. intros [= <-]. by apply g_main.
  - destruct p as [id|]; [|done]. intros [= <-]. apply g_sem_ini.
  - case_decide as Hc; [|done]. destruct Hc as (-> & -> & Hs). intros [= <-]. by apply g_ends.
  - destruct (turn v w) as [w'|] eqn:E; [|done]. intros [= <-]. apply g_child, k_writes. by eapply Hturn.
Qed.

Lemma g_run_ok ss g g' : g_run ss g = Some g' → rtc (gstep junk ftok job_of) g g'.
Proof using Hjoined Hturn.
  revert g. induction ss as [|s ss IH]; intros g; cbn [g_run]; [by intros [= <-]; apply rtc_refl|].
  destruct (g_turn s g) as [g1|] eqn:E; [|done]. intros Hr. eapply rtc_l; [by eapply g_turn_ok|by apply IH].
Qed.
End schedule.
