(* ===== verification/Client.v ===== *)
(** * The clients of the request queue

    client.c and client-rev1.c read a file of requests, one per line, and append
    them to the queue. *)

From stdpp Require Import base list sets strings.
From Stdlib Require Import Ascii.
From S2P Require Import Prelude CString Text FileSys Segment ReqQueue.

Definition SLASH : ascii := "/"%char.

(** [parseReq(rawReq)]: the request that it allocates. [buf] is the line in its
    buffer; [usable n] is the size of the block that [malloc(n)] gives. *)
Definition parse_req (usable : nat → nat) (buf : bytes) : outcome bytes :=
  let rest := strstr (c_str buf) [SLASH] in
  match strstr (c_str buf) [SP] with
  | None => Ub BadAccess
  | Some j =>
      rawReq ← rws (drop (S j) buf);
      match strchr (c_str rawReq) NL with
      | None => Ub NullDeref
      | Some n =>
          let buf := take (S j) buf ++ <[n:=NUL]> rawReq in
          match rest with
          | None => Ub NullDeref
          | Some i =>
              let s := c_str (drop i buf) in
              if decide (S (length s) ≤ usable (length s)) then Ok s else Ub Overflow
          end
      end
  end.

Section reading.
(** What is done with a request: AddReq. *)
Context {St : Type} (add : bytes → M St unit).

(** [while (fgets(buffer, 1024, file) != NULL)]: the rest of the stream, and how
    many requests were allocated and not freed. *)
Definition read_body (usable : nat → nat) (freed : bool) (st : bytes * nat) : M St (bytes * nat + nat) :=
  let '(stream, leaked) := st in
  match fgets 1024 stream with
  | None => mret (inr leaked)
  | Some (line, stream') =>
      let buffer := line ++ [NUL] in
      match strstr (c_str buffer) exit_word with
      | None =>
          Request ← lift (parse_req usable buffer);
          add Request;;
          mret (inl (stream', if freed then leaked else S leaked))
      | Some _ => add exit_word;; mret (inl (stream', leaked))
      end
  end.

(** [readfile(filepath)] *)
Definition readfile_with (usable : nat → nat) (freed : bool) (fs : fsys) (filepath : bytes) :
    M St (Z * nat) :=
  match fs_dir fs filepath with
  | Some _ => mret (0%Z, 0)
  | None =>
      match fs_file fs filepath with
      | None => mret ((-1)%Z, 0)
      | Some content =>
          n ← loop (S (length content)) (read_body usable freed) (content, 0);
          mret (0%Z, n)
      end
  end.

(** main between [waits(SEMrq)] and [signals(SEMrq)]: what was not freed. *)
Definition client_body (usable : nat → nat) (freed : bool) (size_arg : Z → outcome Z) (fs : fsys)
    (args : list bytes) : M St nat :=
  if bool_decide (length args = 2 ∧ args !! 1 = Some exit_word) then
    add exit_word;; mret 0
  else if decide (length args < 2) then
    r ← readfile_with usable freed fs (lit "./inputFile2.dat"); mret r.2
  else
    a1 ← lift (arg args 1);
    size ← lift (atoi a1);
    lift (size_arg size);;
    Inputfile ← lift (arg args 2);
    r ← readfile_with usable freed fs Inputfile; mret r.2.
End reading.

(** The segment and the value of SEMrq. *)
Record shared := Shared { sh_seg : bytes; sh_rq : Z }.

Definition on_seg {A} (m : Sg A) : M shared A := λ s,
  p ← m (sh_seg s); Ok (p.1, Shared p.2 (sh_rq s)).

(** [waits(SEMrq)] does not return while the value is 0. *)
Definition waits : M shared unit := λ s,
  if decide (0 < sh_rq s)%Z then Ok (tt, Shared (sh_seg s) (sh_rq s - 1)) else NoFuel.
Definition signals : M shared unit := λ s, Ok (tt, Shared (sh_seg s) (sh_rq s + 1)).

(** main over its reading of the arguments; the exit status and what was not freed. *)
Definition client_main (usable : nat → nat) (freed : bool) (size_arg : Z → outcome Z) (fs : fsys)
    (args : list bytes) : M shared (Z * nat) :=
  waits;;
  n ← on_seg (client_body AddReq usable freed size_arg fs args);
  signals;;
  mret (0%Z, n).

(** The strings that main gives to AddReq, one after the other. *)
Definition collect (r : bytes) : M (list bytes) unit := λ rs, Ok (tt, rs ++ [r]).
Definition client_script (usable : nat → nat) (freed : bool) (size_arg : Z → outcome Z) (fs : fsys)
    (args : list bytes) : outcome (list bytes) :=
  p ← client_body collect usable freed size_arg fs args []; Ok p.2.

(** ** client.c: the requests are not freed *)
Module ClientC.
Definition AddReq (str : bytes) : Sg unit := ReqQueue.AddReq str.
Definition rws (str : bytes) : outcome bytes := Text.rws str.
Definition parseReq (usable : nat → nat) (rawReq : bytes) : outcome bytes := parse_req usable rawReq.
Definition readfile (usable : nat → nat) (fs : fsys) (filepath : bytes) : Sg (Z * nat) :=
  readfile_with AddReq usable false fs filepath.
Definition main (usable : nat → nat) (fs : fsys) (args : list bytes) : M shared (Z * nat) :=
  client_main usable false (λ n, Ok n) fs args.
End ClientC.

(** ** client-rev1.c *)
Module ClientRev1.
(** [MAXDIRPATH+1+MAXKEYWORD] *)
Definition MAXREQSIZE : Z := 1024 + 1 + 256.
Definition AddReq (str : bytes) : Sg unit := ReqQueue.AddReq str.
Definition rws (str : bytes) : outcome bytes := Text.rws str.
Definition parseReq (usable : nat → nat) (rawReq : bytes) : outcome bytes := parse_req usable rawReq.
Definition readfile (usable : nat → nat) (fs : fsys) (filepath : bytes) : Sg (Z * nat) :=
  readfile_with AddReq usable true fs filepath.
Definition main (usable : nat → nat) (fs : fsys) (args : list bytes) : M shared (Z * nat) :=
  client_main usable true (λ n, to_int (n * MAXREQSIZE)) fs args.
End ClientRev1.

(** ** main gives its script to AddReq *)

(** [m] collects what [m'] adds. *)
Definition adds {A} (m : M (list bytes) A) (m' : Sg A) : Prop :=
  ∀ rs a rs', m rs = Ok (a, rs') → ∃ new, rs' = rs ++ new ∧ ∀ seg, m' seg = (for_each AddReq new;; mret a) seg.

Lemma leaves_segment {A} (m : M (list bytes) A) (m' : Sg A) :
  (∀ rs a rs', m rs = Ok (a, rs') → rs' = rs ∧ ∀ seg, m' seg = Ok (a, seg)) → adds m m'.
Proof.
  intros H rs a rs' E. destruct (H _ _ _ E) as [-> H']. exists []. split; [by rewrite app_nil_r|].
  intros seg. by rewrite H'.
Qed.

Lemma adds_ret {A} (a : A) : adds (mret a) (mret a).
Proof. apply leaves_segment. intros rs b rs' E. by injection E as <- <-. Qed.

Lemma adds_lift {A} (o : outcome A) : adds (lift o) (lift o).
Proof. apply leaves_segment. intros rs b rs' E. unfold lift in *. destruct o; try done. by injection E as <- <-. Qed.

Lemma adds_collect r : adds (collect r) (AddReq r).
Proof.
  intros rs [] rs' E. injection E as <-. exists [r]. split; [done|]. intros seg. simpl. rewrite bind_assoc.
  unfold mbind, M_bind. by destruct (AddReq r seg) as [[[] ?]| | |].
Qed.

Lemma adds_bind {A B} (m : M (list bytes) A) m' (k : A → M (list bytes) B) k' :
  adds m m' → (∀ a, adds (k a) (k' a)) → adds (m ≫= k) (m' ≫= k').
Proof.
  intros Hm Hk rs b rs' E. destruct (m rs) as [[a rs1]| | |] eqn:E1; unfold mbind, M_bind in E; rewrite E1 in E; try done.
  destruct (Hm _ _ _ E1) as (new1 & -> & H1). destruct (Hk a _ _ _ E) as (new2 & -> & H2).
  exists (new1 ++ new2). split; [by rewrite app_assoc|]. intros seg.
  assert (Hb : (m' ≫= k') seg = (for_each AddReq new1;; k' a) seg).
  { unfold mbind, M_bind in H1 |- *. rewrite H1. by destruct (for_each AddReq new1 seg) as [[[] ?]| | |]. }
  rewrite Hb. pose proof (for_each_app AddReq new1 new2 seg) as Ha. unfold mbind, M_bind in H2, Ha |- *.
  rewrite Ha. by destruct (for_each AddReq new1 seg) as [[[] ?]| | |].
Qed.

Lemma adds_loop {A R} fuel (body : A → M (list bytes) (A + R)) body' a :
  (∀ a, adds (body a) (body' a)) → adds (loop fuel body a) (loop fuel body' a).
Proof.
  intros Hb. revert a. induction fuel as [|fuel IH]; intros a; [by intros rs b rs' E|].
  simpl. apply adds_bind; [apply Hb|]. intros [a'|v]; [apply IH|apply adds_ret].
Qed.

Lemma adds_readfile usable freed fs file :
  adds (readfile_with collect usable freed fs file) (readfile_with AddReq usable freed fs file).
Proof.
  unfold readfile_with. destruct (fs_dir fs file); [apply adds_ret|]. destruct (fs_file fs file); [|apply adds_ret].
  apply adds_bind; [|intros; apply adds_ret]. apply adds_loop. intros [stream n]. unfold read_body.
  destruct (fgets 1024 stream) as [[line stream']|]; [|apply adds_ret]. cbv zeta.
  destruct (strstr _ exit_word).
  - apply adds_bind; [apply adds_collect|intros; apply adds_ret].
  - apply adds_bind; [apply adds_lift|intros r]. apply adds_bind; [apply adds_collect|intros; apply adds_ret].
Qed.

Lemma adds_body usable freed size_arg fs args :
  adds (client_body collect usable freed size_arg fs args) (client_body AddReq usable freed size_arg fs args).
Proof.
  unfold client_body. case_bool_decide.
  { apply adds_bind; [apply adds_collect|intros; apply adds_ret]. }
  destruct (decide _); [apply adds_bind; [apply adds_readfile|intros; apply adds_ret]|].
  repeat (apply adds_bind; [apply adds_lift|intros ?]). apply adds_bind; [apply adds_readfile|intros; apply adds_ret].
Qed.

(** main: wait for SEMrq, add the script, signal. *)
Lemma client_runs_script usable freed size_arg fs args script :
  client_script usable freed size_arg fs args = Ok script →
  ∃ left, ∀ s, client_main usable freed size_arg fs args s =
    (waits;; on_seg (for_each AddReq script);; signals;; mret (0%Z, left)) s.
Proof.
  unfold client_script. destruct (client_body collect usable freed size_arg fs args []) as [[left rs]| | |] eqn:E;
    intros [= <-]. exists left. intros s. unfold client_main.
  destruct (adds_body _ _ _ _ _ _ _ _ E) as (new & -> & H). simpl.
  unfold mbind, M_bind. destruct (waits s) as [[[] s1]| | |]; try done.
  unfold on_seg. rewrite H. unfold mbind, M_bind. by destruct (for_each AddReq new (sh_seg s1)) as [[[] ?]| | |].
Qed.

(** ** What they do *)

(** A line that is a request: an absolute path, a blank, a keyword. *)
Record good_line (path kw : bytes) : Prop := {
  gl_slash : ∃ p, path = SLASH :: p;
  gl_path : Forall (λ c, c ∉ [SP; NL; NUL; GT; LT]) path;
  gl_kw : Forall (λ c, c ∉ [NL; NUL; GT; LT]) kw;
  gl_exit : ¬ occurs exit_word (path ++ SP :: kw);
  gl_length : length path + length kw < 1022;
}.

Definition line_of (it : item) : bytes := request it ++ [NL].

Lemma not_in_Forall (c : ascii) (l s : bytes) : c ∈ l → Forall (λ x, x ∉ l) s → c ∉ s.
Proof. intros Hc Hs Hin. rewrite Forall_forall in Hs. by apply (Hs c). Qed.

Lemma c_str_prefix s a : c_str s = a → NUL ∈ s → ∃ t, s = a ++ NUL :: t.
Proof.
  intros <-. induction s as [|c s IH]; intros Hin; [by apply elem_of_nil in Hin|]. simpl.
  case_decide as Hc; [subst; by exists s|].
  apply elem_of_cons in Hin as [E|Hin]; [by destruct Hc|]. destruct (IH Hin) as [t Ht].
  exists t. simpl. by f_equal.
Qed.

(** rws takes the blanks out of a line, and leaves its end where it is. *)
Lemma rws_line kw rest :
  NUL ∉ kw → ∃ t, rws ((kw ++ [NL]) ++ NUL :: rest) = Ok (no_blanks kw ++ NL :: NUL :: t).
Proof.
  intros Hkw. destruct (rws_ok (kw ++ [NL]) rest) as (str & -> & Hs & Hlen).
  { rewrite not_elem_of_app. split; [done|]. by intros E%list_elem_of_singleton. }
  assert (Hnb : no_blanks (kw ++ [NL]) = no_blanks kw ++ [NL]) by (unfold no_blanks; by rewrite filter_app).
  rewrite Hnb in Hs. destruct (c_str_prefix _ _ Hs) as [t ->].
  - destruct (decide (NUL ∈ str)) as [|Hno]; [done|]. exfalso.
    rewrite c_str_no_nul in Hs by done. rewrite Hs, !length_app in Hlen.
    pose proof (length_filter (λ c, c ≠ SP) kw) as Hle. unfold no_blanks in Hlen. simpl in Hlen. lia.
  - exists t. by rewrite <- app_assoc.
Qed.

(** Between the first slash and the end of the line, blanks removed after the
    first one. *)
Lemma parse_req_ok usable pre path kw rest :
  (∃ p, path = SLASH :: p) → SLASH ∉ pre →
  Forall (λ c, c ∉ [SP; NL; NUL]) (pre ++ path) → Forall (λ c, c ∉ [NL; NUL]) kw →
  parse_req usable (pre ++ path ++ SP :: kw ++ NL :: NUL :: rest) =
    let r := path ++ SP :: no_blanks kw in
    if decide (S (length r) ≤ usable (length r)) then Ok r else Ub Overflow.
Proof.
  intros (p & Hp) Hpre Hpath Hkw.
  assert (NUL ∉ pre ++ path ∧ SP ∉ pre ++ path ∧ NL ∉ pre ++ path) as (N1 & N2 & N3).
  { split; [|split]; eapply not_in_Forall; try exact Hpath; set_solver. }
  assert (NUL ∉ kw ∧ NL ∉ kw) as (N4 & N5).
  { split; eapply not_in_Forall; try exact Hkw; set_solver. }
  assert (Hline : pre ++ path ++ SP :: kw ++ NL :: NUL :: rest =
    ((pre ++ path) ++ SP :: kw ++ [NL]) ++ NUL :: rest).
  { rewrite <- !app_assoc. simpl. by rewrite <- !app_assoc. }
  assert (NUL ∉ (pre ++ path) ++ SP :: kw ++ [NL]) as Hnul.
  { apply not_elem_of_app. split; [done|]. apply not_elem_of_cons. split; [done|].
    apply not_elem_of_app. split; [done|]. by intros E%list_elem_of_singleton. }
  unfold parse_req. rewrite Hline, c_str_app by done. cbv zeta.
  assert (strstr ((pre ++ path) ++ SP :: kw ++ [NL]) [SP] = Some (length (pre ++ path))) as ->
    by by apply strchr_ok.
  assert (strstr ((pre ++ path) ++ SP :: kw ++ [NL]) [SLASH] = Some (length pre)) as ->.
  { rewrite Hp, <- app_assoc. by apply strchr_ok. }
  set (buf := ((pre ++ path) ++ SP :: kw ++ [NL]) ++ NUL :: rest).
  assert (Hbuf : buf = ((pre ++ path) ++ [SP]) ++ (kw ++ [NL]) ++ NUL :: rest).
  { unfold buf. rewrite <- !app_assoc. cbn [app]. by rewrite <- !app_assoc. }
  assert (Hn : S (length (pre ++ path)) = length ((pre ++ path) ++ [SP]))
    by (rewrite (length_app _ [SP]); simpl; lia).
  assert (Hd : drop (S (length (pre ++ path))) buf = (kw ++ [NL]) ++ NUL :: rest)
    by by rewrite Hbuf, Hn, drop_app_length.
  assert (Ht : take (S (length (pre ++ path))) buf = (pre ++ path) ++ [SP])
    by by rewrite Hbuf, Hn, take_app_length.
  rewrite Hd, Ht. destruct (rws_line kw rest N4) as [t ->]. simpl.
  assert (c_str (no_blanks kw ++ NL :: NUL :: t) = no_blanks kw ++ [NL]) as Hs.
  { rewrite (cons_middle NL), app_assoc. apply c_str_app. apply not_elem_of_app. split.
    - by intros [_ ?]%list_elem_of_filter.
    - by intros E%list_elem_of_singleton. }
  rewrite Hs, strchr_ok by by intros [_ ?]%list_elem_of_filter.
  assert (Hins : <[length (no_blanks kw):=NUL]> (no_blanks kw ++ NL :: NUL :: t) =
                 no_blanks kw ++ NUL :: NUL :: t).
  { rewrite <- (Nat.add_0_r (length (no_blanks kw))). by rewrite insert_app_r. }
  rewrite Hins.
  assert (Hc : c_str (drop (length pre) (((pre ++ path) ++ [SP]) ++ no_blanks kw ++ NUL :: NUL :: t)) =
               path ++ SP :: no_blanks kw).
  { rewrite <- !app_assoc, drop_app_length. cbn [app].
    rewrite (cons_middle SP), !app_assoc. rewrite <- (app_assoc path). apply c_str_app.
    apply not_elem_of_app in N1 as [_ N1]. apply not_elem_of_app. split; [done|].
    by intros [E|[_ ?]%list_elem_of_filter]%elem_of_cons. }
  by rewrite Hc.
Qed.

Lemma take_line_whole n l r : NL ∉ l → length l < n → take_line n (l ++ NL :: r) = (l ++ [NL], r).
Proof.
  revert n. induction l as [|c l IH]; intros [|n] Hl Hn; simpl in Hn; try lia; [done|].
  apply not_elem_of_cons in Hl as [Hc Hl]. simpl. rewrite decide_False by done.
  by rewrite IH by (done || lia).
Qed.

Lemma fgets_line n l r : NL ∉ l → S (length l) < n → fgets n (l ++ NL :: r) = Some (l ++ [NL], r).
Proof.
  intros Hl Hn. unfold fgets. rewrite take_line_whole by (done || lia). by destruct l.
Qed.

(** The item that the server will make of a line. *)
Definition strip (it : item) : item := Item (dirpath it) (no_blanks (keyword it)).

Abbreviation good it := (good_line (dirpath it) (keyword it)).

Lemma no_blanks_Forall (P : ascii → Prop) s : Forall P s → Forall P (no_blanks s).
Proof. intros H. unfold no_blanks. rewrite Forall_forall in H |- *. intros x [_ ?]%list_elem_of_filter. auto. Qed.

Lemma good_takeable it : good it → takeable (request (strip it)).
Proof.
  intros [_ Hp Hk _ Hl]. apply no_blanks_Forall in Hk.
  assert (Hle : length (no_blanks (keyword it)) ≤ length (keyword it)) by apply length_filter.
  assert (Hc : ∀ c, c ∈ [NUL; GT; LT] → c ∉ request (strip it)).
  { intros c Hc. unfold request, strip. simpl. apply not_elem_of_app. split.
    - eapply not_in_Forall; [|exact Hp]. set_solver.
    - apply not_elem_of_cons. split; [|eapply not_in_Forall; [|exact Hk]; set_solver].
      intros ->. by rewrite !elem_of_cons, elem_of_nil in Hc; destruct Hc as [?|[?|[?|?]]]. }
  split; [split; [|split]; apply Hc; set_solver|]. split.
  - apply elem_of_app. right. left.
  - unfold request, strip. simpl. rewrite length_app. simpl. lia.
Qed.

(** [malloc(strlen(s))] gives room for [s] and its NUL. *)
Definition roomy (usable : nat → nat) (r : bytes) : Prop := length r < usable (length r).
#[export] Instance roomy_dec usable r : Decision (roomy usable r).
Proof. unfold roomy. apply _. Defined.

Lemma read_line_ok usable freed it r n k reqs room :
  good it → Forall clean reqs → S (length (request (strip it))) ≤ room →
  read_body AddReq usable freed (line_of it ++ r, n) (layout k reqs room) =
    if decide (roomy usable (request (strip it))) then
      Ok (inl (r, if freed then n else S n),
          layout k (reqs ++ [request (strip it)]) (room - S (length (request (strip it)))))
    else Ub Overflow.
Proof.
  intros Hg Hr Hroom. pose proof Hg as [Hs Hp Hk He Hl].
  assert (Hno : ∀ c, c ∈ [NL; NUL] → c ∉ request it).
  { intros c Hc. unfold request. apply not_elem_of_app. split.
    - eapply not_in_Forall; [|exact Hp]. set_solver.
    - apply not_elem_of_cons. split; [|eapply not_in_Forall; [|exact Hk]; set_solver].
      intros ->. by rewrite !elem_of_cons, elem_of_nil in Hc; destruct Hc as [?|[?|?]]. }
  unfold read_body, line_of. rewrite <- app_assoc. cbn [app].
  rewrite fgets_line.
  2:{ apply Hno. set_solver. }
  2:{ unfold request. rewrite length_app. simpl. lia. }
  rewrite c_str_app.
  2:{ apply not_elem_of_app. split; [apply Hno; set_solver|]. by intros ?%list_elem_of_singleton. }
  assert (strstr (request it ++ [NL]) exit_word = None) as ->.
  { apply strstr_None. rewrite (occurs_split exit_word _ NL).
    - intros [?|(a & b & E)]; [done|]. by destruct a.
    - apply (bool_decide_unpack _). by vm_compute. }
  assert (Hpr : parse_req usable ((request it ++ [NL]) ++ [NUL]) =
    if decide (roomy usable (request (strip it))) then Ok (request (strip it)) else Ub Overflow).
  { pose proof (parse_req_ok usable [] (dirpath it) (keyword it) [] Hs) as Hpr.
    assert (E : (request it ++ [NL]) ++ [NUL] = [] ++ dirpath it ++ SP :: keyword it ++ [NL; NUL]).
    { unfold request. by rewrite <- !app_assoc. }
    rewrite E, Hpr; [|apply not_elem_of_nil|..].
    - done.
    - eapply Forall_impl; [exact Hp|]. set_solver.
    - eapply Forall_impl; [exact Hk|]. set_solver. }
  rewrite Hpr. case_decide; [|done]. erewrite bind_Ok by done. cbv beta.
  erewrite bind_Ok by (by apply AddReq_ok). done.
Qed.

Lemma read_loop_ok usable freed its fuel n k reqs room :
  Forall (λ it, good it) its → Forall clean reqs →
  length its < fuel → used (request <$> (strip <$> its)) ≤ room →
  loop fuel (read_body AddReq usable freed) (mjoin (line_of <$> its), n) (layout k reqs room) =
    if decide (Forall (roomy usable) (request <$> (strip <$> its))) then
      Ok (if freed then n else n + length its,
          layout k (reqs ++ (request <$> (strip <$> its))) (room - used (request <$> (strip <$> its))))
    else Ub Overflow.
Proof.
  intros Hg. revert fuel n reqs room. induction Hg as [|it its Hi Hg IH]; intros fuel n reqs room Hr Hf Hroom;
    (destruct fuel as [|fuel]; [simpl in Hf; lia|]).
  - apply loop_done. change (mjoin (line_of <$> [])) with (@nil ascii).
    simpl. rewrite app_nil_r. change (used []) with 0. rewrite Nat.sub_0_r, Nat.add_0_r. by destruct freed.
  - rewrite !fmap_cons in *. rewrite mjoin_cons. rewrite used_cons in *.
    destruct (decide (roomy usable (request (strip it)))) as [Hfit|Hfit].
    2:{ rewrite decide_False by (by intros [? _]%Forall_cons). cbn [loop]. apply bind_Ub.
        rewrite read_line_ok by (done || lia). by rewrite decide_False. }
    erewrite loop_step by (rewrite read_line_ok by (done || lia); by rewrite decide_True).
    rewrite IH.
    + destruct (decide (Forall (roomy usable) (request <$> (strip <$> its)))) as [Hall|Hall].
      2:{ by rewrite decide_False by (by intros [_ ?]%Forall_cons). }
      rewrite decide_True by by constructor. rewrite <- app_assoc. cbn [app].
      replace (room - S (length (request (strip it))) - used (request <$> (strip <$> its)))
        with (room - S (length (request (strip it)) + used (request <$> (strip <$> its)))) by lia.
      do 2 f_equal. destruct freed; simpl; f_equal; lia.
    + apply Forall_app. split; [done|]. apply Forall_singleton. by apply good_takeable.
    + simpl in Hf. lia.
    + lia.
Qed.

(** ** From the client to the server *)

(** A file of request lines, read into the queue. *)
Lemma readfile_ok usable freed fs file its k reqs room :
  fs_dir fs file = None → fs_file fs file = Some (mjoin (line_of <$> its)) →
  Forall (λ it, good it) its → Forall clean reqs →
  used (request <$> (strip <$> its)) ≤ room →
  readfile_with AddReq usable freed fs file (layout k reqs room) =
    if decide (Forall (roomy usable) (request <$> (strip <$> its))) then
      Ok ((0%Z, if freed then 0 else length its),
          layout k (reqs ++ (request <$> (strip <$> its))) (room - used (request <$> (strip <$> its))))
    else Ub Overflow.
Proof.
  intros Hd Hf Hg Hr Hroom. unfold readfile_with. rewrite Hd, Hf.
  assert (Hfuel : length its < S (length (mjoin (line_of <$> its)))).
  { clear. induction its as [|it its IH]; [simpl; lia|]. rewrite fmap_cons, mjoin_cons, length_app.
    unfold line_of at 1. rewrite length_app. simpl in *. lia. }
  pose proof (read_loop_ok usable freed its (S (length (mjoin (line_of <$> its)))) 0 k reqs room Hg Hr Hfuel Hroom) as E.
  case_decide; [by erewrite bind_Ok by exact E|by apply bind_Ub].
Qed.

(** main with a file of request lines, on a queue. *)
Lemma client_main_ok usable freed size_arg fs a0 a1 file its k reqs room rq z z' :
  atoi a1 = Ok z → size_arg z = Ok z' →
  fs_dir fs file = None → fs_file fs file = Some (mjoin (line_of <$> its)) →
  Forall (λ it, good it) its → Forall clean reqs →
  used (request <$> (strip <$> its)) ≤ room → (0 < rq)%Z →
  client_main usable freed size_arg fs [a0; a1; file] (Shared (layout k reqs room) rq) =
    if decide (Forall (roomy usable) (request <$> (strip <$> its))) then
      Ok ((0%Z, if freed then 0 else length its),
          Shared (layout k (reqs ++ (request <$> (strip <$> its))) (room - used (request <$> (strip <$> its)))) rq)
    else Ub Overflow.
Proof.
  intros Ha Hz Hd Hf Hg Hr Hroom Hrq. unfold client_main.
  erewrite bind_Ok by (unfold waits; cbn [sh_rq]; by rewrite decide_True).
  cbv beta. cbn [sh_seg sh_rq].
  assert (Hb : bool_decide (length [a0; a1; file] = 2 ∧ [a0; a1; file] !! 1 = Some exit_word) = false)
    by by (apply bool_decide_eq_false; intros [? _]).
  pose proof (readfile_ok usable freed fs file its k reqs room Hd Hf Hg Hr Hroom) as E.
  assert (Hread : client_body AddReq usable freed size_arg fs [a0; a1; file] (layout k reqs room) =
    (r ← readfile_with AddReq usable freed fs file; mret r.2) (layout k reqs room)).
  { unfold client_body. rewrite Hb, decide_False by (simpl; lia).
    erewrite bind_Ok by by apply lift_Ok. cbv beta. erewrite bind_Ok by by apply lift_Ok. cbv beta.
    erewrite bind_Ok by by apply lift_Ok. cbv beta. by erewrite bind_Ok by by apply lift_Ok. }
  case_decide.
  - erewrite bind_Ok by (unfold on_seg; cbn [sh_seg]; rewrite Hread; by erewrite bind_Ok by exact E).
    cbv beta. cbn [fst snd sh_rq]. erewrite bind_Ok by done. unfold mret, M_ret. cbn [sh_seg sh_rq].
    do 3 f_equal. lia.
  - apply bind_Ub. unfold on_seg. cbn [sh_seg]. rewrite Hread. by erewrite bind_Ub by exact E.
Qed.

(** The bytes behind the copies of [rs], which are taken one after the other from [k] on, are NUL. *)
Fixpoint terminated (junk : nat → nat → ascii) (k : nat) (rs : list bytes) : Prop :=
  match rs with
  | [] => True
  | r :: rs' => junk k (length r) = NUL ∧ terminated junk (k + S (length r)) rs'
  end.
#[export] Instance terminated_dec junk k rs : Decision (terminated junk k rs).
Proof. revert k. induction rs as [|r rs IH]; intros k; simpl; [apply _|]. apply and_dec; [apply _|apply IH]. Defined.

(** Everything is taken from a queue. *)
Lemma takes_all junk its k room :
  Forall (λ it, SP ∉ dirpath it ∧ length (request it) ≤ 1024) its →
  aq_ops junk (replicate (length its) QTake) (AQ k (request <$> its) room) =
    if decide (terminated junk k (request <$> its)) then
      Ok (its, AQ (k + used (request <$> its)) [] room)
    else Ub BadAccess.
Proof.
  revert k. induction its as [|it its IH]; intros k Hi.
  { simpl. change (used []) with 0. by rewrite Nat.add_0_r. }
  apply Forall_cons in Hi as [[Hsp Hl] Hi]. rewrite fmap_cons, used_cons. cbn [length replicate aq_ops].
  destruct (decide (junk k (length (request it)) = NUL)) as [Hj|Hj].
  - assert (E : aq_take junk (AQ k (request it :: (request <$> its)) room) =
      Ok (it, AQ (k + S (length (request it))) (request <$> its) room)).
    { unfold aq_take. cbn [aq_reqs aq_front aq_room]. rewrite decide_False by lia. rewrite decide_True by done.
      by rewrite split_item_request. }
    erewrite bind_Ok by exact E. cbv beta. specialize (IH (k + S (length (request it))) Hi).
    destruct (decide (terminated junk (k + S (length (request it))) (request <$> its))) as [Ht|Ht].
    + rewrite decide_True by by split. erewrite bind_Ok by exact IH. unfold mret, M_ret.
      do 3 f_equal. lia.
    + rewrite decide_False by (by intros [_ ?]). by apply bind_Ub.
  - rewrite decide_False by (by intros [? _]). apply bind_Ub. unfold aq_take. cbn [aq_reqs aq_front aq_room].
    rewrite decide_False by lia. by rewrite decide_False.
Qed.

(** C26: what [main] of client-rev1.c does with a file of request lines on a fresh queue in which they
    have room: if malloc gave each request the byte for its NUL, which the code does not ask
    for, the server then counts one '>' more than there are lines, takes the directory and the
    keyword of each line in order when the bytes that malloc left behind its copies are NUL and reads behind a
    copy when one is not, and the semaphore of the queue has its value again; if one of the
    blocks is too short the client writes behind it. *)
Theorem client_server_roundtrip usable junk fs a0 a1 file its n rq z z' :
  atoi a1 = Ok z → to_int (z * ClientRev1.MAXREQSIZE) = Ok z' →
  fs_dir fs file = None → fs_file fs file = Some (mjoin (line_of <$> its)) →
  Forall (λ it, good it) its → 17 + used (request <$> (strip <$> its)) < n → (0 < rq)%Z →
  let run := on_seg init_segment;; ClientRev1.main usable fs [a0; a1; file] in
  (Forall (roomy usable) (request <$> (strip <$> its)) →
   ∃ seg, run (Shared (replicate n NUL) rq) = Ok ((0%Z, 0), Shared seg rq) ∧
     charcount GT seg = Ok (Z.of_nat (S (length its)), seg) ∧
     (terminated junk 0 (request <$> (strip <$> its)) →
      ∃ seg', run_ops junk 0 (replicate (length its) QTake) seg =
        Ok ((used (request <$> (strip <$> its)), strip <$> its), seg')) ∧
     (¬ terminated junk 0 (request <$> (strip <$> its)) →
      run_ops junk 0 (replicate (length its) QTake) seg = Ub BadAccess)) ∧
  (¬ Forall (roomy usable) (request <$> (strip <$> its)) →
   run (Shared (replicate n NUL) rq) = Ub Overflow).
Proof.
  intros Ha Hz Hd Hf Hg Hn Hrq. set (rs := request <$> (strip <$> its)) in *. cbv zeta.
  assert (Hrs : Forall takeable rs).
  { unfold rs. rewrite !Forall_fmap. eapply Forall_impl; [exact Hg|]. intros it. apply good_takeable. }
  assert (Hinit : on_seg init_segment (Shared (replicate n NUL) rq) = Ok (tt, Shared (layout 0 [] (n - 17)) rq)).
  { unfold on_seg. cbn [sh_seg]. by rewrite init_segment_ok by lia. }
  pose proof (client_main_ok usable true (λ n, to_int (n * ClientRev1.MAXREQSIZE)) fs a0 a1 file its 0 []
    (n - 17) rq z z' Ha Hz Hd Hf Hg (Forall_nil_2 _) ltac:(fold rs; lia) Hrq) as Hmain. fold rs in Hmain.
  split; intros Hu.
  - rewrite decide_True in Hmain by done. exists (layout 0 rs (n - 17 - used rs)).
    split; [erewrite bind_Ok by exact Hinit; exact Hmain|]. split.
    { rewrite charcount_ok; [unfold rs; by rewrite !length_fmap|by apply takeable_clean]. }
    pose proof (run_ops_abs junk (replicate (length its) QTake) (AQ 0 rs (n - 17 - used rs))) as Hrun.
    rewrite added_takes, app_nil_r in Hrun. specialize (Hrun (takeable_clean _ Hrs)).
    change (aq_seg (AQ 0 rs (n - 17 - used rs))) with (layout 0 rs (n - 17 - used rs)) in Hrun. cbn [aq_front] in Hrun.
    rewrite Hrun, <- (length_fmap strip its). unfold rs. rewrite takes_all.
    + fold rs. split; intros Ht; [rewrite decide_True by done|by rewrite decide_False].
      eexists. simpl. reflexivity.
    + rewrite Forall_fmap. eapply Forall_impl; [exact Hg|]. intros it Hi. simpl. split.
      * eapply not_in_Forall; [|exact (gl_path _ _ Hi)]. set_solver.
      * apply (good_takeable it Hi).
  - rewrite decide_False in Hmain by done. erewrite bind_Ok by exact Hinit. exact Hmain.
Qed.

Definition demo_lines : list item := [Item (lit "/home/d") (lit "int"); Item (lit "/e") (lit "a b")].
Definition demo_client_fs : fsys :=
  FSys (λ _, None) (λ _, Some (mjoin (line_of <$> demo_lines))) (λ _, true) (Ok tt).

Lemma demo_good : Forall (λ it, good it) demo_lines.
Proof.
  repeat constructor; simpl; try (by eexists); try lia;
    try (rewrite <- strstr_occurs; vm_compute; by intros [? ?]);
    apply (bool_decide_unpack _); vm_compute; exact I.
Qed.

Lemma client_server_roundtrip_witness :
  (∃ seg seg', charcount GT seg = Ok (3%Z, seg) ∧
    run_ops (λ _ _, NUL) 0 [QTake; QTake] seg =
      Ok ((18, [Item (lit "/home/d") (lit "int"); Item (lit "/e") (lit "ab")]), seg')) ∧
  (on_seg init_segment;; ClientRev1.main (λ n, n) demo_client_fs [lit "client"; lit "10"; lit "in"])
    (Shared (replicate 60 NUL) 1) = Ub Overflow.
Proof.
  pose (H usable := client_server_roundtrip usable (λ _ _, NUL) demo_client_fs
    (lit "client") (lit "10") (lit "in") demo_lines 60 1 10 12810 eq_refl eq_refl eq_refl eq_refl demo_good).
  split.
  - destruct (H S) as [H1 _]; [apply (bool_decide_unpack _); vm_compute; exact I|lia|].
    destruct H1 as (seg & _ & Hc & Ht & _).
    { apply (bool_decide_unpack _). vm_compute. exact I. }
    destruct Ht as [seg' Hr]; [apply (bool_decide_unpack _); vm_compute; exact I|].
    exists seg, seg'. split; [exact Hc|exact Hr].
  - apply (H (λ n, n)); [apply (bool_decide_unpack _); vm_compute; exact I|lia|].
    intros Hu. apply Forall_cons in Hu as [Hu _]. revert Hu. apply (bool_decide_unpack _). vm_compute. exact I.
Defined.

(** ** What goes wrong *)

(** C27: the block that [parseReq] allocates is one byte too short for its request:
    a [malloc] that gives exactly what is asked for makes it write beyond the end,
    and one that gives more does not. *)
Theorem parseReq_one_byte_short usable it :
  good it →
  (usable (length (request (strip it))) = length (request (strip it)) →
     ClientC.parseReq usable (line_of it ++ [NUL]) = Ub Overflow) ∧
  (length (request (strip it)) < usable (length (request (strip it))) →
     ClientC.parseReq usable (line_of it ++ [NUL]) = Ok (request (strip it))).
Proof.
  intros [Hs Hp Hk _ _]. unfold ClientC.parseReq.
  assert (E : line_of it ++ [NUL] = [] ++ dirpath it ++ SP :: keyword it ++ [NL; NUL]).
  { unfold line_of, request. by rewrite <- !app_assoc. }
  rewrite E, parse_req_ok; [|done|apply not_elem_of_nil|..].
  - unfold request, strip. simpl. split; intros H; [rewrite decide_False|rewrite decide_True]; (done || lia).
  - eapply Forall_impl; [exact Hp|]. set_solver.
  - eapply Forall_impl; [exact Hk|]. set_solver.
Qed.

Lemma parseReq_one_byte_short_witness :
  ClientC.parseReq (λ n, n) (lit "/e a b" ++ [NL; NUL]) = Ub Overflow.
Proof.
  refine (proj1 (parseReq_one_byte_short (λ n, n) (Item (lit "/e") (lit "a b")) _) eq_refl).
  pose proof demo_good as H. apply Forall_cons in H as [_ H]. by apply Forall_cons in H as [H _].
Defined.

(** a line without a blank, without a newline or without a slash has no defined
    result. *)
Theorem parseReq_malformed usable s :
  NUL ∉ s →
  (SP ∉ s → ClientC.parseReq usable (s ++ [NUL]) = Ub BadAccess) ∧
  (SP ∈ s → NL ∉ s → ClientC.parseReq usable (s ++ [NUL]) = Ub NullDeref) ∧
  (SP ∈ s → SLASH ∉ s → ClientC.parseReq usable (s ++ [NUL]) = Ub NullDeref).
Proof.
  intros H0. unfold ClientC.parseReq, parse_req. rewrite c_str_app by done.
  assert (Hnone : ∀ c s, c ∉ s → strstr s [c] = None).
  { clear. intros c s Hc. apply strstr_None. intros (a & b & ->). apply Hc, elem_of_app. right. left. }
  split; [intros Hsp; by rewrite (Hnone SP)|].
  assert (Hgo : SP ∈ s → ∃ j t str, strstr s [SP] = Some j ∧
    drop (S j) (s ++ [NUL]) = t ++ [NUL] ∧ (NL ∉ s → NL ∉ t) ∧
    rws (t ++ [NUL]) = Ok str ∧ c_str str = no_blanks t).
  { intros Hsp. apply list_elem_of_split_l in Hsp as (a & t & -> & Ha).
    assert (NUL ∉ t) as Ht by (apply not_elem_of_app in H0 as [_ H0]; by apply not_elem_of_cons in H0 as [_ ?]).
    destruct (rws_ok t [] Ht) as (str & Hr & Hc & _).
    exists (length a), t, str. split; [by apply strchr_ok|]. split.
    - rewrite <- app_assoc. cbn [app]. rewrite cons_middle, app_assoc.
      by rewrite drop_app_length' by (rewrite length_app; simpl; lia).
    - split; [|done]. intros Hn Hin. apply Hn. apply elem_of_app. right. by right. }
  split; intros Hsp Hn; destruct (Hgo Hsp) as (j & t & str & -> & -> & Ht & -> & Hc); simpl.
  - rewrite Hc. unfold strchr. rewrite (Hnone NL); [done|].
    unfold no_blanks. intros [_ ?]%list_elem_of_filter. by apply Ht.
  - rewrite (Hnone SLASH) by done. by destruct (strchr _ _).
Qed.

Lemma parseReq_malformed_witness :
  ClientC.parseReq S (lit "/dir" ++ [NUL]) = Ub BadAccess.
Proof.
  refine (proj1 (parseReq_malformed S (lit "/dir") _) _); apply (bool_decide_unpack _); vm_compute; exact I.
Defined.

(** Without the mark [charcount] runs past the end. *)
Lemma charcount_none seg : LT ∉ seg → charcount GT seg = Ub BadAccess.
Proof.
  intros Hno. unfold charcount. erewrite bind_Ok by done. cbv beta.
  assert (Hgen : ∀ fuel i n, i ≤ length seg → length seg < fuel + i →
    loop fuel (charcount_body GT) (i, n) seg = Ub BadAccess); [|apply Hgen; lia].
  induction fuel as [|fuel IH]; intros i n Hi Hf; [lia|].
  destruct (seg !! i) as [x|] eqn:Hx.
  - assert (x ≠ LT) by (intros ->; apply Hno; by eapply list_elem_of_lookup_2).
    apply lookup_lt_Some in Hx as Hlt.
    rewrite (loop_step fuel _ (i, n) (S i, if decide (x = GT) then (n + 1)%Z else n) seg seg).
    2:{ unfold charcount_body. erewrite bind_Ok by by apply rd_ok. cbv beta.
        rewrite decide_False by done. by case_decide. }
    apply IH; lia.
  - simpl. apply bind_Ub. unfold charcount_body. apply bind_Ub. unfold rd. by rewrite Hx.
Qed.

(** the queue has no lock between server and client. While [AddReq] has copied
    the request and not yet written the marks there is no '<' in the segment, and
    [charcount] runs past its end. *)
Theorem charcount_during_AddReq k reqs room r :
  Forall clean (r :: reqs) → length r ≤ room →
  ∃ seg, (e ← scan LT 0; g ← rscan GT e; memcpy (S g) (r ++ [NUL])) (layout k reqs room) = Ok (tt, seg) ∧
    charcount GT seg = Ub BadAccess.
Proof.
  intros Hr Hroom. apply Forall_cons in Hr as [(_ & Hlt & _) Hr].
  destruct (AddReq_prefix k reqs room r Hr) as (pre & El & Hlen & Hscan & _ & Hpos).
  exists (pre ++ (r ++ [NUL]) ++ replicate (room - length r) NUL). split.
  - rewrite <- bind_assoc. erewrite bind_Ok by exact Hscan. cbv beta.
    replace (S (length pre - 1)) with (length pre) by lia. rewrite El.
    replace (LT :: replicate room NUL)
      with ((LT :: replicate (length r) NUL) ++ replicate (room - length r) NUL).
    2:{ cbn [app]. f_equal. rewrite <- replicate_add. f_equal. lia. }
    apply memcpy_ok. simpl. rewrite length_app, length_replicate. simpl. lia.
  - assert (Hno : LT ∉ pre ++ (r ++ [NUL]) ++ replicate (room - length r) NUL).
    { rewrite layout_eq in El. apply app_inj_1 in El as [<- _].
      2:{ rewrite Hlen, !length_app, length_replicate. unfold used. simpl. lia. }
      pose proof (no_lt k reqs Hr) as Hp.
      apply not_elem_of_app. split; [done|]. apply not_elem_of_app. split.
      - apply not_elem_of_app. split; [done|]. by intros ?%list_elem_of_singleton.
      - by intros [? _]%elem_of_replicate. }
    by apply charcount_none.
Qed.

Lemma charcount_during_AddReq_witness :
  ∃ seg, (e ← scan LT 0; g ← rscan GT e; memcpy (S g) (lit "/d int" ++ [NUL])) (layout 0 [] 20) =
           Ok (tt, seg) ∧ charcount GT seg = Ub BadAccess.
Proof.
  refine (charcount_during_AddReq 0 [] 20 (lit "/d int") _ _); [|simpl; lia].
  apply (bool_decide_unpack _). vm_compute. exact I.
Defined.
