(* ===== verification/ServerSearch.v ===== *)
(** * How the servers search a file

    [search_test] of server.c and server-rev1.c: every line that has the keyword
    as a word becomes "name:number:line". server.c collects them in one string
    and appends it to output.txt, server-rev1.c puts them into a buffer. *)

From stdpp Require Import base list sets strings.
From Stdlib Require Import Ascii.
From S2P Require Import Prelude CString Text FileSys Segment FileSearch Client.

(** ** The operations *)

(** [s = filePath + strlen(filePath) - 1; while ( *s != '/') s--; s++;] *)
Definition file_name (filePath : bytes) : outcome bytes :=
  p ← rscan SLASH (length filePath - 1) filePath;
  Ok (drop (S p.1) filePath).

(** The loop over the words of a line; the copy of each word is freed at once. *)
Fixpoint found_loop (fuel : nat) (keyword rest : bytes) (found : bool) : outcome bool :=
  match fuel with
  | O => NoFuel
  | S fuel' =>
      match strtok_r delim rest with
      | None => Ok found
      | Some (word, rest') =>
          found_loop fuel' keyword rest' (if decide (strcmp keyword word = 0%Z) then true else found)
      end
  end.

(** [sprintf(line, "%s:%d:%s", fname, line_num, buffer)] into 2048 bytes *)
Definition line_text (fname : bytes) (line_num : Z) (buffer : bytes) : outcome bytes :=
  strcpy 2048 (fname ++ lit ":" ++ fmt_d line_num ++ lit ":" ++ buffer).

Section search.
(** What is done with a line that is found. *)
Context {Acc : Type} (on_found : Acc → bytes → outcome Acc).
Context (fname keyword : bytes).

Definition scan_lines : nat → bytes → Z → Acc → outcome Acc :=
  fix go fuel stream line_num acc :=
    match fuel with
    | O => NoFuel
    | S fuel' =>
        match fgets 1024 stream with
        | None => Ok acc
        | Some (chunk, stream') =>
            let buffer := c_str chunk in
            line ← line_text fname line_num buffer;
            found ← found_loop (S (length buffer)) keyword buffer false;
            acc ← (if found : bool then on_found acc line else Ok acc);
            go fuel' stream' (line_num + 1)%Z acc
        end
    end.
End search.

(** The part of [search_test] that all versions share; [None]: NULL is returned. *)
Definition search_with {Acc} (on_found : Acc → bytes → outcome Acc) (acc : Acc) (fs : fsys)
    (filePath keyword : bytes) : outcome (option Acc) :=
  match fs_dir fs filePath with
  | Some _ => Ok None
  | None =>
      match fs_file fs filePath with
      | None => Ok None
      | Some content =>
          fname ← file_name filePath;
          acc ← scan_lines on_found fname keyword (S (length content)) content 1 acc;
          Ok (Some acc)
      end
  end.

(** ** What they find *)

(** The pieces in which a file is read. *)
Fixpoint chunks_from (fuel : nat) (s : bytes) : list bytes :=
  match fuel with
  | O => []
  | S fuel' => match fgets 1024 s with None => [] | Some (l, r) => c_str l :: chunks_from fuel' r end
  end.
Definition file_chunks (s : bytes) : list bytes := chunks_from (S (length s)) s.

Definition numbered_line (fname : bytes) (n : Z) (l : bytes) : bytes :=
  fname ++ lit ":" ++ fmt_d n ++ lit ":" ++ l.

Fixpoint found_from (fname keyword : bytes) (n : Z) (ls : list bytes) : list bytes :=
  match ls with
  | [] => []
  | l :: ls' =>
      (if decide (keyword ∈ words delim l) then [numbered_line fname n l] else []) ++
      found_from fname keyword (n + 1) ls'
  end.

(** The lines of a file that have the keyword. *)
Definition found_lines (fname keyword content : bytes) : list bytes :=
  found_from fname keyword 1 (file_chunks content).

Lemma file_name_ok pre name : SLASH ∉ name → file_name (pre ++ SLASH :: name) = Ok name.
Proof.
  intros Hn. unfold file_name. rewrite length_app. cbn [length].
  replace (length pre + S (length name) - 1) with (length pre + length name) by lia.
  pose proof (rscan_ok SLASH pre name [] Hn) as H. rewrite app_nil_r in H. rewrite H. simpl.
  rewrite cons_middle, app_assoc. by rewrite drop_app_length' by (rewrite length_app; simpl; lia).
Qed.

Lemma found_loop_ok fuel kw s found :
  length s < fuel →
  found_loop fuel kw s found = Ok (found || bool_decide (kw ∈ words delim s)).
Proof.
  revert s found. induction fuel as [|fuel IH]; intros s found Hf; [lia|]. simpl.
  pose proof (strtok_words delim s) as Hw. destruct (strtok_r delim s) as [[w r]|] eqn:E.
  - destruct Hw as (-> & Hl & _). rewrite IH by lia. f_equal.
    case_decide as Hc.
    + apply strcmp_0 in Hc as ->. simpl. symmetry. apply orb_true_iff. right.
      apply bool_decide_eq_true. left.
    + destruct found; [done|]. simpl. apply bool_decide_ext. rewrite elem_of_cons.
      split; [by right|]. intros [->|?]; [|done]. by rewrite strcmp_refl in Hc.
  - rewrite Hw. by destruct found.
Qed.

Lemma c_str_length s : length (c_str s) ≤ length s.
Proof. induction s as [|c s IH]; simpl; [done|]. case_decide; simpl; lia. Qed.

Lemma chunks_fuel fuel1 fuel2 s :
  length s < fuel1 → length s < fuel2 → chunks_from fuel1 s = chunks_from fuel2 s.
Proof.
  revert fuel2 s. induction fuel1 as [|fuel1 IH]; intros [|fuel2] s H1 H2; [lia..|].
  simpl. destruct (fgets 1024 s) as [[l r]|] eqn:E; [|done].
  apply fgets_Some in E as (_ & _ & _ & ?); [|lia]. f_equal. apply IH; lia.
Qed.

(** A line fits in its 2048 bytes when the file name and the number are not
    longer than a thousand. *)
Lemma line_text_ok fname n l :
  length fname + length (fmt_d n) < 1000 → length l ≤ 1023 →
  line_text fname n l = Ok (numbered_line fname n l).
Proof.
  intros Hn Hl. unfold line_text, strcpy, numbered_line. rewrite decide_True; [done|].
  rewrite !length_app. change (length (lit ":")) with 1. lia.
Qed.

Section spec.
Context {Acc : Type} (on_found : Acc → bytes → outcome Acc) (fname keyword : bytes).

(** The scan is the fold over the lines that are found. *)
Fixpoint fold_found (acc : Acc) (ls : list bytes) : outcome Acc :=
  match ls with [] => Ok acc | l :: ls' => acc' ← on_found acc l; fold_found acc' ls' end.

Lemma scan_lines_ok fuel s n acc :
  length s < fuel →
  (∀ m, (n ≤ m ≤ n + Z.of_nat (length s))%Z → length fname + length (fmt_d m) < 1000) →
  scan_lines on_found fname keyword fuel s n acc =
    fold_found acc (found_from fname keyword n (chunks_from fuel s)).
Proof.
  revert s n acc. induction fuel as [|fuel IH]; intros s n acc Hf Hn; [lia|].
  cbn [scan_lines chunks_from].
  destruct (fgets 1024 s) as [[l r]|] eqn:E; [|done].
  apply fgets_Some in E as (_ & _ & Hl & Hr); [|lia].
  rewrite line_text_ok; [|apply Hn; lia|pose proof (c_str_length l); lia].
  change (Ok ?x ≫= ?k) with (k x). cbv beta. rewrite found_loop_ok by lia.
  change (Ok ?x ≫= ?k) with (k x). cbv beta. rewrite orb_false_l. cbn [found_from].
  assert (Hrest : ∀ acc, scan_lines on_found fname keyword fuel r (n + 1) acc =
    fold_found acc (found_from fname keyword (n + 1) (chunks_from fuel r))).
  { intros acc'. apply IH; [lia|]. intros m Hm. apply Hn. lia. }
  case_bool_decide as Hk.
  - rewrite decide_True by done. cbn [app fold_found]. destruct (on_found acc _); [apply Hrest|done..].
  - rewrite decide_False by done. apply Hrest.
Qed.
End spec.
