(* ===== verification/Server.v ===== *)
(** * The servers of the request queue

    server.c (twice, with different allocations of the result) and
    server-rev1.c: the main process polls the queue, takes a request and forks a
    child for it; the child runs one thread for every file of the directory. *)

From stdpp Require Import base list sets gmap strings.
From Stdlib Require Import Ascii.
From S2P Require Import Prelude CString Text FileSys Segment FileSearch ReqQueue Client ServerSearch.

(** What the processes share, and what the clients will add to the queue each
    time the server looks at it. *)
Record server := Srv {
  sv_seg : bytes;
  sv_rq : nat;
  sv_sems : gmap Z Z;
  sv_out : option bytes;
  sv_env : list (list bytes);
}.
Abbreviation SV := (M server).

(** ** Semaphores; [semget(key)] gives [key] itself. *)
Definition sem_ini (semid val : Z) : SV unit := λ s,
  Ok (tt, Srv (sv_seg s) (sv_rq s) (<[semid:=val]> (sv_sems s)) (sv_out s) (sv_env s)).
Definition sem_val (semid : Z) : SV Z := λ s, Ok (default 0%Z (sv_sems s !! semid), s).
Definition signals (semid : Z) : SV unit := v ← sem_val semid; sem_ini semid (v + 1).

(** [waits] does not return while the value is 0. *)
Definition waits (semid : Z) : SV unit :=
  v ← sem_val semid; if decide (0 < v)%Z then sem_ini semid (v - 1) else no_fuel.

Definition SEMrq : Z := 28784.   (** 0x7070 *)
Definition SEMbuf : Z := 29041.  (** 0x7171 *)
Definition filelock : Z := 33153. (** 0x8181 *)

(** ** The queue *)
Definition on_queue {A} (m : Sg A) : SV A := λ s,
  p ← m (sv_seg s); Ok (p.1, Srv p.2 (sv_rq s) (sv_sems s) (sv_out s) (sv_env s)).

(** The clients have their turn. *)
Definition clients : SV unit := λ s,
  match sv_env s with
  | [] => Ok (tt, s)
  | rs :: env' =>
      on_queue (for_each AddReq rs) (Srv (sv_seg s) (sv_rq s) (sv_sems s) (sv_out s) env')
  end.

(** [strstr(shm, "exit") != NULL] and [charcount(shm, '>')] at some moment *)
Definition exit_seen : SV bool := clients;; s ← get_state; mret (has_exit (sv_seg s)).
Definition requests_seen : SV Z := clients;; on_queue (charcount GT).

(** [init_shm()]; the later version makes one more semaphore. *)
Definition init_shm (with_filelock : bool) : SV unit :=
  sem_ini SEMrq 0;;
  (if with_filelock then sem_ini filelock 0 else mret tt);;
  on_queue init_segment;;
  (λ s, Ok (tt, Srv (sv_seg s) 0 (sv_sems s) (sv_out s) (sv_env s)));;
  signals SEMrq.

(** [init_file("output.txt")] *)
Definition init_file : SV unit := λ s,
  Ok (tt, Srv (sv_seg s) (sv_rq s) (sv_sems s) None (sv_env s)).

Section serve.
(** [ftok(path, 'E')], and what new memory holds. *)
Context (ftok : bytes → Z) (junk : nat → nat → ascii).

(** [dequeueItem(RQptr)]: the semaphore of the directory is set to 1. *)
Definition dequeueItem : SV item :=
  s ← get_state;
  p ← on_queue (dequeue junk (sv_rq s));
  (λ s, Ok (tt, Srv (sv_seg s) p.1 (sv_sems s) (sv_out s) (sv_env s)));;
  sem_ini (ftok (dirpath p.2)) 1;;
  mret p.2.

(** [while (strstr(shm,"exit") == NULL) { if (charcount(shm,'>') > 1) { ... break; } usleep(10); }] *)
Definition poll_body (curItem : option item) : SV (option item + option item) :=
  e ← exit_seen;
  if (e : bool) then mret (inr curItem)
  else
    c ← requests_seen;
    if decide (1 < c)%Z then
      e ← exit_seen;
      if (e : bool) then mret (inr curItem) else it ← dequeueItem; mret (inr (Some it))
    else mret (inl curItem).

(** main after the initialisation: the items for which a child is forked, or for which main
    itself does the child's work, until main returns. [polls] bounds the number of times that one request is waited for. *)
Fixpoint serve (fuel polls : nat) (curItem : option item) : SV (list (option item)) :=
  match fuel with
  | O => no_fuel
  | S fuel' =>
      curItem ← loop polls poll_body curItem;
      e ← exit_seen;
      if (e : bool) then
        (* no fork, and n = 0: main itself is asked whether it is the child *)
        e ← exit_seen;
        mret (if e : bool then [] else [curItem])
      else
        (* fork(): the parent goes on *)
        e ← exit_seen;
        if (e : bool) then mret [curItem]
        else its ← serve fuel' polls None; mret (curItem :: its)
  end.

(** What the child does with the item, when it looks at the queue in turn; its exit
    status. *)
Definition child (ChildsPlay : item → SV Z) (curItem : option item) : SV Z :=
  e ← exit_seen;
  if (e : bool) then mret 0%Z
  else match curItem with None => lift (Ub NullDeref) | Some it => ChildsPlay it end.
End serve.

(** ** The child *)

(** [openDir(path, keyword)]: the files for which a thread is created; [tids] has
    20 elements. *)
Fixpoint thread_paths (path : bytes) (n : nat) (ents : list dirent) : outcome (list bytes) :=
  match ents with
  | [] => Ok []
  | e :: ents' =>
      if negb (hidden e) && negb (is_dir e) then
        abspath ← strcpy 1024 (join_path path (d_name e));
        if decide (n < 20) then
          rest ← thread_paths path (S n) ents'; Ok (abspath :: rest)
        else Ub Overflow
      else thread_paths path n ents'
  end.

Definition openDir (fs : fsys) (path : bytes) : outcome (list bytes) :=
  match fs_dir fs path with
  | None => Exits (-1)
  | Some ents => thread_paths path 0 ents
  end.

(** The results of the threads, in the order of their creation. *)
Fixpoint run_workers {P A} (worker : P → outcome A) (paths : list P) : outcome (list A) :=
  match paths with
  | [] => Ok []
  | p :: ps => r ← worker p; rs ← run_workers worker ps; Ok (r :: rs)
  end.

(** [fileWriter(str)]; [can_open]: does [fopen("output.txt", "a+")] give a file? The NULL
    that it may give is not kept from [fprintf]. *)
Definition fileWriter (can_open : bool) (str : bytes) : SV unit :=
  waits SEMbuf;;
  (λ s, if can_open then
          Ok (tt, Srv (sv_seg s) (sv_rq s) (sv_sems s) (Some (default [] (sv_out s) ++ str)) (sv_env s))
        else Ub NullDeref);;
  signals SEMbuf.

Definition output_txt : bytes := lit "output.txt".

(** ** BlackBoxTestingFull_P3/server.c *)
Module ServerC.
Definition init_shm : SV unit := Server.init_shm false.
Definition sem_ini (semid val : Z) : SV unit := Server.sem_ini semid val.
Definition sem_val (semid : Z) : SV Z := Server.sem_val semid.
Definition signals (semid : Z) : SV unit := Server.signals semid.
Definition waits (semid : Z) : SV unit := Server.waits semid.
Definition charcount (c : ascii) : Sg Z := ReqQueue.charcount c.
Definition dequeueItem (ftok : bytes → Z) (junk : nat → nat → ascii) : SV item := Server.dequeueItem ftok junk.
Definition openDir (fs : fsys) (path : bytes) : outcome (list bytes) := Server.openDir fs path.
Definition joinThreads {A} (worker : bytes → outcome A) (paths : list bytes) : outcome (list A) :=
  run_workers worker paths.
Definition init_file : SV unit := Server.init_file.
Definition fileWriter (fs : fsys) (str : bytes) : SV unit :=
  Server.fileWriter (fs_writable fs output_txt) str.

(** [calloc(100, MAXOUTSIZE)] *)
Definition result_size : nat := 100 * 2048.

(** [sprintf(temp,"%s",result); sprintf(result,"%s%s",temp,line);] *)
Definition append_line (result line : bytes) : outcome bytes :=
  temp ← strcpy result_size result;
  strcpy result_size (temp ++ line).

(** The block that is printed and given to [fileWriter], if there is one. *)
Definition search_test (fs : fsys) (filePath keyword : bytes) : outcome (option bytes) :=
  search_with append_line [] fs filePath keyword.

Definition Worker (fs : fsys) (it : item) : outcome (option bytes) := search_test fs (dirpath it) (keyword it).

(** The child: the threads are created under the semaphore of the directory, and
    each that returns a block gives it to [fileWriter], in the order [turns]. *)
Definition ChildsPlay (ftok : bytes → Z) (fs : fsys) (turns : list bytes → list bytes) (it : item) : SV Z :=
  waits (ftok (dirpath it));;
  paths ← lift (openDir fs (dirpath it));
  signals (ftok (dirpath it));;
  rs ← lift (joinThreads (λ p, Worker fs (Item p (keyword it))) paths);
  for_each (fileWriter fs) (turns (omap (M:=list) id rs));;
  mret 1%Z.

Definition main (ftok : bytes → Z) (junk : nat → nat → ascii) (fuel polls : nat) : SV (list (option item)) :=
  init_shm;;
  init_file;;
  sem_ini SEMbuf 1;;
  serve ftok junk fuel polls None.
End ServerC.

(** ** calc/BlackBoxTesting/server.c: [result] is not initialised *)
Module ServerCalc.
Definition init_shm : SV unit := Server.init_shm false.
Definition sem_ini (semid val : Z) : SV unit := Server.sem_ini semid val.
Definition sem_val (semid : Z) : SV Z := Server.sem_val semid.
Definition signals (semid : Z) : SV unit := Server.signals semid.
Definition waits (semid : Z) : SV unit := Server.waits semid.
Definition charcount (c : ascii) : Sg Z := ReqQueue.charcount c.
Definition dequeueItem (ftok : bytes → Z) (junk : nat → nat → ascii) : SV item := Server.dequeueItem ftok junk.
Definition openDir (fs : fsys) (path : bytes) : outcome (list bytes) := Server.openDir fs path.
Definition joinThreads {A} (worker : bytes → outcome A) (paths : list bytes) : outcome (list A) :=
  run_workers worker paths.
Definition init_file : SV unit := Server.init_file.
Definition fileWriter (fs : fsys) (str : bytes) : SV unit :=
  Server.fileWriter (fs_writable fs output_txt) str.

Definition result_size : nat := 2048 * 10.

(** The string in [result], if it was written. *)
Definition contents (result : option bytes) : outcome bytes :=
  match result with Some s => Ok s | None => Ub Uninit end.

Definition append_line (result : option bytes) (line : bytes) : outcome (option bytes) :=
  s ← contents result;
  temp ← strcpy result_size s;
  r ← strcpy result_size (temp ++ line);
  Ok (Some r).

Definition search_test (fs : fsys) (filePath keyword : bytes) : outcome (option bytes) :=
  r ← search_with append_line None fs filePath keyword;
  match r with
  | None => Ok None
  | Some result => s ← contents result; Ok (Some s)
  end.

Definition Worker (fs : fsys) (it : item) : outcome (option bytes) := search_test fs (dirpath it) (keyword it).

(** The child: the threads are created under the semaphore of the directory, and
    each that returns a block gives it to [fileWriter], in the order [turns]. *)
Definition ChildsPlay (ftok : bytes → Z) (fs : fsys) (turns : list bytes → list bytes) (it : item) : SV Z :=
  waits (ftok (dirpath it));;
  paths ← lift (openDir fs (dirpath it));
  signals (ftok (dirpath it));;
  rs ← lift (joinThreads (λ p, Worker fs (Item p (keyword it))) paths);
  for_each (fileWriter fs) (turns (omap (M:=list) id rs));;
  mret 1%Z.

Definition main (ftok : bytes → Z) (junk : nat → nat → ascii) (fuel polls : nat) : SV (list (option item)) :=
  init_shm;;
  init_file;;
  sem_ini SEMbuf 1;;
  serve ftok junk fuel polls None.
End ServerCalc.

(** ** BlackBoxTestingFull_P3/server-rev1.c *)
Module ServerRev1.
Definition init_shm : SV unit := Server.init_shm true.
Definition sem_ini (semid val : Z) : SV unit := Server.sem_ini semid val.
Definition sem_val (semid : Z) : SV Z := Server.sem_val semid.
Definition signals (semid : Z) : SV unit := Server.signals semid.
Definition waits (semid : Z) : SV unit := Server.waits semid.
Definition charcount (c : ascii) : Sg Z := ReqQueue.charcount c.
Definition dequeueItem (ftok : bytes → Z) (junk : nat → nat → ascii) : SV item := Server.dequeueItem ftok junk.
Definition openDir (fs : fsys) (path : bytes) : outcome (list bytes) := Server.openDir fs path.
Definition joinThreads {A} (worker : bytes → outcome A) (paths : list bytes) : outcome (list A) :=
  run_workers worker paths.
Definition init_file : SV unit := Server.init_file.
Definition fileWriter (fs : fsys) (str : bytes) : SV unit :=
  Server.fileWriter (fs_writable fs output_txt) str.

(** The lines that a thread puts into the buffer. *)
Definition search_test (fs : fsys) (filePath keyword : bytes) : outcome (option (list bytes)) :=
  search_with (λ acc line, Ok (acc ++ [line])) [] fs filePath keyword.

Definition Worker (fs : fsys) (it : item) : outcome (list bytes) :=
  r ← search_test fs (dirpath it) (keyword it); Ok (default [] r).

(** The child: what its threads put into the buffer is [lines], and [printed lines] is
    what the Printer takes out and writes before the end mark. The three identifiers
    given to [sem_ini] are still 0. *)
Definition ChildsPlay (ftok : bytes → Z) (fs : fsys) (BUFFERSIZE : Z)
    (printed : list (list bytes) → list bytes) (it : item) : SV Z :=
  sem_ini 0 0;;
  sem_ini 0 BUFFERSIZE;;
  sem_ini 0 1;;
  waits (ftok (dirpath it));;
  paths ← lift (openDir fs (dirpath it));
  signals (ftok (dirpath it));;
  lines ← lift (joinThreads (λ p, Worker fs (Item p (keyword it))) paths);
  for_each (fileWriter fs) (printed lines);;
  mret 1%Z.

Definition MAXREQSIZE : Z := 1024 + 1 + 256.

(** The sizes: [qSIZE], [BUFFERSIZE]. *)
Definition read_sizes (args : list bytes) : outcome (Z * Z) :=
  if decide (2 < length args) then
    a1 ← arg args 1;
    n ← atoi a1;
    q ← to_int (n * MAXREQSIZE);
    a2 ← arg args 2;
    b ← atoi a2;
    Ok (q, b)
  else Ok (0%Z, 10%Z).

(** [strstr(pwd, ...)] against the characters that the queue cannot hold *)
Definition pwd_allowed (pwd : bytes) : bool :=
  bool_decide (strstr pwd (lit "->") = None) && bool_decide (strstr pwd (lit ">") = None) &&
  bool_decide (strstr pwd (lit "<") = None) && bool_decide (strstr pwd (lit " ") = None).

(** The buffer size, and the items for which a child is forked. *)
Definition main (ftok : bytes → Z) (junk : nat → nat → ascii) (fuel polls : nat) (pwd : bytes)
    (args : list bytes) : SV (Z * list (option item)) :=
  sizes ← lift (read_sizes args);
  if pwd_allowed pwd then
    init_shm;;
    init_file;;
    sem_ini SEMbuf 1;;
    its ← serve ftok junk fuel polls None;
    mret (sizes.2, its)
  else exit (-1).

(** [random_number(min_num, max_num)] with the value of [rand()]; [%] is the C
    remainder. *)
Definition random_number (rand min_num max_num : Z) : outcome Z :=
  hi1 ← to_int (max_num + 1);
  let '(low_num, hi_num) := if decide (min_num < max_num)%Z then (min_num, hi1) else (hi1, min_num) in
  d ← to_int (hi_num - low_num);
  if decide (d = 0%Z) then Ub IntOverflow else to_int (Z.rem rand d + low_num).
End ServerRev1.
