(* ===== verification/Serving.v ===== *)
(** * What the servers do

    Requests are served in their order until "exit" appears; what the children
    write; the errors on the way. *)

From stdpp Require Import base list sets gmap strings.
From Stdlib Require Import Ascii.
From S2P Require Import Prelude CString Text FileSys Segment FileSearch ReqQueue AddSteps MainSteps Client ServerSearch Server.

(** ** The main process *)
Section serving.
Context (ftok : bytes → Z) (junk : nat → nat → ascii).

Lemma dequeueItem_ok k it reqs room rq sems out env :
  Forall clean (request it :: reqs) → SP ∉ dirpath it → length (request it) ≤ 1024 → rq ≤ k →
  junk rq (length (request it)) = NUL →
  dequeueItem ftok junk (Srv (layout k (request it :: reqs) room) rq sems out env) =
    Ok (it, Srv (layout (k + S (length (request it))) reqs room) (k + S (length (request it)))
              (<[ftok (dirpath it):=1%Z]> sems) out env).
Proof.
  intros Hr Hsp Hl Hrq Hj. unfold dequeueItem. erewrite bind_Ok by done. cbv beta.
  unfold on_queue. cbn [sv_seg sv_rq]. destruct it as [d w].
  erewrite bind_Ok.
  2:{ cbn [sv_seg]. unfold request in *. simpl in *. by rewrite dequeue_ok by (done || lia). }
  done.
Qed.

(** The clients add requests. *)
Lemma clients_ok k reqs room rq sems out rs env :
  Forall clean (reqs ++ rs) → used rs < room →
  clients (Srv (layout k reqs room) rq sems out (rs :: env)) =
    Ok (tt, Srv (layout k (reqs ++ rs) (room - used rs)) rq sems out env).
Proof.
  intros Hr Hroom.
  assert (Hadd : for_each AddReq rs (layout k reqs room) =
    Ok (tt, layout k (reqs ++ rs) (room - used rs))).
  { clear -Hr Hroom. revert reqs room Hr Hroom. induction rs as [|r rs IH]; intros reqs room Hr Hroom.
    - change (used []) with 0. by rewrite app_nil_r, Nat.sub_0_r.
    - rewrite used_cons in *. apply Forall_app in Hr as [Hr Hrs].
      apply Forall_cons in Hrs as [Hc Hrs]. simpl. erewrite bind_Ok by (apply AddReq_ok; [done|lia]).
      cbv beta. rewrite IH.
      + rewrite <- app_assoc. cbn [app]. do 3 f_equal. lia.
      + apply Forall_app. split; [|done]. apply Forall_app. split; [done|]. by apply Forall_singleton.
      + lia. }
  unfold clients, on_queue. cbn [sv_env sv_seg sv_rq sv_sems sv_out]. by rewrite Hadd.
Qed.

(** Requests that arrive before the first look at the queue were always there. *)
Lemma serve_arrival fuel polls cur k reqs room rq sems out rs env :
  Forall clean (reqs ++ rs) → used rs < room →
  serve ftok junk (S fuel) (S polls) cur (Srv (layout k reqs room) rq sems out (rs :: env)) =
  serve ftok junk (S fuel) (S polls) cur
    (Srv (layout k (reqs ++ rs) (room - used rs)) rq sems out ([] :: env)).
Proof.
  intros Hr Hroom.
  assert (E : exit_seen (Srv (layout k reqs room) rq sems out (rs :: env)) =
    exit_seen (Srv (layout k (reqs ++ rs) (room - used rs)) rq sems out ([] :: env))).
  { unfold exit_seen. by erewrite bind_Ok by by apply clients_ok. }
  assert (Hb : ∀ {A B} (m : SV A) (f : A → SV B) s s', m s = m s' → (m ≫= f) s = (m ≫= f) s').
  { intros A B m f s s' Em. unfold mbind, M_bind. by rewrite Em. }
  cbn [serve loop]. apply Hb. apply Hb. unfold poll_body. by apply Hb.
Qed.

(** *** Looks *)

(** The state of the server when its queue is [a]. *)
Definition sv (a : aqueue) (sems : gmap Z Z) (out : option bytes) (env : list (list bytes)) : server :=
  Srv (aq_seg a) (aq_front a) sems out env.

(** The queue after [n] looks. *)
Definition arrived (n : nat) (a : aqueue) (env : list (list bytes)) : aqueue :=
  AQ (aq_front a) (aq_reqs a ++ concat (take n env)) (aq_room a - used (concat (take n env))).

Lemma arrived_0 a env : arrived 0 a env = a.
Proof. destruct a. unfold arrived. simpl. by rewrite app_nil_r, Nat.sub_0_r. Qed.

(** What waits and what will arrive: it fits, and "exit" is in it. *)
Record arrivals (a : aqueue) (env : list (list bytes)) : Prop := {
  ar_ok : Forall acceptable (aq_reqs a ++ concat env);
  ar_room : used (concat env) < aq_room a;
  ar_exit : Exists (occurs exit_word) (aq_reqs a ++ concat env);
}.

Section looks.
Context (a : aqueue) (env : list (list bytes)) (sems : gmap Z Z) (out : option bytes).
Hypothesis Har : arrivals a env.

Definition seen (n : nat) : Prop := Exists (occurs exit_word) (aq_reqs (arrived n a env)).

Lemma all_arrivals n : aq_reqs (arrived n a env) ++ concat (drop n env) = aq_reqs a ++ concat env.
Proof using. unfold arrived. simpl. rewrite <- app_assoc, <- concat_app. by rewrite take_drop. Qed.

Lemma arrived_fits n : used (concat (drop n env)) < aq_room (arrived n a env).
Proof using Har.
  pose proof (ar_room _ _ Har) as H. rewrite <- (take_drop n env), concat_app, used_app in H. simpl. lia.
Qed.

Lemma arrived_clean n : Forall clean (aq_reqs (arrived n a env) ++ concat (drop n env)).
Proof using Har.
  rewrite all_arrivals. eapply Forall_impl; [exact (ar_ok _ _ Har)|]. by intros ? [].
Qed.

Lemma arrived_arrivals n : arrivals (arrived n a env) (drop n env).
Proof using Har. constructor; [rewrite all_arrivals; by apply Har|apply arrived_fits|rewrite all_arrivals; by apply Har]. Qed.

Lemma clients_look n :
  clients (sv (arrived n a env) sems out (drop n env)) = Ok (tt, sv (arrived (S n) a env) sems out (drop (S n) env)).
Proof using Har.
  pose proof (arrived_clean n) as Hc. pose proof (arrived_fits n) as Hf. unfold sv, aq_seg.
  destruct (env !! n) as [rs|] eqn:E.
  - rewrite (drop_S _ _ _ E) in *. simpl in Hc, Hf |- *. rewrite used_app in Hf.
    rewrite clients_ok; [|rewrite !app_assoc in Hc; by apply Forall_app in Hc as [Hc _]|lia].
    rewrite (take_S_r _ _ _ E), concat_app. simpl. rewrite app_nil_r, used_app, <- app_assoc.
    by rewrite Nat.sub_add_distr.
  - apply lookup_ge_None in E. unfold arrived. rewrite !(drop_ge env), !(take_ge env) by lia. done.
Qed.

(** A look for "exit", and one at the number of requests. *)
Lemma exit_look n :
  exit_seen (sv (arrived n a env) sems out (drop n env)) =
    Ok (bool_decide (seen (S n)), sv (arrived (S n) a env) sems out (drop (S n) env)).
Proof using Har.
  unfold exit_seen. erewrite bind_Ok by apply clients_look. cbv beta.
  erewrite bind_Ok by done. cbv beta. unfold mret, M_ret. do 2 f_equal.
  pose proof (arrived_clean (S n)) as [Hc _]%Forall_app. pose proof (arrived_fits (S n)) as Hf.
  apply eq_bool_prop_intro. rewrite bool_decide_spec, Is_true_true. unfold seen. rewrite Exists_exists.
  apply has_exit_layout; [done|lia].
Qed.

Lemma count_look n :
  requests_seen (sv (arrived n a env) sems out (drop n env)) =
    Ok (Z.of_nat (S (length (aq_reqs (arrived (S n) a env)))), sv (arrived (S n) a env) sems out (drop (S n) env)).
Proof using Har.
  unfold requests_seen. erewrite bind_Ok by apply clients_look. cbv beta.
  pose proof (arrived_clean (S n)) as [Hc _]%Forall_app. unfold on_queue, sv. cbn [sv_seg]. unfold aq_seg.
  by rewrite charcount_ok.
Qed.

(** "exit" stays, and comes. *)
Lemma seen_later n n' : n ≤ n' → seen n → seen n'.
Proof using.
  unfold seen, arrived. simpl. intros Hn He. rewrite Exists_app in *. destruct He as [?|He]; [by left|right].
  replace n' with (n + (n' - n)) by lia. rewrite <- take_take_drop, concat_app. apply Exists_app. by left.
Qed.

Lemma seen_end n : length env ≤ n → seen n.
Proof using Har. intros Hn. unfold seen, arrived. simpl. rewrite take_ge by done. by apply Har. Qed.

Lemma not_seen_no_exit n : ¬ seen n → Forall no_exit (aq_reqs (arrived n a env)).
Proof using. unfold seen. by rewrite <- Forall_Exists_neg. Qed.

(** A request is taken. *)
Lemma dequeue_look n r q :
  aq_reqs (arrived n a env) = r :: q → no_exit r →
  let m := dequeueItem ftok junk (sv (arrived n a env) sems out (drop n env)) in
  (junk (aq_front a) (length r) ≠ NUL ∧ m = Ub BadAccess) ∨
  ∃ it sems', r = request it ∧
    m = Ok (it, sv (AQ (aq_front a + S (length r)) q (aq_room (arrived n a env))) sems' out (drop n env)).
Proof using Har.
  intros Er Hx. pose proof (arrived_clean n) as [Hc _]%Forall_app.
  pose proof (ar_ok _ _ (arrived_arrivals n)) as [Ha _]%Forall_app. rewrite Er in *.
  apply Forall_cons in Ha as [Ha _]. pose proof (acceptable_takeable r Ha Hx) as Ht.
  destruct (split_takeable r Ht) as (it & Eit & -> & Hsp). destruct Ht as (_ & _ & Hl). cbv zeta.
  unfold dequeueItem, sv, aq_seg. rewrite Er. cbn [aq_front arrived aq_room].
  destruct (decide (junk (aq_front a) (length (request it)) = NUL)) as [Hj|Hj]; [right|left; split; [done|]].
  - exists it. eexists. split; [done|]. by apply dequeueItem_ok.
  - unfold dequeueItem. erewrite bind_Ok by done. cbv beta. apply bind_Ub. unfold on_queue. cbn [sv_seg sv_rq].
    by rewrite dequeue_unterminated by (done || lia).
Qed.

Lemma waiting_later n n' : n ≤ n' → aq_reqs (arrived n a env) ≠ [] → aq_reqs (arrived n' a env) ≠ [].
Proof using.
  unfold arrived. simpl. intros Hn Hne. replace n' with (n + (n' - n)) by lia.
  rewrite <- take_take_drop, concat_app, app_assoc. intros [? _]%app_eq_nil. done.
Qed.

(** The loop that waits for a request: "exit" is seen, or the first request is taken, after
    three looks if there was one. *)
Definition polled (n : nat) (cur : option item) (m : outcome (option item * server)) : Prop :=
  (∃ n', n < n' ∧ seen n' ∧ m = Ok (cur, sv (arrived n' a env) sems out (drop n' env)) ∧
     (aq_reqs (arrived n a env) ≠ [] → n' ≤ n + 3)) ∨
  ∃ n' r q, n + 3 ≤ n' ∧ ¬ seen n' ∧ aq_reqs (arrived n' a env) = r :: q ∧
    (aq_reqs (arrived n a env) ≠ [] → n' = n + 3) ∧
    ((junk (aq_front a) (length r) ≠ NUL ∧ m = Ub BadAccess) ∨
     ∃ it sems', r = request it ∧
       m = Ok (Some it, sv (AQ (aq_front a + S (length r)) q (aq_room (arrived n' a env))) sems' out (drop n' env))).

Lemma poll_looks polls n cur :
  length env < n + polls → 0 < polls →
  polled n cur (loop polls (poll_body ftok junk) cur (sv (arrived n a env) sems out (drop n env))).
Proof using Har.
  revert n. induction polls as [|polls IH]; intros n Hn Hp; [lia|]. cbn [loop].
  assert (Hbody : ∀ k : option item + option item → SV (option item), (x ← poll_body ftok junk cur; k x) (sv (arrived n a env) sems out (drop n env)) =
    if bool_decide (seen (S n)) then k (inr cur) (sv (arrived (S n) a env) sems out (drop (S n) env))
    else if decide (aq_reqs (arrived (S (S n)) a env) = []) then
      k (inl cur) (sv (arrived (S (S n)) a env) sems out (drop (S (S n)) env))
    else if bool_decide (seen (S (S (S n)))) then
      k (inr cur) (sv (arrived (S (S (S n))) a env) sems out (drop (S (S (S n))) env))
    else (it ← dequeueItem ftok junk; k (inr (Some it)))
      (sv (arrived (S (S (S n))) a env) sems out (drop (S (S (S n))) env))).
  { intros k. unfold poll_body. rewrite bind_assoc. erewrite bind_Ok by apply exit_look. cbv beta.
    case_bool_decide; [done|]. rewrite bind_assoc. erewrite bind_Ok by apply count_look. cbv beta.
    destruct (aq_reqs (arrived (S (S n)) a env)) as [|r q]; [done|].
    rewrite decide_True by (simpl; lia). rewrite bind_assoc. rewrite decide_False by done.
    erewrite bind_Ok by apply exit_look. cbv beta. case_bool_decide; [done|]. by rewrite bind_assoc. }
  rewrite Hbody. case_bool_decide as Hs1; [left; exists (S n); split_and!; (done || lia)|].
  case_decide as Hr2.
  - assert (Hlt : S n < length env) by (apply not_ge; intros ?; by apply Hs1, seen_end).
    assert (Hr0 : aq_reqs (arrived n a env) = []).
    { destruct (decide (aq_reqs (arrived n a env) = [])) as [|Hne]; [done|].
      by destruct (waiting_later n (S (S n)) ltac:(lia) Hne). }
    destruct (IH (S (S n)) ltac:(lia) ltac:(lia)) as [(n' & ? & ? & -> & _)|(n' & r & q & ? & ? & ? & _ & ?)].
    + left. exists n'. split_and!; (done || lia).
    + right. exists n', r, q. split_and!; (done || lia).
  - case_bool_decide as Hs3; [left; exists (S (S (S n))); split_and!; (done || lia)|].
    right. destruct (aq_reqs (arrived (S (S (S n))) a env)) as [|r q] eqn:Er.
    { by destruct (waiting_later (S (S n)) (S (S (S n))) ltac:(lia) Hr2). }
    exists (S (S (S n))), r, q. split; [lia|]. split; [done|]. split; [done|]. split; [lia|].
    pose proof (not_seen_no_exit _ Hs3) as Hx. rewrite Er in Hx. apply Forall_cons in Hx as [Hx _].
    destruct (dequeue_look _ _ _ Er Hx) as [[? E]|(it & sems' & ? & E)]; [left|right].
    + split; [done|]. by apply bind_Ub.
    + exists it, sems'. split; [done|]. by erewrite bind_Ok by exact E.
Qed.
End looks.

(** The semaphores when the server has begun. *)
Definition init_sems (with_filelock : bool) (sems : gmap Z Z) : gmap Z Z :=
  <[SEMbuf:=1%Z]> (<[SEMrq:=1%Z]>
    (if with_filelock then <[filelock:=0%Z]> (<[SEMrq:=0%Z]> sems) else <[SEMrq:=0%Z]> sems)).

Lemma init_sems_rq b sems : init_sems b sems !! SEMrq = Some 1%Z.
Proof. unfold init_sems. by rewrite lookup_insert_ne, lookup_insert_eq by done. Qed.

Lemma init_ok {A} b (k : SV A) n sems out env (Hn : 17 < n) :
  (init_shm b;; init_file;; sem_ini SEMbuf 1;; k) (Srv (replicate n NUL) 0 sems out env) =
  k (Srv (layout 0 [] (n - 17)) 0 (init_sems b sems) None env).
Proof.
  assert (Hi : init_shm b (Srv (replicate n NUL) 0 sems out env) =
    Ok (tt, Srv (layout 0 [] (n - 17)) 0 (<[SEMrq:=1%Z]>
      (if b then <[filelock:=0%Z]> (<[SEMrq:=0%Z]> sems) else <[SEMrq:=0%Z]> sems)) out env)).
  { unfold init_shm. erewrite bind_Ok by done. cbv beta.
    erewrite bind_Ok by (instantiate (1 := Srv _ _ (if b then _ else _) _ _); by destruct b). cbv beta.
    erewrite bind_Ok by (unfold on_queue; cbn [sv_seg]; by rewrite init_segment_ok). cbv beta.
    erewrite bind_Ok by done. cbv beta. unfold signals. cbn [sv_sems sv_seg sv_rq sv_out sv_env].
    erewrite bind_Ok by done. cbv beta. cbn [sv_sems]. unfold sem_ini. cbn [sv_sems].
    by destruct b; cbv iota; [rewrite lookup_insert_ne by done|]; rewrite lookup_insert_eq. }
  erewrite bind_Ok by exact Hi. cbv beta. erewrite bind_Ok by done. cbv beta. by erewrite bind_Ok by done.
Qed.

Lemma main_serves fuel polls n sems out env (Hn : 17 < n) :
  ServerC.main ftok junk fuel polls (Srv (replicate n NUL) 0 sems out env) =
  serve ftok junk fuel polls None (Srv (layout 0 [] (n - 17)) 0 (init_sems false sems) None env).
Proof. by apply init_ok. Qed.

(** *** main *)

Lemma take_more n k (env : list (list bytes)) :
  concat (take (n + k) env) = concat (take n env) ++ concat (take k (drop n env)).
Proof. by rewrite <- concat_app, take_take_drop. Qed.

Lemma no_exit_seen a env n m :
  Forall no_exit (aq_reqs a ++ concat (take m env)) → n ≤ m → ¬ seen a env n.
Proof.
  intros Hx Hn. unfold seen. simpl. rewrite <- Forall_Exists_neg. replace m with (n + (m - n)) in Hx by lia.
  rewrite take_more, app_assoc in Hx. by apply Forall_app in Hx as [? _].
Qed.

(** What main comes to: "exit" was seen, and behind the requests that were given to children at
    most one was taken; or the copy of a request was not terminated. A request that waits at the
    first look is given to a child if "exit" is not seen in five looks for each request
    up to it. *)
Definition served (a : aqueue) (env : list (list bytes)) (out : option bytes)
    (m : outcome (list (option item) * server)) : Prop :=
  (∃ pre r post, aq_reqs a ++ concat env = pre ++ r :: post ∧
     junk (aq_front a + used pre) (length r) ≠ NUL ∧ m = Ub BadAccess) ∨
  ∃ its lost a' sems env', m = Ok (Some <$> its, sv a' sems out env') ∧
    aq_reqs a ++ concat env = (request <$> its) ++ lost ++ aq_reqs a' ++ concat env' ∧
    length lost ≤ 1 ∧ Forall no_exit ((request <$> its) ++ lost) ∧ Exists (occurs exit_word) (aq_reqs a') ∧
    ∀ i, i ≤ length (aq_reqs a) → Forall no_exit (aq_reqs a ++ concat (take (5 * i) env)) → i ≤ length its.

(** The first request is taken after [n] looks. *)
Section after.
Context (a : aqueue) (env : list (list bytes)) (n : nat) (r : bytes) (q : list bytes).
Hypotheses (Har : arrivals a env) (Hn : ¬ seen a env n) (Hr : aq_reqs (arrived n a env) = r :: q).

Definition rest : aqueue := AQ (aq_front a + S (length r)) q (aq_room (arrived n a env)).

Lemma rest_reqs k : r :: aq_reqs (arrived k rest (drop n env)) = aq_reqs (arrived (n + k) a env).
Proof using Hr.
  unfold rest, arrived in *. simpl in *. rewrite take_more, app_assoc, Hr. done.
Qed.

Lemma rest_seen k : seen rest (drop n env) k ↔ seen a env (n + k).
Proof using Hr Hn.
  unfold seen. rewrite <- rest_reqs, Exists_cons. split; [by right|]. intros [Ho|?]; [|done].
  destruct Hn. unfold seen. rewrite Hr. by left.
Qed.

Lemma rest_all : aq_reqs a ++ concat env = r :: aq_reqs rest ++ concat (drop n env).
Proof using Hr. rewrite <- (all_arrivals a env n), Hr. done. Qed.

Lemma rest_no_exit : no_exit r.
Proof using Hn Hr. pose proof (not_seen_no_exit _ _ _ Hn) as H. rewrite Hr in H. by apply Forall_cons in H as [? _]. Qed.

Lemma rest_arrivals : arrivals rest (drop n env).
Proof using All.
  pose proof (ar_ok _ _ Har) as Hok. pose proof (ar_exit _ _ Har) as He. rewrite rest_all in Hok, He.
  constructor.
  - by apply Forall_cons in Hok as [_ ?].
  - by apply arrived_fits.
  - apply Exists_cons in He as [Ho|?]; [|done]. by destruct (rest_no_exit Ho).
Qed.
End after.

(** The tests around the fork. *)
Lemma fork_looks a env sems out (cur : option item) (k : SV (list (option item))) :
  arrivals a env →
  (e ← exit_seen;
   if (e : bool) then e ← exit_seen; mret (if (e : bool) then [] else [cur])
   else e ← exit_seen; if (e : bool) then mret [cur] else its ← k; mret (cur :: its)) (sv a sems out env) =
  if bool_decide (seen a env 2) then
    Ok (if bool_decide (seen a env 1) then [] else [cur], sv (arrived 2 a env) sems out (drop 2 env))
  else (its ← k; mret (cur :: its)) (sv (arrived 2 a env) sems out (drop 2 env)).
Proof.
  intros Har. pose proof (exit_look a env sems out Har 0) as E0. rewrite arrived_0, drop_0 in E0.
  erewrite bind_Ok by exact E0. cbv beta. pose proof (exit_look a env sems out Har 1) as E1.
  destruct (bool_decide (seen a env 1)) eqn:H1.
  - erewrite bind_Ok by exact E1. cbv beta.
    assert (seen a env 2) as H2 by (apply (seen_later a env 1); [lia|by apply bool_decide_eq_true in H1]).
    by rewrite bool_decide_true.
  - erewrite bind_Ok by exact E1. cbv beta. by case_bool_decide.
Qed.

Lemma serve_looks fuel polls cur a env sems out :
  arrivals a env → length env < fuel → length env < polls →
  served a env out (serve ftok junk fuel polls cur (sv a sems out env)).
Proof.
  revert cur a env sems. induction fuel as [|fuel IH]; intros cur a env sems Har Hf Hp; [lia|]. cbn [serve].
  pose proof (poll_looks a env sems out Har polls 0 cur ltac:(lia) ltac:(lia)) as Hpoll.
  rewrite arrived_0, drop_0 in Hpoll.
  destruct Hpoll as [(n & Hn & Hs & E & Hn3)|(n & r & q & Hn & Hs & Er & Hn3 & [[Hj E]|(it & sems' & Eit & E)])];
    rewrite arrived_0 in Hn3.
  - right. erewrite bind_Ok by exact E. cbv beta. rewrite fork_looks by by apply arrived_arrivals.
    assert (Hk : ∀ k, seen (arrived n a env) (drop n env) k).
    { intros k. unfold seen, arrived in *. simpl in *. apply Exists_app. by left. }
    rewrite !bool_decide_true by apply Hk. exists [], [], (arrived 2 (arrived n a env) (drop n env)), sems, (drop 2 (drop n env)).
    split; [done|]. split; [by rewrite !all_arrivals|]. split; [simpl; lia|]. split; [constructor|].
    split; [apply Hk|]. intros [|i] Hi Hx; [lia|]. exfalso. revert Hs. eapply no_exit_seen; [exact Hx|].
    enough (n ≤ 0 + 3) by lia. apply Hn3. intros E0. rewrite E0 in Hi. simpl in Hi. lia.
  - left. exists [], r, (q ++ concat (drop n env)). rewrite Nat.add_0_r.
    split; [by rewrite <- (all_arrivals a env n), Er|]. split; [done|]. by apply bind_Ub.
  - pose proof (rest_arrivals a env n r q Har Hs Er) as Har1. pose proof (rest_all a env n r q Er) as Hall.
    pose proof (rest_no_exit a env n r q Hs Er) as Hx1. pose proof (rest_seen a env n r q Hs Er) as Hseen.
    erewrite bind_Ok by exact E. cbv beta. fold (rest a env n r q). set (a1 := rest a env n r q) in *.
    set (env1 := drop n env) in *. rewrite fork_looks by done.
    assert (Hlt : n < length env) by (apply not_ge; intros ?; by apply Hs, seen_end).
    assert (Hpos : ∀ i, S i ≤ length (aq_reqs a) → n = 3).
    { intros i Hi. apply Hn3. intros E0. rewrite E0 in Hi. simpl in Hi. lia. }
    case_bool_decide as H2.
    + right. case_bool_decide as H1.
      * exists [], [r], (arrived 2 a1 env1), sems', (drop 2 env1). split; [done|].
        split; [rewrite all_arrivals; exact Hall|]. split; [simpl; lia|]. split; [by apply Forall_singleton|].
        split; [exact H2|]. intros [|i] Hi Hx; [lia|]. exfalso. apply Hseen in H1. revert H1.
        eapply no_exit_seen; [exact Hx|]. rewrite (Hpos i Hi). lia.
      * exists [it], [], (arrived 2 a1 env1), sems', (drop 2 env1). split; [done|].
        split; [rewrite all_arrivals; simpl; rewrite <- Eit; exact Hall|]. split; [simpl; lia|].
        split; [simpl; rewrite <- Eit; by apply Forall_singleton|].
        split; [exact H2|]. intros [|[|i]] Hi Hx; [lia|simpl; lia|]. exfalso. apply Hseen in H2. revert H2.
        eapply no_exit_seen; [exact Hx|]. rewrite (Hpos (S i) Hi). lia.
    + destruct (IH None (arrived 2 a1 env1) (drop 2 env1) sems' (arrived_arrivals _ _ Har1 2))
        as [(pre & r' & post & Ea & Hj & Ew)|(its & lost & a' & sems2 & env' & Ew & Ea & Hl & Hx' & He & Hmany)];
        [unfold env1; rewrite !length_drop; lia..| |].
      * left. exists (r :: pre), r', post. rewrite all_arrivals in Ea.
        split; [rewrite Hall, Ea; done|]. rewrite used_cons. simpl in Hj.
        split; [by replace (aq_front a + S (length r + used pre)) with (aq_front a + S (length r) + used pre) by lia|].
        by apply bind_Ub.
      * right. exists (it :: its), lost, a', sems2, env'. erewrite bind_Ok by exact Ew.
        split; [done|]. rewrite all_arrivals in Ea. rewrite fmap_cons, <- Eit. cbn [app].
        split; [rewrite Hall, Ea; done|]. split; [done|]. split; [by constructor|]. split; [done|].
        intros [|i] Hi Hx; [lia|]. simpl. apply le_n_S, Hmany.
        -- pose proof (rest_reqs a env n r q Er 2) as E2. fold a1 env1 in E2.
           apply (f_equal length) in E2. simpl in E2. rewrite !length_app in E2. simpl. rewrite length_app. simpl in *. lia.
        -- pose proof (rest_reqs a env n r q Er (2 + 5 * i)) as E2. fold a1 env1 in E2.
           rewrite (Hpos i Hi) in *. replace (3 + (2 + 5 * i)) with (5 * S i) in E2 by lia.
           assert (Hx2 : Forall no_exit (r :: aq_reqs (arrived (2 + 5 * i) a1 env1))) by by rewrite E2.
           apply Forall_cons in Hx2 as [_ Hx2]. unfold arrived in *. cbn [aq_reqs] in *.
           by rewrite take_more, app_assoc in Hx2.
Qed.


(** C29: taking a request sets the semaphore of its directory to 1, also while a
    child that works in that directory holds it: two children can be inside. *)
Theorem dequeue_resets_directory_lock k it reqs room rq sems out env :
  Forall clean (request it :: reqs) → SP ∉ dirpath it → length (request it) ≤ 1024 → rq ≤ k →
  0 < room → junk rq (length (request it)) = NUL → sems !! ftok (dirpath it) = Some 0%Z →
  waits (ftok (dirpath it)) (Srv (layout k (request it :: reqs) room) rq sems out env) = NoFuel ∧
  ∃ s, (it ← dequeueItem ftok junk; waits (ftok (dirpath it)))
         (Srv (layout k (request it :: reqs) room) rq sems out env) = Ok (tt, s).
Proof.
  intros Hr Hsp Hl Hrq _ Hj Hs. split.
  - unfold waits, sem_val. erewrite bind_Ok by done. cbv beta. cbn [sv_sems]. by rewrite Hs.
  - eexists. erewrite bind_Ok by (by apply dequeueItem_ok). cbv beta.
    unfold waits, sem_val. erewrite bind_Ok by done. cbv beta. cbn [sv_sems].
    rewrite lookup_insert_eq. done.
Qed.
End serving.

(** Two requests are there at the first look, a third comes later, "exit" after ten looks; and a
    segment in which the copy of the second request is followed by something else. *)
Definition demo_env : list (list bytes) :=
  [lit "/d int"; lit "/e x"] :: replicate 4 [] ++ [lit "/f y"] :: replicate 4 [] ++ [[exit_word]].


Lemma dequeue_resets_directory_lock_witness :
  ∃ s, (it ← dequeueItem (λ _, 7%Z) (λ _ _, NUL); waits 7)
    (Srv (layout 0 [lit "/d int"] 10) 0 {[ 7%Z := 0%Z ]} None []) = Ok (tt, s).
Proof.
  refine (proj2 (dequeue_resets_directory_lock (λ _, 7%Z) (λ _ _, NUL) 0 (Item (lit "/d") (lit "int")) []
    10 0 {[ 7%Z := 0%Z ]} None [] _ _ _ _ _ _ _)); try (simpl; lia); try done;
    apply (bool_decide_unpack _); vm_compute; exact I.
Defined.

(** ** What a thread finds *)

Lemma append_line_ok acc l :
  length acc < ServerC.result_size →
  ServerC.append_line acc l = strcpy ServerC.result_size (acc ++ l).
Proof.
  intros Ha. unfold ServerC.append_line.
  assert (strcpy ServerC.result_size acc = Ok acc) as ->; [|done].
  unfold strcpy. by rewrite decide_True.
Qed.

Lemma fold_append ls acc :
  length acc < ServerC.result_size →
  fold_found ServerC.append_line acc ls =
    if decide (length (acc ++ mjoin ls) < ServerC.result_size) then Ok (acc ++ mjoin ls) else Ub Overflow.
Proof.
  revert acc. induction ls as [|l ls IH]; intros acc Ha; cbn [fold_found].
  - change (mjoin []) with (@nil ascii). rewrite app_nil_r. by rewrite decide_True.
  - rewrite mjoin_cons, append_line_ok by done. unfold strcpy.
    destruct (decide (length (acc ++ l) < ServerC.result_size)) as [Hl|Hl].
    + etrans; [exact (IH (acc ++ l) Hl)|]. by rewrite <- app_assoc.
    + rewrite decide_False; [done|]. rewrite !length_app in *. lia.
Qed.

(** The lines are short enough: name and number have less than 1000 bytes. *)
Definition short_name (name content : bytes) : Prop :=
  ∀ m, (1 ≤ m ≤ 1 + Z.of_nat (length content))%Z → length name + length (fmt_d m) < 1000.

Lemma search_with_ok {Acc} (on_found : Acc → bytes → outcome Acc) acc fs dir name kw content :
  let path := dir ++ SLASH :: name in
  fs_dir fs path = None → fs_file fs path = Some content → SLASH ∉ name → short_name name content →
  search_with on_found acc fs path kw =
    (r ← fold_found on_found acc (found_lines name kw content); Ok (Some r)).
Proof.
  intros path Hd Hf Hn Hs. unfold search_with. rewrite Hd, Hf. unfold path.
  rewrite file_name_ok by done. change (Ok name ≫= ?k) with (k name). cbv beta.
  by rewrite scan_lines_ok by (done || lia).
Qed.

Lemma search_test_block fs dir name kw content :
  let path := dir ++ SLASH :: name in
  let block := mjoin (found_lines name kw content) in
  fs_dir fs path = None → fs_file fs path = Some content → SLASH ∉ name → short_name name content →
  ServerC.search_test fs path kw =
    if decide (length block < ServerC.result_size) then Ok (Some block) else Ub Overflow.
Proof.
  intros path block Hd Hf Hn Hs. unfold ServerC.search_test. subst path.
  rewrite (search_with_ok _ _ _ _ _ _ content) by done.
  rewrite fold_append by (unfold ServerC.result_size; simpl length; lia).
  change ([] ++ mjoin (found_lines name kw content)) with block. by case_decide.
Qed.

(** the block that server.c writes for a file has exactly the lines with the
    keyword, each with the file's name and its number, in order; more than
    204799 bytes of them overflow [result]. *)
Theorem search_test_collects_found_lines fs dir name kw content :
  let path := dir ++ SLASH :: name in
  let block := mjoin (found_lines name kw content) in
  fs_dir fs path = None → fs_file fs path = Some content → SLASH ∉ name → short_name name content →
  ServerC.search_test fs path kw =
    if decide (length block < ServerC.result_size) then Ok (Some block) else Ub Overflow.
Proof. exact (search_test_block fs dir name kw content). Qed.

(** the copy of server.c in calc/BlackBoxTesting does not initialise [result]:
    for every file that can be read the result is undefined. *)
Theorem calc_search_test_uninitialised fs dir name kw content :
  let path := dir ++ SLASH :: name in
  fs_dir fs path = None → fs_file fs path = Some content → SLASH ∉ name → short_name name content →
  ServerCalc.search_test fs path kw = Ub Uninit.
Proof.
  intros path Hd Hf Hn Hs. unfold ServerCalc.search_test. subst path.
  rewrite (search_with_ok _ _ _ _ _ _ content) by done.
  by destruct (found_lines name kw content).
Qed.

(** the threads of server-rev1.c put exactly the lines with the keyword into the
    buffer, and none of them ends the printer. *)
Lemma rev1_worker_ok fs dir name kw content :
  fs_dir fs (dir ++ SLASH :: name) = None → fs_file fs (dir ++ SLASH :: name) = Some content →
  SLASH ∉ name → short_name name content →
  ServerRev1.Worker fs (Item (dir ++ SLASH :: name) kw) = Ok (found_lines name kw content) ∧
  lit "exitchild" ∉ found_lines name kw content.
Proof.
  intros Hd Hf Hn Hs. split.
  - unfold ServerRev1.Worker, ServerRev1.search_test. simpl dirpath. simpl keyword.
    rewrite (search_with_ok _ _ _ _ _ _ content) by done.
    assert (Hfold : ∀ ls acc, fold_found (λ acc line, Ok (acc ++ [line])) acc ls = Ok (acc ++ ls)).
    { clear. induction ls as [|l ls IH]; intros acc; simpl; [by rewrite app_nil_r|].
      by rewrite IH, <- app_assoc. }
    by rewrite Hfold.
  - unfold found_lines. generalize 1%Z. induction (file_chunks content) as [|l ls IH]; intros n Hin.
    + by apply elem_of_nil in Hin.
    + cbn [found_from] in Hin. apply elem_of_app in Hin as [Hin|Hin]; [|by apply (IH (n + 1)%Z)].
      case_decide; [|by apply elem_of_nil in Hin]. apply list_elem_of_singleton in Hin.
      assert (":"%char ∉ lit "exitchild") as Hno by (apply (bool_decide_unpack _); by vm_compute).
      apply Hno. rewrite Hin. unfold numbered_line. apply elem_of_app. right. left.
Qed.

Definition demo_server_fs : fsys :=
  FSys (λ p, if decide (p = lit "/d") then Some [Dirent (lit "a.c") 8; Dirent (lit ".x") 8; Dirent (lit "s") 4]
             else None)
       (λ p, if decide (p = lit "/d/a.c") then Some (lit "int a" ++ [NL] ++ lit "b" ++ [NL] ++ lit "an int" ++ [NL])
             else None) (λ _, true) (Ok tt).
Definition demo_content : bytes := lit "int a" ++ [NL] ++ lit "b" ++ [NL] ++ lit "an int" ++ [NL].

Lemma demo_short : short_name (lit "a.c") demo_content.
Proof.
  intros m Hm. change (length demo_content) with 15 in Hm.
  assert (m ∈ seqZ 1 16) as Hin by (apply elem_of_seqZ; lia).
  assert (H : Forall (λ m, length (lit "a.c") + length (fmt_d m) < 1000) (seqZ 1 16)).
  { apply (bool_decide_unpack _). vm_compute. exact I. }
  rewrite Forall_forall in H. by apply H.
Qed.

Lemma search_test_collects_found_lines_witness :
  ServerC.search_test demo_server_fs (lit "/d/a.c") (lit "int") =
    Ok (Some (lit "a.c:1:int a" ++ [NL] ++ lit "a.c:3:an int" ++ [NL])).
Proof.
  refine (eq_trans (search_test_collects_found_lines demo_server_fs (lit "/d") (lit "a.c") (lit "int")
    demo_content eq_refl eq_refl _ demo_short) _).
  - apply (bool_decide_unpack _). vm_compute. exact I.
  - vm_compute. reflexivity.
Defined.

Lemma calc_search_test_uninitialised_witness :
  ServerCalc.search_test demo_server_fs (lit "/d/a.c") (lit "nothing") = Ub Uninit.
Proof.
  refine (calc_search_test_uninitialised demo_server_fs (lit "/d") (lit "a.c") (lit "nothing")
    demo_content eq_refl eq_refl _ demo_short).
  apply (bool_decide_unpack _). vm_compute. exact I.
Defined.

Lemma rev1_worker_ok_witness :
  ServerRev1.Worker demo_server_fs (Item (lit "/d/a.c") (lit "int")) =
    Ok [lit "a.c:1:int a" ++ [NL]; lit "a.c:3:an int" ++ [NL]].
Proof.
  refine (eq_trans (proj1 (rev1_worker_ok demo_server_fs (lit "/d") (lit "a.c") (lit "int")
    demo_content eq_refl eq_refl _ demo_short)) _).
  - apply (bool_decide_unpack _). vm_compute. exact I.
  - vm_compute. reflexivity.
Defined.

(** ** The files of a directory *)

Definition is_file (e : dirent) : Prop := hidden e = false ∧ is_dir e = false.
#[export] Instance is_file_dec e : Decision (is_file e).
Proof. unfold is_file. apply _. Defined.

Definition files_of (path : bytes) (ents : list dirent) : list bytes :=
  (λ e, join_path path (d_name e)) <$> filter is_file ents.

Lemma thread_paths_ok path n ents :
  n ≤ 20 → Forall (λ p, length p < 1024) (files_of path ents) →
  thread_paths path n ents =
    if decide (n + length (files_of path ents) ≤ 20) then Ok (files_of path ents) else Ub Overflow.
Proof.
  revert n. induction ents as [|e ents IH]; intros n Hn Hl; cbn [thread_paths].
  - unfold files_of. simpl. rewrite decide_True by lia. done.
  - unfold files_of in *. destruct (decide (is_file e)) as [[Hh Hd]|Hf].
    + rewrite filter_cons_True in * by done. rewrite fmap_cons in *.
      apply Forall_cons in Hl as [Hp Hl]. rewrite Hh, Hd. cbn [negb andb]. unfold strcpy.
      rewrite decide_True by done. change (Ok ?x ≫= ?k) with (k x). cbv beta.
      destruct (decide (n < 20)).
      * rewrite IH by (done || lia). cbn [length]. rewrite Nat.add_succ_r.
        change (S n + ?x) with (S (n + x)). by case_decide.
      * rewrite decide_False; [done|]. simpl. lia.
    + rewrite filter_cons_False in * by done.
      assert (negb (hidden e) && negb (is_dir e) = false) as ->; [|by apply IH].
      unfold is_file in Hf. destruct (hidden e), (is_dir e); simpl; try done. by destruct Hf.
Qed.

(** a child makes a thread for every visible file of its directory, not of the
    directories below; the 21st is entered beyond the end of [tids], and a
    directory that does not open ends the child. *)
Theorem openDir_one_thread_per_file fs path :
  (fs_dir fs path = None → openDir fs path = Exits (-1)) ∧
  (∀ ents, fs_dir fs path = Some ents → Forall (λ p, length p < 1024) (files_of path ents) →
     openDir fs path =
       if decide (length (files_of path ents) ≤ 20) then Ok (files_of path ents) else Ub Overflow).
Proof.
  unfold openDir. split; [by intros ->|]. intros ents -> Hl. by rewrite thread_paths_ok by (done || lia).
Qed.

Lemma openDir_one_thread_per_file_witness :
  openDir demo_server_fs (lit "/d") = Ok [lit "/d/a.c"].
Proof.
  refine (proj2 (openDir_one_thread_per_file demo_server_fs (lit "/d"))
    [Dirent (lit "a.c") 8; Dirent (lit ".x") 8; Dirent (lit "s") 4] eq_refl _).
  apply (bool_decide_unpack _). vm_compute. exact I.
Defined.

(** [random_number] gives a number of its interval when the interval has two
    numbers or more; for an interval with one number it gives the next one, and
    for a bound one less than the other it divides by zero. *)
Lemma random_number_interval r a b :
  (0 ≤ r)%Z → (int_min ≤ a)%Z → (b < int_max)%Z → (b - a < int_max)%Z →
  ((a < b)%Z → ∃ n, ServerRev1.random_number r a b = Ok n ∧ (a ≤ n ≤ b)%Z) ∧
  (a = b → ServerRev1.random_number r a b = Ok (a + 1)%Z) ∧
  (a = (b + 1)%Z → ServerRev1.random_number r a b = Ub IntOverflow).
Proof.
  intros Hr Ha Hb Hd.
  assert (Hti : ∀ z, (int_min ≤ z ≤ int_max)%Z → to_int z = Ok z).
  { intros z Hz. unfold to_int. by rewrite decide_True. }
  unfold int_min, int_max in *. unfold ServerRev1.random_number. split; [|split].
  - intros Hab. exists (Z.rem r (b + 1 - a) + a)%Z.
    assert (0 ≤ Z.rem r (b + 1 - a) < b + 1 - a)%Z as Hrem by (apply Z.rem_bound_pos; lia).
    rewrite Hti by (unfold int_min, int_max; lia). simpl. rewrite decide_True by done.
    rewrite Hti by (unfold int_min, int_max; lia). simpl. rewrite decide_False by lia.
    rewrite Hti by (unfold int_min, int_max; lia). split; [done|lia].
  - intros <-. rewrite Hti by (unfold int_min, int_max; lia). simpl. rewrite decide_False by lia.
    rewrite Hti by (unfold int_min, int_max; lia). simpl. rewrite decide_False by lia.
    replace (a - (a + 1))%Z with (- (1))%Z by lia. rewrite Z.rem_opp_r, Z.rem_1_r by lia.
    rewrite Hti by (unfold int_min, int_max; lia). done.
  - intros ->. rewrite Hti by (unfold int_min, int_max; lia). simpl. rewrite decide_False by lia.
    rewrite Hti by (unfold int_min, int_max; lia). simpl. by rewrite decide_True by lia.
Qed.
