(* ===== verification/OutputLock.v ===== *)
(** * Writing to output.txt under a semaphore

    [fileWriter] of the servers as a transition system: every thread of every
    child waits for SEMbuf, appends its block in pieces of any size, and signals. *)

From stdpp Require Import base list relations strings.
From Stdlib Require Import Ascii.
From S2P Require Import Prelude.

(** Where a thread is in [fileWriter]: before [waits(SEMbuf)], with a part of the
    block still to write, after [fclose], after [signals(SEMbuf)]. *)
Inductive wpc := Waiting | Writing (rest : bytes) | Closed | Finished.

#[export] Instance wpc_eq_dec : EqDecision wpc.
Proof. solve_decision. Defined.

Record wstate := WState { w_sem : Z; w_out : bytes; w_pcs : list wpc }.

Section lock.
Context (blocks : list bytes) (out0 : bytes).

Definition block_of (i : nat) : bytes := default [] (blocks !! i).

Inductive wstep : wstate → wstate → Prop :=
  | w_waits i sem out pcs :
      pcs !! i = Some Waiting → (0 < sem)%Z →
      wstep (WState sem out pcs) (WState (sem - 1) out (<[i:=Writing (block_of i)]> pcs))
  | w_fprintf i sem out pcs c rest :
      pcs !! i = Some (Writing (c ++ rest)) → c ≠ [] →
      wstep (WState sem out pcs) (WState sem (out ++ c) (<[i:=Writing rest]> pcs))
  | w_fclose i sem out pcs :
      pcs !! i = Some (Writing []) →
      wstep (WState sem out pcs) (WState sem out (<[i:=Closed]> pcs))
  | w_signals i sem out pcs :
      pcs !! i = Some Closed →
      wstep (WState sem out pcs) (WState (sem + 1) out (<[i:=Finished]> pcs)).

Definition w_init : wstate := WState 1 out0 (replicate (length blocks) Waiting).

Definition reachable (s : wstate) : Prop := rtc wstep w_init s.

(** What a thread has written when it is at [pc]. *)
Definition inside (i : nat) (pc : wpc) (written : bytes) : Prop :=
  match pc with
  | Writing rest => block_of i = written ++ rest
  | Closed => block_of i = written
  | _ => False
  end.

(** [order]: the threads that have finished, in the order of their signals; [cur]:
    the thread that holds the semaphore, with what it has written. *)
Record winv (s : wstate) (order : list nat) (cur : option (nat * bytes)) : Prop := {
  wi_len : length (w_pcs s) = length blocks;
  wi_sem : w_sem s = if cur then 0%Z else 1%Z;
  wi_out : w_out s = out0 ++ mjoin (block_of <$> order) ++ default [] (snd <$> cur);
  wi_order : NoDup order ∧ ∀ i, i ∈ order ↔ w_pcs s !! i = Some Finished;
  wi_cur : match cur with
           | Some (i, written) => ∃ pc, w_pcs s !! i = Some pc ∧ inside i pc written
           | None => True
           end;
  wi_others : ∀ i pc, w_pcs s !! i = Some pc → fst <$> cur ≠ Some i → pc = Waiting ∨ pc = Finished;
}.

Lemma winv_init : winv w_init [] None.
Proof.
  constructor; simpl; try done.
  - by rewrite length_replicate.
  - by rewrite app_nil_r.
  - split; [constructor|]. intros i. split; [by intros ?%elem_of_nil|].
    intros H. apply lookup_replicate in H as [? _]. done.
  - intros i pc H _. apply lookup_replicate in H as [-> _]. by left.
Qed.

Definition in_section (pc : wpc) : Prop := match pc with Writing _ | Closed => True | _ => False end.

(** Only the holder of the semaphore is between the two calls. *)
Lemma winv_holder s order cur i pc :
  winv s order cur → w_pcs s !! i = Some pc → in_section pc →
  ∃ w, cur = Some (i, w) ∧ inside i pc w.
Proof.
  intros [_ _ _ _ Hcur Hoth] Hi Hs. destruct cur as [[j w]|].
  - destruct (decide (j = i)) as [->|Hne].
    + exists w. split; [done|]. destruct Hcur as (pc' & Hpc & Hin). congruence.
    + destruct (Hoth i pc Hi) as [->| ->]; [simpl; congruence|done..].
  - by destruct (Hoth i pc Hi) as [->| ->].
Qed.

Lemma order_insert (order : list nat) (pcs : list wpc) i pc pc' :
  (∀ j, j ∈ order ↔ pcs !! j = Some Finished) → pcs !! i = Some pc → pc ≠ Finished → pc' ≠ Finished →
  ∀ j, j ∈ order ↔ <[i:=pc']> pcs !! j = Some Finished.
Proof.
  intros Ho Hi H1 H2 j. rewrite Ho. destruct (decide (j = i)) as [->|].
  - rewrite Hi, list_lookup_insert_eq by by eapply lookup_lt_Some. naive_solver.
  - by rewrite list_lookup_insert_ne.
Qed.

(** The holder moves on. *)
Lemma winv_move sem out pcs order i w pc pc' w' out' :
  winv (WState sem out pcs) order (Some (i, w)) → pcs !! i = Some pc → pc ≠ Finished →
  in_section pc' → inside i pc' w' → out' = out0 ++ mjoin (block_of <$> order) ++ w' →
  winv (WState sem out' (<[i:=pc']> pcs)) order (Some (i, w')).
Proof.
  intros [Hlen Hsem Hout [Hnd Hord] Hcur Hoth] Hi Hpc Hs Hin Hout'. simpl in *.
  constructor; simpl; [by rewrite length_insert|done|done| | |].
  - split; [done|]. eapply order_insert; [done..|]. by destruct pc'.
  - exists pc'. rewrite list_lookup_insert_eq by by eapply lookup_lt_Some. done.
  - intros j q Hj Hne. rewrite list_lookup_insert_ne in Hj by congruence. by eapply Hoth.
Qed.

Lemma winv_step s s' order cur :
  winv s order cur → wstep s s' → ∃ order' cur', winv s' order' cur'.
Proof.
  intros Hinv Hst.
  destruct Hst as [i sem out pcs Hi Hs|i sem out pcs c rest Hi Hc|i sem out pcs Hi|i sem out pcs Hi];
    pose proof (lookup_lt_Some _ _ _ Hi) as Hlt.
  - (* waits *)
    destruct Hinv as [Hlen Hsem Hout [Hnd Hord] Hcur Hoth]. simpl in *.
    destruct cur as [[]|]; [lia|]. exists order, (Some (i, [])).
    constructor; simpl; [by rewrite length_insert|lia|done| | |].
    + split; [done|]. by eapply order_insert.
    + exists (Writing (block_of i)). by rewrite list_lookup_insert_eq.
    + intros j pc Hj Hne. rewrite list_lookup_insert_ne in Hj by congruence. by eapply Hoth.
  - (* fprintf *)
    destruct (winv_holder _ _ _ i _ Hinv Hi) as (w & -> & Hin); [done|]. simpl in Hin.
    exists order, (Some (i, w ++ c)). pose proof (wi_out _ _ _ Hinv) as Hout. simpl in Hout.
    eapply winv_move; [done..| |].
    + simpl. by rewrite Hin, <- app_assoc.
    + by rewrite Hout, <- !app_assoc.
  - (* fclose *)
    destruct (winv_holder _ _ _ i _ Hinv Hi) as (w & -> & Hin); [done|]. simpl in Hin.
    exists order, (Some (i, w)). pose proof (wi_out _ _ _ Hinv) as Hout. simpl in Hout.
    eapply winv_move; [done..| |done]. simpl. by rewrite Hin, app_nil_r.
  - (* signals *)
    destruct (winv_holder _ _ _ i _ Hinv Hi) as (w & -> & Hin); [done|]. simpl in Hin.
    destruct Hinv as [Hlen Hsem Hout [Hnd Hord] Hcur Hoth]. simpl in *.
    exists (order ++ [i]), None. constructor; simpl; [by rewrite length_insert|lia| | |done|].
    + rewrite Hout, fmap_app. simpl. by rewrite mjoin_app, mjoin_cons, Hin, !app_nil_r.
    + split.
      * apply NoDup_app. split; [done|]. split; [|apply NoDup_singleton].
        intros j Hj ->%list_elem_of_singleton. apply Hord in Hj. congruence.
      * intros j. rewrite elem_of_app, Hord, list_elem_of_singleton.
        destruct (decide (j = i)) as [->|].
        -- rewrite list_lookup_insert_eq by done. tauto.
        -- rewrite list_lookup_insert_ne by done. tauto.
    + intros j pc Hj _. destruct (decide (j = i)) as [->|Hne].
      * rewrite list_lookup_insert_eq in Hj by done. injection Hj as <-. by right.
      * rewrite list_lookup_insert_ne in Hj by done. eapply Hoth; [done|]. simpl. congruence.
Qed.

Lemma reachable_winv s : reachable s → ∃ order cur, winv s order cur.
Proof.
  intros Hr. eapply (rtc_preserves wstep (λ s, ∃ order cur, winv s order cur)); [|exact Hr|].
  - intros s1 s2 (order & cur & Hi). by eapply winv_step.
  - exists [], None. exact winv_init.
Qed.

(** At most one thread is between [waits(SEMbuf)] and [signals(SEMbuf)]. *)
Lemma holders_eq s i j pc pc' :
  reachable s → w_pcs s !! i = Some pc → w_pcs s !! j = Some pc' →
  in_section pc → in_section pc' → i = j.
Proof.
  intros Hr Hi Hj H1 H2. destruct (reachable_winv s Hr) as (o & c & Hinv).
  destruct (winv_holder s o c i pc Hinv Hi H1) as (w & -> & _).
  by destruct (winv_holder s o _ j pc' Hinv Hj H2) as (w' & [= -> ->] & _).
Qed.

(** When all have finished the output is a permutation of the blocks. *)
Lemma finished_output s :
  reachable s → (∀ i pc, w_pcs s !! i = Some pc → pc = Finished) →
  ∃ order, order ≡ₚ seq 0 (length blocks) ∧ w_out s = out0 ++ mjoin (block_of <$> order).
Proof.
  intros Hr Hall. destruct (reachable_winv s Hr) as (order & cur & [Hlen _ Hout [Hnd Hord] Hcur _]).
  assert (cur = None) as ->.
  { destruct cur as [[i w]|]; [|done]. destruct Hcur as (pc & Hpc & Hin).
    apply Hall in Hpc as ->. done. }
  exists order. split.
  - apply NoDup_Permutation; [done|apply NoDup_seq|]. intros i. rewrite Hord, elem_of_seq, <- Hlen.
    split.
    + intros H%lookup_lt_Some. lia.
    + intros [_ H]. destruct (lookup_lt_is_Some_2 (w_pcs s) i H) as [pc Hpc].
      rewrite Hpc. f_equal. by eapply Hall.
  - rewrite Hout. simpl. by rewrite app_nil_r.
Qed.

(** Until all have finished one of the threads can go on. *)
Lemma writers_progress s :
  reachable s → (∃ s', wstep s s') ∨ (∀ i pc, w_pcs s !! i = Some pc → pc = Finished).
Proof.
  intros Hr. destruct (reachable_winv s Hr) as (order & cur & [Hlen Hsem Hout [Hnd Hord] Hcur Hoth]).
  destruct s as [sem out pcs]. simpl in *. destruct cur as [[i w]|].
  - left. destruct Hcur as (pc & Hpc & Hin). destruct pc as [|[|c rest]| |]; try done.
    + eexists. by eapply w_fclose.
    + eexists. by apply (w_fprintf i sem out pcs [c] rest).
    + eexists. by eapply w_signals.
  - destruct (decide (Exists (λ pc, pc = Waiting) pcs)) as [H|H].
    + left. apply Exists_exists in H as (pc & Hin & ->). apply list_elem_of_lookup in Hin as [i Hi].
      eexists. eapply w_waits; [done|lia].
    + right. intros i pc Hi. destruct (Hoth i pc Hi ltac:(done)) as [->|?]; [|done].
      exfalso. apply H, Exists_exists. exists Waiting. split; [|done]. by eapply list_elem_of_lookup_2.
Qed.

(** ** Termination *)
Definition w_rank (pc : wpc) : nat :=
  match pc with
  | Waiting => 3 + length (mjoin blocks) | Writing rest => 2 + length rest | Closed => 1 | Finished => 0
  end.

Lemma block_of_length i : length (block_of i) ≤ length (mjoin blocks).
Proof.
  unfold block_of. revert i. induction blocks as [|b bs IH]; intros i; [done|].
  rewrite mjoin_cons, length_app. destruct i as [|i]; simpl; [lia|]. specialize (IH i). lia.
Qed.

Lemma wstep_rank s s' : wstep s s' → sum_list (w_rank <$> w_pcs s') < sum_list (w_rank <$> w_pcs s).
Proof.
  intros [i sem out pcs Hi _|i sem out pcs c rest Hi Hc|i sem out pcs Hi|i sem out pcs Hi]; simpl.
  - pose proof (sum_list_fmap_insert w_rank _ _ _ (Writing (block_of i)) Hi). pose proof (block_of_length i).
    simpl in *. lia.
  - pose proof (sum_list_fmap_insert w_rank _ _ _ (Writing rest) Hi). simpl in *. rewrite length_app in *.
    destruct c; [done|simpl in *; lia].
  - pose proof (sum_list_fmap_insert w_rank _ _ _ Closed Hi). simpl in *. lia.
  - pose proof (sum_list_fmap_insert w_rank _ _ _ Finished Hi). simpl in *. lia.
Qed.

Lemma writers_end s : Acc (λ s2 s1, wstep s1 s2) s.
Proof.
  remember (sum_list (w_rank <$> w_pcs s)) as n eqn:En. revert s En.
  induction (lt_wf n) as [n _ IH]. intros s ->. constructor. intros s2 Hst.
  by eapply IH; [exact (wstep_rank _ _ Hst)|].
Qed.

(** C30: the threads that write to output.txt exclude each other, always end, and never block
    each other for good; when none can go on the file is what it was and then every block
    once, whole, in some order, whatever the order of the threads and the sizes of their
    writes. *)
Theorem writers_append_whole_blocks s :
  reachable s →
  (∀ i j pc pc', w_pcs s !! i = Some pc → w_pcs s !! j = Some pc' → in_section pc → in_section pc' → i = j) ∧
  Acc (λ s2 s1, wstep s1 s2) s ∧
  ((∀ s', ¬ wstep s s') → ∃ order, order ≡ₚ seq 0 (length blocks) ∧
     w_out s = out0 ++ mjoin (block_of <$> order)).
Proof.
  intros Hr. split; [|split; [apply writers_end|]].
  - intros i j pc pc'. by apply holders_eq.
  - intros Hstuck. apply finished_output; [done|].
    destruct (writers_progress s Hr) as [[s' Hst]|?]; [|done]. by destruct (Hstuck s').
Qed.
End lock.

(** ** Example: two threads, the second first *)
Definition demo_blocks : list bytes := [lit "a:1:x"; lit "b:2:y"].
Definition demo_end : wstate := WState 1 (lit "b:2:ya:1:x") [Finished; Finished].

Lemma demo_reachable : reachable demo_blocks [] demo_end.
Proof.
  unfold reachable, w_init, demo_blocks, demo_end. simpl.
  eapply rtc_l; [apply (w_waits _ 1); done|]. simpl.
  eapply rtc_l; [apply (w_fprintf _ 1 _ _ _ (lit "b:") (lit "2:y")); done|]. simpl.
  eapply rtc_l; [apply (w_fprintf _ 1 _ _ _ (lit "2:y") []); done|]. simpl.
  eapply rtc_l; [apply (w_fclose _ 1); done|]. simpl.
  eapply rtc_l; [apply (w_signals _ 1); done|]. simpl.
  eapply rtc_l; [apply (w_waits _ 0); done|]. simpl.
  eapply rtc_l; [apply (w_fprintf _ 0 _ _ _ (lit "a:1:x") []); done|]. simpl.
  eapply rtc_l; [apply (w_fclose _ 0); done|]. simpl.
  eapply rtc_l; [apply (w_signals _ 0); done|]. simpl. apply rtc_refl.
Qed.

Lemma writers_append_whole_blocks_witness :
  (∀ i j pc pc', w_pcs demo_end !! i = Some pc → w_pcs demo_end !! j = Some pc' →
     in_section pc → in_section pc' → i = j) ∧
  Acc (λ s2 s1, wstep demo_blocks s1 s2) demo_end ∧
  ((∀ s', ¬ wstep demo_blocks demo_end s') → ∃ order, order ≡ₚ [0; 1] ∧
     w_out demo_end = [] ++ mjoin (block_of demo_blocks <$> order)).
Proof. exact (writers_append_whole_blocks demo_blocks [] demo_end demo_reachable). Defined.
