(* ===== verification/BoundedBuffer.v ===== *)
(** * The bounded buffer of server-rev1.c

    The threads of a child put lines, the Printer gets and writes them; the
    semaphores [empty], [full] and [mutex] order them.  As a transition system:
    one step for every semaphore operation and every critical section. *)

From stdpp Require Import base list relations strings.
From Stdlib Require Import Ascii.
From S2P Require Import Prelude.

Definition exitchild : bytes := lit "exitchild".

(** ** put and getitem *)

(** [cur++; if (cur == BUFFERSIZE) cur = 0;] *)
Definition advance (BUFFERSIZE cur : nat) : nat :=
  if decide (S cur = BUFFERSIZE) then 0 else S cur.

(** The array, where [None] is the NULL that calloc leaves. *)
Record buffer := Buf { slots : list (option bytes); cur_put : nat; cur_get : nat }.

(** [put(str, buf)] *)
Definition put (str : bytes) (b : buffer) : outcome buffer :=
  if decide (cur_put b < length (slots b)) then
    Ok (Buf (<[cur_put b:=Some str]> (slots b)) (advance (length (slots b)) (cur_put b)) (cur_get b))
  else Ub BadAccess.

(** [getitem(buf)], whose result the Printer gives to [strcmp] *)
Definition getitem (b : buffer) : outcome (bytes * buffer) :=
  match slots b !! cur_get b with
  | Some (Some str) => Ok (str, Buf (slots b) (cur_put b) (advance (length (slots b)) (cur_get b)))
  | Some None => Ub NullDeref
  | None => Ub BadAccess
  end.

(** ** The processes *)

(** A thread that puts lines: before [sem_wait(&empty)], after it, after
    [sem_wait(&mutex)], after [put], after [sem_post(&mutex)]. *)
Inductive ppc := PReady | PEmpty | PMutex | PPut | PPosted.
(** The Printer: before [sem_wait(&full)], after it, after [sem_wait(&mutex)], after
    [getitem] and [fileWriter], after [sem_post(&mutex)], at its end. *)
Inductive cpc := CReady | CFull | CMutex | CGot (str : bytes) | CPosted (str : bytes) | CDone.

Record thread := Thread { t_pc : ppc; t_todo : list bytes }.

Record bstate := BState {
  b_buf : buffer; b_empty : Z; b_full : Z; b_mutex : Z;
  b_threads : list thread; b_printer : cpc; b_out : list bytes;
}.

#[export] Instance ppc_eq_dec : EqDecision ppc.
Proof. solve_decision. Defined.
#[export] Instance cpc_eq_dec : EqDecision cpc.
Proof. solve_decision. Defined.

Definition done_thread (t : thread) : Prop := t_pc t = PReady ∧ t_todo t = [].

Section system.
(** The initial value of [empty]. *)
Context (slots_free : Z).

(** The last thread is the child's main thread: it puts "exitchild" when the
    others have been joined. *)
Definition may_start (ts : list thread) (i : nat) : Prop :=
  S i = length ts → ∀ j t, j < i → ts !! j = Some t → done_thread t.

(** The label of a step: the string that is put, if one is. *)
Inductive bstep : bstate → option bytes → bstate → Prop :=
  | b_wait_empty i l todo b e f m ts c out :
      ts !! i = Some (Thread PReady (l :: todo)) → may_start ts i → (0 < e)%Z →
      bstep (BState b e f m ts c out) None
            (BState b (e - 1) f m (<[i:=Thread PEmpty (l :: todo)]> ts) c out)
  | b_wait_mutex i todo b e f m ts c out :
      ts !! i = Some (Thread PEmpty todo) → (0 < m)%Z →
      bstep (BState b e f m ts c out) None
            (BState b e f (m - 1) (<[i:=Thread PMutex todo]> ts) c out)
  | b_put i l todo b b' e f m ts c out :
      ts !! i = Some (Thread PMutex (l :: todo)) → put l b = Ok b' →
      bstep (BState b e f m ts c out) (Some l)
            (BState b' e f m (<[i:=Thread PPut todo]> ts) c out)
  | b_post_mutex i todo b e f m ts c out :
      ts !! i = Some (Thread PPut todo) →
      bstep (BState b e f m ts c out) None
            (BState b e f (m + 1) (<[i:=Thread PPosted todo]> ts) c out)
  | b_post_full i todo b e f m ts c out :
      ts !! i = Some (Thread PPosted todo) →
      bstep (BState b e f m ts c out) None
            (BState b e (f + 1) m (<[i:=Thread PReady todo]> ts) c out)
  | c_wait_full b e f m ts out :
      (0 < f)%Z → bstep (BState b e f m ts CReady out) None (BState b e (f - 1) m ts CFull out)
  | c_wait_mutex b e f m ts out :
      (0 < m)%Z → bstep (BState b e f m ts CFull out) None (BState b e f (m - 1) ts CMutex out)
  | c_get b str b' e f m ts out :
      getitem b = Ok (str, b') →
      bstep (BState b e f m ts CMutex out) None
            (BState b' e f m ts (CGot str) (if decide (str = exitchild) then out else out ++ [str]))
  | c_post_mutex b str e f m ts out :
      bstep (BState b e f m ts (CGot str) out) None (BState b e f (m + 1) ts (CPosted str) out)
  | c_post_empty b str e f m ts out :
      bstep (BState b e f m ts (CPosted str) out) None
            (BState b (e + 1) f m ts (if decide (str = exitchild) then CDone else CReady) out).

(** [calloc(BUFFERSIZE, ...)], [sem_init(&empty, 0, slots_free)], [sem_init(&full, 0, 0)],
    [sem_init(&mutex, 0, 1)]; [work]: the lines that each thread will put. *)
Definition b_init (BUFFERSIZE : nat) (work : list (list bytes)) : bstate :=
  BState (Buf (replicate BUFFERSIZE None) 0 0) slots_free 0 1
    ((Thread PReady <$> work) ++ [Thread PReady [exitchild]]) CReady [].

Definition put_of (lbl : option bytes) : list bytes := match lbl with Some l => [l] | None => [] end.

(** The states that can be reached, with the strings that were put on the way. *)
Inductive b_run (BUFFERSIZE : nat) (work : list (list bytes)) : list bytes → bstate → Prop :=
  | run_init : b_run BUFFERSIZE work [] (b_init BUFFERSIZE work)
  | run_step log s lbl s' :
      b_run BUFFERSIZE work log s → bstep s lbl s' → b_run BUFFERSIZE work (log ++ put_of lbl) s'.
End system.

(** ** Counting threads *)
Definition holding (ps : list ppc) (t : thread) : Prop := t_pc t ∈ ps.
#[export] Instance holding_dec ps t : Decision (holding ps t).
Proof. unfold holding. apply _. Defined.

(** The number of threads at one of [ps]. *)
Definition at_pc (ps : list ppc) (ts : list thread) : Z := Z.of_nat (length (filter (holding ps) ts)).

Definition weight (ps : list ppc) (t : thread) : Z := if decide (holding ps t) then 1 else 0.

Lemma at_pc_insert ps ts i t t' :
  ts !! i = Some t → (at_pc ps (<[i:=t']> ts) = at_pc ps ts - weight ps t + weight ps t')%Z.
Proof.
  intros Hi. rewrite <- (take_drop_middle ts i t Hi) at 2.
  rewrite insert_take_drop by by eapply lookup_lt_Some.
  unfold at_pc, weight. rewrite !filter_app, !length_app, !filter_cons.
  destruct (decide (holding ps t)), (decide (holding ps t')); simpl; lia.
Qed.

Lemma at_pc_nonneg ps ts : (0 ≤ at_pc ps ts)%Z.
Proof. unfold at_pc. lia. Qed.

Lemma at_pc_pos ps ts i t : ts !! i = Some t → holding ps t → (0 < at_pc ps ts)%Z.
Proof.
  intros Hi Ht. unfold at_pc.
  assert (t ∈ filter (holding ps) ts) as Hin.
  { apply list_elem_of_filter. split; [done|]. by eapply list_elem_of_lookup_2. }
  destruct (filter (holding ps) ts); [by apply elem_of_nil in Hin|]. simpl. lia.
Qed.

(** ** The invariant *)
Definition cons_at (c : cpc) : Z * Z * Z :=
  match c with
  | CFull => (1, 0, 0) | CMutex => (1, 1, 0)
  | CGot _ => (0, 1, 1) | CPosted _ => (0, 0, 1) | _ => (0, 0, 0)
  end%Z.

(** [log]: everything that was put; [g]: how many of them were taken. *)
Record binv (cap : Z) (N : nat) (s : bstate) (log : list bytes) (g : nat) : Prop := {
  bi_len : length (slots (b_buf s)) = N;
  bi_put : cur_put (b_buf s) = length log mod N;
  bi_get : cur_get (b_buf s) = g mod N;
  bi_g : g ≤ length log;
  bi_slots : ∀ j str, g ≤ j → log !! j = Some str → slots (b_buf s) !! (j mod N) = Some (Some str);
  bi_mutex : (b_mutex s + at_pc [PMutex; PPut] (b_threads s) + (cons_at (b_printer s)).1.2 = 1)%Z;
  bi_full : (b_full s + at_pc [PPut; PPosted] (b_threads s) + (cons_at (b_printer s)).1.1 =
             Z.of_nat (length log - g))%Z;
  bi_empty : (b_empty s + at_pc [PEmpty; PMutex] (b_threads s) + Z.of_nat (length log - g) +
              (cons_at (b_printer s)).2 = cap)%Z;
  bi_nonneg : (0 ≤ b_mutex s ∧ 0 ≤ b_full s ∧ 0 ≤ b_empty s)%Z;
  bi_out : b_out s = filter (λ x, x ≠ exitchild) (take g log);
}.

Lemma advance_mod N n : 0 < N → advance N (n mod N) = S n mod N.
Proof.
  intros HN. unfold advance. pose proof (Nat.mod_upper_bound n N ltac:(lia)) as Hb.
  rewrite <- (Nat.add_1_r n), Nat.Div0.add_mod.
  case_decide as H.
  - destruct (decide (N = 1)) as [->|]; [by rewrite !Nat.mod_1_r|].
    rewrite (Nat.mod_small 1) by lia. rewrite Nat.add_1_r, H. by rewrite Nat.Div0.mod_same.
  - rewrite (Nat.mod_small 1) by lia. by rewrite Nat.add_1_r, (Nat.mod_small (S (n mod N))) by lia.
Qed.

(** Positions less than [N] apart are in different slots. *)
Lemma slot_ne N j n : 0 < N → j < n → n - j < N → j mod N ≠ n mod N.
Proof.
  intros HN Hj Hn E.
  pose proof (Nat.div_mod_eq j N) as Dj. pose proof (Nat.div_mod_eq n N) as Dn.
  rewrite E in Dj. assert (n - j = N * (n / N - j / N)) by nia.
  destruct (decide (n / N ≤ j / N)); nia.
Qed.

Section invariant.
Context (cap : Z) (N : nat) (HN : 0 < N) (Hcap : (cap ≤ Z.of_nat N)%Z).

Lemma binv_init work : (0 ≤ cap)%Z → binv cap N (b_init cap N work) [] 0.
Proof using HN.
  intros H0.
  assert (Hz : ∀ ps, PReady ∉ ps → at_pc ps ((Thread PReady <$> work) ++ [Thread PReady [exitchild]]) = 0%Z).
  { intros ps Hps. unfold at_pc.
    assert (filter (holding ps) ((Thread PReady <$> work) ++ [Thread PReady [exitchild]]) = []) as ->; [|done].
    assert (Hno : ∀ t, t ∈ (Thread PReady <$> work) ++ [Thread PReady [exitchild]] → ¬ holding ps t).
    { intros t Ht. unfold holding. apply elem_of_app in Ht as [(l & -> & _)%list_elem_of_fmap|
        ->%list_elem_of_singleton]; exact Hps. }
    revert Hno. generalize ((Thread PReady <$> work) ++ [Thread PReady [exitchild]]). clear.
    induction l as [|t l IH]; intros Hno; [done|]. rewrite filter_cons_False by (apply Hno; left).
    apply IH. intros t' ?. apply Hno. by right. }
  constructor; simpl; rewrite ?Hz by (apply (bool_decide_unpack _); by vm_compute); try lia.
  - by rewrite length_replicate.
  - by rewrite Nat.Div0.mod_0_l.
  - by rewrite Nat.Div0.mod_0_l.
  - intros j str _ H. by rewrite lookup_nil in H.
  - done.
Qed.

(** In [getitem] there is something to get, in [put] a free slot. *)
Lemma get_safe b e f m ts out log g :
  binv cap N (BState b e f m ts CMutex out) log g →
  ∃ str, log !! g = Some str ∧
    getitem b = Ok (str, Buf (slots b) (cur_put b) (S g mod N)).
Proof using HN.
  intros [Hl Hp Hg Hle Hs Hm Hf He Hn Ho]. simpl in *.
  pose proof (at_pc_nonneg [PPut; PPosted] ts).
  assert (g < length log) as Hlt by lia.
  destruct (lookup_lt_is_Some_2 log g Hlt) as [str Hstr]. exists str. split; [done|].
  unfold getitem. rewrite Hg, (Hs g str) by done. by rewrite Hl, advance_mod.
Qed.

Lemma put_safe b e f m ts c out log g i t str :
  binv cap N (BState b e f m ts c out) log g → ts !! i = Some t → t_pc t = PMutex →
  length log - g < N ∧
  put str b = Ok (Buf (<[length log mod N:=Some str]> (slots b)) (S (length log) mod N) (cur_get b)).
Proof using HN Hcap.
  intros [Hl Hp Hg Hle Hs Hm Hf He Hn Ho] Hi Ht. simpl in *.
  assert (0 < at_pc [PEmpty; PMutex] ts)%Z.
  { eapply at_pc_pos; [done|]. unfold holding. rewrite Ht. right. left. }
  assert (0 ≤ (cons_at c).2)%Z by (by destruct c).
  split; [lia|]. unfold put. rewrite Hp, Hl, advance_mod by done.
  rewrite decide_True; [done|]. apply Nat.mod_upper_bound. lia.
Qed.

(** Recounts the threads after one has moved. *)
Ltac recount Hi :=
  rewrite ?(at_pc_insert _ _ _ _ _ Hi);
  repeat match goal with
  | |- context [weight ?ps ?t] => let w := eval vm_compute in (weight ps t) in change (weight ps t) with w
  end.

Lemma binv_step s lbl s' log g :
  binv cap N s log g → bstep s lbl s' →
  ∃ g', binv cap N s' (log ++ put_of lbl) g' ∧
    (g' = g ∧ (∀ str, b_printer s' = CGot str → b_printer s = CGot str) ∨ ∃ b e f m ts out str, s = BState b e f m ts CMutex out ∧ b_printer s' = CGot str ∧
                log !! g = Some str ∧ g' = S g).
Proof using HN Hcap.
  intros Hinv Hst. destruct Hst as [i l todo b e f m ts c out Hi Hstart He|i todo b e f m ts c out Hi Hm|
    i l todo b b' e f m ts c out Hi Hput|i todo b e f m ts c out Hi|i todo b e f m ts c out Hi|
    b e f m ts out Hf|b e f m ts out Hm|b str b' e f m ts out Hget|b str e f m ts out|b str e f m ts out];
    cbn [put_of]; rewrite ?app_nil_r.
  - exists g. split; [|left; split; [done|by intros]]. destruct Hinv. constructor; simpl in *; try done; recount Hi; lia.
  - exists g. split; [|left; split; [done|by intros]]. destruct Hinv. constructor; simpl in *; try done; recount Hi; lia.
  - destruct (put_safe _ _ _ _ _ _ _ _ _ _ _ l Hinv Hi eq_refl) as [Hroom E].
    rewrite E in Hput. injection Hput as <-. exists g. split; [|left; split; [done|by intros]].
    destruct Hinv as [Hl Hp Hg Hle Hs Hm Hf He Hn Ho]. simpl in *.
    constructor; simpl; rewrite ?length_app; simpl; rewrite ?Nat.add_1_r; try done; recount Hi; try lia.
    + by rewrite length_insert.
    + intros j str Hj Hstr. destruct (decide (j = length log)) as [->|Hne].
      * rewrite lookup_app_r, Nat.sub_diag in Hstr by lia. injection Hstr as <-.
        apply list_lookup_insert_eq. rewrite Hl. apply Nat.mod_upper_bound. lia.
      * apply lookup_lt_Some in Hstr as Hlt. rewrite length_app in Hlt. simpl in Hlt.
        rewrite lookup_app_l in Hstr by lia. rewrite list_lookup_insert_ne; [by apply Hs|].
        intros E2. by apply (slot_ne N j (length log)); [lia|lia|lia|].
    + rewrite take_app_le by lia. done.
  - exists g. split; [|left; split; [done|by intros]]. destruct Hinv. constructor; simpl in *; try done; recount Hi; lia.
  - exists g. split; [|left; split; [done|by intros]]. destruct Hinv. constructor; simpl in *; try done; recount Hi; lia.
  - exists g. split; [|left; split; [done|by intros]]. destruct Hinv. constructor; simpl in *; try done; lia.
  - exists g. split; [|left; split; [done|by intros]]. destruct Hinv. constructor; simpl in *; try done; lia.
  - destruct (get_safe _ _ _ _ _ _ _ _ Hinv) as (str' & Hstr & E).
    rewrite E in Hget. injection Hget as -> <-. exists (S g).
    split; [|right; by eexists _, _, _, _, _, _, _].
    apply lookup_lt_Some in Hstr as Hlt.
    destruct Hinv as [Hl Hp Hg Hle Hs Hm Hf He Hn Ho]. simpl in *.
    constructor; simpl; try done; try lia.
    + intros j x Hj. apply Hs. lia.
    + rewrite (take_S_r _ _ _ Hstr), filter_app, <- Ho. simpl.
      case_decide as Hx; [rewrite filter_cons_False|rewrite filter_cons_True]; try done; [|tauto].
      by rewrite app_nil_r.
  - exists g. split; [|left; split; [done|by intros]]. destruct Hinv. constructor; simpl in *; try done; lia.
  - exists g. split; [|left; split; [done|by intros ?; case_decide]]. destruct Hinv. case_decide; constructor; simpl in *; try done; lia.
Qed.

Lemma run_binv work log s : (0 ≤ cap)%Z → b_run cap N work log s → ∃ g, binv cap N s log g.
Proof using HN Hcap.
  intros H0. induction 1 as [|log s lbl s' _ [g Hi] Hst]; [exists 0; by apply binv_init|].
  destruct (binv_step _ _ _ _ _ Hi Hst) as (g' & ? & _). by exists g'.
Qed.
End invariant.

(** ** What the threads still have to put *)
Definition todo_of (ts : list thread) : list bytes := concat (t_todo <$> ts).

Lemma todo_insert ts i t t' :
  ts !! i = Some t → t_todo t ++ todo_of (<[i:=t']> ts) ≡ₚ t_todo t' ++ todo_of ts.
Proof.
  intros Hi. rewrite <- (take_drop_middle ts i t Hi) at 2.
  rewrite insert_take_drop by by eapply lookup_lt_Some.
  unfold todo_of. rewrite !fmap_app, !fmap_cons, !concat_app. simpl. solve_Permutation.
Qed.

(** What was put and what is to be put are the lines of [work] and the end mark,
    which is put when nothing else is left. *)
Record tinv (work : list (list bytes)) (s : bstate) (log : list bytes) : Prop := {
  ti_lines : log ++ todo_of (b_threads s) ≡ₚ concat work ++ [exitchild];
  ti_last : ∀ t, last (b_threads s) = Some t →
    (t_todo t = [exitchild] ∧ exitchild ∉ log) ∨ t_todo t = [] ∧ last log = Some exitchild;
  ti_held : ∀ i t, b_threads s !! i = Some t → t_pc t ∈ [PEmpty; PMutex] → t_todo t ≠ [];
  ti_started : ∀ t, last (b_threads s) = Some t → t_pc t ≠ PReady ∨ t_todo t = [] →
    ∀ j t', S j < length (b_threads s) → b_threads s !! j = Some t' → done_thread t';
  ti_others : ∀ j t, S j < length (b_threads s) → b_threads s !! j = Some t → exitchild ∉ t_todo t;
  ti_some : b_threads s ≠ [];
}.

Lemma last_insert (ts : list thread) i t t' tl :
  ts !! i = Some t → last (<[i:=t']> ts) = Some tl →
  (S i = length ts ∧ tl = t' ∧ last ts = Some t) ∨ (S i < length ts ∧ last ts = Some tl).
Proof.
  intros Hi. apply lookup_lt_Some in Hi as Hlt. rewrite !last_lookup, length_insert.
  destruct (decide (S i = length ts)) as [E|Hne].
  - rewrite <- E. simpl. rewrite list_lookup_insert_eq by done. intros [= ->]. by left.
  - rewrite list_lookup_insert_ne by lia. intros ->. right. split; [lia|done].
Qed.

Section tinv.
Context (work : list (list bytes)).

Lemma tinv_init cap N : exitchild ∉ concat work → tinv work (b_init cap N work) [].
Proof.
  intros Hno.
  assert (Hj : ∀ j t, S j < length (b_threads (b_init cap N work)) →
    b_threads (b_init cap N work) !! j = Some t → ∃ l, t = Thread PReady l ∧ l ∈ work).
  { simpl. intros j t Hlt Hj. rewrite length_app, length_fmap in Hlt. simpl in Hlt.
    rewrite lookup_app_l in Hj by (rewrite length_fmap; lia).
    rewrite list_lookup_fmap in Hj. destruct (work !! j) as [l|] eqn:E; [|done].
    injection Hj as <-. exists l. split; [done|]. by eapply list_elem_of_lookup_2. }
  assert (Hlast : ∀ t, last (b_threads (b_init cap N work)) = Some t → t = Thread PReady [exitchild]).
  { simpl. intros t. rewrite last_snoc. by intros [= <-]. }
  constructor.
  - simpl. unfold todo_of. rewrite fmap_app, concat_app. simpl.
    rewrite <- list_fmap_compose. unfold compose. simpl. by rewrite list_fmap_id.
  - intros t ->%Hlast. left. split; [done|]. apply not_elem_of_nil.
  - intros i t Hi Ht. simpl in Hi. apply list_elem_of_lookup_2 in Hi.
    assert (t_pc t = PReady) as E.
    { apply elem_of_app in Hi as [Hi|Hi].
      - by apply list_elem_of_fmap in Hi as (l & -> & _).
      - by apply list_elem_of_singleton in Hi as ->. }
    rewrite E in Ht. set_solver.
  - by intros t ->%Hlast [?|?].
  - intros j t Hlt Hjt. destruct (Hj j t Hlt Hjt) as (l & -> & Hl). simpl. intros He.
    apply Hno, elem_of_concat. by exists l.
  - simpl. by destruct (_ <$> _).
Qed.

(** A thread moves on without putting anything. *)
Lemma tinv_move b e f m ts c out log i t pc b2 e2 f2 m2 c2 out2 :
  tinv work (BState b e f m ts c out) log → ts !! i = Some t → ¬ done_thread t →
  t_pc t ≠ PReady ∨ may_start ts i → (pc ∈ [PEmpty; PMutex] → t_todo t ≠ []) →
  tinv work (BState b2 e2 f2 m2 (<[i:=Thread pc (t_todo t)]> ts) c2 out2) log.
Proof.
  intros [Hl Hla Hh Hs Ho Hn] Hi Hnd Hst Hpc. simpl in *. apply lookup_lt_Some in Hi as Hlt.
  constructor; simpl; rewrite ?length_insert.
  - rewrite <- Hl. f_equiv. apply (Permutation_app_inv_l (t_todo t)).
    rewrite todo_insert by done. done.
  - intros tl Htl. destruct (last_insert _ _ _ _ _ Hi Htl) as [(E & -> & Hlt')|[E Hlt']].
    + by apply (Hla t).
    + by apply Hla.
  - intros j tj Hj Hpj. apply list_lookup_insert_Some in Hj as [(-> & <- & _)|[_ Hj]].
    + by apply Hpc.
    + by apply (Hh j).
  - intros tl Htl Hstart j tj Hjlt Hj.
    destruct (last_insert _ _ _ _ _ Hi Htl) as [(E & -> & Hlt')|[E Hlt']].
    + rewrite list_lookup_insert_ne in Hj by lia. destruct Hst as [Hne|Hms].
      * by apply (Hs t) with j; [|left|..].
      * apply (Hms E j); [lia|done].
    + exfalso. apply Hnd. by apply (Hs tl Hlt' Hstart i).
  - intros j tj Hjlt Hj. apply list_lookup_insert_Some in Hj as [(-> & <- & _)|[_ Hj]].
    + simpl. by apply (Ho j).
    + by apply (Ho j).
  - intros E. apply (f_equal length) in E. rewrite length_insert in E. by destruct ts.
Qed.

Lemma tinv_put b e f m ts c out log i l todo b2 :
  tinv work (BState b e f m ts c out) log → ts !! i = Some (Thread PMutex (l :: todo)) →
  tinv work (BState b2 e f m (<[i:=Thread PPut todo]> ts) c out) (log ++ [l]).
Proof.
  intros [Hl Hla Hh Hs Ho Hn] Hi. simpl in *. apply lookup_lt_Some in Hi as Hlt.
  assert (Hnd : ¬ done_thread (Thread PMutex (l :: todo))) by (by intros [? _]).
  constructor; simpl; rewrite ?length_insert.
  - rewrite <- Hl, <- (assoc (++)). f_equiv. apply (Permutation_app_inv_l todo).
    pose proof (todo_insert ts i _ (Thread PPut todo) Hi) as E. simpl in E.
    rewrite <- E. simpl. rewrite Permutation_middle. done.
  - intros tl Htl. destruct (last_insert _ _ _ _ _ Hi Htl) as [(E & -> & Hlt')|[E Hlt']].
    + right. simpl. destruct (Hla _ Hlt') as [[[= -> ->] _]|[? _]]; [|done].
      split; [done|by rewrite last_snoc].
    + destruct (Hla tl Hlt') as [[Et He]|[Et _]].
      * left. split; [done|]. rewrite not_elem_of_app. split; [done|].
        intros He2%list_elem_of_singleton. apply (Ho i _ E Hi). rewrite He2. left.
      * exfalso. apply Hnd. by apply (Hs tl Hlt' ltac:(by right) i).
  - intros j tj Hj Hpj. apply list_lookup_insert_Some in Hj as [(-> & <- & _)|[_ Hj]].
    + simpl in Hpj. exfalso. revert Hpj. apply (bool_decide_unpack _). by vm_compute.
    + by apply (Hh j).
  - intros tl Htl Hstart j tj Hjlt Hj.
    destruct (last_insert _ _ _ _ _ Hi Htl) as [(E & -> & Hlt')|[E Hlt']].
    + rewrite list_lookup_insert_ne in Hj by lia. by apply (Hs _ Hlt') with j; [left|..].
    + exfalso. apply Hnd. by apply (Hs tl Hlt' Hstart i).
  - intros j tj Hjlt Hj. apply list_lookup_insert_Some in Hj as [(-> & <- & _)|[_ Hj]].
    + simpl. intros ?. apply (Ho j _ Hjlt Hi). by right.
    + by apply (Ho j).
  - intros E. apply (f_equal length) in E. rewrite length_insert in E. by destruct ts.
Qed.

Lemma tinv_step s lbl s' log :
  tinv work s log → bstep s lbl s' → tinv work s' (log ++ put_of lbl).
Proof.
  intros Hinv Hst. destruct Hst; cbn [put_of]; rewrite ?app_nil_r.
  - eapply (tinv_move _ _ _ _ _ _ _ _ _ (Thread _ _)); [done..|by intros [_ ?]|by right|done].
  - eapply (tinv_move _ _ _ _ _ _ _ _ _ (Thread _ _)); [done..|by intros [? _]|by left|].
    intros _. eapply (ti_held _ _ _ Hinv); [done|]. simpl. set_solver.
  - by eapply tinv_put.
  - eapply (tinv_move _ _ _ _ _ _ _ _ _ (Thread _ _)); [done..|by intros [? _]|by left|].
    intros ?; exfalso; set_solver.
  - eapply (tinv_move _ _ _ _ _ _ _ _ _ (Thread _ _)); [done..|by intros [? _]|by left|].
    intros ?; exfalso; set_solver.
  - by destruct Hinv.
  - by destruct Hinv.
  - by destruct Hinv.
  - by destruct Hinv.
  - by destruct Hinv.
Qed.
End tinv.

(** ** The printer and the end mark *)
Definition ending (c : cpc) : Prop := c = CGot exitchild ∨ c = CPosted exitchild ∨ c = CDone.

(** The invariants together: the printer is at its end when the mark was taken. *)
Record sinv (cap : Z) (N : nat) (work : list (list bytes)) (s : bstate) (log : list bytes) (g : nat) : Prop := {
  si_buf : binv cap N s log g;
  si_threads : tinv work s log;
  si_end : ending (b_printer s) ↔ exitchild ∈ take g log;
}.

Section whole.
Context (cap : Z) (N : nat) (work : list (list bytes)).
Context (HN : 0 < N) (Hpos : (0 ≤ cap)%Z) (Hcap : (cap ≤ Z.of_nat N)%Z) (Hwork : exitchild ∉ concat work).

Lemma sinv_init : sinv cap N work (b_init cap N work) [] 0.
Proof using HN Hpos Hwork.
  constructor; [by apply binv_init|by apply tinv_init|].
  simpl. split; [by intros [?|[?|?]]|by intros ?%not_elem_of_nil].
Qed.

(** A step keeps the invariants; only [getitem] takes a string. *)
Lemma sinv_step s lbl s' log g :
  sinv cap N work s log g → bstep s lbl s' →
  ∃ g', sinv cap N work s' (log ++ put_of lbl) g' ∧
    (g' = g ∧ (∀ str, b_printer s' = CGot str → b_printer s = CGot str) ∨
     b_printer s = CMutex ∧ g' = S g ∧ b_threads s' = b_threads s ∧ put_of lbl = [] ∧
     ∃ str, b_printer s' = CGot str).
Proof using HN Hcap.
  intros [Hb Ht He] Hst. destruct (binv_step _ _ HN Hcap _ _ _ _ _ Hb Hst) as (g' & Hb' & Hg).
  pose proof (tinv_step _ _ _ _ _ Ht Hst) as Ht'. pose proof (bi_g _ _ _ _ _ Hb) as Hle.
  assert (Htk : take g (log ++ put_of lbl) = take g log) by by rewrite take_app_le.
  exists g'. destruct Hg as [[-> Hgot]|(b & e & f & m & ts & out & str & -> & Hp & Hstr & ->)].
  - split; [|by left]. constructor; [done..|]. rewrite Htk, <- He.
    destruct Hst; unfold ending; simpl in *; try done; try naive_solver.
    case_decide; naive_solver.
  - apply lookup_lt_Some in Hstr as Hlt. split.
    + constructor; [done..|]. rewrite Hp, take_app_le by lia. rewrite (take_S_r _ _ _ Hstr), elem_of_app.
      rewrite <- He, list_elem_of_singleton. unfold ending. simpl. naive_solver.
    + right. inversion Hst; subst; simpl in *; try done. split_and!; try done. by eexists.
Qed.

Lemma run_sinv log s : b_run cap N work log s → ∃ g, sinv cap N work s log g.
Proof using HN Hpos Hcap Hwork.
  induction 1 as [|log s lbl s' _ [g Hi] Hst]; [exists 0; apply sinv_init|].
  destruct (sinv_step _ _ _ _ _ Hi Hst) as (g' & ? & _). by exists g'.
Qed.

Lemma last_thread s log : tinv work s log → ∃ ts t, b_threads s = ts ++ [t] ∧ last (b_threads s) = Some t.
Proof.
  intros Ht. destruct (b_threads s) as [|t ts _] eqn:E using rev_ind; [by destruct (ti_some _ _ _ Ht)|].
  exists ts, t. by rewrite last_snoc.
Qed.

Lemma todo_nil (ts : list thread) : (∀ j t, ts !! j = Some t → done_thread t) → todo_of ts = [].
Proof.
  induction ts as [|t ts IH]; intros Hd; [done|]. unfold todo_of in *. simpl.
  destruct (Hd 0 t eq_refl) as [_ ->]. apply IH. intros j. apply (Hd (S j)).
Qed.

(** When the mark has been put, it is the last of the strings, and the other strings
    are the lines of [work]. *)
Lemma mark_is_last s log :
  tinv work s log → exitchild ∈ log →
  ∃ log', log = log' ++ [exitchild] ∧ log' ≡ₚ concat work ∧
    ∀ t, t ∈ b_threads s → t_todo t = [].
Proof.
  intros Ht Hin. destruct (last_thread _ _ Ht) as (ts & t & E & Hl).
  destruct (ti_last _ _ _ Ht _ Hl) as [[_ ?]|[Htodo Hlog]]; [done|].
  assert (Hd : ∀ j t', ts !! j = Some t' → done_thread t').
  { intros j t' Hj. apply lookup_lt_Some in Hj as ?.
    eapply (ti_started _ _ _ Ht _ Hl (or_intror Htodo) j); rewrite E, ?length_app; simpl; [lia|].
    by rewrite lookup_app_l. }
  apply last_Some in Hlog as [log' ->]. exists log'. split; [done|]. split.
  - pose proof (ti_lines _ _ _ Ht) as Hp. rewrite E in Hp. unfold todo_of in Hp.
    rewrite fmap_app, concat_app in Hp. fold (todo_of ts) in Hp. rewrite (todo_nil ts Hd) in Hp.
    simpl in Hp. rewrite Htodo, !app_nil_r in Hp. by apply Permutation_app_inv_r in Hp.
  - intros t'. rewrite E. intros [Hin'|Hin']%elem_of_app.
    + apply list_elem_of_lookup in Hin' as [j Hj]. by destruct (Hd _ _ Hj).
    + by apply list_elem_of_singleton in Hin' as ->.
Qed.

(** At the end of the Printer the output is the lines of [work] in some order. *)
Lemma printer_done log s g :
  sinv cap N work s log g → b_printer s = CDone →
  b_out s ≡ₚ concat work ∧ g = length log ∧ ∀ t, t ∈ b_threads s → t_todo t = [].
Proof using HN Hwork.
  intros [Hb Ht He] Hd. assert (Hin : exitchild ∈ take g log).
  { apply He. rewrite Hd. by right; right. }
  assert (exitchild ∈ log) as Hin2.
  { rewrite <- (take_drop g log). apply elem_of_app. by left. }
  destruct (mark_is_last _ _ Ht Hin2) as (log' & -> & Hp & Htodo).
  pose proof (bi_g _ _ _ _ _ Hb) as Hg. rewrite length_app in Hg. simpl in Hg.
  assert (g = length log' + 1) as ->.
  { destruct (decide (g ≤ length log')); [|lia]. rewrite take_app_le in Hin by done.
    exfalso. apply Hwork. rewrite <- Hp, <- (take_drop g log'). apply elem_of_app. by left. }
  split; [|by rewrite length_app].
  rewrite (bi_out _ _ _ _ _ Hb), take_ge by (rewrite length_app; simpl; lia).
  rewrite filter_app, filter_cons_False, filter_nil, app_nil_r by (intros H; by apply H).
  rewrite filter_all; [done|]. intros x Hx ->. apply Hwork. by rewrite <- Hp.
Qed.

(** ** Progress *)
Definition can_step (s : bstate) : Prop := ∃ lbl s', bstep s lbl s'.

Lemma at_pc_inv ps ts : (0 < at_pc ps ts)%Z → ∃ i t, ts !! i = Some t ∧ holding ps t.
Proof using Type.
  unfold at_pc. intros H. destruct (filter (holding ps) ts) as [|t l] eqn:E; [done|].
  assert (t ∈ filter (holding ps) ts) as [Ht Hin]%list_elem_of_filter by (rewrite E; left).
  apply list_elem_of_lookup in Hin as [i Hi]. by exists i, t.
Qed.

(** A thread that is not ready can step, if the mutex is free or it holds it. *)
Lemma thread_steps s log g i t :
  sinv cap N work s log g → b_threads s !! i = Some t → t_pc t ≠ PReady →
  (0 < b_mutex s)%Z ∨ t_pc t ≠ PEmpty → can_step s.
Proof using All.
  intros [Hb Ht _] Hi Hpc Hm. destruct s as [b e f m ts c out], t as [pc todo]. simpl in *.
  destruct pc; try done.
  - destruct Hm as [Hm|?]; [|done]. eexists _, _. by eapply b_wait_mutex.
  - destruct todo as [|l todo].
    { exfalso. eapply (ti_held _ _ _ Ht); [done| |done]. simpl. set_solver. }
    destruct (put_safe _ _ HN Hcap _ _ _ _ _ _ _ _ _ _ _ l Hb Hi eq_refl) as [_ E].
    eexists _, _. by eapply b_put.
  - eexists _, _. by eapply b_post_mutex.
  - eexists _, _. by eapply b_post_full.
Qed.

(** The Printer can step if it has taken something. *)
Lemma printer_steps s log g :
  sinv cap N work s log g → b_printer s ≠ CReady → b_printer s ≠ CDone →
  (0 < b_mutex s)%Z ∨ b_printer s ≠ CFull → can_step s.
Proof using All.
  intros [Hb _ _] Hr Hd Hm. destruct s as [b e f m ts c out]. simpl in *.
  destruct c; try done.
  - destruct Hm as [Hm|?]; [|done]. eexists _, _. by apply c_wait_mutex.
  - destruct (get_safe _ _ HN _ _ _ _ _ _ _ _ Hb) as (str & _ & E). eexists _, _. by eapply c_get.
  - eexists _, _. apply c_post_mutex.
  - eexists _, _. apply c_post_empty.
Qed.

(** With every thread ready, nothing in the buffer and a free slot, a thread can start. *)
Lemma some_thread_starts s log :
  tinv work s log → (∀ i t, b_threads s !! i = Some t → t_pc t = PReady) → exitchild ∉ log →
  (0 < b_empty s)%Z → can_step s.
Proof using All.
  intros Ht Hr Hno He. destruct (last_thread _ _ Ht) as (ts & t & E & Hl).
  destruct (ti_last _ _ _ Ht _ Hl) as [[Htodo _]|[_ Hlog]].
  2: { exfalso. apply Hno. apply last_Some in Hlog as [l' ->]. apply elem_of_app. right. left. }
  destruct s as [b e f m ts' c out]. simpl in *. subst ts'.
  assert (t = Thread PReady [exitchild]) as ->.
  { destruct t as [pc todo]. simpl in Htodo. subst todo. f_equal.
    apply (Hr (length ts) (Thread pc [exitchild])). by rewrite lookup_app_r, Nat.sub_diag. }
  destruct (decide (Exists (λ t, t_todo t ≠ []) ts)) as [Hex|Hall].
  - apply Exists_exists in Hex as (t & Hin & Hne). apply list_elem_of_lookup in Hin as [i Hi].
    apply lookup_lt_Some in Hi as Hlt.
    assert (Hi' : (ts ++ [Thread PReady [exitchild]]) !! i = Some t) by by rewrite lookup_app_l.
    pose proof (Hr i t Hi') as Hpc. destruct t as [pc [|l todo]]; [done|]. simpl in Hpc. subst pc.
    eexists _, _. eapply b_wait_empty; [done| |done]. intros E. rewrite length_app in E. simpl in E. lia.
  - eexists _, _. eapply (b_wait_empty (length ts)); [by rewrite lookup_app_r, Nat.sub_diag| |done].
    intros _ j t Hj Hjt. rewrite lookup_app_l in Hjt by done. split.
    + apply (Hr j t). by rewrite lookup_app_l.
    + destruct (t_todo t) eqn:Et; [done|]. exfalso. apply Hall, Exists_exists. exists t.
      split; [by eapply list_elem_of_lookup_2|by rewrite Et].
Qed.

(** No reachable state is stuck before the end. *)
Lemma progress s log g :
  sinv cap N work s log g → (0 < cap)%Z →
  can_step s ∨ b_printer s = CDone ∧ ∀ t, t ∈ b_threads s → done_thread t.
Proof using All.
  intros Hs Hc. pose proof Hs as [Hb Ht He]. pose proof (bi_mutex _ _ _ _ _ Hb) as Hm.
  destruct (bi_nonneg _ _ _ _ _ Hb) as (Hm0 & Hf0 & _).
  destruct (decide (b_mutex s = 0)%Z) as [Hz|Hnz].
  { left. destruct (decide (0 < at_pc [PMutex; PPut] (b_threads s))%Z) as [Hp|Hp].
    - apply at_pc_inv in Hp as (i & t & Hi & Hh). unfold holding in Hh.
      eapply thread_steps; [done..| |right]; intros E; rewrite E in Hh; set_solver.
    - pose proof (at_pc_nonneg [PMutex; PPut] (b_threads s)).
      eapply printer_steps; [done|..|right]; intros E; rewrite E in Hm; simpl in Hm; lia. }
  assert (0 < b_mutex s)%Z as Hfree by lia.
  destruct (decide (Exists (λ t, t_pc t ≠ PReady) (b_threads s))) as [Hex|Hall].
  { apply Exists_exists in Hex as (t & Hin & Hne). apply list_elem_of_lookup in Hin as [i Hi].
    left. eapply thread_steps; [done..|]. by left. }
  assert (Hr : ∀ t, t ∈ b_threads s → t_pc t = PReady).
  { intros t Hin. destruct (decide (t_pc t = PReady)); [done|]. exfalso. apply Hall, Exists_exists. by exists t. }
  destruct (b_printer s) eqn:Ec; try (left; eapply printer_steps; [done|by rewrite Ec..|by left]).
  - left. destruct (decide (0 < b_full s)%Z) as [Hf|Hf].
    { destruct s. simpl in *. subst. eexists _, _. by apply c_wait_full. }
    assert (Hnone : ∀ ps, PReady ∉ ps → at_pc ps (b_threads s) = 0%Z).
    { intros ps Hps. destruct (decide (0 < at_pc ps (b_threads s))%Z) as [Hp|].
      - apply at_pc_inv in Hp as (i & t & Hi%list_elem_of_lookup_2 & Hh). exfalso. apply Hps.
        by rewrite <- (Hr t Hi).
      - pose proof (at_pc_nonneg ps (b_threads s)). lia. }
    pose proof (bi_full _ _ _ _ _ Hb) as HF. pose proof (bi_empty _ _ _ _ _ Hb) as HE.
    pose proof (bi_g _ _ _ _ _ Hb) as Hg.
    rewrite Hnone in HF, HE by (apply (bool_decide_unpack _); by vm_compute).
    rewrite Ec in HF, HE. simpl in HF, HE.
    eapply some_thread_starts; [done| | |lia].
    + intros i t Hi. apply Hr. by eapply list_elem_of_lookup_2.
    + intros Hin. assert (g = length log) as -> by lia. rewrite firstn_all in He.
      destruct (proj2 He Hin) as [?|[?|?]]; done.
  - right. split; [done|]. intros t Hin. split; [by apply Hr|].
    by destruct (printer_done _ _ _ Hs Ec) as (_ & _ & Htodo); apply Htodo.
Qed.

(** ** Termination *)
Definition t_rank (t : thread) : nat :=
  10 * length (t_todo t) +
  match t_pc t with PReady => 2 | PEmpty => 1 | PMutex => 0 | PPut => 4 | PPosted => 3 end.
Definition c_rank (c : cpc) : nat :=
  match c with CReady => 2 | CFull => 1 | CMutex => 0 | CGot _ => 4 | CPosted _ => 3 | CDone => 2 end.
Definition rank (s : bstate) (waiting : nat) : nat :=
  sum_list (t_rank <$> b_threads s) + 5 * waiting + c_rank (b_printer s).

(** Every step lowers the rank. *)
Lemma rank_step s lbl s' log g :
  sinv cap N work s log g → bstep s lbl s' →
  ∃ g', sinv cap N work s' (log ++ put_of lbl) g' ∧
    rank s' (length (log ++ put_of lbl) - g') < rank s (length log - g).
Proof using All.
  intros Hs Hst. destruct (sinv_step _ _ _ _ _ Hs Hst) as (g' & Hs' & Hg). exists g'. split; [done|].
  pose proof (bi_g _ _ _ _ _ (si_buf _ _ _ _ _ _ Hs)) as Hle.
  pose proof (bi_g _ _ _ _ _ (si_buf _ _ _ _ _ _ Hs')) as Hle'.
  destruct Hg as [[-> Hgot]|(Hc & -> & Hts & Hput & str & Hc')].
  - destruct Hst as [i l todo b e f m ts c out Hi|i todo b e f m ts c out Hi|
      i l todo b b' e f m ts c out Hi|i todo b e f m ts c out Hi|i todo b e f m ts c out Hi|
      |  |b str b' e f m ts out Hget| |]; unfold rank; simpl in *;
      try (pose proof (sum_list_fmap_insert t_rank _ _ _ (Thread PEmpty (l :: todo)) Hi));
      try (pose proof (sum_list_fmap_insert t_rank _ _ _ (Thread PMutex todo) Hi));
      try (pose proof (sum_list_fmap_insert t_rank _ _ _ (Thread PPut todo) Hi));
      try (pose proof (sum_list_fmap_insert t_rank _ _ _ (Thread PPosted todo) Hi));
      try (pose proof (sum_list_fmap_insert t_rank _ _ _ (Thread PReady todo) Hi));
      unfold t_rank in *; simpl in *; rewrite ?length_app in *; simpl in *; try lia.
    + by specialize (Hgot str eq_refl).
    + case_decide; simpl; lia.
  - rewrite Hput, app_nil_r in *. unfold rank. rewrite Hc, Hc', Hts. simpl. lia.
Qed.

Lemma sinv_acc s log g : sinv cap N work s log g → Acc (λ s2 s1, ∃ lbl, bstep s1 lbl s2) s.
Proof using All.
  remember (rank s (length log - g)) as n eqn:En. revert s log g En.
  induction (lt_wf n) as [n _ IH]. intros s log g -> Hs. constructor. intros s2 [lbl Hst].
  destruct (rank_step _ _ _ _ _ Hs Hst) as (g' & Hs2 & Hlt). by eapply (IH _ Hlt).
Qed.
End whole.
