(* ===== verification/BufferRuns.v ===== *)
(** * Runs of the bounded buffer of server-rev1.c

    A scheduler that evaluates the transition system of BoundedBuffer.v, and what its runs come
    to for every BUFFERSIZE. *)

From stdpp Require Import base list relations strings.
From Stdlib Require Import Ascii.
From S2P Require Import Prelude BoundedBuffer.

(** ** A scheduler *)
Definition may_start_b (ts : list thread) (i : nat) : bool :=
  if decide (S i = length ts) then
    forallb (λ t, match t with Thread PReady [] => true | _ => false end) (take i ts)
  else true.

(** The step of thread [i] ([Some i]) or of the Printer ([None]), if it is not blocked. *)
Definition sched_step (who : option nat) (s : bstate) : option (option bytes * bstate) :=
  let '(BState b e f m ts c out) := s in
  match who with
  | Some i =>
    match ts !! i with
    | Some (Thread PReady (l :: todo)) =>
      if may_start_b ts i && (0 <? e)%Z then
        Some (None, BState b (e - 1) f m (<[i:=Thread PEmpty (l :: todo)]> ts) c out) else None
    | Some (Thread PEmpty todo) =>
      if (0 <? m)%Z then Some (None, BState b e f (m - 1) (<[i:=Thread PMutex todo]> ts) c out) else None
    | Some (Thread PMutex (l :: todo)) =>
      match put l b with
      | Ok b' => Some (Some l, BState b' e f m (<[i:=Thread PPut todo]> ts) c out)
      | _ => None
      end
    | Some (Thread PPut todo) => Some (None, BState b e f (m + 1) (<[i:=Thread PPosted todo]> ts) c out)
    | Some (Thread PPosted todo) => Some (None, BState b e (f + 1) m (<[i:=Thread PReady todo]> ts) c out)
    | _ => None
    end
  | None =>
    match c with
    | CReady => if (0 <? f)%Z then Some (None, BState b e (f - 1) m ts CFull out) else None
    | CFull => if (0 <? m)%Z then Some (None, BState b e f (m - 1) ts CMutex out) else None
    | CMutex =>
      match getitem b with
      | Ok (str, b') =>
        Some (None, BState b' e f m ts (CGot str) (if decide (str = exitchild) then out else out ++ [str]))
      | _ => None
      end
    | CGot str => Some (None, BState b e f (m + 1) ts (CPosted str) out)
    | CPosted str => Some (None, BState b (e + 1) f m ts (if decide (str = exitchild) then CDone else CReady) out)
    | CDone => None
    end
  end.

Lemma may_start_b_ok ts i : may_start_b ts i = true → may_start ts i.
Proof.
  unfold may_start_b, may_start. intros H E j t Hj Ht. rewrite decide_True in H by done.
  rewrite forallb_forall in H. specialize (H t).
  assert (In t (take i ts)) as Hin.
  { apply list_elem_of_In. eapply list_elem_of_lookup_2 with j. by rewrite lookup_take_lt. }
  specialize (H Hin). by destruct t as [[] []].
Qed.

Lemma sched_step_ok who s lbl s' : sched_step who s = Some (lbl, s') → bstep s lbl s'.
Proof.
  destruct s as [b e f m ts c out]. unfold sched_step. destruct who as [i|].
  - destruct (ts !! i) as [[[] todo]|] eqn:Hi; try done.
    + destruct todo as [|l todo]; [done|]. destruct (may_start_b ts i) eqn:Hs; [|done].
      destruct (0 <? e)%Z eqn:He; [|done]. intros [= <- <-].
      apply b_wait_empty; [done|by apply may_start_b_ok|lia].
    + destruct (0 <? m)%Z eqn:He; [|done]. intros [= <- <-]. apply b_wait_mutex; [done|lia].
    + destruct todo as [|l todo]; [done|]. destruct (put l b) eqn:Hp; [|done..].
      intros [= <- <-]. by apply b_put.
    + intros [= <- <-]. by apply b_post_mutex.
    + intros [= <- <-]. by apply b_post_full.
  - destruct c; try done.
    + destruct (0 <? f)%Z eqn:He; [|done]. intros [= <- <-]. apply c_wait_full. lia.
    + destruct (0 <? m)%Z eqn:He; [|done]. intros [= <- <-]. apply c_wait_mutex. lia.
    + destruct (getitem b) as [[str b']| | |] eqn:Hg; try done. intros [= <- <-]. by apply c_get.
    + intros [= <- <-]. apply c_post_mutex.
    + intros [= <- <-]. apply c_post_empty.
Qed.

Fixpoint sched (whos : list (option nat)) (log : list bytes) (s : bstate) : option (list bytes * bstate) :=
  match whos with
  | [] => Some (log, s)
  | who :: whos' =>
    match sched_step who s with
    | Some (lbl, s') => sched whos' (log ++ put_of lbl) s'
    | None => None
    end
  end.

Lemma sched_ok cap N work whos log s log' s' :
  b_run cap N work log s → sched whos log s = Some (log', s') → b_run cap N work log' s'.
Proof.
  revert log s. induction whos as [|who whos IH]; intros log s Hr; simpl; [by intros [= <- <-]|].
  destruct (sched_step who s) as [[lbl s2]|] eqn:E; [|done].
  apply IH. eapply run_step; [done|by eapply sched_step_ok].
Qed.

(** At the end nothing can step. *)
Lemma finished_stuck s :
  b_printer s = CDone → (∀ t, t ∈ b_threads s → t = Thread PReady []) → ¬ can_step s.
Proof.
  intros Hd Ht (lbl & s' & Hst).
  destruct Hst as [? ? ? ? ? ? ? ? ? ? Hi|? ? ? ? ? ? ? ? ? Hi|? ? ? ? ? ? ? ? ? ? ? Hi|
    ? ? ? ? ? ? ? ? ? Hi|? ? ? ? ? ? ? ? ? Hi| | | | |]; simpl in *; try done;
    apply list_elem_of_lookup_2 in Hi; by specialize (Ht _ Hi).
Qed.

(** ** The properties *)

(** The strings that wait in the buffer are in their slots. *)
Definition waiting_in (b : buffer) (log : list bytes) (g : nat) : Prop :=
  ∀ j str, g ≤ j → log !! j = Some str → slots b !! (j mod length (slots b)) = Some (Some str).

(** C16: with at most BUFFERSIZE free slots announced, the Printer has always written a prefix
    of what was put, in the order in which it was put; at most one of the threads and the
    Printer is in its critical section; [getitem] finds a string and [put] overwrites none
    that waits. *)
Theorem printer_writes_in_put_order cap N work log s :
  0 < N → (0 ≤ cap ≤ Z.of_nat N)%Z → b_run cap N work log s →
  ∃ g, g ≤ length log ∧ (Z.of_nat (length log - g) ≤ cap)%Z ∧
    b_out s = filter (λ x, x ≠ exitchild) (take g log) ∧
    (at_pc [PMutex; PPut] (b_threads s) + (cons_at (b_printer s)).1.2 ≤ 1)%Z ∧
    (b_printer s = CMutex → ∃ str b', log !! g = Some str ∧ getitem (b_buf s) = Ok (str, b')) ∧
    (∀ i t str, b_threads s !! i = Some t → t_pc t = PMutex →
      ∃ b', put str (b_buf s) = Ok b' ∧ waiting_in b' (log ++ [str]) g).
Proof.
  intros HN [H0 Hcap] Hr. destruct (run_binv cap N HN Hcap _ _ _ H0 Hr) as [g Hb]. exists g.
  split; [exact (bi_g _ _ _ _ _ Hb)|]. destruct s as [b e f m ts c out].
  pose proof (bi_empty _ _ _ _ _ Hb) as HE. pose proof (bi_mutex _ _ _ _ _ Hb) as HM.
  pose proof (bi_nonneg _ _ _ _ _ Hb) as HZ. simpl in HE, HM, HZ.
  assert (0 ≤ (cons_at c).2)%Z by (by destruct c).
  pose proof (at_pc_nonneg [PEmpty; PMutex] ts). split_and!; [lia|by destruct Hb|simpl; lia|..].
  - simpl. intros ->. destruct (get_safe _ _ HN _ _ _ _ _ _ _ _ Hb) as (str & ? & ?). by eexists _, _.
  - simpl. intros i t str Hi Ht.
    destruct (put_safe _ _ HN Hcap _ _ _ _ _ _ _ _ _ _ _ str Hb Hi Ht) as [_ E].
    eexists. split; [exact E|].
    destruct t as [pc todo]. simpl in Ht. subst pc.
    set (ts' := <[i:=Thread PMutex (str :: todo)]> ts).
    assert (Hb' : binv cap N (BState b e f m ts' c out) log g).
    { destruct Hb. subst ts'. constructor; simpl in *; try done; rewrite ?(at_pc_insert _ _ _ _ _ Hi);
        unfold weight in *; simpl in *; lia. }
    assert (Hi' : ts' !! i = Some (Thread PMutex (str :: todo))).
    { apply list_lookup_insert_eq. by eapply lookup_lt_Some. }
    destruct (binv_step cap N HN Hcap _ _ _ _ _ Hb' (b_put _ _ _ _ _ _ _ _ _ _ _ Hi' E))
      as (g' & Hb2 & [[-> _]|(? & ? & ? & ? & ? & ? & ? & [= ] & Hc & _ & _)]).
    + intros j x Hj Hx. pose proof (bi_slots _ _ _ _ _ Hb2 j x Hj Hx) as Hsl. simpl in Hsl.
      simpl. rewrite length_insert. pose proof (bi_len _ _ _ _ _ Hb) as Hl. simpl in Hl. by rewrite Hl.
    + simpl in Hc. congruence.
Qed.

(** C15: with at least one and at most BUFFERSIZE free slots announced, no run goes on for
    ever, and a run that cannot go on has ended: every thread is done and the output is
    the lines of all threads in some order. *)
Theorem all_lines_are_written cap N work log s :
  (0 < cap ≤ Z.of_nat N)%Z → exitchild ∉ concat work → b_run cap N work log s →
  Acc (λ s2 s1, ∃ lbl, bstep s1 lbl s2) s ∧
  (¬ can_step s → b_printer s = CDone ∧ b_out s ≡ₚ concat work ∧ ∀ t, t ∈ b_threads s → done_thread t).
Proof.
  intros Hcap Hno Hr. assert (0 < N) as HN by lia.
  destruct (run_sinv cap N work HN ltac:(lia) ltac:(lia) Hno _ _ Hr) as [g Hs].
  split; [by eapply sinv_acc; [..|exact Hs]; try lia|]. intros Hstuck.
  destruct (progress cap N work HN ltac:(lia) ltac:(lia) Hno _ _ _ Hs ltac:(lia)) as [?|[Hd Ht]]; [done|].
  split_and!; [done| |done]. by destruct (printer_done cap N work HN Hno _ _ _ Hs Hd).
Qed.

Definition xline (i : nat) : bytes := replicate (S i) "x"%char.

(** A child with one thread that puts BUFFERSIZE + 1 lines before the Printer starts. *)
Definition overflowing (N : nat) : list (option nat) :=
  replicate (5 * S N) (Some 0) ++ replicate (5 * S N) None ++ replicate 5 (Some 1) ++ replicate 5 None.

(** C17: ChildsPlay announces 10 free slots whatever BUFFERSIZE is: with a smaller buffer a
    line can be overwritten before it is taken, and the run ends without having written it. *)
Theorem ten_free_slots_lose_lines N :
  0 < N < 10 →
  ∃ work log s l, b_run 10 N work log s ∧ b_printer s = CDone ∧
    (∀ t, t ∈ b_threads s → t_todo t = []) ∧ exitchild ∉ concat work ∧
    l ∈ concat work ∧ l ∉ b_out s.
Proof.
  intros HN. set (work := [xline <$> seq 0 (S N)]).
  assert (∃ log s, sched (overflowing N) [] (b_init 10 N work) = Some (log, s) ∧ b_printer s = CDone ∧
    Forall (λ t, t_todo t = []) (b_threads s) ∧ exitchild ∉ concat work ∧ xline 0 ∉ b_out s)
    as (log & s & Hs & Hd & Hall & Hno & Hl).
  { subst work. do 10 (destruct N as [|N]; [first [lia | eexists _, _; split; [by vm_compute|];
      apply (bool_decide_unpack _); by vm_compute]|]). lia. }
  exists work, log, s, (xline 0). split_and!; try done.
  - eapply sched_ok; [constructor|exact Hs].
  - intros t Ht. by apply (proj1 (Forall_forall _ _) Hall).
  - left.
Qed.

(** ** Witnesses *)
(** One thread with two lines; the Printer has taken the first one. *)
Definition sample_work : list (list bytes) := [[lit "a"; lit "b"]].
Definition sample_run : list (option nat) :=
  replicate 5 (Some 0) ++ replicate 3 None ++ replicate 1 (Some 0) ++ replicate 2 None ++ replicate 1 (Some 0).

Definition whole_run : list (option nat) :=
  replicate 10 (Some 0) ++ replicate 10 None ++ replicate 5 (Some 1) ++ replicate 5 None.

Lemma printer_writes_in_put_order_witness :
  ∃ log s, sched sample_run [] (b_init 2 2 sample_work) = Some (log, s) ∧
    ∃ g, g ≤ length log ∧ (Z.of_nat (length log - g) ≤ 2)%Z ∧
    b_out s = filter (λ x, x ≠ exitchild) (take g log) ∧
    (at_pc [PMutex; PPut] (b_threads s) + (cons_at (b_printer s)).1.2 ≤ 1)%Z ∧
    (b_printer s = CMutex → ∃ str b', log !! g = Some str ∧ getitem (b_buf s) = Ok (str, b')) ∧
    (∀ i t str, b_threads s !! i = Some t → t_pc t = PMutex →
      ∃ b', put str (b_buf s) = Ok b' ∧ waiting_in b' (log ++ [str]) g).
Proof.
  eexists _, _. split; [vm_compute; reflexivity|].
  apply (printer_writes_in_put_order 2 2 sample_work); [lia|lia|].
  apply (sched_ok 2 2 sample_work sample_run [] (b_init 2 2 sample_work)); [constructor|vm_compute; reflexivity].
Defined.

Lemma all_lines_are_written_witness :
  ∃ log s, sched whole_run [] (b_init 2 2 sample_work) = Some (log, s) ∧
    Acc (λ s2 s1, ∃ lbl, bstep s1 lbl s2) s ∧
    (¬ can_step s → b_printer s = CDone ∧ b_out s ≡ₚ concat sample_work ∧
       ∀ t, t ∈ b_threads s → done_thread t).
Proof.
  eexists _, _. split; [vm_compute; reflexivity|].
  eapply (all_lines_are_written 2 2 sample_work); [lia|apply (bool_decide_unpack _); vm_compute; exact I|].
  apply (sched_ok 2 2 sample_work whole_run [] (b_init 2 2 sample_work)); [constructor|vm_compute; reflexivity].
Defined.

Lemma ten_free_slots_lose_lines_witness :
  ∃ work log s l, b_run 10 3 work log s ∧ b_printer s = CDone ∧
    (∀ t, t ∈ b_threads s → t_todo t = []) ∧ exitchild ∉ concat work ∧
    l ∈ concat work ∧ l ∉ b_out s.
Proof. apply (ten_free_slots_lose_lines 3). lia. Defined.
