(* ===== verification/BufExercise.v ===== *)
(** * buffer/buf.c

    The functions of an exercise with a bounded buffer, a producer and consumers. main of the
    file is not C: its call of calloc has a parenthesis too many. *)

From stdpp Require Import base list strings.
From Stdlib Require Import Ascii.
From S2P Require Import Prelude CString Text Numerals BoundedBuffer.

(** The globals: [buffer] is NULL, or an array of [max] pointers to strings. *)
Record globals := Globals {
  bc_buffer : option (list (option bytes)); bc_use : nat; bc_fill : nat; bc_max : Z;
  bc_empty : Z; bc_full : Z; bc_mutex : Z;
}.

Definition entry (value : Z) : bytes := fmt_d value ++ lit ":STRING".
Definition end_entry : bytes := lit "-1:STRING".

Definition set_buffer (arr : list (option bytes)) (use fill : nat) (s : globals) : globals :=
  Globals (Some arr) use fill (bc_max s) (bc_empty s) (bc_full s) (bc_mutex s).

(** [i++; if (i == max) i = 0;] *)
Definition next_slot (max : Z) (i : nat) : nat := if decide (Z.of_nat (S i) = max) then 0 else S i.

Section program.
(** How many characters there are behind each of the pointers. *)
Context (room : nat).

Definition do_fill (value : Z) : M globals unit := λ s,
  match bc_buffer s with
  | None => Ub NullDeref
  | Some arr =>
      match arr !! bc_fill s with
      | None => Ub BadAccess
      | Some None => Ub NullDeref
      | Some (Some _) =>
          if decide (length (entry value) < room) then
            Ok (tt, set_buffer (<[bc_fill s := Some (entry value)]> arr) (bc_use s) (next_slot (bc_max s) (bc_fill s)) s)
          else Ub Overflow
      end
  end.

Definition do_get : M globals bytes := λ s,
  match bc_buffer s with
  | None => Ub NullDeref
  | Some arr =>
      match arr !! bc_use s with
      | None => Ub BadAccess
      | Some None => Ub NullDeref
      | Some (Some tmp) => Ok (tmp, set_buffer arr (next_slot (bc_max s) (bc_use s)) (bc_fill s) s)
      end
  end.

(** The semaphores; a thread that is alone waits for ever. *)
Definition sems (f : Z * Z * Z → option (Z * Z * Z)) : M globals unit := λ s,
  match f (bc_empty s, bc_full s, bc_mutex s) with
  | Some (e, f, m) => Ok (tt, Globals (bc_buffer s) (bc_use s) (bc_fill s) (bc_max s) e f m)
  | None => NoFuel
  end.
Definition down (n : Z) : option Z := if decide (0 < n)%Z then Some (n - 1)%Z else None.
Definition wait_empty : M globals unit := sems (λ '(e, f, m), e' ← down e; Some (e', f, m)).
Definition wait_full : M globals unit := sems (λ '(e, f, m), f' ← down f; Some (e, f', m)).
Definition wait_mutex : M globals unit := sems (λ '(e, f, m), m' ← down m; Some (e, f, m')).
Definition post_empty : M globals unit := sems (λ '(e, f, m), Some (e + 1, f, m)%Z).
Definition post_full : M globals unit := sems (λ '(e, f, m), Some (e, f + 1, m)%Z).
Definition post_mutex : M globals unit := sems (λ '(e, f, m), Some (e, f, m + 1)%Z).

Definition put_entry (value : Z) : M globals unit :=
  wait_empty;; wait_mutex;; do_fill value;; post_mutex;; post_full.

(** The lines it prints. *)
Definition producer (items consumers : Z) : M globals (list bytes) :=
  for_each put_entry (seqZ 0 items);;
  for_each put_entry ((λ _, (-1)%Z) <$> seqZ 0 consumers);;
  mret ((λ i, lit "Producer - Item: " ++ fmt_d i ++ lit " is inserted" ++ ["010"%char]) <$> seqZ 0 items).

(** [tmp] is NULL before the first test of the loop. *)
Definition consumer_body (arg : Z) (st : option bytes * list bytes) : M globals (option bytes * list bytes + list bytes) :=
  let '(tmp, out) := st in
  match tmp with
  | None => fail_ub NullDeref
  | Some text =>
      if decide (text = end_entry) then mret (inr out)
      else
        wait_full;; wait_mutex;;
        tmp ← do_get;
        post_mutex;; post_empty;;
        mret (inl (Some tmp,
          if decide (tmp = end_entry) then out
          else out ++ [lit "Consumer" ++ fmt_d arg ++ lit " - Item: " ++ tmp ++ lit " is extracted." ++ ["010"%char]]))
  end.
Definition consumer (fuel : nat) (arg : Z) : M globals (list bytes) :=
  loop fuel (consumer_body arg) (None, []).

(** A consumer compares NULL with the end mark before it does anything else. *)
Theorem consumer_undefined fuel arg s : consumer (S fuel) arg s = Ub NullDeref.
Proof. done. Qed.

(** Nothing in the file makes [buffer] point anywhere but main, which is not C. *)
Theorem do_fill_without_buffer value s : bc_buffer s = None → do_fill value s = Ub NullDeref ∧ do_get s = Ub NullDeref.
Proof. intros H. unfold do_fill, do_get. by rewrite H. Qed.

(** ** The ring as a queue *)
Inductive bop := OFill (value : Z) | OGet.

Definition run_bop (o : bop) : M globals (list bytes) :=
  match o with OFill v => do_fill v;; mret [] | OGet => tmp ← do_get; mret [tmp] end.

Fixpoint run_bops (os : list bop) : M globals (list bytes) :=
  match os with
  | [] => mret []
  | o :: os' => out ← run_bop o; outs ← run_bops os'; mret (out ++ outs)
  end.

(** A queue with room for [N] entries. *)
Definition queue_bop (N : nat) (o : bop) (q : list bytes) : option (list bytes * list bytes) :=
  match o with
  | OFill v => if decide (length q < N ∧ length (entry v) < room) then Some ([], q ++ [entry v]) else None
  | OGet => match q with [] => None | x :: q' => Some ([x], q') end
  end.

Fixpoint queue_bops (N : nat) (os : list bop) (q : list bytes) : option (list bytes * list bytes) :=
  match os with
  | [] => Some ([], q)
  | o :: os' => '(out, q1) ← queue_bop N o q; '(outs, q2) ← queue_bops N os' q1; Some (out ++ outs, q2)
  end.

(** [log]: all entries that were ever filled in; the first [g] of them have been got. *)
Definition ring (N : nat) (s : globals) (q : list bytes) : Prop :=
  bc_max s = Z.of_nat N ∧ 0 < N ∧
  ∃ arr log g, bc_buffer s = Some arr ∧ length arr = N ∧ Forall is_Some arr ∧
    g ≤ length log ∧ length log - g ≤ N ∧ q = drop g log ∧
    bc_fill s = length log mod N ∧ bc_use s = g mod N ∧
    ∀ j str, g ≤ j → log !! j = Some str → arr !! (j mod N) = Some (Some str).

Lemma next_slot_mod N n : 0 < N → next_slot (Z.of_nat N) (n mod N) = S n mod N.
Proof.
  intros HN. rewrite <- (advance_mod N n HN). unfold next_slot, advance.
  destruct (decide (S (n mod N) = N)); [by rewrite decide_True by lia|by rewrite decide_False by lia].
Qed.

Lemma ring_fill N s q v :
  ring N s q → length q < N → length (entry v) < room →
  ∃ s', do_fill v s = Ok (tt, s') ∧ ring N s' (q ++ [entry v]).
Proof.
  intros (Hmax & HN & arr & log & g & Hb & Hl & Hall & Hg & Hle & -> & Hf & Hu & Hs) Hq Hv.
  rewrite length_drop in Hq. pose proof (Nat.mod_upper_bound (length log) N ltac:(lia)) as Hlt.
  destruct (lookup_lt_is_Some_2 arr (length log mod N) ltac:(lia)) as [[old|] Hold].
  2:{ rewrite Forall_forall in Hall. apply list_elem_of_lookup_2 in Hold. by destruct (Hall _ Hold). }
  eexists. split.
  - unfold do_fill. by rewrite Hb, Hf, Hold, decide_True.
  - split; [done|]. split; [done|]. exists (<[length log mod N := Some (entry v)]> arr), (log ++ [entry v]), g.
    simpl. rewrite length_insert, length_app, drop_app_le, Hmax, next_slot_mod by lia. simpl.
    rewrite Nat.add_1_r. split_and!; try done; try lia.
    + by apply Forall_insert.
    + intros j str Hj Hstr. destruct (decide (j = length log)) as [->|Hne].
      * rewrite lookup_app_r, Nat.sub_diag in Hstr by lia. injection Hstr as <-.
        by rewrite list_lookup_insert_eq by lia.
      * apply lookup_lt_Some in Hstr as Hlj. rewrite length_app in Hlj. simpl in Hlj.
        rewrite lookup_app_l in Hstr by lia. rewrite list_lookup_insert_ne; [by apply Hs|].
        apply not_eq_sym. by apply (slot_ne N j (length log)); lia.
Qed.

Lemma ring_get N s x q : ring N s (x :: q) → ∃ s', do_get s = Ok (x, s') ∧ ring N s' q.
Proof.
  intros (Hmax & HN & arr & log & g & Hb & Hl & Hall & Hg & Hle & Hq & Hf & Hu & Hs).
  assert (Hx : log !! g = Some x).
  { rewrite <- (Nat.add_0_r g), <- lookup_drop, <- Hq. done. }
  apply lookup_lt_Some in Hx as Hlt. eexists. split.
  - unfold do_get. by rewrite Hb, Hu, (Hs g x).
  - split; [done|]. split; [done|]. exists arr, log, (S g). simpl. rewrite Hmax, next_slot_mod by done.
    split_and!; try done; try lia.
    + rewrite (drop_S _ _ _ Hx) in Hq. by injection Hq.
    + intros j str Hj. apply Hs. lia.
Qed.

(** do_fill and do_get on an array of strings are a queue with room for as many entries as the
    array has, in any order. *)
Theorem ring_refines_queue N os s q outs q' :
  ring N s q → queue_bops N os q = Some (outs, q') →
  ∃ s', run_bops os s = Ok (outs, s') ∧ ring N s' q'.
Proof.
  revert s q outs. induction os as [|o os IH]; intros s q outs Hr; simpl; [by intros [= <- <-]; exists s|].
  destruct (queue_bop N o q) as [[out q1]|] eqn:Ho; [|done]. simpl.
  destruct (queue_bops N os q1) as [[outs' q2]|] eqn:Hos; [|done]. simpl. intros [= <- <-].
  assert (∃ s1, run_bop o s = Ok (out, s1) ∧ ring N s1 q1) as (s1 & E1 & Hr1).
  { destruct o as [v|]; simpl in *.
    - case_decide as Hc; [|done]. injection Ho as <- <-. destruct (ring_fill N s q v Hr) as (s1 & E & ?); [tauto..|].
      exists s1. split; [|done]. by erewrite bind_Ok by exact E.
    - destruct q as [|x q]; [done|]. injection Ho as <- <-. destruct (ring_get N s x q Hr) as (s1 & E & ?).
      exists s1. split; [|done]. by erewrite bind_Ok by exact E. }
  destruct (IH s1 q1 outs' Hr1 Hos) as (s2 & E2 & Hr2). exists s2. split; [|done].
  erewrite bind_Ok by exact E1. cbv beta. by erewrite bind_Ok by exact E2.
Qed.
End program.

(** ** Example *)
Definition three_slots : globals := Globals (Some (replicate 3 (Some []))) 0 0 3 3 0 1.

Lemma ring_refines_queue_witness :
  ∃ s', run_bops 32 [OFill 1; OFill 2; OGet; OFill 3; OFill (-1); OGet; OGet; OGet] three_slots =
    Ok (lit <$> ["1:STRING"; "2:STRING"; "3:STRING"; "-1:STRING"]%string, s') ∧ ring 3 s' [].
Proof.
  apply (ring_refines_queue 32 3 _ three_slots []).
  - split; [done|]. split; [lia|]. exists (replicate 3 (Some [])), [], 0. split_and!; try reflexivity; try (simpl; lia).
    + repeat constructor; by eexists.
    + intros j str _ H. by rewrite lookup_nil in H.
  - vm_compute. reflexivity.
Defined.
