(* ===== verification/Printers.v ===== *)
(** * The Printers of all children of server-rev1.c

    Every child has a bounded buffer of its own. Their Printers write to one file, a line
    at a time, under SEMbuf, while the threads of all children go on. The file can be opened. *)

From stdpp Require Import base list relations strings.
From S2P Require Import Prelude OutputLock BoundedBuffer BufferRuns.

(** A child: its buffer, threads and Printer, and where the Printer is in [fileWriter]
    ([Finished]: not in it). *)
Record child := Child { ch_buf : bstate; ch_at : wpc }.

Record pstate := PState { p_sem : Z; p_file : bytes; p_children : list child }.

(** After [getitem] the Printer calls [fileWriter], unless it got the end mark. *)
Definition after_getitem (b b' : bstate) (pc : wpc) : wpc :=
  match b_printer b, b_printer b' with
  | CMutex, CGot str => if decide (str = exitchild) then pc else Waiting
  | _, _ => pc
  end.

(** Everybody's lines are put in their order: what thread [i] has put is a part of what was put. *)
Definition put_in_order (s : bstate) (log : list bytes) (i : nat) (lines : list bytes) : Prop :=
  ∃ t d, b_threads s !! i = Some t ∧ lines = d ++ t_todo t ∧ d `sublist_of` log.

Lemma put_in_order_step s lbl s' log i lines :
  bstep s lbl s' → put_in_order s log i lines → put_in_order s' (log ++ put_of lbl) i lines.
Proof.
  intros Hst (t & d & Hi & -> & Hd).
  assert (Hkeep : ∀ t', b_threads s' !! i = Some t' → t_todo t' = t_todo t →
    put_in_order s' (log ++ put_of lbl) i (d ++ t_todo t)).
  { intros t' Ht' E. exists t', d. split; [done|]. rewrite E. split; [done|]. by apply sublist_inserts_r. }
  destruct Hst as [j l todo b e f m ts c out Hj|j todo b e f m ts c out Hj|
    j l todo b b' e f m ts c out Hj|j todo b e f m ts c out Hj|j todo b e f m ts c out Hj| | | | |];
    try (by apply (Hkeep t)); simpl in *; apply lookup_lt_Some in Hj as Hlt;
    (destruct (decide (i = j)) as [->|Hne];
      [|apply (Hkeep t); [by rewrite list_lookup_insert_ne by (by apply not_eq_sym)|done]]);
    rewrite Hj in Hi; injection Hi as <-; simpl in *;
    try (by eapply Hkeep; [by apply list_lookup_insert_eq|]).
  exists (Thread PPut todo), (d ++ [l]). rewrite <- app_assoc. split; [by apply list_lookup_insert_eq|].
  split; [done|]. by apply sublist_app.
Qed.

Lemma lines_put_in_order cap N work log s i lines :
  b_run cap N work log s → work !! i = Some lines → put_in_order s log i lines.
Proof.
  intros Hr Hi. induction Hr as [|log s lbl s' _ IH Hst].
  - exists (Thread PReady lines), []. split; [|split; [done|apply sublist_nil_l]].
    simpl. rewrite lookup_app_l by (rewrite length_fmap; by eapply lookup_lt_Some).
    by rewrite list_lookup_fmap, Hi.
  - by eapply put_in_order_step.
Qed.

(** In the end the Printer has written them in their order. *)
Lemma child_writes_in_order cap N work log s lines :
  (0 < cap ≤ Z.of_nat N)%Z → exitchild ∉ concat work → b_run cap N work log s → b_printer s = CDone →
  lines ∈ work → lines `sublist_of` b_out s.
Proof.
  intros Hcap Hno Hr Hd Hin. apply list_elem_of_lookup in Hin as [i Hi].
  destruct (run_sinv cap N work ltac:(lia) ltac:(lia) ltac:(lia) Hno _ _ Hr) as [g Hs].
  destruct (printer_done cap N work ltac:(lia) Hno _ _ _ Hs Hd) as (_ & -> & Htodo).
  destruct (lines_put_in_order _ _ _ _ _ _ _ Hr Hi) as (t & d & Ht & -> & Hsub).
  assert (t_todo t = []) as E by by eapply Htodo, list_elem_of_lookup_2.
  rewrite E, app_nil_r in Hi |- *.
  rewrite (bi_out _ _ _ _ _ (si_buf _ _ _ _ _ _ Hs)), firstn_all.
  rewrite <- (filter_all (λ x, x ≠ exitchild) d); [by apply filter_sublist|].
  intros x Hx ->. apply Hno, elem_of_concat. exists d. split; [done|]. by eapply list_elem_of_lookup_2.
Qed.

Section printers.
Context (cap : Z) (N : nat) (works : list (list (list bytes))) (out0 : bytes).

(** A step of a child at its buffer, where the Printer stays if it is in [fileWriter]; or a
    step of a Printer in [fileWriter]. *)
Inductive pstep : pstate → pstate → Prop :=
  | p_buffer k b lbl b' pc sem out cs :
      cs !! k = Some (Child b pc) → bstep b lbl b' →
      pc = Finished ∨ b_printer b' = b_printer b →
      pstep (PState sem out cs) (PState sem out (<[k:=Child b' (after_getitem b b' pc)]> cs))
  | p_waits k b str sem out cs :
      cs !! k = Some (Child b Waiting) → b_printer b = CGot str → (0 < sem)%Z →
      pstep (PState sem out cs) (PState (sem - 1) out (<[k:=Child b (Writing str)]> cs))
  | p_fprintf k b c rest sem out cs :
      cs !! k = Some (Child b (Writing (c ++ rest))) → c ≠ [] →
      pstep (PState sem out cs) (PState sem (out ++ c) (<[k:=Child b (Writing rest)]> cs))
  | p_fclose k b sem out cs :
      cs !! k = Some (Child b (Writing [])) →
      pstep (PState sem out cs) (PState sem out (<[k:=Child b Closed]> cs))
  | p_signals k b sem out cs :
      cs !! k = Some (Child b Closed) →
      pstep (PState sem out cs) (PState (sem + 1) out (<[k:=Child b Finished]> cs)).

Definition p_init : pstate :=
  PState 1 out0 ((λ work, Child (b_init cap N work) Finished) <$> works).

(** ** The invariant *)

(** The lines of child [k] among those that were written. *)
Definition lines_of (k : nat) (order : list (nat * bytes)) : list bytes := by_key k order.

(** What the Printer of child [k] has taken, and what of it is in the file; [cur]: who holds
    SEMbuf, and what it has written of its line. *)
Definition child_at (k : nat) (c : child) (order : list (nat * bytes)) (cur : option (nat * bytes)) : Prop :=
  match ch_at c with
  | Finished => b_out (ch_buf c) = lines_of k order ∧ fst <$> cur ≠ Some k
  | Waiting => ∃ str, b_printer (ch_buf c) = CGot str ∧ b_out (ch_buf c) = lines_of k order ++ [str] ∧
                 fst <$> cur ≠ Some k
  | Writing rest => ∃ w, cur = Some (k, w) ∧ b_printer (ch_buf c) = CGot (w ++ rest) ∧
                      b_out (ch_buf c) = lines_of k order ++ [w ++ rest]
  | Closed => ∃ w, cur = Some (k, w) ∧ b_printer (ch_buf c) = CGot w ∧ b_out (ch_buf c) = lines_of k order ++ [w]
  end.

Record pinv (s : pstate) (order : list (nat * bytes)) (cur : option (nat * bytes)) : Prop := {
  pi_sem : p_sem s = (match cur with Some _ => 0 | None => 1 end)%Z;
  pi_file : p_file s = out0 ++ mjoin order.*2 ++ default [] (snd <$> cur);
  pi_known : Forall (λ p, p.1 < length (p_children s)) order;
  pi_cur : ∀ k w, cur = Some (k, w) → is_Some (p_children s !! k);
  pi_runs : Forall2 (λ work c, ∃ log, b_run cap N work log (ch_buf c)) works (p_children s);
  pi_at : ∀ k c, p_children s !! k = Some c → child_at k c order cur;
}.

Lemma pinv_init : pinv p_init [] None.
Proof.
  constructor; simpl; try done.
  - by rewrite app_nil_r.
  - apply Forall2_fmap_r, Forall_Forall2_diag, Forall_forall. intros work _. exists []. constructor.
  - intros k c Hk. rewrite list_lookup_fmap in Hk. destruct (works !! k); [|done]. by injection Hk as <-.
Qed.

(** Nobody but [k] holds SEMbuf. *)
Definition only (k : nat) (cur : option (nat * bytes)) : Prop := ∀ j w, cur = Some (j, w) → j = k.

Lemma only_other k j cur : only k cur → j ≠ k → fst <$> cur ≠ Some j.
Proof. intros Ho Hj. destruct cur as [[i w]|]; [|done]. intros [= ->]. by apply Hj, (Ho j w). Qed.

(** The lines of all children, sorted by child. *)
Lemma lines_by_child (order : list (nat * bytes)) n :
  Forall (λ p, p.1 < n) order → order.*2 ≡ₚ concat ((λ k, lines_of k order) <$> seq 0 n).
Proof.
  revert order. induction n as [|n IH]; intros order Ho.
  - destruct order as [|p order]; [done|]. apply Forall_cons in Ho as [Hp _]. lia.
  - rewrite seq_S, fmap_app, concat_app. simpl. rewrite app_nil_r.
    rewrite <- (filter_app_complement (λ p, p.1 ≠ n) order) at 1. rewrite fmap_app. f_equiv.
    + rewrite IH.
      2:{ apply Forall_forall. intros p [Hp Hin]%list_elem_of_filter. rewrite Forall_forall in Ho.
          specialize (Ho p Hin). lia. }
      apply reflexive_eq. f_equal. apply list_fmap_ext. intros i k Hk. apply lookup_seq in Hk as [-> Hk].
      unfold lines_of, by_key. rewrite list_filter_filter_l; [done|]. intros p ->. simpl. lia.
    + apply reflexive_eq. unfold lines_of, by_key. f_equal. apply list_filter_iff. intros p.
      destruct (decide (p.1 = n)); tauto.
Qed.

Lemma lines_of_sublist k order : lines_of k order `sublist_of` order.*2.
Proof.
  induction order as [|p order IH]; [done|]. unfold lines_of, by_key in *. rewrite filter_cons.
  case_decide; simpl; by constructor.
Qed.

(** The others do not notice what [k] does. *)
Lemma child_at_other k j c order cur order' cur' :
  child_at j c order cur → j ≠ k → lines_of j order' = lines_of j order →
  cur' = cur ∨ only k cur ∧ only k cur' → child_at j c order' cur'.
Proof.
  intros Hc Hj Hl [->|[Ho Ho']]; [unfold child_at in *; by rewrite Hl|].
  pose proof (only_other _ _ _ Ho' Hj) as Hne. unfold child_at in *. rewrite Hl.
  destruct (ch_at c).
  - destruct Hc as (str & ? & ? & _). by exists str.
  - destruct Hc as (w & -> & _). by destruct Hj; apply (Ho j w).
  - destruct Hc as (w & -> & _). by destruct Hj; apply (Ho j w).
  - by destruct Hc.
Qed.

(** One child moves. *)
Lemma pinv_move sem out cs order cur k c c' sem' out' order' cur' :
  pinv (PState sem out cs) order cur → cs !! k = Some c →
  sem' = (match cur' with Some _ => 0 | None => 1 end)%Z → out' = out0 ++ mjoin order'.*2 ++ default [] (snd <$> cur') →
  order' = order ∨ (∃ str, order' = order ++ [(k, str)]) →
  cur' = cur ∨ only k cur ∧ only k cur' →
  (∀ work log, b_run cap N work log (ch_buf c) → ∃ log', b_run cap N work log' (ch_buf c')) →
  child_at k c' order' cur' →
  pinv (PState sem' out' (<[k:=c']> cs)) order' cur'.
Proof.
  intros [Hsem Hfile Hkn Hcur Hrun Hat] Hk -> -> Hord Hcu Hr Hc. simpl in *.
  apply lookup_lt_Some in Hk as Hlt. constructor; simpl; try done.
  - rewrite length_insert. destruct Hord as [->|[str ->]]; [done|].
    apply Forall_app. split; [done|]. by apply Forall_singleton.
  - intros j w E. destruct (decide (j = k)) as [->|Hj]; [rewrite list_lookup_insert_eq by done; by eexists|].
    rewrite list_lookup_insert_ne by done. destruct Hcu as [->|[_ Ho]]; [by eapply Hcur|].
    by destruct Hj; apply (Ho j w).
  - destruct (Forall2_lookup_r _ _ _ _ _ Hrun Hk) as (work & Hw & log & Hlog).
    rewrite <- (list_insert_id _ _ _ Hw). apply Forall2_insert; [done|]. by eapply Hr.
  - intros j cj Hj. apply list_lookup_insert_Some in Hj as [(-> & <- & _)|[Hne Hj]]; [done|].
    eapply child_at_other; [by apply Hat|by apply not_eq_sym| |done].
    destruct Hord as [->|[str ->]]; [done|]. unfold lines_of; rewrite by_key_snoc, decide_False by done. by rewrite app_nil_r.
Qed.
(** What a step at the buffer means for the Printer: nothing, or a line to write. *)
Lemma buffer_step b lbl b' pc :
  bstep b lbl b' →
  b_out b' = b_out b ∧ after_getitem b b' pc = pc ∨
  ∃ str, b_printer b = CMutex ∧ b_printer b' = CGot str ∧ b_out b' = b_out b ++ [str] ∧
    after_getitem b b' pc = Waiting.
Proof.
  unfold after_getitem. destruct 1; simpl; try (by left; destruct c); try (by left).
  case_decide; [by left|]. right. by exists str.
Qed.

Lemma pinv_step s s' order cur :
  pinv s order cur → pstep s s' → ∃ order' cur', pinv s' order' cur'.
Proof.
  intros Hinv Hst. destruct Hst as [k b lbl b' pc sem out cs Hk Hb Hfree|k b str sem out cs Hk Hp Hs|
    k b c rest sem out cs Hk Hc|k b sem out cs Hk|k b sem out cs Hk];
    pose proof (pi_at _ _ _ Hinv _ _ Hk) as Hat; pose proof (pi_sem _ _ _ Hinv) as Hsem;
    pose proof (pi_file _ _ _ Hinv) as Hfile; simpl in Hsem, Hfile.
  - exists order, cur. eapply pinv_move; [done|done|done|done|by left|by left| |].
    + intros work log Hr. eexists. by eapply run_step.
    + destruct (buffer_step b lbl b' pc Hb) as [[Ho ->]|(str & Hm & Hg & Ho & ->)].
      * unfold child_at in *. simpl in *. rewrite Ho. destruct Hfree as [->|Hp]; [done|]. by rewrite Hp.
      * destruct Hfree as [->|Hp]; [|congruence]. unfold child_at in *. simpl in *.
        exists str. rewrite Ho. by destruct Hat as [-> ?].
  - destruct cur as [[j w]|]; [lia|]. exists order, (Some (k, [])).
    eapply pinv_move; [done|done|simpl; lia|done|by left| |by intros; eexists|].
    + right. split; [by intros j w|]. by intros j w [= <- <-].
    + destruct Hat as (str' & Hp' & Ho & _). simpl in *. exists []. rewrite Hp' in Hp. by injection Hp as ->.
  - destruct Hat as (w & -> & Hp & Ho). exists order, (Some (k, w ++ c)).
    eapply pinv_move; [done|done|done|by rewrite Hfile; simpl; rewrite !app_assoc|by left| |by intros; eexists|].
    + right. split; by intros j ? [= <- <-].
    + exists (w ++ c). simpl in *. by rewrite <- app_assoc.
  - destruct Hat as (w & -> & Hp & Ho). exists order, (Some (k, w)).
    eapply pinv_move; [done|done|done|done|by left|by left|by intros; eexists|].
    exists w. simpl in *. by rewrite app_nil_r in Hp, Ho.
  - destruct Hat as (w & -> & Hp & Ho). exists (order ++ [(k, w)]), None.
    eapply pinv_move; [done|done|simpl in *; lia| |by right; exists w| |by intros; eexists|].
    + rewrite Hfile, fmap_app, mjoin_app. simpl. by rewrite !app_nil_r.
    + right. split; [by intros j ? [= <- <-]|done].
    + unfold child_at. simpl in *. by unfold lines_of; rewrite by_key_snoc, decide_True.
Qed.

Lemma reachable_pinv s : rtc pstep p_init s → ∃ order cur, pinv s order cur.
Proof.
  intros Hr. eapply (rtc_preserves pstep (λ s, ∃ order cur, pinv s order cur)); [|exact Hr|].
  - intros s1 s2 (order & cur & Hi). by eapply pinv_step.
  - exists [], None. exact pinv_init.
Qed.

(** ** Progress *)

(** Each child has come to its end. *)
Definition child_done (c : child) : Prop :=
  ch_at c = Finished ∧ b_printer (ch_buf c) = CDone ∧ ∀ t, t ∈ b_threads (ch_buf c) → done_thread t.

Context (Hcap : (0 < cap ≤ Z.of_nat N)%Z) (Hmark : Forall (λ work, exitchild ∉ concat work) works).

(** Who is in [fileWriter] with SEMbuf can go on. *)
Lemma holder_steps s order k w : pinv s order (Some (k, w)) → ∃ s', pstep s s'.
Proof using.
  intros Hinv. destruct (pi_cur _ _ _ Hinv k w eq_refl) as [[b pc] Hk].
  pose proof (pi_at _ _ _ Hinv _ _ Hk) as Hat. destruct s as [sem out cs]. simpl in *.
  unfold child_at in Hat. simpl in Hat. destruct pc as [|[|c rest]| |].
  - by destruct Hat as (_ & _ & _ & []).
  - eexists. by eapply p_fclose.
  - eexists. by apply (p_fprintf k b [c] rest).
  - eexists. by eapply p_signals.
  - by destruct Hat as [_ []].
Qed.

(** Until all children have come to their end one of the processes can go on. *)
Lemma printers_progress s order cur :
  pinv s order cur → (∃ s', pstep s s') ∨ ∀ c, c ∈ p_children s → child_done c.
Proof using Hcap Hmark.
  intros Hinv. destruct cur as [[k w]|]; [left; by eapply holder_steps|].
  destruct s as [sem out cs]. pose proof (pi_sem _ _ _ Hinv) as Hsem. simpl in Hsem. subst sem.
  apply some_or_all. intros [b pc] Hin. apply list_elem_of_lookup in Hin as [k Hk].
  pose proof (pi_at _ _ _ Hinv _ _ Hk) as Hat. unfold child_at in Hat. simpl in *. destruct pc.
  - destruct Hat as (str & Hp & _). left. eexists. by eapply p_waits.
  - by destruct Hat as (w & ? & _).
  - by destruct Hat as (w & ? & _).
  - destruct (Forall2_lookup_r _ _ _ _ _ (pi_runs _ _ _ Hinv) Hk) as (work & Hw & log & Hr).
    destruct (run_sinv cap N work ltac:(lia) ltac:(lia) ltac:(lia) (Forall_lookup_1 _ _ _ _ Hmark Hw) _ _ Hr) as [g Hs].
    destruct (progress cap N work ltac:(lia) ltac:(lia) ltac:(lia) (Forall_lookup_1 _ _ _ _ Hmark Hw) _ _ _ Hs ltac:(lia))
      as [(lbl & b' & Hst)|[Hd Ht]]; [|by right].
    left. eexists. eapply p_buffer; [done|exact Hst|by left].
Qed.

(** ** Termination *)

(** How many strings wait in the buffer, as the semaphores and the threads say it. *)
Definition waiting_of (b : bstate) : nat :=
  Z.to_nat (b_full b + at_pc [PPut; PPosted] (b_threads b) + (cons_at (b_printer b)).1.1).

Definition buffer_rank (c : child) : nat := rank (ch_buf c) (waiting_of (ch_buf c)).

Definition writer_rank (c : child) : nat :=
  match ch_at c with
  | Waiting => match b_printer (ch_buf c) with CGot str => 3 + length str | _ => 0 end
  | Writing rest => 2 + length rest
  | Closed => 1
  | Finished => 0
  end.

Definition children_rank (f : child → nat) (s : pstate) : nat := sum_list (f <$> p_children s).

Lemma buffer_rank_step work log b lbl b' pc pc' :
  exitchild ∉ concat work → b_run cap N work log b → bstep b lbl b' →
  buffer_rank (Child b' pc') < buffer_rank (Child b pc).
Proof using Hcap.
  intros Hno Hr Hst. assert (0 < N) as HN by lia.
  assert (Hw : ∀ b log g, sinv cap N work b log g → waiting_of b = length log - g).
  { intros b0 log0 g0 [Hb _ _]. unfold waiting_of. rewrite (bi_full _ _ _ _ _ Hb). lia. }
  destruct (run_sinv cap N work HN ltac:(lia) ltac:(lia) Hno _ _ Hr) as [g Hs].
  destruct (rank_step cap N work HN ltac:(lia) ltac:(lia) Hno _ _ _ _ _ Hs Hst) as (g' & Hs' & Hlt).
  unfold buffer_rank. simpl. by rewrite (Hw _ _ _ Hs), (Hw _ _ _ Hs').
Qed.

(** A step lowers the rank of the buffers, or keeps it and lowers that of the Printers. *)
Lemma pstep_rank s s' order cur :
  pinv s order cur → pstep s s' →
  children_rank buffer_rank s' < children_rank buffer_rank s ∨
  children_rank buffer_rank s' = children_rank buffer_rank s ∧
  children_rank writer_rank s' < children_rank writer_rank s.
Proof using Hcap Hmark.
  intros Hinv Hst. unfold children_rank.
  destruct Hst as [k b lbl b' pc sem out cs Hk Hb Hfree|k b str sem out cs Hk Hp Hs|
    k b c rest sem out cs Hk Hc|k b sem out cs Hk|k b sem out cs Hk]; simpl.
  - left. destruct (Forall2_lookup_r _ _ _ _ _ (pi_runs _ _ _ Hinv) Hk) as (work & Hw & log & Hr).
    pose proof (buffer_rank_step work log b lbl b' pc (after_getitem b b' pc)
      (Forall_lookup_1 _ _ _ _ Hmark Hw) Hr Hb) as Hlt.
    pose proof (sum_list_fmap_insert buffer_rank _ _ _ (Child b' (after_getitem b b' pc)) Hk). lia.
  - right. pose proof (sum_list_fmap_insert buffer_rank _ _ _ (Child b (Writing str)) Hk) as E1.
    pose proof (sum_list_fmap_insert writer_rank _ _ _ (Child b (Writing str)) Hk) as E2.
    unfold buffer_rank, writer_rank in *. simpl in *. rewrite Hp in E2. lia.
  - right. pose proof (sum_list_fmap_insert buffer_rank _ _ _ (Child b (Writing rest)) Hk) as E1.
    pose proof (sum_list_fmap_insert writer_rank _ _ _ (Child b (Writing rest)) Hk) as E2.
    unfold buffer_rank, writer_rank in *. simpl in *. rewrite length_app in E2. destruct c; [done|simpl in *; lia].
  - right. pose proof (sum_list_fmap_insert buffer_rank _ _ _ (Child b Closed) Hk) as E1.
    pose proof (sum_list_fmap_insert writer_rank _ _ _ (Child b Closed) Hk) as E2.
    unfold buffer_rank, writer_rank in *. simpl in *. lia.
  - right. pose proof (sum_list_fmap_insert buffer_rank _ _ _ (Child b Finished) Hk) as E1.
    pose proof (sum_list_fmap_insert writer_rank _ _ _ (Child b Finished) Hk) as E2.
    unfold buffer_rank, writer_rank in *. simpl in *. lia.
Qed.

Lemma printers_end s order cur : pinv s order cur → Acc (λ s2 s1, pstep s1 s2) s.
Proof using Hcap Hmark.
  remember (children_rank buffer_rank s) as n eqn:En. revert s order cur En.
  induction (lt_wf n) as [n _ IHn]. intros s order cur En.
  remember (children_rank writer_rank s) as m eqn:Em. revert s order cur En Em.
  induction (lt_wf m) as [m _ IHm]. intros s order cur -> -> Hinv. constructor. intros s2 Hst.
  destruct (pinv_step _ _ _ _ Hinv Hst) as (order' & cur' & Hinv').
  destruct (pstep_rank _ _ _ _ Hinv Hst) as [Hlt|[Heq Hlt]].
  - by eapply (IHn _ Hlt).
  - by eapply (IHm _ Hlt).
Qed.

(** ** The end *)

(** When a child is done, its lines are in the file. *)
Lemma child_done_lines s order cur k work c :
  pinv s order cur → works !! k = Some work → p_children s !! k = Some c → child_done c →
  fst <$> cur ≠ Some k ∧ lines_of k order ≡ₚ concat work ∧
  ∀ lines, lines ∈ work → lines `sublist_of` lines_of k order.
Proof using Hcap Hmark.
  intros Hinv Hw Hc (Hpc & Hd & _).
  pose proof (pi_at _ _ _ Hinv _ _ Hc) as Hat. unfold child_at in Hat. rewrite Hpc in Hat.
  destruct Hat as [Hout Hcur]. rewrite <- Hout.
  destruct (Forall2_lookup_lr _ _ _ _ _ _ (pi_runs _ _ _ Hinv) Hw Hc) as [log Hr].
  pose proof (Forall_lookup_1 _ _ _ _ Hmark Hw) as Hno. split; [done|].
  destruct (run_sinv cap N work ltac:(lia) ltac:(lia) ltac:(lia) Hno _ _ Hr) as [g Hs].
  destruct (printer_done cap N work ltac:(lia) Hno _ _ _ Hs Hd) as (Hperm & _). split; [done|].
  intros lines Hin. exact (child_writes_in_order cap N work log _ lines Hcap Hno Hr Hd Hin).
Qed.

(** When all children are done, the file holds all their lines. *)
Lemma all_done_lines s order cur :
  pinv s order cur → (∀ c, c ∈ p_children s → child_done c) →
  ∃ written,
    p_file s = out0 ++ mjoin written ∧ written ≡ₚ concat (concat works) ∧
    ∀ work lines, work ∈ works → lines ∈ work → lines `sublist_of` written.
Proof using Hcap Hmark.
  intros Hinv Hdone.
  pose proof (pi_runs _ _ _ Hinv) as Hruns. pose proof (Forall2_length _ _ _ Hruns) as Hlen.
  assert (Hall : ∀ k work, works !! k = Some work → fst <$> cur ≠ Some k ∧ lines_of k order ≡ₚ concat work ∧
    ∀ lines, lines ∈ work → lines `sublist_of` lines_of k order).
  { intros k work Hw. destruct (Forall2_lookup_l _ _ _ _ _ Hruns Hw) as (c & Hc & _).
    eapply child_done_lines; [done..|]. by eapply Hdone, list_elem_of_lookup_2. }
  exists order.*2. split_and!.
  - rewrite (pi_file _ _ _ Hinv). destruct cur as [[k w]|]; [|by rewrite app_nil_r].
    destruct (pi_cur _ _ _ Hinv k w eq_refl) as [c Hc].
    destruct (Forall2_lookup_r _ _ _ _ _ Hruns Hc) as (work & Hw & _). by destruct (Hall k work Hw).
  - rewrite (lines_by_child order (length works)) by (rewrite Hlen; exact (pi_known _ _ _ Hinv)).
    rewrite concat_concat. apply concat_perm, Forall2_fmap_r, Forall2_same_length_lookup_2.
    { by rewrite length_fmap, length_seq. }
    intros k ls work Hk Hw. rewrite list_lookup_fmap, lookup_seq_lt in Hk by by eapply lookup_lt_Some.
    injection Hk as <-. by destruct (Hall k work Hw) as (_ & ? & _).
  - intros work lines Hw Hin. apply list_elem_of_lookup in Hw as [k Hk].
    destruct (Hall k work Hk) as (_ & _ & Hsub). etrans; [by apply Hsub|apply lines_of_sublist].
Qed.
End printers.

(** ** A scheduler *)

(** What a child does next: a step at its buffer, or one of the calls of [fileWriter]; a write
    is of [n] characters. *)
Inductive move := MBuffer (who : option nat) | MWaits | MFprintf (n : nat) | MFclose | MSignals.

Definition psched_step (k : nat) (mv : move) (s : pstate) : option pstate :=
  let '(PState sem out cs) := s in
  '(Child b pc) ← cs !! k;
  match mv, pc with
  | MBuffer who, _ =>
      '(_, b') ← sched_step who b;
      if decide (pc = Finished ∨ b_printer b' = b_printer b) then
        Some (PState sem out (<[k:=Child b' (after_getitem b b' pc)]> cs))
      else None
  | MWaits, Waiting =>
      match b_printer b with
      | CGot str => if decide (0 < sem)%Z then Some (PState (sem - 1) out (<[k:=Child b (Writing str)]> cs)) else None
      | _ => None
      end
  | MFprintf n, Writing rest =>
      if decide (take n rest = []) then None
      else Some (PState sem (out ++ take n rest) (<[k:=Child b (Writing (drop n rest))]> cs))
  | MFclose, Writing [] => Some (PState sem out (<[k:=Child b Closed]> cs))
  | MSignals, Closed => Some (PState (sem + 1) out (<[k:=Child b Finished]> cs))
  | _, _ => None
  end.

Lemma psched_step_ok k mv s s' : psched_step k mv s = Some s' → pstep s s'.
Proof.
  destruct s as [sem out cs]. unfold psched_step. destruct (cs !! k) as [[b pc]|] eqn:Hk; [|done].
  simpl. destruct mv as [who| |n| |].
  - destruct (sched_step who b) as [[lbl b']|] eqn:E; [|done]. simpl. case_decide; [|done]. intros [= <-].
    eapply p_buffer; [done| |done]. by eapply sched_step_ok.
  - destruct pc; try done. destruct (b_printer b) eqn:Hp; try done. case_decide; [|done]. intros [= <-].
    by eapply p_waits.
  - destruct pc as [|rest| |]; try done. case_decide; [done|]. intros [= <-].
    eapply p_fprintf; [|done]. by rewrite take_drop.
  - destruct pc as [|[]| |]; try done. intros [= <-]. by apply p_fclose.
  - destruct pc; try done. intros [= <-]. by apply p_signals.
Qed.

Fixpoint psched (ms : list (nat * move)) (s : pstate) : option pstate :=
  match ms with
  | [] => Some s
  | (k, mv) :: ms' => s' ← psched_step k mv s; psched ms' s'
  end.

Lemma psched_ok ms s s' : psched ms s = Some s' → rtc pstep s s'.
Proof.
  revert s. induction ms as [|[k mv] ms IH]; intros s; simpl; [by intros [= <-]; apply rtc_refl|].
  destruct (psched_step k mv s) as [s2|] eqn:E; [|done]. simpl. intros H.
  eapply rtc_l; [by eapply psched_step_ok|by apply IH].
Qed.

(** Thread [i] of child [k] puts a line; the Printer of child [k] takes one and comes to
    [fileWriter]; it writes it, in two pieces; it comes back. *)
Definition puts (k i : nat) : list (nat * move) := replicate 5 (k, MBuffer (Some i)).
Definition takes (k : nat) : list (nat * move) := replicate 3 (k, MBuffer None).
Definition writes (k : nat) : list (nat * move) :=
  [(k, MWaits); (k, MFprintf 1); (k, MFprintf 40); (k, MFclose); (k, MSignals)].
Definition returns (k : nat) : list (nat * move) := replicate 2 (k, MBuffer None).

(** Two children with a thread each; a line of the second comes between those of the first. *)
Definition two_works : list (list (list bytes)) := [[[lit "a1;"; lit "a2;"]]; [[lit "b1;"]]].
Definition two_printers : list (nat * move) :=
  puts 0 0 ++ takes 0 ++ puts 1 0 ++ takes 1 ++ writes 0 ++ returns 0 ++ puts 0 0 ++ writes 1 ++
  takes 0 ++ writes 0 ++ returns 0 ++ returns 1 ++ puts 0 1 ++ takes 0 ++ returns 0 ++
  puts 1 1 ++ takes 1 ++ returns 1.

Lemma lines_of_children_mix :
  ∃ s, psched two_printers (p_init 10 10 two_works []) = Some s ∧ p_file s = lit "a1;b1;a2;" ∧
    (λ c, b_printer (ch_buf c)) <$> p_children s = [CDone; CDone].
Proof. eexists. split; [vm_compute; reflexivity|]. by vm_compute. Qed.
