(* ===== verification/BufferMemory.v ===== *)
(** * The memory of the bounded buffer of server-rev1.c

    [put] stores a copy of its string, [destroyBuffer] frees what is in the buffer at the end. This
    file has the copies as blocks of the heap, and the buffer of BoundedBuffer.v as what they
    hold. *)

From stdpp Require Import base list gmap fin_maps strings.
From S2P Require Import Prelude CMem BoundedBuffer.

(** A string made by strdup, or the array. *)
Inductive bblk := Text (s : bytes) | Array.
Abbreviation BM := (M (heap bblk)).

Record mbuffer := MBuf { m_arr : ptr; m_slots : list ptr; m_put : nat; m_get : nat }.

(** [calloc(BUFFERSIZE, sizeof(String))], with [cur_put] and [cur_get] 0 *)
Definition new_buffer (BUFFERSIZE : nat) : BM mbuffer :=
  p ← malloc Array; mret (MBuf p (replicate BUFFERSIZE None) 0 0).

(** [put(str, buf)] *)
Definition put_copy (str : bytes) (b : mbuffer) : BM mbuffer :=
  p ← malloc (Text str);
  if decide (m_put b < length (m_slots b)) then
    mret (MBuf (m_arr b) (<[m_put b:=p]> (m_slots b)) (advance (length (m_slots b)) (m_put b)) (m_get b))
  else fail_ub BadAccess.

(** [getitem(buf)], and the string that the Printer finds there *)
Definition read_text (p : ptr) : BM bytes :=
  b ← load p; match b with Text s => mret s | Array => fail_ub BadAccess end.
Definition getitem_text (b : mbuffer) : BM (bytes * mbuffer) :=
  match m_slots b !! m_get b with
  | Some p =>
      s ← read_text p;
      mret (s, MBuf (m_arr b) (m_slots b) (m_put b) (advance (length (m_slots b)) (m_get b)))
  | None => fail_ub BadAccess
  end.

(** [destroyBuffer(buffer)] *)
Definition destroyBuffer (b : mbuffer) : BM unit :=
  for_each free (m_slots b);;
  free (m_arr b).

(** ** What the memory holds *)

Definition slot_holds (h : heap bblk) (p : ptr) (x : option bytes) : Prop :=
  match p, x with
  | None, None => True
  | Some l, Some s => cells h !! l = Some (Text s)
  | _, _ => False
  end.

(** The heap is [base], the array, the strings in it, and [lost] strings that nothing points to. *)
Record buffer_rep (base : gmap loc bblk) (lost : nat) (h : heap bblk) (m : mbuffer) (b : buffer) : Prop := {
  br_budget : budget h = None;
  br_arr : ∃ a, m_arr m = Some a ∧ cells h !! a = Some Array ∧ base !! a = None;
  br_slots : Forall2 (slot_holds h) (m_slots m) (slots b);
  br_nodup : NoDup (omap (M:=list) id (m_slots m));
  br_base : base ⊆ cells h ∧ ∀ l, l ∈ omap (M:=list) id (m_slots m) → base !! l = None;
  br_size : size (cells h) = size base + 1 + length (omap (M:=list) id (m_slots m)) + lost;
  br_cur : m_put m = cur_put b ∧ m_get m = cur_get b;
}.

Lemma new_buffer_ok N h :
  budget h = None →
  ∃ m h', new_buffer N h = Ok (m, h') ∧ buffer_rep (cells h) 0 h' m (Buf (replicate N None) 0 0).
Proof.
  intros Hb. pose proof (fresh_loc_fresh h) as Hf. unfold new_buffer. rewrite (bind_Ok _ _ _ _ _ (malloc_ok h Array Hb)).
  eexists _, _. split; [done|].
  assert (E : omap (M:=list) id (replicate N (@None loc)) = []) by (clear; by induction N).
  constructor; simpl; rewrite ?E; try done.
  - exists (fresh_loc h). by rewrite lookup_insert_eq.
  - apply Forall2_replicate. done.
  - constructor.
  - split; [by apply insert_subseteq|]. by intros l ?%elem_of_nil.
  - rewrite map_size_insert_None by done. simpl. lia.
Qed.

(** A slot is given a new string. *)
Lemma set_slot base lost h m b i (s : bytes) l :
  buffer_rep base lost h m b → i < length (slots b) → l = fresh_loc h →
  let lost' := lost + match slots b !! i with Some (Some _) => 1 | _ => 0 end in
  buffer_rep base lost' (hset l (Text s) h)
    (MBuf (m_arr m) (<[i:=Some l]> (m_slots m)) (m_put m) (m_get m))
    (Buf (<[i:=Some s]> (slots b)) (cur_put b) (cur_get b)).
Proof.
  intros [Hb (a & Ha & Hca & Hba) Hs Hn [Hsub Hout] Hsz Hc] Hi El. pose proof (fresh_loc_fresh h) as Hf.
  rewrite <- El in Hf. pose proof (Forall2_length _ _ _ Hs) as Hlen.
  destruct (lookup_lt_is_Some_2 (m_slots m) i ltac:(lia)) as [p Hp].
  destruct (lookup_lt_is_Some_2 (slots b) i Hi) as [x Hx]. pose proof (Forall2_lookup_lr _ _ _ _ _ _ Hs Hp Hx) as Hpx.
  apply list_elem_of_split_length in Hp as (l1 & l2 & E & Hl1).
  assert (Hin : ∀ y, y ∈ omap (M:=list) id (m_slots m) → is_Some (cells h !! y)).
  { intros y (q & Hq & Eq)%list_elem_of_omap. simpl in Eq. subst q. apply list_elem_of_lookup in Hq as [j Hj].
    destruct (Forall2_lookup_l _ _ _ _ _ Hs Hj) as (o & _ & Ho). destruct o; [by eexists|done]. }
  assert (Hnew : l ∉ omap (M:=list) id (m_slots m)) by (intros [? ?]%Hin; congruence).
  assert (Eins : <[i:=Some l]> (m_slots m) = l1 ++ Some l :: l2)
    by by rewrite E, Hl1, insert_app_r_alt, Nat.sub_diag by done.
  assert (Ho : omap (M:=list) id (m_slots m) = omap (M:=list) id l1 ++ omap (M:=list) id (p :: l2)) by by rewrite E, omap_app.
  rewrite Hx. constructor; simpl; rewrite ?Eins, ?omap_app; try done.
  - exists a. split; [done|]. split; [|done]. rewrite lookup_insert_ne; [done|]. intros ->. congruence.
  - rewrite <- Eins. apply Forall2_insert.
    + eapply Forall2_impl; [exact Hs|]. intros [y|] [z|] Hyz; try done. simpl in *.
      rewrite lookup_insert_ne; [done|]. intros <-. congruence.
    + simpl. by rewrite lookup_insert_eq.
  - change (omap (M:=list) id (Some l :: l2)) with (l :: omap (M:=list) id l2).
    rewrite Ho in Hn, Hnew. apply not_elem_of_app in Hnew as [Hn1 Hn2].
    apply NoDup_app in Hn as (Hd1 & Hd & Hd2).
    assert (Hsubl : ∀ y, y ∈ omap (M:=list) id l2 → y ∈ omap (M:=list) id (p :: l2)).
    { intros y Hy. destruct p; [by right|done]. }
    apply NoDup_app. split; [done|]. split.
    + intros y Hy [->|Hy2]%elem_of_cons; [done|]. by apply (Hd y Hy), Hsubl.
    + constructor; [by intros ?%Hsubl|]. destruct p; [by apply NoDup_cons in Hd2 as [_ ?]|done].
  - split; [etrans; [exact Hsub|by apply insert_subseteq]|]. intros y.
    change (omap (M:=list) id (Some l :: l2)) with (l :: omap (M:=list) id l2).
    rewrite elem_of_app, elem_of_cons. intros Hy. destruct (decide (y = l)) as [->|Hne].
    + destruct (base !! l) eqn:Eb; [|done]. by rewrite (lookup_weaken _ _ _ _ Eb Hsub) in Hf.
    + apply Hout. rewrite Ho, elem_of_app. destruct Hy as [?|[?|?]]; [by left|done|right].
      destruct p; [by right|done].
  - rewrite map_size_insert_None by done. rewrite Hsz, Ho, !length_app. destruct p, x; simpl; try done; lia.
Qed.

Lemma put_copy_ok base lost h m b str b' :
  buffer_rep base lost h m b → put str b = Ok b' →
  ∃ m' h', put_copy str m h = Ok (m', h') ∧
    buffer_rep base (lost + match slots b !! cur_put b with Some (Some _) => 1 | _ => 0 end) h' m' b'.
Proof.
  intros Hr. unfold put. case_decide as Hi; [|done]. intros [= <-].
  pose proof Hr as [Hb _ Hs _ _ _ [Hc Hg]]. pose proof (Forall2_length _ _ _ Hs) as Hlen.
  pose proof (set_slot _ _ _ _ _ _ str _ Hr Hi eq_refl) as Hr'.
  eexists _, _. split.
  - unfold put_copy. rewrite (bind_Ok _ _ _ _ _ (malloc_ok h (Text str) Hb)). by rewrite decide_True by lia.
  - destruct Hr' as [? ? ? ? ? ? _]. constructor; simpl in *; rewrite ?Hc; try done. by rewrite Hlen.
Qed.

Lemma getitem_text_ok base lost h m b :
  buffer_rep base lost h m b →
  match getitem b with
  | Ok (s, b') => ∃ m', getitem_text m h = Ok ((s, m'), h) ∧ buffer_rep base lost h m' b'
  | Ub u => getitem_text m h = Ub u
  | _ => False
  end.
Proof.
  intros [? ? Hs ? ? ? [Hc Hg]]. pose proof (Forall2_length _ _ _ Hs) as Hlen.
  unfold getitem, getitem_text. rewrite Hg.
  destruct (slots b !! cur_get b) as [o|] eqn:Ho.
  - destruct (Forall2_lookup_r _ _ _ _ _ Hs Ho) as (p & Hp & Hpo). rewrite Hp.
    destruct p as [l|], o as [s|]; try done. simpl in Hpo. eexists. split.
    + erewrite bind_Ok; [done|]. unfold read_text. by erewrite bind_Ok by by apply load_ok.
    + constructor; simpl; try done. by rewrite Hlen.
  - apply lookup_ge_None in Ho. by rewrite lookup_ge_None_2 by lia.
Qed.

Lemma free_all_ok ps : ∀ h : heap bblk,
  NoDup (omap (M:=list) id ps) → (∀ l, l ∈ omap (M:=list) id ps → is_Some (cells h !! l)) →
  ∃ h', for_each free ps h = Ok (tt, h') ∧
    (∀ l, l ∉ omap (M:=list) id ps → cells h' !! l = cells h !! l) ∧
    size (cells h) = size (cells h') + length (omap (M:=list) id ps).
Proof.
  induction ps as [|[l|] ps IH]; intros h Hn Hin.
  - exists h. split; [done|]. split; [done|]. simpl. lia.
  - change (omap (M:=list) id (Some l :: ps)) with (l :: omap (M:=list) id ps) in *.
    apply NoDup_cons in Hn as [Hl Hn]. destruct (Hin l ltac:(left)) as [b Hb].
    destruct (IH (hdel l h) Hn) as (h' & H & Hsame & Hsz).
    { intros y Hy. simpl. rewrite lookup_delete_ne by (by intros ->). apply Hin. by right. }
    exists h'. cbn [for_each]. erewrite bind_Ok by by eapply free_ok. split; [exact H|]. split.
    + intros y [Hy1 Hy2]%not_elem_of_cons. rewrite Hsame by done. simpl. by rewrite lookup_delete_ne.
    + simpl in Hsz. rewrite map_size_delete, Hb in Hsz. simpl in *.
      assert (size (cells h) ≠ 0) by (intros E%map_size_empty_inv; by rewrite E in Hb). lia.
  - change (omap (M:=list) id (None :: ps)) with (omap (M:=list) id ps) in *.
    destruct (IH h Hn Hin) as (h' & H & ?). exists h'. split; [|done]. cbn [for_each].
    by erewrite bind_Ok by done.
Qed.

Lemma destroyBuffer_ok base lost h m b :
  buffer_rep base lost h m b →
  ∃ h', destroyBuffer m h = Ok (tt, h') ∧ base ⊆ cells h' ∧ size (cells h') = size base + lost.
Proof.
  intros [Hb (a & Ha & Hca & Hba) Hs Hn [Hsub Hout] Hsz Hc].
  assert (Harr : a ∉ omap (M:=list) id (m_slots m)).
  { intros (q & Hq & Eq)%list_elem_of_omap. simpl in Eq. subst q. apply list_elem_of_lookup in Hq as [j Hj].
    destruct (Forall2_lookup_l _ _ _ _ _ Hs Hj) as ([s|] & _ & Ho); [|done]. simpl in Ho. congruence. }
  destruct (free_all_ok (m_slots m) h Hn) as (h1 & H1 & Hsame & Hsz1).
  { intros y (q & Hq & Eq)%list_elem_of_omap. simpl in Eq. subst q. apply list_elem_of_lookup in Hq as [j Hj].
    destruct (Forall2_lookup_l _ _ _ _ _ Hs Hj) as (o & _ & Ho). destruct o; [by eexists|done]. }
  assert (Ha1 : cells h1 !! a = Some Array) by by rewrite Hsame.
  exists (hdel a h1). split; [|split].
  - unfold destroyBuffer. erewrite bind_Ok by exact H1. cbv beta. rewrite Ha. by eapply free_ok.
  - apply map_subseteq_spec. intros l x Hl. simpl. rewrite lookup_delete_ne by (intros ->; congruence).
    rewrite Hsame; [by eapply lookup_weaken|]. intros Hin%Hout. congruence.
  - simpl. rewrite map_size_delete, Ha1. simpl. lia.
Qed.

(** ** A buffer from its allocation to its end *)
Fixpoint put_copies (strs : list bytes) (b : mbuffer) : BM mbuffer :=
  match strs with [] => mret b | s :: ss => b' ← put_copy s b; put_copies ss b' end.

(** After [j] strings the first [j] slots are in use, and what does not fit is lost. *)
Lemma put_copies_ok base N strs : ∀ j lost h m b,
  0 < N → buffer_rep base lost h m b → length (slots b) = N → cur_put b = j mod N →
  (∀ i, i < N → i < j ↔ ∃ s, slots b !! i = Some (Some s)) → lost = j - N →
  ∃ m' h' b', put_copies strs m h = Ok (m', h') ∧
    buffer_rep base (j + length strs - N) h' m' b'.
Proof.
  induction strs as [|s strs IH]; intros j lost h m b HN Hr Hlen Hc Hu ->.
  - exists m, h, b. split; [done|]. by rewrite Nat.add_0_r.
  - pose proof (Nat.mod_upper_bound j N ltac:(lia)) as Hm.
    destruct (put_copy_ok _ _ _ _ _ s (Buf (<[cur_put b:=Some s]> (slots b))
      (advance (length (slots b)) (cur_put b)) (cur_get b)) Hr) as (m1 & h1 & H1 & Hr1).
    { unfold put. by rewrite decide_True by lia. }
    assert (Elost : j - N + match slots b !! cur_put b with Some (Some _) => 1 | _ => 0 end = S j - N).
    { specialize (Hu (j mod N) Hm). rewrite Hc. destruct (decide (j < N)) as [Hj|Hj].
      - rewrite Nat.mod_small in * by done.
        destruct (slots b !! j) as [[x|]|] eqn:E; try lia.
        exfalso. assert (j < j); [|lia]. apply Hu. by exists x.
      - assert (j mod N < j) as Hlt by lia. apply Hu in Hlt as [x ->]. lia. }
    rewrite Elost in Hr1.
    destruct (IH (S j) (S j - N) h1 m1 _ HN Hr1) as (m' & h' & b' & H2 & Hr2); simpl.
    + by rewrite length_insert.
    + rewrite Hlen, Hc. by apply advance_mod.
    + intros i Hi. destruct (decide (i = j mod N)) as [->|Hne].
      * rewrite Hc, list_lookup_insert_eq by lia. split; [by eauto|]. intros _.
        pose proof (Nat.Div0.mod_le j N). lia.
      * rewrite Hc, list_lookup_insert_ne by done. rewrite <- (Hu i Hi). split; [|lia].
        intros Hij. destruct (decide (i = j)) as [->|]; [|lia]. by rewrite Nat.mod_small in Hne.
    + done.
    + exists m', h', b'. split; [|by rewrite Nat.add_succ_r]. cbn [put_copies].
      by erewrite bind_Ok by exact H1.
Qed.

(** What is put and got, and what the buffer leaves behind: every string that put
    writes over one that was never freed is lost. *)
Theorem buffer_leaks_what_it_overwrites N strs h :
  0 < N → budget h = None →
  ∃ h', (b ← new_buffer N; b ← put_copies strs b; destroyBuffer b) h = Ok (tt, h') ∧
    cells h ⊆ cells h' ∧ size (cells h') = size (cells h) + (length strs - N).
Proof.
  intros HN Hb. destruct (new_buffer_ok N h Hb) as (m & h1 & H1 & Hr1).
  destruct (put_copies_ok _ N strs 0 0 h1 m _ HN Hr1) as (m2 & h2 & b2 & H2 & Hr2).
  - simpl. by rewrite length_replicate.
  - simpl. by rewrite Nat.Div0.mod_0_l.
  - intros i Hi. split; [lia|]. intros [s Hs]. simpl in Hs. by apply lookup_replicate in Hs as [? _].
  - done.
  - destruct (destroyBuffer_ok _ _ _ _ _ Hr2) as (h' & H3 & ? & ?). exists h'. split; [|done].
    erewrite bind_Ok by exact H1. cbv beta. by erewrite bind_Ok by exact H2.
Qed.
