(* ===== verification/Child.v ===== *)
(** * The children of the servers

    [ChildsPlay] from the semaphore of the directory to output.txt: the searches of
    ServerSearch, the buffer of BoundedBuffer and [fileWriter] together. *)

From stdpp Require Import base list sets gmap strings.
From Stdlib Require Import Ascii.
From S2P Require Import Prelude CString Text FileSys Segment FileSearch ReqQueue Client ServerSearch Server Serving BoundedBuffer BufferRuns.

(** ** The whole child *)

Lemma waits_ok id seg rq sems out env v :
  sems !! id = Some v → (0 < v)%Z →
  waits id (Srv seg rq sems out env) = Ok (tt, Srv seg rq (<[id:=(v - 1)%Z]> sems) out env).
Proof.
  intros Hv Hpos. unfold waits, sem_val. erewrite bind_Ok by done. cbv beta. cbn [sv_sems].
  rewrite Hv. simpl. by rewrite decide_True.
Qed.

(** After a wait, the signal gives back what was there. *)
Lemma signals_ok id seg rq sems out env v :
  sems !! id = Some v →
  signals id (Srv seg rq (<[id:=(v - 1)%Z]> sems) out env) = Ok (tt, Srv seg rq sems out env).
Proof.
  intros Hv. unfold signals, sem_val, sem_ini. erewrite bind_Ok by done. cbv beta. simpl.
  rewrite lookup_insert_eq, insert_insert_eq. simpl. replace (v - 1 + 1)%Z with v by lia.
  by rewrite insert_id.
Qed.

Lemma fileWriter_ok blk seg rq sems out env v :
  sems !! SEMbuf = Some v → (0 < v)%Z →
  fileWriter true blk (Srv seg rq sems out env) =
    Ok (tt, Srv seg rq sems (Some (default [] out ++ blk)) env).
Proof.
  intros Hv Hpos. unfold fileWriter. erewrite bind_Ok by by apply waits_ok. cbv beta.
  erewrite bind_Ok by done. cbv beta. cbn [sv_seg sv_rq sv_sems sv_out sv_env]. by apply signals_ok.
Qed.

Lemma fileWriter_all blks seg rq sems out env v :
  sems !! SEMbuf = Some v → (0 < v)%Z →
  for_each (fileWriter true) blks (Srv seg rq sems (Some out) env) =
    Ok (tt, Srv seg rq sems (Some (out ++ mjoin blks)) env).
Proof.
  intros Hv Hpos. revert out. induction blks as [|b blks IH]; intros out; simpl.
  - by rewrite app_nil_r.
  - erewrite bind_Ok by by eapply fileWriter_ok. cbv beta. rewrite IH. simpl. by rewrite <- app_assoc.
Qed.

Lemma run_workers_ok {P A} (worker : P → outcome A) paths rs :
  Forall2 (λ p r, worker p = Ok r) paths rs → run_workers worker paths = Ok rs.
Proof. induction 1 as [|p r ps rs H _ IH]; [done|]. simpl. rewrite H. simpl. by rewrite IH. Qed.

Section whole_child.
Context (ftok : bytes → Z) (fs : fsys) (it : item) (ents : list dirent).
Context (seg : bytes) (rq : nat) (sems : gmap Z Z) (out : bytes) (env : list (list bytes)).
Context (vdir vbuf : Z).
Context (Hdir : fs_dir fs (dirpath it) = Some ents) (Hw : fs_writable fs output_txt = true).
Context (Hlen : Forall (λ p, length p < 1024) (files_of (dirpath it) ents)).
Context (Hn : length (files_of (dirpath it) ents) ≤ 20).
Context (Hsd : sems !! ftok (dirpath it) = Some vdir) (Hpd : (0 < vdir)%Z).
Context (Hsb : sems !! SEMbuf = Some vbuf) (Hpb : (0 < vbuf)%Z).

(** What the threads of the child do after the directory was read. *)
Lemma child_paths {A} (k : list bytes → SV A) sems' :
  sems' !! ftok (dirpath it) = Some vdir →
  (waits (ftok (dirpath it));; paths ← lift (openDir fs (dirpath it)); signals (ftok (dirpath it));; k paths)
    (Srv seg rq sems' (Some out) env) =
  k (files_of (dirpath it) ents) (Srv seg rq sems' (Some out) env).
Proof using Hdir Hlen Hn Hpd.
  intros Hs'. erewrite bind_Ok by by apply waits_ok. cbv beta.
  erewrite bind_Ok.
  2:{ apply lift_Ok. unfold openDir. rewrite Hdir, thread_paths_ok by (done || lia).
      rewrite decide_True; [done|]. simpl. lia. }
  cbv beta. by erewrite bind_Ok by by apply signals_ok.
Qed.

(** C18: a child of server.c appends to output.txt the blocks of all files of its
    directory, each whole, in the order in which the threads get the semaphore, and
    leaves the semaphores and the queue as they were. *)
Theorem child_appends_its_blocks rs turns :
  Forall2 (λ p r, ServerC.search_test fs p (keyword it) = Ok r) (files_of (dirpath it) ents) rs →
  ServerC.ChildsPlay ftok fs turns it (Srv seg rq sems (Some out) env) =
    Ok (1%Z, Srv seg rq sems (Some (out ++ mjoin (turns (omap (M:=list) id rs)))) env).
Proof using All.
  intros Hrs. unfold ServerC.ChildsPlay. etrans; [by apply child_paths|].
  erewrite bind_Ok.
  2:{ apply lift_Ok. by apply run_workers_ok. }
  cbv beta. unfold ServerC.fileWriter. rewrite Hw.
  by erewrite bind_Ok by by eapply fileWriter_all.
Qed.

(** a child of server-rev1.c with a buffer of 10 or more elements appends to
    output.txt the found lines of all files of its directory, each once, whatever
    the order in which the threads and the Printer run. *)
Theorem rev1_child_appends_all_lines lines BUFFERSIZE log s :
  Forall2 (λ p ls, ServerRev1.Worker fs (Item p (keyword it)) = Ok ls) (files_of (dirpath it) ents) lines →
  ftok (dirpath it) ≠ 0%Z → exitchild ∉ concat lines → 10 ≤ BUFFERSIZE →
  b_run 10 BUFFERSIZE lines log s → ¬ can_step s →
  ∃ written, written ≡ₚ concat lines ∧
    ServerRev1.ChildsPlay ftok fs (Z.of_nat BUFFERSIZE) (λ _, b_out s) it (Srv seg rq sems (Some out) env) =
      Ok (1%Z, Srv seg rq (<[0%Z:=1%Z]> sems) (Some (out ++ mjoin written)) env).
Proof using All.
  intros Hrs H0 Hno HN Hrun Hstuck. exists (b_out s). split.
  { assert (0 < BUFFERSIZE) as Hb by lia.
    destruct (run_sinv 10 BUFFERSIZE lines Hb ltac:(lia) ltac:(lia) Hno _ _ Hrun) as [g Hs].
    destruct (progress 10 BUFFERSIZE lines Hb ltac:(lia) ltac:(lia) Hno _ _ _ Hs ltac:(lia)) as [?|[Hd _]]; [done|].
    by destruct (printer_done 10 BUFFERSIZE lines Hb Hno _ _ _ Hs Hd). }
  unfold ServerRev1.ChildsPlay, ServerRev1.sem_ini.
  erewrite bind_Ok by done. cbv beta. erewrite bind_Ok by done. cbv beta.
  erewrite bind_Ok by done. cbv beta. cbn [sv_seg sv_rq sv_sems sv_out sv_env].
  rewrite !insert_insert_eq.
  assert (SEMbuf ≠ 0%Z) as Hb0 by done.
  etrans; [apply child_paths; by rewrite lookup_insert_ne|].
  erewrite bind_Ok.
  2:{ apply lift_Ok. by apply run_workers_ok. }
  cbv beta. unfold ServerRev1.fileWriter. rewrite Hw.
  erewrite bind_Ok; [done|]. eapply fileWriter_all; [by rewrite lookup_insert_ne|done].
Qed.
End whole_child.

(** ** Witnesses *)
Definition demo_sems : gmap Z Z := <[7%Z:=1%Z]> {[SEMbuf:=1%Z]}.
Definition demo_lines : list bytes := [lit "a.c:1:int a" ++ [NL]; lit "a.c:3:an int" ++ [NL]].

Lemma child_appends_its_blocks_witness :
  ServerC.ChildsPlay (λ _, 7%Z) demo_server_fs (λ l, l) (Item (lit "/d") (lit "int"))
      (Srv [] 0 demo_sems (Some (lit "old")) []) =
    Ok (1%Z, Srv [] 0 demo_sems (Some (lit "old" ++ mjoin demo_lines)) []).
Proof.
  refine (eq_trans (child_appends_its_blocks (λ _, 7%Z) demo_server_fs (Item (lit "/d") (lit "int"))
    [Dirent (lit "a.c") 8; Dirent (lit ".x") 8; Dirent (lit "s") 4] [] 0 demo_sems (lit "old") [] 1 1
    _ _ _ _ _ _ _ _ [Some (mjoin demo_lines)] (λ l, l) _) _); try reflexivity; try lia.
  - apply (bool_decide_unpack _). vm_compute. exact I.
  - apply (bool_decide_unpack _). vm_compute. exact I.
  - constructor; [vm_compute; reflexivity|constructor].
Defined.

Lemma rev1_child_appends_all_lines_witness :
  ∃ log s, sched whole_run [] (b_init 10 10 [demo_lines]) = Some (log, s) ∧
  ∃ written, written ≡ₚ concat [demo_lines] ∧
    ServerRev1.ChildsPlay (λ _, 7%Z) demo_server_fs 10 (λ _, b_out s) (Item (lit "/d") (lit "int"))
      (Srv [] 0 demo_sems (Some (lit "old")) []) =
    Ok (1%Z, Srv [] 0 (<[0%Z:=1%Z]> demo_sems) (Some (lit "old" ++ mjoin written)) []).
Proof.
  eexists _, _. split; [vm_compute; reflexivity|].
  refine (rev1_child_appends_all_lines (λ _, 7%Z) demo_server_fs (Item (lit "/d") (lit "int"))
    [Dirent (lit "a.c") 8; Dirent (lit ".x") 8; Dirent (lit "s") 4] [] 0 demo_sems (lit "old") [] 1 1
    _ _ _ _ _ _ _ _ [demo_lines] 10 _ _ _ _ _ _ _ _); try reflexivity; try lia.
  - apply (bool_decide_unpack _). vm_compute. exact I.
  - apply (bool_decide_unpack _). vm_compute. exact I.
  - constructor; [vm_compute; reflexivity|constructor].
  - apply (bool_decide_unpack _). vm_compute. exact I.
  - apply (sched_ok 10 10 [demo_lines] whole_run [] (b_init 10 10 [demo_lines])); [constructor|].
    vm_compute; reflexivity.
  - apply finished_stuck; [reflexivity|]. intros t Ht. set_unfold in Ht. naive_solver.
Defined.
