(* ===== verification/System.v ===== *)
(** * From files of requests to output.txt

    Clients, the main process of server.c, its children and their threads together, under every
    schedule: the processes of Processes.v, with threads that write their blocks as in OutputLock.v. *)

From stdpp Require Import base list sets gmap strings relations.
From Stdlib Require Import Ascii.
From S2P Require Import Prelude CString Text FileSys Segment FileSearch ReqQueue AddSteps MainSteps SharedQueue ClientTurns Processes Client ServerSearch Server Serving OutputLock Child.

(** ** What a child has to write *)

(** The blocks that the threads of a child have for output.txt: [ChildsPlay] up to the writing. *)
Definition child_blocks (fs : fsys) (it : item) : outcome (list bytes) :=
  paths ← ServerC.openDir fs (dirpath it);
  rs ← ServerC.joinThreads (λ p, ServerC.Worker fs (Item p (keyword it))) paths;
  Ok (omap (M:=list) id rs).

(** ** What it is given *)

(** A directory whose files, by name and contents, the threads of a child can search. *)
Record readable (fs : fsys) (it : item) (files : list (bytes * bytes)) : Prop := {
  rd_dir : ∃ ents, fs_dir fs (dirpath it) = Some ents ∧
    files_of (dirpath it) ents = (λ f, join_path (dirpath it) f.1) <$> files;
  rd_count : length files ≤ 20;
  rd_files : Forall (λ f,
    let path := join_path (dirpath it) f.1 in
    fs_dir fs path = None ∧ fs_file fs path = Some f.2 ∧ length path < 1024 ∧ SLASH ∉ f.1 ∧
    short_name f.1 f.2) files;
}.

(** The threads of server.c collect their lines in a buffer. *)
Definition searchable (fs : fsys) (it : item) (files : list (bytes * bytes)) : Prop :=
  readable fs it files ∧
  Forall (λ f, length (mjoin (found_lines f.1 (keyword it) f.2)) < ServerC.result_size) files.

(** One thread per file. *)
Lemma readable_paths fs it files :
  readable fs it files → openDir fs (dirpath it) = Ok ((λ f, join_path (dirpath it) f.1) <$> files).
Proof.
  intros [(ents & Hd & He) Hn Hf]. unfold openDir. rewrite Hd, thread_paths_ok; [|lia|].
  - by rewrite He, length_fmap, decide_True by lia.
  - rewrite He, Forall_fmap. eapply Forall_impl; [exact Hf|]. by intros f (_ & _ & ? & _).
Qed.

(** The block for a file: the lines with the keyword. *)
Definition blocks_of (it : item) (files : list (bytes * bytes)) : list bytes :=
  (λ f, mjoin (found_lines f.1 (keyword it) f.2)) <$> files.

Lemma child_blocks_ok fs it files :
  searchable fs it files → child_blocks fs it = Ok (blocks_of it files).
Proof.
  intros [Hr Hfit]. unfold child_blocks, ServerC.openDir. rewrite (readable_paths _ _ _ Hr).
  change (Ok ?x ≫= ?k) with (k x). cbv beta.
  assert (Hrs : Forall2 (λ p r, ServerC.Worker fs (Item p (keyword it)) = Ok r)
    ((λ f, join_path (dirpath it) f.1) <$> files) (Some <$> blocks_of it files)).
  { unfold blocks_of. rewrite <- list_fmap_compose. apply Forall2_fmap, Forall_Forall2_diag.
    pose proof (proj2 (Forall_and _ _) (conj (rd_files _ _ _ Hr) Hfit)) as Hf. eapply Forall_impl; [exact Hf|].
    intros [name content] ((H1 & H2 & _ & H3 & H4) & H5). simpl in *.
    unfold ServerC.Worker. simpl.
    pose proof (search_test_block fs (dirpath it) name (keyword it) content H1 H2 H3 H4) as Hb.
    cbv zeta in Hb. rewrite decide_True in Hb by done. exact Hb. }
  unfold ServerC.joinThreads. rewrite (run_workers_ok _ _ _ Hrs).
  change (Ok ?x ≫= ?k) with (k x). cbv beta. f_equal.
  clear. induction (blocks_of it files) as [|b bs IH]; [done|]. simpl. by f_equal.
Qed.

(** ** The threads of all children *)

(** The blocks of the children that have created their threads, and where the threads are. *)
Record blocks_state := BState { bs_jobs : list (list bytes); bs_threads : wstate }.

(** A child creates its threads. *)
Definition bs_spawn (blocks : list bytes) (s : blocks_state) : blocks_state :=
  let w := bs_threads s in
  BState (bs_jobs s ++ [blocks]) (WState (w_sem w) (w_out w) (w_pcs w ++ replicate (length blocks) Waiting)).

Inductive bs_step : blocks_state → blocks_state → Prop :=
  | bs_writes jobs w w' : wstep (concat jobs) w w' → bs_step (BState jobs w) (BState jobs w').

(** [joinThreads] of the child that was the [j]-th to create its threads *)
Definition bs_joined (j : nat) (s : blocks_state) : Prop :=
  ∀ i, length (concat (take j (bs_jobs s))) ≤ i < length (concat (take (S j) (bs_jobs s))) →
    w_pcs (bs_threads s) !! i = Some Finished.

#[export] Instance blocks_writers : Writers (list bytes) blocks_state := {
  ws_start := BState [] (w_init [] []);
  ws_spawn := bs_spawn;
  ws_step := bs_step;
  ws_joined := bs_joined;
  ws_file := λ s, w_out (bs_threads s);
}.

Lemma block_of_more blocks more i : i < length blocks → block_of (blocks ++ more) i = block_of blocks i.
Proof. intros Hi. unfold block_of. by rewrite lookup_app_l. Qed.

(** Threads that have not begun do not disturb the others. *)
Lemma wstep_more blocks more s s' :
  length (w_pcs s) = length blocks → wstep blocks s s' →
  length (w_pcs s') = length blocks ∧
  wstep (blocks ++ more) (WState (w_sem s) (w_out s) (w_pcs s ++ replicate (length more) Waiting))
    (WState (w_sem s') (w_out s') (w_pcs s' ++ replicate (length more) Waiting)).
Proof.
  intros Hl Hst. destruct Hst as [i sem out pcs Hi Hs|i sem out pcs c rest Hi Hc|i sem out pcs Hi|i sem out pcs Hi];
    cbn [w_sem w_out w_pcs] in *; pose proof (lookup_lt_Some _ _ _ Hi) as Hlt;
    (split; [by rewrite length_insert|]); rewrite <- insert_app_l by done.
  - rewrite <- (block_of_more blocks more) by lia. apply w_waits; [by apply lookup_app_l_Some|done].
  - eapply w_fprintf; [by apply lookup_app_l_Some|done].
  - eapply w_fclose. by apply lookup_app_l_Some.
  - eapply w_signals. by apply lookup_app_l_Some.
Qed.

Lemma reachable_more blocks more s :
  reachable blocks [] s →
  reachable (blocks ++ more) [] (WState (w_sem s) (w_out s) (w_pcs s ++ replicate (length more) Waiting)).
Proof.
  intros Hr. assert (Hl : length (w_pcs (w_init blocks [])) = length blocks) by apply length_replicate.
  assert (E : w_init (blocks ++ more) [] = WState (w_sem (w_init blocks [])) (w_out (w_init blocks []))
    (w_pcs (w_init blocks []) ++ replicate (length more) Waiting)).
  { unfold w_init. cbn. by rewrite length_app, replicate_add. }
  unfold reachable in *. rewrite E. clear E. revert Hl. induction Hr as [w|w1 w2 w3 Hst _ IH]; intros Hl; [apply rtc_refl|].
  destruct (wstep_more blocks more _ _ Hl Hst) as [Hl' Hst']. eapply rtc_l; [exact Hst'|by apply IH].
Qed.

Lemma run_reachable jobs s :
  threads_run jobs s → bs_jobs s = jobs ∧ reachable (concat jobs) [] (bs_threads s).
Proof.
  induction 1 as [|js w j _ [Hj IH]|js w w' _ [Hj IH] Hst].
  - split; [done|]. apply rtc_refl.
  - split; [cbn; by rewrite Hj|]. rewrite concat_app. cbn. rewrite app_nil_r. by apply reachable_more.
  - destruct Hst as [jobs w1 w2 Hst]. cbn in *. subst. split; [done|]. by eapply rtc_r.
Qed.

Lemma bs_ends jobs w : Acc (λ s2 s1, bs_step s1 s2) (BState jobs w).
Proof.
  induction (writers_end (concat jobs) w) as [w _ IH]. constructor. intros s Hst. inversion Hst; subst. by apply IH.
Qed.

Definition all_blocks (jobs : list (list bytes)) (out : bytes) : Prop :=
  ∃ written, written ≡ₚ concat jobs ∧ out = mjoin written.

#[export] Instance blocks_writers_ok : WritersOk (J := list bytes) (W := blocks_state) (λ _, True) all_blocks.
Proof.
  constructor.
  - intros js [jobs w] _ _. apply bs_ends.
  - intros js [jobs w] _ Hw. destruct (run_reachable _ _ Hw) as [E Hr]. cbn in E, Hr. subst jobs.
    destruct (writers_progress _ _ _ Hr) as [[w' Hst]|Hall]; [left; by eexists; constructor|right].
    destruct (reachable_winv _ _ _ Hr) as (order & cur & [Hlen _ _ _ _ _]).
    split.
    + intros j Hj i [_ Hi]. cbn in *.
      destruct (lookup_lt_is_Some_2 (w_pcs w) i) as [pc Hpc]; [|by rewrite Hpc, (Hall i pc Hpc)].
      rewrite Hlen, <- (take_drop (S j) js), concat_app, length_app. lia.
    + destruct (finished_output _ _ _ Hr Hall) as (o & Ho & Hout). exists (block_of (concat js) <$> o).
      split; [|exact Hout]. rewrite Ho. apply reflexive_eq, fmap_lookup_seq.
  - intros js js' out Hp (written & Hw & ->). exists written. split; [|done]. by rewrite Hw, Hp.
Qed.

(** ** The whole *)

(** The blocks of a request, by the contents of the directories. *)
Lemma jobs_of_items {J} (job_of : item → outcome J) (f : item → J) its jobs :
  Forall2 (λ it j, job_of it = Ok j) its jobs → (∀ it, it ∈ its → job_of it = Ok (f it)) → jobs = f <$> its.
Proof.
  induction 1 as [|it j its jobs E _ IH]; intros Hf; [done|]. rewrite fmap_cons, <- IH.
  - specialize (Hf it ltac:(left)). congruence.
  - intros x Hx. apply Hf. by right.
Qed.

(** C13: clients that read files of requests (where malloc gives the block of every request the byte for
    its NUL), or send "exit", and a server (main of server.c, after
    it has made the queue) that serves them with children and threads, under every schedule of
    all processes and threads, and whatever malloc leaves in new memory. The clients' requests fit in the
    segment; each has "exit" in it, or can be taken and names a directory whose files can be searched. Then
    every client gives AddReq its requests in their order; a child is forked for
    each item that the server takes, and these are the first of what the clients have put, client by client;
    the children and threads cannot go on for ever; when none of them can
    go on every child has ended, and output.txt holds, for every file of the
    directory of each child that did its work, the lines with its keyword, with the
    file's name and their numbers: every such block once and whole, in some order. A child ends without work
    only if it sees "exit", which is in a request or appears while the header of the queue moves. When no process can go
    on, every client has ended, or waits for SEMrq after the end of the server (SEM_UNDO); the server has ended, or
    reads what is not its (charcount behind the segment, strdup behind a copy). *)
Theorem requests_to_output ftok junk usable fs files argss scripts n g :
  Forall2 (λ args script, client_script usable false (λ z, Ok z) fs args = Ok script) argss scripts →
  Forall acceptable (mjoin scripts) → 17 + used (mjoin scripts) < n →
  (∀ it, request it ∈ mjoin scripts → no_exit (request it) → SP ∉ dirpath it →
    searchable fs it (files (dirpath it))) →
  rtc (gstep junk ftok (child_blocks fs)) (g_init scripts n) g →
  let m := g_turns g in
  Forall2 (λ args script, ∃ left, ∀ s, ClientC.main usable fs args s =
    (Client.waits;; on_seg (for_each AddReq script);; Client.signals;; mret (0%Z, left)) s) argss scripts ∧
  k_item <$> g_kids g = ms_taken m ∧
  (∃ fin b rest, NoDup fin ∧ (∀ i, i ∈ fin ↔ ms_clients m !! i = Some CDone) ∧
    mjoin (script_of scripts <$> fin) ++ b = (request <$> ms_taken m) ++ rest ∧
    (b = [] ∨ ∃ i, i ∉ fin ∧ b `prefix_of` script_of scripts i) ∧
    ((∀ i p, ms_clients m !! i = Some p → p = CDone) → b = [] ∧ fin ≡ₚ seq 0 (length scripts) ∧
      (polling (ms_server m) → ∃ k room, ms_seg m = layout k rest room))) ∧
  Acc (λ g2 g1, kstep ftok (child_blocks fs) g1 g2) g ∧
  ((∀ g', ¬ kstep ftok (child_blocks fs) g g') → (∀ k, k ∈ g_kids g → ended k) ∧
    ∃ written, written ≡ₚ concat ((λ it, blocks_of it (files (dirpath it))) <$> worked g) ∧
      ws_file (g_out g) = mjoin written) ∧
  (∀ g' i k k', gstep junk ftok (child_blocks fs) g g' → g_kids g !! i = Some k → g_kids g' !! i = Some k' →
    k_pc k ≠ KGone → k_pc k' = KGone →
    Exists (occurs exit_word) (mjoin scripts) ∨ moving (ms_server m)) ∧
  ((∀ g', ¬ gstep junk ftok (child_blocks fs) g g') →
    (∀ i p, ms_clients m !! i = Some p → p = CDone ∨ g_over g = true ∧ ∃ s, p = CWaits s) ∧
    (g_over g = true ∨ misreads junk n (ms_rq m) (ms_server m) ∧
      main_step junk (ms_rq m) (ms_server m) (ms_seg m) = Ub BadAccess)).
Proof.
  intros Hargs Hacc Hroom Hfiles Hr m.
  assert (Hjobs : ∀ it, request it ∈ mjoin scripts → no_exit (request it) → SP ∉ dirpath it →
    ∃ j, child_blocks fs it = Ok j ∧ True).
  { intros it H1 H2 H3. eexists. split; [by eapply child_blocks_ok, Hfiles|done]. }
  destruct (processes_run junk ftok (child_blocks fs) scripts n (λ _, True) all_blocks Hacc Hroom Hjobs g Hr)
    as (H1 & H2 & H3 & H4 & H5 & H6).
  split; [eapply Forall2_impl; [exact Hargs|]; intros args script; apply client_runs_script|].
  split; [exact H1|]. split; [exact H2|]. split; [exact H3|]. split; [|split; [exact H5|exact H6]].
  intros Hno. destruct (H4 Hno) as (Hall & jobs & Hf & Hres). split; [exact Hall|].
  rewrite <- (jobs_of_items _ _ _ _ Hf); [exact Hres|]. intros it Hin.
  destruct (worked_item junk ftok (child_blocks fs) scripts n (λ _, True) all_blocks Hacc Hroom Hjobs g it Hr Hin)
    as (? & ? & ?).
  by apply child_blocks_ok, Hfiles.
Qed.

(** ** An example *)

(** A thread goes on; it writes its block at once. *)
Definition bs_turn (i : nat) (s : blocks_state) : option blocks_state :=
  let '(BState jobs (WState sem out pcs)) := s in
  let go sem out pc := Some (BState jobs (WState sem out (<[i:=pc]> pcs))) in
  match pcs !! i with
  | Some Waiting => if decide (0 < sem)%Z then go (sem - 1)%Z out (Writing (block_of (concat jobs) i)) else None
  | Some (Writing []) => go sem out Closed
  | Some (Writing rest) => go sem (out ++ rest) (Writing [])
  | Some Closed => go (sem + 1)%Z out Finished
  | _ => None
  end.

Lemma bs_turn_ok i s s' : bs_turn i s = Some s' → bs_step s s'.
Proof.
  destruct s as [jobs [sem out pcs]]. cbn. destruct (pcs !! i) as [[|[|c rest]| |]|] eqn:Hi; try done.
  - case_decide; [|done]. intros [= <-]. constructor. by apply w_waits.
  - intros [= <-]. constructor. by apply w_fclose.
  - intros [= <-]. constructor. eapply w_fprintf; [by rewrite app_nil_r|done].
  - intros [= <-]. constructor. by apply w_signals.
Qed.

Definition bs_all_joined (j : nat) (s : blocks_state) : bool :=
  forallb (λ i, bool_decide (w_pcs (bs_threads s) !! i = Some Finished))
    (seq (length (concat (take j (bs_jobs s))))
      (length (concat (take (S j) (bs_jobs s))) - length (concat (take j (bs_jobs s))))).

Lemma bs_all_joined_ok j s : bs_all_joined j s = true → bs_joined j s.
Proof.
  intros Hb i [Hlo Hhi]. unfold bs_all_joined in Hb. rewrite forallb_forall in Hb.
  specialize (Hb i). rewrite <- list_elem_of_In, elem_of_seq in Hb. rewrite bool_decide_eq_true in Hb. apply Hb. lia.
Qed.
Definition demo_requests : list item := [Item (lit "/d") (lit "int"); Item (lit "/d") (lit "b")].
Definition demo_fs : fsys :=
  FSys (λ p, if decide (p = lit "/d") then Some [Dirent (lit "a.c") 8; Dirent (lit ".x") 8] else None)
       (λ p, if decide (p = lit "/d/a.c") then Some demo_content
             else if decide (p = lit "r") then Some (mjoin (line_of <$> demo_requests)) else None)
       (λ _, true) (Ok tt).

Definition demo_args : list (list bytes) := [[lit "client"; lit "1"; lit "r"]; [lit "client"; exit_word]].
Definition demo_scripts : list (list bytes) := [[lit "/d int"; lit "/d b"]; [exit_word]].

(** The first client, the server, the children and their threads, the second child first; then "exit". *)
Definition demo_schedule : list (who nat) :=
  replicate 65 (SClient 0) ++ replicate 78 SMain ++ [SIni; SMain] ++ replicate 89 SMain ++ [SIni; SMain] ++
  replicate 4 (SChild 1) ++ replicate 4 (SChild 0) ++ replicate 4 (SThread 0) ++ [SChild 1] ++ replicate 41 (SClient 1) ++
  replicate 4 (SThread 1) ++ [SChild 0; SMain; SEnds].

Definition demo_output : bytes :=
  lit "a.c:2:b" ++ [NL] ++ lit "a.c:1:int a" ++ [NL] ++ lit "a.c:3:an int" ++ [NL].

Lemma demo_readable kw : readable demo_fs (Item (lit "/d") kw) [(lit "a.c", demo_content)].
Proof.
  split.
  - exists [Dirent (lit "a.c") 8; Dirent (lit ".x") 8]. split; reflexivity.
  - simpl. lia.
  - constructor; [|constructor]. cbv zeta. split; [reflexivity|]. split; [reflexivity|].
    split; [simpl; lia|]. split; [apply (bool_decide_unpack _); vm_compute; exact I|].
    exact demo_short.
Qed.

(** What the requests of the example ask for. *)
Lemma demo_items it :
  request it ∈ mjoin demo_scripts → no_exit (request it) → SP ∉ dirpath it → it ∈ demo_requests.
Proof.
  intros Hin Hx Hsp. pose proof (split_item_request it Hsp) as Hs.
  change (mjoin demo_scripts) with [lit "/d int"; lit "/d b"; exit_word] in Hin.
  apply elem_of_cons in Hin as [E|[E|E%list_elem_of_singleton]%elem_of_cons]; rewrite E in Hs.
  - vm_compute in Hs. injection Hs as <-. left.
  - vm_compute in Hs. injection Hs as <-. right. left.
  - exfalso. apply Hx. rewrite E. exists [], []. by rewrite app_nil_r.
Qed.

Lemma demo_searchable it : it ∈ demo_requests → searchable demo_fs it [(lit "a.c", demo_content)].
Proof.
  intros [->|[->|[]%elem_of_nil]%elem_of_cons]%elem_of_cons; (split; [apply demo_readable|]);
    apply (bool_decide_unpack _); vm_compute; exact I.
Qed.

Lemma requests_to_output_witness :
  ∃ g, g_run bs_turn bs_all_joined (λ _ _, NUL) (λ _, 7%Z) (child_blocks demo_fs) demo_schedule
      (g_init demo_scripts 60) = Some g ∧
    ws_file (g_out g) = demo_output ∧ worked g = demo_requests ∧ g_over g = true ∧
    Acc (λ g2 g1, kstep (λ _, 7%Z) (child_blocks demo_fs) g1 g2) g ∧
    ((∀ g', ¬ kstep (λ _, 7%Z) (child_blocks demo_fs) g g') → (∀ k, k ∈ g_kids g → ended k) ∧
      ∃ written, written ≡ₚ concat ((λ it, blocks_of it [(lit "a.c", demo_content)]) <$> worked g) ∧
        ws_file (g_out g) = mjoin written).
Proof.
  destruct (g_run bs_turn bs_all_joined (λ _ _, NUL) (λ _, 7%Z) (child_blocks demo_fs) demo_schedule
    (g_init demo_scripts 60)) as [g|] eqn:E; [|exfalso; vm_compute in E; discriminate E].
  pose proof E as E1. vm_compute in E1. injection E1 as Eg. exists g. split; [reflexivity|].
  split; [rewrite <- Eg; vm_compute; reflexivity|]. split; [rewrite <- Eg; vm_compute; reflexivity|].
  split; [rewrite <- Eg; reflexivity|]. clear Eg.
  refine ((λ H, conj (proj1 (proj2 (proj2 (proj2 H)))) (proj1 (proj2 (proj2 (proj2 (proj2 H))))))
    (requests_to_output (λ _, 7%Z) (λ _ _, NUL) S demo_fs (λ _, [(lit "a.c", demo_content)]) demo_args demo_scripts 60 g
      _ _ _ _ _)).
  - repeat constructor.
  - apply (bool_decide_unpack _). vm_compute. exact I.
  - apply (bool_decide_unpack _). vm_compute. exact I.
  - intros it H1 H2 H3. by apply demo_searchable, demo_items.
  - eapply (g_run_ok (WR := blocks_writers) bs_turn bs_all_joined bs_turn_ok bs_all_joined_ok). exact E.
Defined.
