(* ===== verification/SystemRev1.v ===== *)
(** * From files of requests to output.txt, with bounded buffers

    Clients of client-rev1.c, the main process of server-rev1.c, its children, their threads and
    their Printers together, under every schedule: the processes of Processes.v, with threads and
    Printers as in Printers.v. *)

From stdpp Require Import base list sets gmap strings relations.
From Stdlib Require Import Ascii.
From S2P Require Import Prelude CString Text FileSys Segment FileSearch ReqQueue AddSteps MainSteps SharedQueue ClientTurns Processes Client ServerSearch Server Serving OutputLock BoundedBuffer BufferRuns Printers Child System.

(** ** What a child has to write *)

(** The lines that the threads of a child put into its buffer: [ChildsPlay] up to them. *)
Definition child_lines (fs : fsys) (it : item) : outcome (list (list bytes)) :=
  paths ← ServerRev1.openDir fs (dirpath it);
  ServerRev1.joinThreads (λ p, ServerRev1.Worker fs (Item p (keyword it))) paths.

(** The lines with the keyword, for each file. *)
Definition works_of (it : item) (files : list (bytes * bytes)) : list (list bytes) :=
  (λ f, found_lines f.1 (keyword it) f.2) <$> files.

Lemma child_lines_ok fs it files :
  readable fs it files → child_lines fs it = Ok (works_of it files) ∧ exitchild ∉ concat (works_of it files).
Proof.
  intros Hr. assert (Hf : Forall (λ f,
    ServerRev1.Worker fs (Item (join_path (dirpath it) f.1) (keyword it)) =
      Ok (found_lines f.1 (keyword it) f.2) ∧ exitchild ∉ found_lines f.1 (keyword it) f.2) files).
  { eapply Forall_impl; [exact (rd_files _ _ _ Hr)|]. intros [name content] (H1 & H2 & _ & H3 & H4).
    by apply rev1_worker_ok. }
  split.
  - unfold child_lines, ServerRev1.openDir. rewrite (readable_paths _ _ _ Hr).
    change (Ok ?x ≫= ?k) with (k x). cbv beta. apply run_workers_ok.
    apply Forall2_fmap, Forall_Forall2_diag. eapply Forall_impl; [exact Hf|]. by intros f [? _].
  - intros (ls & Hin & (f & -> & Hff)%list_elem_of_fmap)%elem_of_concat. rewrite Forall_forall in Hf.
    by destruct (Hf f Hff).
Qed.

(** ** The threads and Printers of all children *)

(** A child makes its buffer of [N] strings, and creates its threads. *)
Definition p_spawn (N : nat) (work : list (list bytes)) (s : pstate) : pstate :=
  PState (p_sem s) (p_file s) (p_children s ++ [Child (b_init 10 N work) Finished]).

(** [joinThreads] and [pthread_join(Printer_tid,NULL)] of the child that was the [j]-th to create its threads *)
Definition p_joined (j : nat) (s : pstate) : Prop := ∃ c, p_children s !! j = Some c ∧ child_done c.

Definition lines_writers (N : nat) : Writers (list (list bytes)) pstate := {|
  ws_start := p_init 10 N [] [];
  ws_spawn := p_spawn N;
  ws_step := pstep;
  ws_joined := p_joined;
  ws_file := p_file;
|}.

(** Children that have not begun do not disturb the others. *)
Lemma pstep_more s s' c :
  pstep s s' →
  pstep (PState (p_sem s) (p_file s) (p_children s ++ [c])) (PState (p_sem s') (p_file s') (p_children s' ++ [c])).
Proof.
  destruct 1 as [k b lbl b' pc sem out cs Hk Hb Hfree|k b str sem out cs Hk Hp Hs|
    k b x rest sem out cs Hk Hc|k b sem out cs Hk|k b sem out cs Hk];
    cbn [p_sem p_file p_children]; rewrite <- insert_app_l by (by eapply lookup_lt_Some);
    apply (lookup_app_l_Some _ [c]) in Hk.
  - by eapply p_buffer.
  - by eapply p_waits.
  - by eapply p_fprintf.
  - by apply p_fclose.
  - by apply p_signals.
Qed.

Lemma run_printers N works s :
  threads_run (WR := lines_writers N) works s → rtc pstep (p_init 10 N works []) s.
Proof.
  induction 1 as [|works s work _ IH|works s s' _ IH Hst]; [apply rtc_refl| |by eapply rtc_r].
  assert (E : p_init 10 N (works ++ [work]) [] = p_spawn N work (p_init 10 N works [])).
  { unfold p_init, p_spawn. cbn. by rewrite fmap_app. }
  rewrite E. clear E. induction IH as [s|s1 s2 s3 Hst _ IH]; [apply rtc_refl|].
  eapply rtc_l; [|exact IH]. by apply pstep_more.
Qed.

(** All lines, each once and whole, those of a file in their order. *)
Definition all_lines (works : list (list (list bytes))) (out : bytes) : Prop :=
  ∃ written, written ≡ₚ concat (concat works) ∧ out = mjoin written ∧
    ∀ work lines, work ∈ works → lines ∈ work → lines `sublist_of` written.

Lemma lines_writers_ok N :
  10 ≤ N → WritersOk (WR := lines_writers N) (λ work, exitchild ∉ concat work) all_lines.
Proof.
  intros HN. constructor.
  - intros works s Hg Hw. destruct (reachable_pinv 10 N works [] s (run_printers _ _ _ Hw)) as (order & cur & Hinv).
    eapply (printers_end 10 N works [] ltac:(lia) Hg). exact Hinv.
  - intros works s Hg Hw. destruct (reachable_pinv 10 N works [] s (run_printers _ _ _ Hw)) as (order & cur & Hinv).
    destruct (printers_progress 10 N works [] ltac:(lia) Hg _ _ _ Hinv) as [?|Hdone]; [by left|right]. split.
    + intros j Hj. rewrite (Forall2_length _ _ _ (pi_runs _ _ _ _ _ _ _ Hinv)) in Hj.
      destruct (lookup_lt_is_Some_2 _ _ Hj) as [c Hc]. exists c. split; [done|]. by eapply Hdone, list_elem_of_lookup_2.
    + destruct (all_done_lines 10 N works [] ltac:(lia) Hg _ _ _ Hinv Hdone) as (written & Hf & Hp & Hs). by exists written.
  - intros works works' out Hp (written & Hw & -> & Hs). exists written. split; [by rewrite Hw, Hp|]. split; [done|].
    intros work lines Hin. apply Hs. by rewrite Hp.
Qed.

(** ** The whole *)
Section rev1.
Context (ftok : bytes → Z) (junk : nat → nat → ascii) (usable : nat → nat) (fs : fsys).
Context (files : bytes → list (bytes * bytes)).
Context (sargs : list bytes) (q b : Z).

(** The threads and Printers of a server with the arguments [sargs]: buffers of [b] strings. *)
#[local] Instance rev1_writers : Writers (list (list bytes)) pstate := lines_writers (Z.to_nat b).

(** C14: the same as C13 for clients of client-rev1.c and a server of server-rev1.c (main, after it has
    found its working directory allowed and made the queue) with BUFFERSIZE 10 or more, under every schedule of all
    processes, threads and Printers, and whatever malloc leaves in new memory; no semaphore in use has the
    identifier 0, which every child sets. When no child, thread or Printer can go on every child has ended, and
    output.txt holds, for every file of the directory of each child that did its work, the lines with
    its keyword, with the file's name and their numbers: every line once and whole, those of a file in their order. *)
Theorem rev1_requests_to_output argss scripts n g :
  ServerRev1.read_sizes sargs = Ok (q, b) → (10 ≤ b)%Z →
  Forall2 (λ args script, client_script usable true (λ n, to_int (n * ClientRev1.MAXREQSIZE)) fs args = Ok script)
    argss scripts →
  Forall acceptable (mjoin scripts) → 17 + used (mjoin scripts) < n →
  (∀ it, request it ∈ mjoin scripts → no_exit (request it) → SP ∉ dirpath it →
    readable fs it (files (dirpath it))) →
  rtc (gstep junk ftok (child_lines fs)) (g_init scripts n) g →
  let m := g_turns g in
  Forall2 (λ args script, ∃ left, ∀ s, ClientRev1.main usable fs args s =
    (Client.waits;; on_seg (for_each AddReq script);; Client.signals;; mret (0%Z, left)) s) argss scripts ∧
  k_item <$> g_kids g = ms_taken m ∧
  (∃ fin b rest, NoDup fin ∧ (∀ i, i ∈ fin ↔ ms_clients m !! i = Some ClientTurns.CDone) ∧
    mjoin (script_of scripts <$> fin) ++ b = (request <$> ms_taken m) ++ rest ∧
    (b = [] ∨ ∃ i, i ∉ fin ∧ b `prefix_of` script_of scripts i) ∧
    ((∀ i p, ms_clients m !! i = Some p → p = ClientTurns.CDone) → b = [] ∧ fin ≡ₚ seq 0 (length scripts) ∧
      (polling (ms_server m) → ∃ k room, ms_seg m = layout k rest room))) ∧
  Acc (λ g2 g1, kstep ftok (child_lines fs) g1 g2) g ∧
  ((∀ g', ¬ kstep ftok (child_lines fs) g g') → (∀ k, k ∈ g_kids g → ended k) ∧
    ∃ written, written ≡ₚ concat (concat ((λ it, works_of it (files (dirpath it))) <$> worked g)) ∧
      ws_file (g_out g) = mjoin written ∧
      ∀ it lines, it ∈ worked g → lines ∈ works_of it (files (dirpath it)) → lines `sublist_of` written) ∧
  (∀ g' i k k', gstep junk ftok (child_lines fs) g g' → g_kids g !! i = Some k → g_kids g' !! i = Some k' →
    k_pc k ≠ KGone → k_pc k' = KGone →
    Exists (occurs exit_word) (mjoin scripts) ∨ moving (ms_server m)) ∧
  ((∀ g', ¬ gstep junk ftok (child_lines fs) g g') →
    (∀ i p, ms_clients m !! i = Some p → p = ClientTurns.CDone ∨ g_over g = true ∧ ∃ s, p = ClientTurns.CWaits s) ∧
    (g_over g = true ∨ misreads junk n (ms_rq m) (ms_server m) ∧
      main_step junk (ms_rq m) (ms_server m) (ms_seg m) = Ub BadAccess)).
Proof using All.
  intros _ Hb Hargs Hacc Hroom Hfiles Hr m. assert (HN : 10 ≤ Z.to_nat b) by lia.
  pose proof (lines_writers_ok _ HN) as Hok.
  assert (Hjobs : ∀ it, request it ∈ mjoin scripts → no_exit (request it) → SP ∉ dirpath it →
    ∃ j, child_lines fs it = Ok j ∧ exitchild ∉ concat j).
  { intros it H1 H2 H3. eexists. by eapply child_lines_ok, Hfiles. }
  destruct (processes_run (WR := rev1_writers) junk ftok (child_lines fs) scripts n _ all_lines Hacc Hroom Hjobs g Hr)
    as (H1 & H2 & H3 & H4 & H5 & H6).
  split; [eapply Forall2_impl; [exact Hargs|]; intros args script; apply client_runs_script|].
  split; [exact H1|]. split; [exact H2|]. split; [exact H3|]. split; [|split; [exact H5|exact H6]].
  intros Hno. destruct (H4 Hno) as (Hall & jobs & Hf & written & Hw & Hout & Hsub). split; [exact Hall|].
  assert (jobs = (λ it, works_of it (files (dirpath it))) <$> worked g) as ->.
  { eapply jobs_of_items; [exact Hf|]. intros it Hin.
    destruct (worked_item (WR := rev1_writers) junk ftok (child_lines fs) scripts n _ all_lines Hacc Hroom Hjobs g it Hr Hin)
      as (? & ? & ?).
    by apply (child_lines_ok fs), Hfiles. }
  exists written. split; [exact Hw|]. split; [exact Hout|]. intros it lines Hin. apply Hsub.
  by apply (list_elem_of_fmap_2 (λ it, works_of it (files (dirpath it)))).
Qed.
End rev1.

(** ** An example *)
Definition p_all_joined (j : nat) (s : pstate) : bool :=
  match p_children s !! j with
  | Some (Child b pc) =>
      bool_decide (pc = Finished) && match b_printer b with CDone => true | _ => false end &&
      forallb (λ t, match t with Thread PReady [] => true | _ => false end) (b_threads b)
  | None => false
  end.

Lemma p_all_joined_ok j s : p_all_joined j s = true → p_joined j s.
Proof.
  unfold p_all_joined. destruct (p_children s !! j) as [[b pc]|] eqn:Hc; [|done].
  rewrite !andb_true_iff, bool_decide_eq_true, forallb_forall. intros [[-> Hp] Ht]. eexists. split; [exact Hc|].
  split; [done|]. cbn. split; [by destruct (b_printer b)|]. intros t Hin%list_elem_of_In. specialize (Ht t Hin).
  by destruct t as [[] []].
Qed.

Definition p_turn (v : nat * move) (s : pstate) : option pstate := psched_step v.1 v.2 s.

Lemma p_turn_ok v s s' : p_turn v s = Some s' → pstep s s'.
Proof. apply psched_step_ok. Qed.

(** The first client, the server, the children; the Printer of the second child writes between the lines of
    the first; then "exit". *)
Definition rev1_schedule : list (who (nat * move)) :=
  replicate 65 (SClient 0) ++ replicate 78 SMain ++ [SIni; SMain] ++ replicate 89 SMain ++ [SIni; SMain] ++
  replicate 4 (SChild 0) ++ replicate 4 (SChild 1) ++ (SThread <$> two_printers) ++ [SChild 1; SChild 0] ++
  replicate 41 (SClient 1) ++ [SMain; SEnds].

(** The second child writes between the lines of the first. *)
Definition demo_file : bytes :=
  lit "a.c:1:int a" ++ [NL] ++ lit "a.c:2:b" ++ [NL] ++ lit "a.c:3:an int" ++ [NL].

Lemma rev1_requests_to_output_witness :
  ∃ g, g_run (WR := lines_writers 10) p_turn p_all_joined (λ _ _, NUL) (λ _, 7%Z) (child_lines demo_fs) rev1_schedule
      (g_init (WR := lines_writers 10) demo_scripts 60) = Some g ∧
    p_file (g_out g) = demo_file ∧ worked g = demo_requests ∧ g_over g = true ∧
    ((∀ g', ¬ kstep (WR := lines_writers 10) (λ _, 7%Z) (child_lines demo_fs) g g') → (∀ k, k ∈ g_kids g → ended k) ∧
      ∃ written, written ≡ₚ concat (concat ((λ it, works_of it [(lit "a.c", demo_content)]) <$> worked g)) ∧
        p_file (g_out g) = mjoin written ∧
        ∀ it lines, it ∈ worked g → lines ∈ works_of it [(lit "a.c", demo_content)] → lines `sublist_of` written).
Proof.
  destruct (g_run (WR := lines_writers 10) p_turn p_all_joined (λ _ _, NUL) (λ _, 7%Z) (child_lines demo_fs)
    rev1_schedule (g_init (WR := lines_writers 10) demo_scripts 60)) as [g|] eqn:E;
    [|exfalso; vm_compute in E; discriminate E].
  pose proof E as E1. vm_compute in E1. injection E1 as Eg. exists g. split; [reflexivity|].
  split; [rewrite <- Eg; vm_compute; reflexivity|]. split; [rewrite <- Eg; vm_compute; reflexivity|].
  split; [rewrite <- Eg; reflexivity|]. clear Eg.
  refine ((λ H, proj1 (proj2 (proj2 (proj2 (proj2 H)))))
    (rev1_requests_to_output (λ _, 7%Z) (λ _ _, NUL) S demo_fs (λ _, [(lit "a.c", demo_content)])
      [lit "server"; lit "1"; lit "10"] 1281 10 demo_args demo_scripts 60 g _ _ _ _ _ _ _)).
  - reflexivity.
  - lia.
  - repeat constructor.
  - apply (bool_decide_unpack _). vm_compute. exact I.
  - apply (bool_decide_unpack _). vm_compute. exact I.
  - intros it H1 H2 H3. exact (proj1 (demo_searchable it (demo_items it H1 H2 H3))).
  - exact (g_run_ok (WR := lines_writers 10) p_turn p_all_joined p_turn_ok p_all_joined_ok _ _ _ _ _ _ E).
Defined.
