(* ===== verification/Paging.v ===== *)
(** * Virtual Memory/algo.c

    The page replacement exercise: the reference string, the queue of frames with
    its operations at both ends, and the FIFO run that stays a stub. *)

From stdpp Require Import base list gmap fin_maps strings pretty.
From Stdlib Require Import Ascii.
From S2P Require Import Prelude CString CMem Dll LevelList SortedInsert Text Numerals FileSys.

(** [struct frame]: prev, page, next; [struct que]: head, size, tail, where the size is
    not initialised before it is set. *)
Abbreviation blk := (block Z (option Z) Empty_set).
Abbreviation C := (M (heap blk)).

(** ** The reference string *)
Definition COMMA : ascii := ","%char.

(** [printarr(arr)]: up to the first 0, which need not be in the array. *)
Fixpoint print_from (arr : list Z) : outcome bytes :=
  match arr with
  | [] => Ub BadAccess
  | p :: arr' =>
      if decide (p = 0%Z) then Ok [NL]
      else rest ← print_from arr'; Ok (lit " " ++ fmt_d p ++ lit " " ++ rest)
  end.
Definition printarr (arr : list Z) : outcome bytes := print_from arr.

(** [refArr[i] = atoi(word); i++;] for every word *)
Fixpoint fill_from (fuel : nat) (rest : bytes) (i : nat) (refArr : list Z) : outcome (list Z) :=
  match fuel with
  | O => NoFuel
  | S fuel' =>
      match strtok_r [COMMA] rest with
      | None => Ok refArr
      | Some (word, rest') =>
          n ← atoi word;
          if decide (i < length refArr) then fill_from fuel' rest' (S i) (<[i:=n]> refArr)
          else Ub Overflow
      end
  end.

(** [tokenize(refstr)]: what it prints, and the array. *)
Definition tokenize (refstr : bytes) : outcome (bytes * list Z) :=
  let arrLen := S (length (filter (λ c, c = COMMA) refstr)) in
  buffer ← strcpy 1024 refstr;
  refArr ← fill_from (S (length buffer)) buffer 0 (replicate arrLen 0%Z);
  Ok (fmt_d (Z.of_nat arrLen) ++ lit " size allocated for ref array" ++ [NL], refArr).

(** ** The queue *)

(** [list->size++] and [list->size--] *)
Definition add_size (list : ptr) (d : Z) : C unit :=
  n ← load_hdr list;
  match n.2 with
  | None => fail_ub Uninit
  | Some size => k ← lift (to_int (size + d)); store list (Hdr n.1.1 n.1.2 (Some k))
  end.

Definition addtail (list : ptr) (val : Z) : C unit :=
  node ← malloc (Node None None 0%Z);
  set_data node val;;
  push_back node list;;
  add_size list 1.

Definition addhead (list : ptr) (val : Z) : C unit :=
  node ← malloc (Node None None 0%Z);
  set_data node val;;
  push_front node list;;
  add_size list 1.

Definition removetail (list : ptr) : C Z :=
  t ← get_tail list;
  tl ← get_tail list; p ← get_prev tl; set_tail list p;;
  tl ← get_tail list; set_next tl None;;
  v ← get_data t;
  free t;;
  add_size list (-1);;
  mret v.

(** [search(q, sval)]: its loop is commented out. *)
Definition search (q : ptr) (sval : Z) : C ptr := n ← get_head q; mret None.

(** [addpageFIFO(q, val)] on the global [pagefault] *)
Definition addpageFIFO (q : ptr) (val pagefault : Z) : C Z :=
  n ← search q val;
  match n with
  | None => lift (to_int (pagefault + 1))
  | Some _ => mret pagefault
  end.

(** [initFIFO(myq)]: the parameter gets the new queue, the caller keeps what it had. *)
Definition initFIFO (myq : ptr) : C unit :=
  myq ← malloc (Hdr None None None);
  set_head myq None;;
  set_tail myq None.

(** [for (j = refarr; *j != '\0'; j++) addpageFIFO(FIFOque, *j);] *)
Fixpoint add_pages (q : ptr) (refarr : list Z) (pagefault : Z) : C Z :=
  match refarr with
  | [] => fail_ub BadAccess
  | j :: refarr' =>
      if decide (j = 0%Z) then mret pagefault
      else pf ← addpageFIFO q j pagefault; add_pages q refarr' pf
  end.

(** [FIFO(refstr, frameSize)]: the text it prints. *)
Definition FIFO (refstr : bytes) (frameSize : Z) : C bytes :=
  r ← lift (tokenize refstr);
  initFIFO None;;
  out ← lift (printarr r.2);
  pf ← add_pages None r.2 0;
  mret (r.1 ++ out ++ lit "pf: " ++ fmt_d pf).

Definition main (args : list bytes) : C (Z * bytes) :=
  a1 ← lift (arg args 1);
  out ← FIFO a1 4;
  mret (0%Z, out).

(** ** What the queue operations do *)

(** A frame stands for its page. *)
#[export] Instance frame_data : NodeData Z (option Z) Empty_set Z.
Proof.
  refine {| value_at _ d v fp := d = v ∧ fp = []; lev := id; pth _ := [];
            level_of d := mret d; path_of _ := mret [] |}.
  - abstract (by intros h d v fp [-> _]).
  - abstract (by intros h d v fp [-> _]).
  - abstract (done).
  - abstract (intros m d v fp l [_ ->] []%elem_of_nil).
Defined.

Abbreviation fent := (ent Z Z).
Implicit Types (es : list fent) (h : heap blk).
Definition pages es : list Z := e_val <$> es.

(** The size field of a header changes. *)
Lemma dlown_size h hp sz sz' es R :
  dlown h hp sz es R → dlown (hset hp (Hdr (hd_ptr es None) (last_ptr es None) sz') h) hp sz' es R.
Proof.
  intros [[Hh Hs Hv Hn] HR Hb]. constructor; [constructor|simpl|done]; simpl.
  - by rewrite lookup_insert_eq.
  - eapply seg_frame; [done|]. intros e He. rewrite lookup_insert_ne; [done|].
    intros ->. apply NoDup_cons in Hn as [Hn _]. apply Hn, foot_locs. by apply list_elem_of_fmap_2.
  - eapply Forall_impl; [exact Hv|]. done.
  - done.
  - rewrite <- HR. apply outside_insert. left.
Qed.

Lemma add_size_ok h hp n d es R :
  dlown h hp (Some n) es R → (int_min ≤ n + d ≤ int_max)%Z →
  ∃ h', add_size (Some hp) d h = Ok (tt, h') ∧ dlown h' hp (Some (n + d)%Z) es R.
Proof.
  intros Ho Hr. pose proof (dl_hdr _ _ _ _ (do_rep _ _ _ _ _ Ho)) as Hh.
  eexists. split; [|by eapply dlown_size].
  unfold add_size. mstep. simpl. unfold to_int. rewrite decide_True by done.
  erewrite bind_Ok by done. cbv beta. by eapply store_ok.
Qed.

(** A new frame next to a queue. *)
Record new_frame h hp sz es (e : fent) R : Prop := {
  nf_rep : dlrep (cells h) hp sz es;
  nf_det : detached (cells h) hp es e;
  nf_node : cells h !! e_loc e = Some (Node None None (e_dat e));
  nf_budget : budget h = None;
  nf_rest : outside (cells h) (own_locs hp (e :: es)) = R;
}.

Lemma new_frame_ok h hp sz es R v :
  dlown h hp sz es R →
  let l := fresh_loc h in
  new_frame (hset l (Node None None v) h) hp sz es (Ent l v v []) R.
Proof.
  intros [Hd HR Hb] l. assert (Hl : cells h !! l = None) by apply fresh_loc_fresh.
  assert (Hne : l ∉ own_locs hp es) by (intros Hin; by apply (dlrep_live _ _ _ _ _ Hd Hin)).
  constructor; simpl; [| |by rewrite lookup_insert_eq|done|].
  - eapply dlrep_frame; [done|]. intros x Hx. rewrite lookup_insert_ne; [done|]. by intros ->.
  - constructor; simpl; [rewrite lookup_insert_eq; eauto|done|].
    destruct Hd as [_ _ _ Hn]. rewrite perm_swap. constructor; [done|exact Hn].
  - rewrite <- HR. apply map_eq. intros x. rewrite !lookup_outside. unfold own_locs in *. simpl.
    destruct (decide (x = l)) as [->|].
    + rewrite decide_True by set_solver. by rewrite decide_False by done.
    + rewrite lookup_insert_ne by done. apply decide_ext. set_solver.
Qed.


Lemma hset_hset l b b' h : hset l b' (hset l b h) = hset l b' h.
Proof. unfold hset. simpl. by rewrite insert_insert_eq. Qed.

Lemma addtail_ok h hp n es R v :
  dlown h hp (Some n) es R → (int_min ≤ n + 1 ≤ int_max)%Z →
  ∃ h' e, addtail (Some hp) v h = Ok (tt, h') ∧ dlown h' hp (Some (n + 1)%Z) (es ++ [e]) R ∧ e_val e = v.
Proof.
  intros Ho Hn. pose proof (do_budget _ _ _ _ _ Ho) as Hb. unfold addtail. mstep. mstep.
  rewrite hset_hset. destruct (new_frame_ok h hp _ es R v Ho) as [Hd He Hnd Hb1 HR].
  destruct (push_back_own _ _ _ _ _ R Hd He Hb1 Hnd HR) as (h1 & H1 & Ho1). simpl in H1.
  destruct (add_size_ok h1 hp n 1 _ _ Ho1 Hn) as (h2 & H2 & Ho2).
  exists h2, (Ent (fresh_loc h) v v []). split; [|done]. by erewrite bind_Ok by exact H1.
Qed.

Lemma addhead_ok h hp n es R v :
  dlown h hp (Some n) es R → (int_min ≤ n + 1 ≤ int_max)%Z →
  ∃ h' e, addhead (Some hp) v h = Ok (tt, h') ∧ dlown h' hp (Some (n + 1)%Z) (e :: es) R ∧ e_val e = v.
Proof.
  intros Ho Hn. pose proof (do_budget _ _ _ _ _ Ho) as Hb. unfold addhead. mstep. mstep.
  rewrite hset_hset. destruct (new_frame_ok h hp _ es R v Ho) as [Hd He Hnd Hb1 HR].
  destruct (push_front_own _ _ _ _ _ R Hd He Hb1 Hnd HR) as (h1 & H1 & Ho1). simpl in H1.
  destruct (add_size_ok h1 hp n 1 _ _ Ho1 Hn) as (h2 & H2 & Ho2).
  exists h2, (Ent (fresh_loc h) v v []). split; [|done]. by erewrite bind_Ok by exact H1.
Qed.

(** The last of two or more frames is unlinked and freed. *)
Lemma unlink_last h hp sz pre p t R :
  dlown h hp sz (pre ++ [p; t]) R →
  let h1 := hset hp (Hdr (hd_ptr (pre ++ [p; t]) None) (Some (e_loc p)) sz) h in
  let h2 := hset (e_loc p) (Node None (last_ptr pre None) (e_dat p)) h1 in
  dlown (hdel (e_loc t) h2) hp sz (pre ++ [p]) R.
Proof.
  intros [[Hh Hs Hv Hn] HR Hb] h1 h2.
  assert (Ht : e_loc p ≠ e_loc t ∧ e_loc t ≠ hp ∧ e_loc p ≠ hp ∧
    ∀ x, x ∈ pre → e_loc x ≠ e_loc t ∧ e_loc x ≠ e_loc p ∧ e_loc x ≠ hp).
  { pose proof (NoDup_locs _ _ Hn) as Hl. rewrite fmap_app in Hl. simpl in Hl.
    apply NoDup_app in Hl as (_ & Hx & [Hpt _]%NoDup_cons). apply NoDup_cons in Hn as [Hhp _].
    assert (Hne : ∀ x, x ∈ pre ++ [p; t] → e_loc x ≠ hp).
    { intros x Hin <-. apply Hhp, foot_locs. by apply list_elem_of_fmap_2. }
    split_and!; [set_solver|apply Hne; set_solver|apply Hne; set_solver|].
    intros x Hin. specialize (Hx (e_loc x) ltac:(by apply list_elem_of_fmap_2)).
    split_and!; [set_solver|set_solver|apply Hne; set_solver]. }
  destruct Ht as (Hpt & Hth & Hph & Hpre).
  constructor; [constructor|simpl|done]; simpl.
  - rewrite lookup_delete_ne, lookup_insert_ne, lookup_insert_eq by done.
    rewrite !hd_ptr_app, last_ptr_snoc. done.
  - rewrite !seg_app in *. simpl in *. destruct Hs as [Hs _]. split_and!; [|by simplify_map_eq|done].
    eapply seg_frame; [done|]. intros x Hin. destruct (Hpre x Hin) as (? & ? & ?). by simplify_map_eq.
  - apply vals_app in Hv as [Hv1 Hv2]. apply vals_app. split; [exact Hv1|].
    apply Forall_cons in Hv2 as [Hv2 _]. by apply Forall_singleton.
  - rewrite !bind_app in *. simpl in *. revert Hn. rewrite !app_nil_r.
    replace (hp :: (pre ≫= foot) ++ e_loc p :: e_fp p ++ e_loc t :: e_fp t)
      with ((hp :: (pre ≫= foot) ++ e_loc p :: e_fp p) ++ (e_loc t :: e_fp t))
      by (simpl; by rewrite <- app_assoc). by intros [? _]%NoDup_app.
  - rewrite <- HR. assert (e_fp t = []) as Hft.
    { apply vals_app in Hv as [_ Hv]. apply Forall_cons in Hv as [_ Hv].
      by apply Forall_cons in Hv as [[_ ?] _]. }
    apply map_eq. intros x. rewrite !lookup_outside. unfold own_locs. rewrite !bind_app. simpl.
    rewrite Hft, app_nil_r. destruct (decide (x = e_loc t)) as [->|Hx].
    + rewrite lookup_delete_eq. repeat case_decide; try done; set_solver.
    + rewrite lookup_delete_ne by done. clear -Hx.
      assert (Hiff : x ∈ hp :: (pre ≫= foot) ++ e_loc p :: e_fp p ++ e_loc t :: [] ++ [] ↔
                     x ∈ hp :: (pre ≫= foot) ++ e_loc p :: e_fp p) by set_solver.
      rewrite (decide_ext _ _ _ _ Hiff). case_decide as Hin; [done|].
      rewrite !lookup_insert_ne; [done|..]; intros E; apply Hin; rewrite <- E; set_solver.
Qed.

Lemma removetail_ok h hp n es p t R :
  dlown h hp (Some n) (es ++ [p; t]) R → (int_min ≤ n - 1 ≤ int_max)%Z →
  ∃ h', removetail (Some hp) h = Ok (e_val t, h') ∧ dlown h' hp (Some (n - 1)%Z) (es ++ [p]) R.
Proof.
  intros Ho Hn. pose proof (unlink_last _ _ _ _ _ _ _ Ho) as Ho'. simpl in Ho'.
  destruct (add_size_ok _ _ n (-1) _ _ Ho') as (h' & Ha & Ho2); [lia|].
  exists h'. split; [|exact Ho2]. destruct Ho as [Hd HR Hb].
  pose proof (dl_hdr _ _ _ _ Hd) as Hh. rewrite last_ptr_app in Hh. simpl in Hh.
  pose proof (dlrep_lookup (cells h) hp (Some n) (es ++ [p]) t []) as Ht. rewrite <- app_assoc in Ht.
  specialize (Ht Hd). rewrite last_ptr_snoc in Ht. simpl in Ht.
  pose proof (dlrep_lookup _ _ _ es p [t] Hd) as Hp. simpl in Hp.
  pose proof (dlrep_value _ _ _ _ t Hd ltac:(set_solver)) as [Hv _].
  assert (hp ≠ e_loc t ∧ hp ≠ e_loc p) as [Hht Hhp] by (split; intros ->; congruence).
  pose proof (dlrep_locs_ne _ _ _ es p [t] t Hd ltac:(set_solver)) as Hpt.
  rewrite Hv in Ht. unfold removetail. do 8 mstep. by erewrite bind_Ok by exact Ha.
Qed.

(** ** The queue as a list *)
Inductive dop := DTail (v : Z) | DHead (v : Z) | DRemove.

Definition run_dop (q : ptr) (o : dop) : C (list Z) :=
  match o with
  | DTail v => addtail q v;; mret []
  | DHead v => addhead q v;; mret []
  | DRemove => v ← removetail q; mret [v]
  end.
Fixpoint run_dops (q : ptr) (os : list dop) : C (list Z) :=
  match os with
  | [] => mret []
  | o :: os' => out ← run_dop q o; outs ← run_dops q os'; mret (out ++ outs)
  end.

(** The same on a list of pages; the last page cannot be removed. *)
Definition list_dop (vs : list Z) (o : dop) : outcome (list Z * list Z) :=
  match o with
  | DTail v => Ok ([], vs ++ [v])
  | DHead v => Ok ([], v :: vs)
  | DRemove =>
      match reverse vs with
      | t :: p :: pre => Ok ([t], reverse (p :: pre))
      | _ => Ub NullDeref
      end
  end.
Fixpoint list_dops (vs : list Z) (os : list dop) : outcome (list Z * list Z) :=
  match os with
  | [] => Ok ([], vs)
  | o :: os' => p ← list_dop vs o; q ← list_dops p.2 os'; Ok (p.1 ++ q.1, q.2)
  end.

(** The queue at [hp] holds the pages [vs], and its size is their number. *)
Definition queue h hp vs R : Prop :=
  ∃ es, dlown h hp (Some (Z.of_nat (length es))) es R ∧ pages es = vs.

Lemma removetail_short h hp n es R :
  dlown h hp n es R → length es ≤ 1 → removetail (Some hp) h = Ub NullDeref.
Proof.
  intros [Hd HR Hb] Hl. pose proof (dl_hdr _ _ _ _ Hd) as Hh. unfold removetail.
  destruct es as [|t [|]]; simpl in Hh, Hl; try lia.
  - mstep. mstep. by erewrite bind_Ub.
  - pose proof (dlrep_lookup _ _ _ [] t [] Hd) as Ht. simpl in Ht.
    assert (hp ≠ e_loc t) by congruence. do 5 mstep. by erewrite bind_Ub.
Qed.

Lemma pages_snoc2 es vs t p pre :
  pages es = vs → reverse vs = t :: p :: pre →
  ∃ es0 ep et, es = es0 ++ [ep; et] ∧ e_val et = t ∧ pages (es0 ++ [ep]) = reverse (p :: pre).
Proof.
  intros <- Hr. apply (f_equal reverse) in Hr. rewrite reverse_involutive, !reverse_cons in Hr.
  unfold pages in *. apply fmap_app_inv in Hr as (es1 & es2 & H1 & H2 & ->).
  destruct es2 as [|et []]; simplify_eq/=. symmetry in H1. pose proof H1 as H1'.
  apply fmap_app_inv in H1 as (es3 & es4 & H3 & H4 & ->).
  destruct es4 as [|ep []]; simplify_eq/=.
  exists es3, ep, et. by rewrite <- app_assoc, reverse_cons.
Qed.

Lemma dop_refines h hp vs R o :
  queue h hp vs R → (Z.of_nat (length vs) < int_max)%Z →
  match list_dop vs o with
  | Ok (out, vs') => ∃ h', run_dop (Some hp) o h = Ok (out, h') ∧ queue h' hp vs' R
  | _ => run_dop (Some hp) o h = Ub NullDeref
  end.
Proof.
  intros (es & Ho & <-) Hl. unfold pages in Hl. rewrite length_fmap in Hl.
  assert (Hb : (int_min ≤ Z.of_nat (length es) + 1 ≤ int_max)%Z) by (unfold int_min; lia).
  destruct o as [v|v|]; simpl.
  - destruct (addtail_ok _ _ _ _ _ v Ho Hb) as (h' & e & H & Ho' & Hv). exists h'.
    erewrite bind_Ok by exact H. split; [done|]. exists (es ++ [e]). split.
    + rewrite length_app. simpl. by replace (Z.of_nat (length es + 1)) with (Z.of_nat (length es) + 1)%Z by lia.
    + unfold pages. rewrite fmap_app. simpl. by rewrite Hv.
  - destruct (addhead_ok _ _ _ _ _ v Ho Hb) as (h' & e & H & Ho' & Hv). exists h'.
    erewrite bind_Ok by exact H. split; [done|]. exists (e :: es). split.
    + simpl. by replace (Z.of_nat (S (length es))) with (Z.of_nat (length es) + 1)%Z by lia.
    + unfold pages. simpl. by rewrite Hv.
  - destruct (reverse (pages es)) as [|t [|p pre]] eqn:Hr.
    1-2: erewrite bind_Ub; [done|]; eapply removetail_short; [exact Ho|];
      apply (f_equal length) in Hr; unfold pages in Hr; rewrite length_reverse, length_fmap in Hr; simpl in Hr; lia.
    destruct (pages_snoc2 es _ _ _ _ eq_refl Hr) as (es0 & ep & et & -> & Ht & Hp).
    destruct (removetail_ok h hp _ es0 ep et R Ho) as (h' & H & Ho').
    { rewrite length_app in *. simpl in *. unfold int_min, int_max in *. lia. }
    exists h'. erewrite bind_Ok by exact H. rewrite Ht. split; [done|]. exists (es0 ++ [ep]). split; [|done].
    rewrite !length_app in *. simpl in *.
    by replace (Z.of_nat (length es0 + 1)) with (Z.of_nat (length es0 + 2) - 1)%Z by lia.
Qed.

Lemma list_dop_length vs o out vs' : list_dop vs o = Ok (out, vs') → length vs' ≤ S (length vs).
Proof.
  destruct o; simpl; [intros [= <- <-]; rewrite length_app; simpl; lia|intros [= <- <-]; simpl; lia|].
  destruct (reverse vs) as [|t [|p pre]] eqn:Hr; try done. intros [= <- <-].
  apply (f_equal length) in Hr. rewrite length_reverse in *. simpl in *. lia.
Qed.

(** C31: the queue operations of algo.c, in any sequence, do what the list operations do, and
    the size stays the number of pages; removing from a queue with fewer than two pages
    dereferences NULL, and nothing else goes wrong. *)
Theorem queue_refines_list h hp vs R os :
  queue h hp vs R → (Z.of_nat (length vs + length os) ≤ int_max)%Z →
  match list_dops vs os with
  | Ok (out, vs') => ∃ h', run_dops (Some hp) os h = Ok (out, h') ∧ queue h' hp vs' R
  | _ => run_dops (Some hp) os h = Ub NullDeref
  end.
Proof.
  revert h vs. induction os as [|o os IH]; intros h vs Hq Hl; [by exists h|].
  simpl in Hl. pose proof (dop_refines h hp vs R o Hq ltac:(lia)) as Ho. cbn [list_dops run_dops].
  destruct (list_dop vs o) as [[out vs1]|u|c|] eqn:E; simpl; try (by erewrite bind_Ub by exact Ho).
  destruct Ho as (h1 & H1 & Hq1). apply list_dop_length in E.
  specialize (IH h1 vs1 Hq1 ltac:(lia)). destruct (list_dops vs1 os) as [[outs vs2]|u|c|]; simpl.
  - destruct IH as (h2 & H2 & Hq2). exists h2. split; [|done].
    erewrite bind_Ok by exact H1. cbv beta. by erewrite bind_Ok by exact H2.
  - erewrite bind_Ok by exact H1. cbv beta. by erewrite bind_Ub by exact IH.
  - erewrite bind_Ok by exact H1. cbv beta. by erewrite bind_Ub by exact IH.
  - erewrite bind_Ok by exact H1. cbv beta. by erewrite bind_Ub by exact IH.
Qed.

(** ** What the reference string stands for *)
Fixpoint atoi_all (ws : list bytes) : outcome (list Z) :=
  match ws with [] => Ok [] | w :: ws' => n ← atoi w; ns ← atoi_all ws'; Ok (n :: ns) end.

Abbreviation commas := (λ s : bytes, length (filter (λ c, c = COMMA) s)).
Abbreviation cwords := (words [COMMA]).

(** There is at most one word more than there are commas. *)
Lemma words_le_commas s : length (cwords s) ≤ S (commas s).
Proof.
  unfold words. enough (∀ w, length (words_from [COMMA] w s) ≤ S (commas s)) by done.
  induction s as [|c s IH]; intros w; simpl.
  - unfold flush. destruct w; simpl; lia.
  - rewrite filter_cons. case_bool_decide as Hc.
    + apply list_elem_of_singleton in Hc. rewrite decide_True by done. rewrite length_app.
      specialize (IH []). unfold flush. destruct w; simpl; lia.
    + rewrite decide_False by (by rewrite <- list_elem_of_singleton). apply IH.
Qed.

Lemma fill_from_ok fuel s i arr :
  length s < fuel → i + length (cwords s) ≤ length arr →
  fill_from fuel s i arr =
    ns ← atoi_all (cwords s); Ok (take i arr ++ ns ++ drop (i + length ns) arr).
Proof.
  revert s i arr. induction fuel as [|fuel IH]; intros s i arr Hf Hl; [lia|].
  cbn [fill_from]. pose proof (strtok_words [COMMA] s) as Hw.
  destruct (strtok_r [COMMA] s) as [[w r]|].
  - destruct Hw as (E & Hlt & _). rewrite E in *. simpl in *. destruct (atoi w) as [n| | |]; simpl; try done.
    rewrite decide_True by lia. rewrite IH by (rewrite ?length_insert; lia).
    destruct (atoi_all (cwords r)) as [ns| | |]; simpl; try done. f_equal.
    assert (i < length arr) as Hi by lia.
    rewrite (take_S_r _ i n) by (by apply list_lookup_insert_eq). rewrite take_insert_ge by done.
    rewrite <- app_assoc. simpl. rewrite drop_insert_lt by lia. by rewrite Nat.add_succ_r.
  - rewrite Hw. simpl. rewrite Nat.add_0_r. by rewrite take_drop.
Qed.

Lemma tokenize_ok refstr :
  tokenize refstr =
    if decide (length refstr < 1024) then
      ns ← atoi_all (cwords refstr);
      Ok (fmt_d (Z.of_nat (S (commas refstr))) ++ lit " size allocated for ref array" ++ [NL],
          ns ++ replicate (S (commas refstr) - length ns) 0%Z)
    else Ub Overflow.
Proof.
  unfold tokenize, strcpy. case_decide; [|done]. pose proof (words_le_commas refstr).
  change (Ok ?x ≫= ?k) with (k x). cbv beta.
  rewrite fill_from_ok by (rewrite ?length_replicate; simpl; lia).
  destruct (atoi_all (cwords refstr)) as [ns| | |]; try done.
  change (Ok ?x ≫= ?k) with (k x). cbv beta. change (Ok ?x ≫= ?k) with (k x). cbv beta.
  by rewrite drop_replicate.
Qed.

(** [tokenize] reads the numbers between the commas into an array that is never too
    short for them; elements without a number stay 0; 1024 characters or more overflow
    its buffer. *)
Theorem tokenize_reads_numbers refstr :
  tokenize refstr =
    if decide (length refstr < 1024) then
      ns ← atoi_all (cwords refstr);
      Ok (fmt_d (Z.of_nat (S (commas refstr))) ++ lit " size allocated for ref array" ++ [NL],
          ns ++ replicate (S (commas refstr) - length ns) 0%Z)
    else Ub Overflow.
Proof. exact (tokenize_ok refstr). Qed.

(** The reference string for some pages. *)
Definition refstr_of (ns : list Z) : bytes :=
  match ns with [] => [] | n :: ns' => fmt_d n ++ mjoin ((λ n, COMMA :: fmt_d n) <$> ns') end.

Lemma words_clean w s a : Forall (λ c, c ≠ COMMA) w → words_from [COMMA] a (w ++ s) = words_from [COMMA] (a ++ w) s.
Proof.
  intros Hw. revert a. induction Hw as [|c w Hc _ IH]; intros a; simpl; [by rewrite app_nil_r|].
  rewrite bool_decide_false by (by rewrite list_elem_of_singleton). by rewrite IH, <- app_assoc.
Qed.

Lemma fmt_d_clean n : fmt_d n ≠ [] ∧ Forall (λ c, c ≠ COMMA) (fmt_d n).
Proof.
  destruct (fmt_d_chars n) as [Hne Hf]. split; [done|]. eapply Forall_impl; [exact Hf|].
  intros c [->|Hc]; [done|]. by apply digit_not.
Qed.

Lemma words_refstr ns : cwords (refstr_of ns) = fmt_d <$> ns.
Proof.
  destruct ns as [|n ns]; [done|]. simpl. revert n. unfold words.
  induction ns as [|m ns IH]; intros n; destruct (fmt_d_clean n) as [Hne Hf].
  - rewrite words_clean by done. simpl. by destruct (fmt_d n).
  - rewrite words_clean by done. simpl. rewrite IH. by destruct (fmt_d n).
Qed.

Lemma commas_refstr n ns : commas (refstr_of (n :: ns)) = length ns.
Proof.
  assert (Hz : ∀ n, filter (λ c, c = COMMA) (fmt_d n) = []).
  { intros k. destruct (fmt_d_clean k) as [_ Hf]. induction Hf as [|c w Hc _ IH]; [done|].
    by rewrite filter_cons_False. }
  simpl. rewrite filter_app, Hz. simpl. induction ns as [|m ns IH]; [done|].
  rewrite fmap_cons, mjoin_cons, filter_app, filter_cons_True, Hz by done. simpl. by rewrite IH.
Qed.

Lemma atoi_all_fmt ns : Forall (λ n, int_min ≤ n ≤ int_max)%Z ns → atoi_all (fmt_d <$> ns) = Ok ns.
Proof.
  induction 1 as [|n ns Hn _ IH]; [done|]. rewrite fmap_cons. cbn [atoi_all]. rewrite atoi_fmt_d by done. change (Ok ?x ≫= ?k) with (k x). cbv beta.
  by rewrite IH.
Qed.

Lemma tokenize_refstr ns :
  ns ≠ [] → Forall (λ n, int_min ≤ n ≤ int_max)%Z ns → length (refstr_of ns) < 1024 →
  tokenize (refstr_of ns) =
    Ok (fmt_d (Z.of_nat (length ns)) ++ lit " size allocated for ref array" ++ [NL], ns).
Proof.
  intros Hne Hns Hl. destruct ns as [|n ns]; [done|].
  assert (E : atoi_all (cwords (refstr_of (n :: ns))) = Ok (n :: ns))
    by (rewrite words_refstr; by apply atoi_all_fmt).
  rewrite tokenize_ok, decide_True by done. rewrite E.
  rewrite commas_refstr. change (Ok ?x ≫= ?k) with (k x). cbv beta. cbn [length].
  by rewrite Nat.sub_diag, app_nil_r.
Qed.

(** a reference string that is printed from page numbers is read back as them, with
    its length announced. *)
Theorem tokenize_roundtrip ns :
  ns ≠ [] → Forall (λ n, int_min ≤ n ≤ int_max)%Z ns → length (refstr_of ns) < 1024 →
  tokenize (refstr_of ns) =
    Ok (fmt_d (Z.of_nat (length ns)) ++ lit " size allocated for ref array" ++ [NL], ns).
Proof. exact (tokenize_refstr ns). Qed.

(** ** The FIFO run *)
Lemma print_from_ok arr : 0%Z ∈ arr → ∃ out, print_from arr = Ok out.
Proof.
  induction arr as [|p arr IH]; intros Hin; [by apply elem_of_nil in Hin|]. cbn [print_from].
  case_decide as Hp; [eauto|]. apply elem_of_cons in Hin as [E|Hin]; [congruence|].
  destruct (IH Hin) as [out ->]. eexists. reflexivity.
Qed.

Lemma print_from_beyond arr : 0%Z ∉ arr → print_from arr = Ub BadAccess.
Proof.
  induction arr as [|p arr IH]; intros Hin; [done|]. apply not_elem_of_cons in Hin as [Hp Hin].
  cbn [print_from]. rewrite decide_False by congruence. by rewrite IH.
Qed.

Lemma initFIFO_ok h :
  budget h = None →
  ∃ h', initFIFO None h = Ok (tt, h') ∧ size (cells h') = S (size (cells h)).
Proof.
  intros Hb. unfold initFIFO. do 2 mstep. pose proof (fresh_loc_fresh h) as Hf.
  eexists. split; [by eapply set_tail_ok; mem_solve|]. simpl.
  rewrite !insert_insert_eq. by rewrite map_size_insert_None.
Qed.

(** C32: the FIFO run never counts a page fault. A string that starts with page 0 is
    an empty one, and the queue that was made for it is lost; one with a later page 0
    dereferences the queue that the caller never got; one without page 0 makes
    [printarr] read beyond the array. *)
Theorem FIFO_outcomes h ns frameSize :
  budget h = None → ns ≠ [] → Forall (λ n, int_min ≤ n ≤ int_max)%Z ns → length (refstr_of ns) < 1024 →
  (∀ ns', ns = 0%Z :: ns' → ∃ h',
     FIFO (refstr_of ns) frameSize h =
       Ok (fmt_d (Z.of_nat (length ns)) ++ lit " size allocated for ref array" ++ [NL] ++ [NL] ++ lit "pf: 0", h') ∧
     size (cells h') = S (size (cells h))) ∧
  (head ns ≠ Some 0%Z → 0%Z ∈ ns → FIFO (refstr_of ns) frameSize h = Ub NullDeref) ∧
  (0%Z ∉ ns → FIFO (refstr_of ns) frameSize h = Ub BadAccess).
Proof.
  intros Hb Hne Hns Hl. destruct (initFIFO_ok h Hb) as (h1 & Hi & Hsz).
  pose proof (tokenize_refstr ns Hne Hns Hl) as Ht. unfold FIFO.
  set (t := fmt_d (Z.of_nat (length ns)) ++ lit " size allocated for ref array" ++ [NL]) in *.
  split_and!.
  - intros ns' ->. exists h1. split; [|done]. erewrite bind_Ok by by apply lift_Ok. cbv beta.
    erewrite bind_Ok by exact Hi. cbv beta. erewrite bind_Ok by by apply lift_Ok. cbv beta.
    erewrite bind_Ok by done.
    change (Ok (t ++ [NL] ++ lit "pf: 0", h1) = Ok (fmt_d (Z.of_nat (length (0%Z :: ns'))) ++
      lit " size allocated for ref array" ++ [NL] ++ [NL] ++ lit "pf: 0", h1)).
    unfold t. by rewrite <- !app_assoc.
  - intros Hh Hin. destruct (print_from_ok ns Hin) as [out Hp].
    erewrite bind_Ok by by apply lift_Ok. cbv beta. erewrite bind_Ok by exact Hi. cbv beta.
    erewrite bind_Ok by (apply lift_Ok; exact Hp). cbv beta. apply bind_Ub. cbn [snd].
    destruct ns as [|n ns]; [done|]. cbn [add_pages]. rewrite decide_False by (intros ->; by apply Hh).
    by apply bind_Ub.
  - intros Hin. erewrite bind_Ok by by apply lift_Ok. cbv beta. erewrite bind_Ok by exact Hi. cbv beta.
    apply bind_Ub. unfold lift, printarr. cbn [snd]. by rewrite print_from_beyond.
Qed.

(** ** Witnesses *)
Definition demo_heap : heap blk := Heap {[1%positive := Hdr None None (Some 0%Z)]} None.
Lemma demo_queue : queue demo_heap 1%positive [] ∅.
Proof.
  exists []. split; [|done]. constructor; [constructor|..]; try done.
  - constructor.
  - apply NoDup_singleton.
Qed.

Lemma queue_refines_list_witness :
  ∃ h', run_dops (Some 1%positive) [DTail 1; DTail 2; DHead 3; DRemove] demo_heap = Ok ([2%Z], h') ∧
    queue h' 1%positive [3%Z; 1%Z] ∅.
Proof.
  refine (queue_refines_list demo_heap 1%positive [] ∅ [DTail 1; DTail 2; DHead 3; DRemove] demo_queue _).
  by vm_compute.
Defined.

Lemma tokenize_roundtrip_witness :
  tokenize (lit "7,-12,0") = Ok (lit "3 size allocated for ref array" ++ [NL], [7; -12; 0]%Z).
Proof.
  refine (tokenize_roundtrip [7; -12; 0]%Z _ _ _).
  - done.
  - apply (bool_decide_unpack _). vm_compute. exact I.
  - apply (bool_decide_unpack _). vm_compute. exact I.
Defined.

Lemma FIFO_outcomes_witness : FIFO (lit "7,0,3") 4 demo_heap = Ub NullDeref.
Proof.
  refine (proj1 (proj2 (FIFO_outcomes demo_heap [7; 0; 3]%Z 4 eq_refl _ _ _)) _ _).
  - done.
  - apply (bool_decide_unpack _). vm_compute. exact I.
  - apply (bool_decide_unpack _). vm_compute. exact I.
  - done.
  - right. left.
Defined.
