(* ===== verification/Arrays.v ===== *)
(** * The array exercises

    calc/LeetCode/rotate.c, calc/LeetCode/rob.c (which lists primes) and 2darray/arr.c:
    arrays that are read and written by index. *)

From Stdlib Require Import Ascii Znumtheory.
From stdpp Require Import base strings numbers list.
From S2P Require Import Prelude CString Text.
Local Open Scope nat_scope.

(** ** Arrays *)
Section array.
Context {A : Type}.
Abbreviation Ar := (M (list A)).

Definition get (i : Z) : Ar A := λ arr,
  if decide (0 ≤ i)%Z then
    match arr !! Z.to_nat i with Some a => Ok (a, arr) | None => Ub BadAccess end
  else Ub BadAccess.
Definition set (i : Z) (a : A) : Ar unit := λ arr,
  if decide (0 ≤ i < Z.of_nat (length arr))%Z then Ok (tt, <[Z.to_nat i:=a]> arr) else Ub BadAccess.

Lemma get_ok (arr : list A) i a : arr !! i = Some a → get (Z.of_nat i) arr = Ok (a, arr).
Proof. intros E. unfold get. rewrite decide_True by lia. by rewrite Nat2Z.id, E. Qed.

Lemma set_ok (arr : list A) i a : i < length arr → set (Z.of_nat i) a arr = Ok (tt, <[i:=a]> arr).
Proof. intros E. unfold set. rewrite decide_True by lia. by rewrite Nat2Z.id. Qed.
End array.

(** [for (i = from; i < from + n; i++) body(i);] *)
Fixpoint for_up {St} (n : nat) (from : Z) (body : Z → M St unit) : M St unit :=
  match n with O => mret tt | S n' => body from;; for_up n' (from + 1) body end.

(** [for (i = n; i > 0; i--) body(i);] *)
Fixpoint for_down {St} (n : nat) (body : Z → M St unit) : M St unit :=
  match n with O => mret tt | S n' => body (Z.of_nat n);; for_down n' body end.

(** A loop with an invariant. *)
Lemma for_up_inv {St} (I : nat → St → Prop) n from (body : Z → M St unit) s :
  I 0 s →
  (∀ i s, i < n → I i s → ∃ s', body (from + Z.of_nat i)%Z s = Ok (tt, s') ∧ I (S i) s') →
  ∃ s', for_up n from body s = Ok (tt, s') ∧ I n s'.
Proof.
  revert I from s. induction n as [|n IH]; intros I from s H0 Hstep; [by exists s|].
  destruct (Hstep 0 s ltac:(lia) H0) as (s1 & H1 & HI). rewrite Z.add_0_r in H1.
  destruct (IH (λ i, I (S i)) (from + 1)%Z s1 HI) as (s' & H2 & HI2).
  - intros i s2 Hi Hs2. destruct (Hstep (S i) s2 ltac:(lia) Hs2) as (s3 & H3 & HI3).
    exists s3. split; [|done]. rewrite <- H3. f_equal. lia.
  - exists s'. split; [|done]. simpl. by erewrite bind_Ok by exact H1.
Qed.

(** ** calc/LeetCode/rotate.c *)
Module Rotate.
(** [printarr(arr, l)]: the text *)
Fixpoint print_elems (n : nat) (i : Z) : M (list Z) bytes :=
  match n with
  | O => mret []
  | S n' => a ← get i; rest ← print_elems n' (i + 1); mret (fmt_d a ++ lit " " ++ rest)
  end.
Definition printarr (l : Z) : M (list Z) bytes :=
  s ← print_elems (Z.to_nat l) 0; mret ([NL] ++ s ++ [NL]).

(** [pushArr(arr, l)] *)
Definition pushArr (l : Z) : M (list Z) unit :=
  last ← get (l - 1);
  for_down (Z.to_nat (l - 1)) (λ i, a ← get (i - 1); set i a);;
  set 0 last.

(** [rotate(nums, numsSize, k)] does not look at [k]. *)
Definition rotate (numsSize k : Z) : M (list Z) bytes :=
  pushArr numsSize;; printarr numsSize.

(** One step of the first loop of [rotateIt]: [j], [temp] with elements that are not
    initialised. *)
Definition spread (nums : list Z) (l k : Z) (i : Z) : M (Z * list (option Z)) unit := λ st,
  let '(j, temp) := st in
  a ← get i nums;
  if decide (l ≤ i + k)%Z then p ← set j (Some a.1) temp; Ok (tt, ((j + 1)%Z, p.2))
  else p ← set (i + k) (Some a.1) temp; Ok (tt, (j, p.2)).

(** [nums[i] = temp[i]] *)
Definition copy_back (temp : list (option Z)) (i : Z) : M (list Z) unit :=
  p ← lift (get i temp);
  match p.1 with Some a => set i a | None => fail_ub Uninit end.

(** [rotateIt(nums, numsSize, k)] *)
Definition rotateIt (numsSize k : Z) : M (list Z) bytes :=
  if decide (k = 0%Z) then fail_ub IntOverflow
  else
    let k := Z.rem numsSize k in
    nums ← get_state;
    st ← lift (for_up (Z.to_nat numsSize) 0 (spread nums numsSize k)
                (0%Z, replicate (Z.to_nat numsSize) None));
    for_up (Z.to_nat numsSize) 0 (copy_back st.2.2);;
    printarr numsSize.

(** [main]: its status and what it prints. *)
Definition main : outcome (Z * bytes) :=
  r ← rotate 3 2 [1; 2; 3]%Z; Ok (0%Z, r.1).

(** ** What they do *)
Lemma shift_ok n (arr : list Z) :
  n < length arr →
  for_down n (λ i, a ← get (i - 1); set i a) arr = Ok (tt, take 1 arr ++ take n arr ++ drop (S n) arr).
Proof.
  revert arr. induction n as [|n IH]; intros arr Hl.
  { simpl. by rewrite take_drop. }
  destruct (lookup_lt_is_Some_2 arr n ltac:(lia)) as [a Ha]. cbn [for_down].
  erewrite bind_Ok.
  2:{ replace (Z.of_nat (S n) - 1)%Z with (Z.of_nat n) by lia.
      erewrite bind_Ok by by apply get_ok. cbv beta. by apply set_ok. }
  cbv beta. rewrite IH by (rewrite length_insert; lia).
  rewrite !take_insert_ge by lia. rewrite (take_S_r _ _ _ Ha).
  rewrite (drop_S _ a (S n)) by by apply list_lookup_insert_eq.
  rewrite drop_insert_lt by lia. by rewrite <- !app_assoc.
Qed.

Lemma pushArr_ok front x :
  pushArr (Z.of_nat (length (front ++ [x]))) (front ++ [x]) = Ok (tt, x :: front).
Proof.
  unfold pushArr. rewrite length_app. simpl.
  replace (Z.of_nat (length front + 1) - 1)%Z with (Z.of_nat (length front)) by lia.
  erewrite bind_Ok by (apply get_ok; by rewrite lookup_app_r, Nat.sub_diag).
  cbv beta. rewrite Nat2Z.id. erewrite bind_Ok by (apply shift_ok; rewrite length_app; simpl; lia).
  cbv beta. rewrite (drop_ge (front ++ [x])) by (rewrite length_app; simpl; lia).
  rewrite take_app_length, app_nil_r. destruct front as [|y front]; simpl.
  - apply (set_ok [x] 0 x). simpl. lia.
  - apply (set_ok (y :: y :: front) 0 x). simpl. lia.
Qed.

(** Where [rotateIt] puts element [m]. *)
Definition target (l r m : nat) : nat := if decide (l ≤ m + r) then m + r - l else m + r.

Lemma target_inj l r m m' : r ≤ l → m < l → m' < l → target l r m = target l r m' → m = m'.
Proof. unfold target. repeat case_decide; lia. Qed.

Definition spread_inv (nums : list Z) (r i : nat) (st : Z * list (option Z)) : Prop :=
  st.1 = Z.of_nat (i + r - length nums) ∧ length st.2 = length nums ∧
  ∀ m a, m < i → nums !! m = Some a → st.2 !! target (length nums) r m = Some (Some a).

Lemma spread_ok nums r i st :
  r ≤ length nums → i < length nums → spread_inv nums r i st →
  ∃ st', spread nums (Z.of_nat (length nums)) (Z.of_nat r) (0 + Z.of_nat i) st = Ok (tt, st') ∧
    spread_inv nums r (S i) st'.
Proof.
  intros Hr Hi (Hj & Hl & Ht). destruct st as [j temp]. simpl in Hj, Hl, Ht. subst j.
  destruct (lookup_lt_is_Some_2 nums i Hi) as [a Ha]. unfold spread. rewrite Z.add_0_l.
  rewrite (get_ok _ _ _ Ha). change (Ok ?x ≫= ?k) with (k x). cbv beta. cbn [fst snd].
  assert (Hinv : spread_inv nums r (S i) (Z.of_nat (S i + r - length nums),
    <[target (length nums) r i:=Some a]> temp)).
  { split_and!; simpl; [done|by rewrite length_insert|]. intros m b Hm Hb.
    destruct (decide (m = i)) as [->|Hne].
    - rewrite list_lookup_insert_eq by (rewrite Hl; unfold target; case_decide; lia). congruence.
    - rewrite list_lookup_insert_ne; [apply Ht; [lia|done]|].
      intros E. apply Hne. symmetry. apply (target_inj (length nums) r); lia. }
  unfold target in Hinv at 1. case_decide as Hw; case_decide as Hw'; try lia.
  - replace (Z.of_nat (i + r - length nums)) with (Z.of_nat (i + r - length nums)) by done.
    rewrite set_ok by lia. change (Ok ?x ≫= ?k) with (k x). cbv beta. cbn [fst snd].
    eexists. split; [done|]. by replace (Z.of_nat (i + r - length nums) + 1)%Z
      with (Z.of_nat (S i + r - length nums)) by lia.
  - rewrite <- Nat2Z.inj_add, set_ok by lia. change (Ok ?x ≫= ?k) with (k x). cbv beta. cbn [fst snd].
    eexists. split; [done|]. by replace (i + r - length nums) with (S i + r - length nums) by lia.
Qed.

(** [l] rotated to the right by [r]. *)
Definition rotated {A} (r : nat) (l : list A) : list A := drop (length l - r) l ++ take (length l - r) l.

Lemma length_rotated {A} r (l : list A) : length (rotated r l) = length l.
Proof. unfold rotated. rewrite length_app, length_drop, length_take. lia. Qed.

Lemma rotated_target {A} r (l : list A) m : r ≤ length l → m < length l → rotated r l !! target (length l) r m = l !! m.
Proof.
  intros Hr Hm. unfold rotated, target. case_decide.
  - rewrite lookup_app_l by (rewrite length_drop; lia). rewrite lookup_drop. f_equal. lia.
  - rewrite lookup_app_r by (rewrite length_drop; lia). rewrite length_drop, lookup_take_lt by lia.
    f_equal. lia.
Qed.

Lemma target_surj l r q : r ≤ l → q < l → ∃ m, m < l ∧ target l r m = q.
Proof.
  intros Hr Hq. destruct (decide (q < r)).
  - exists (q + l - r). unfold target. rewrite decide_True by lia. lia.
  - exists (q - r). unfold target. rewrite decide_False by lia. lia.
Qed.

Lemma spread_all nums r :
  r ≤ length nums →
  ∃ j, for_up (length nums) 0 (spread nums (Z.of_nat (length nums)) (Z.of_nat r))
         (0%Z, replicate (length nums) None) = Ok (tt, (j, Some <$> rotated r nums)).
Proof.
  intros Hr. destruct (for_up_inv (spread_inv nums r) (length nums) 0
    (spread nums (Z.of_nat (length nums)) (Z.of_nat r)) (0%Z, replicate (length nums) None)) as (st & H & Hi).
  - split_and!; simpl; [lia|by rewrite length_replicate|lia].
  - intros i s Hlt Hs. by apply spread_ok.
  - destruct st as [j temp]. destruct Hi as (_ & Hl & Ht). simpl in Hl, Ht. exists j. rewrite H. do 3 f_equal.
    apply list_eq. intros q. destruct (decide (q < length nums)) as [Hq|Hq].
    + destruct (target_surj (length nums) r q Hr Hq) as (m & Hm & <-).
      destruct (lookup_lt_is_Some_2 nums m Hm) as [a Ha].
      rewrite (Ht m a Hm Ha), list_lookup_fmap, rotated_target, Ha by done. done.
    + rewrite !lookup_ge_None_2; [done|rewrite length_fmap, length_rotated; lia|lia].
Qed.

Lemma copy_back_all nums vs :
  length vs = length nums →
  for_up (length nums) 0 (copy_back (Some <$> vs)) nums = Ok (tt, vs).
Proof.
  intros Hl. destruct (for_up_inv (λ i a, a = take i vs ++ drop i nums) (length nums) 0
    (copy_back (Some <$> vs)) nums) as (s & H & ->).
  - done.
  - intros i s Hi ->. destruct (lookup_lt_is_Some_2 vs i ltac:(lia)) as [a Ha].
    unfold copy_back. rewrite Z.add_0_l. erewrite bind_Ok.
    2:{ apply lift_Ok, get_ok. by rewrite list_lookup_fmap, Ha. }
    cbv beta. cbn [fst]. eexists. split.
    + apply set_ok. rewrite length_app, length_take, length_drop. lia.
    + destruct (lookup_lt_is_Some_2 nums i Hi) as [b Hb].
      rewrite (take_S_r _ _ _ Ha), <- app_assoc, (drop_S nums b i Hb).
      assert (length (take i vs) = i) as Ht by (rewrite length_take; lia).
      rewrite insert_app_r_alt by lia. by rewrite Ht, Nat.sub_diag.
  - rewrite H. by rewrite drop_ge, app_nil_r, take_ge by lia.
Qed.

Lemma print_elems_ok pre l post :
  print_elems (length l) (Z.of_nat (length pre)) (pre ++ l ++ post) =
    Ok (mjoin ((λ a, fmt_d a ++ lit " ") <$> l), pre ++ l ++ post).
Proof.
  revert pre. induction l as [|a l IH]; intros pre; [done|]. cbn [length print_elems].
  erewrite bind_Ok by (apply get_ok; rewrite lookup_app_r, Nat.sub_diag by lia; reflexivity). cbv beta.
  specialize (IH (pre ++ [a])). rewrite <- app_assoc, length_app in IH. cbn [length app] in IH.
  rewrite Nat2Z.inj_add in IH. erewrite bind_Ok by exact IH. cbv beta. rewrite fmap_cons, mjoin_cons.
  by rewrite <- app_assoc.
Qed.

(** The text of an array. *)
Definition shown (l : list Z) : bytes := [NL] ++ mjoin ((λ a, fmt_d a ++ lit " ") <$> l) ++ [NL].

Lemma printarr_ok l : printarr (Z.of_nat (length l)) l = Ok (shown l, l).
Proof.
  unfold printarr. rewrite Nat2Z.id. pose proof (print_elems_ok [] l []) as H.
  rewrite app_nil_r in H. simpl in H. by erewrite bind_Ok by exact H.
Qed.

Lemma rotateIt_ok nums k :
  rotateIt (Z.of_nat (length nums)) k nums =
    if decide (k = 0%Z) then Ub IntOverflow
    else let res := rotated (Z.to_nat (Z.rem (Z.of_nat (length nums)) k)) nums in Ok (shown res, res).
Proof.
  unfold rotateIt. case_decide as Hk; [done|]. set (n := Z.of_nat (length nums)).
  assert (0 ≤ Z.rem n k ≤ n)%Z as Hrem.
  { pose proof (Z.rem_nonneg n k Hk ltac:(lia)). split; [done|].
    pose proof (Z.rem_le n (Z.abs k) ltac:(lia) ltac:(lia)). by rewrite Z.rem_abs_r in *. }
  set (r := Z.to_nat (Z.rem n k)). replace (Z.rem n k) with (Z.of_nat r) by lia.
  erewrite bind_Ok by done. cbv beta. destruct (spread_all nums r ltac:(lia)) as [j Hs].
  unfold n. rewrite Nat2Z.id. erewrite bind_Ok by by apply lift_Ok. cbv beta. cbn [snd].
  erewrite bind_Ok by (apply copy_back_all, length_rotated). cbv beta zeta.
  rewrite <- (length_rotated r nums) at 1. apply printarr_ok.
Qed.

Lemma rotate_ok nums k :
  rotate (Z.of_nat (length nums)) k nums =
    match last nums with
    | None => Ub BadAccess
    | Some x => let res := x :: removelast nums in Ok (shown res, res)
    end.
Proof.
  destruct nums as [|x front _] using rev_ind; [done|]. rewrite last_snoc, removelast_last.
  unfold rotate. erewrite bind_Ok by apply pushArr_ok. cbv beta zeta.
  replace (length (front ++ [x])) with (length (x :: front)) by (rewrite length_app; simpl; lia).
  apply printarr_ok.
Qed.

(** C33: [rotateIt] rotates the array to the right by the remainder of its size by [k] (not of
    [k] by its size), and divides by zero for [k] = 0; [rotate] moves the last element
    to the front, once, for every [k], and reads before the start of an empty array. *)
Theorem rotations nums k :
  rotateIt (Z.of_nat (length nums)) k nums =
    (if decide (k = 0%Z) then Ub IntOverflow
     else let res := rotated (Z.to_nat (Z.rem (Z.of_nat (length nums)) k)) nums in Ok (shown res, res)) ∧
  rotate (Z.of_nat (length nums)) k nums =
    match last nums with
    | None => Ub BadAccess
    | Some x => let res := x :: removelast nums in Ok (shown res, res)
    end.
Proof. split; [apply rotateIt_ok|apply rotate_ok]. Qed.
End Rotate.

(** ** calc/LeetCode/rob.c *)
Module Primes.
(** The array, the number of elements in use, and the text. *)
Record st := St { arr : list (option Z); p : Z; out : bytes }.

(** [for (j = from; j < i; j++)] until [break] *)
Fixpoint divisors (n : nat) (i j : Z) : M st unit :=
  match n with
  | O => mret tt
  | S n' =>
      if decide (Z.rem i j = 0%Z) then mret tt
      else
        (if decide (j = i - 1)%Z then
           (* [if (i % j != 0)] again *)
           λ s, q ← set (p s) (Some i) (arr s);
                Ok (tt, St q.2 (p s + 1) (out s ++ lit " " ++ fmt_d i ++ lit " "))
         else mret tt);;
        divisors n' i (j + 1)
  end.

(** [prime(N)] *)
Definition prime (N : Z) : outcome (list (option Z) * bytes) :=
  r ← for_up (Z.to_nat (N - 10)) 10 (λ i, divisors (Z.to_nat (i - 2)) i 2)
        (St (replicate (Z.to_nat N) None) 0 []);
  Ok (arr r.2, out r.2).

Definition main : outcome (Z * bytes) := r ← prime 15; Ok (0%Z, r.2).
(** ** What it does *)
#[export] Instance prime_decision n : Decision (Znumtheory.prime n) := prime_dec n.

(** What a prime adds. *)
Definition record (i : Z) (s : st) : st :=
  St (<[Z.to_nat (p s):=Some i]> (arr s)) (p s + 1) (out s ++ lit " " ++ fmt_d i ++ lit " ").

Lemma divisors_ok n i j s :
  (2 ≤ j)%Z → (i = j + Z.of_nat n)%Z → (0 ≤ p s < Z.of_nat (length (arr s)))%Z →
  (0 < n → (∀ d, (j ≤ d < i)%Z → Z.rem i d ≠ 0%Z) → divisors n i j s = Ok (tt, record i s)) ∧
  (n = 0 ∨ (∃ d, (j ≤ d < i)%Z ∧ Z.rem i d = 0%Z) → divisors n i j s = Ok (tt, s)).
Proof.
  revert j s. induction n as [|n IH]; intros j s Hj Hi Hp; [by split; [lia|]|].
  cbn [divisors]. split.
  - intros _ Hd. rewrite decide_False by (apply Hd; lia). destruct n as [|n].
    + rewrite decide_True by lia. erewrite bind_Ok; [done|]. unfold set. rewrite decide_True by done. done.
    + rewrite decide_False by lia. erewrite bind_Ok by done. cbv beta.
      apply (IH (j + 1)%Z s); [lia|lia|done|lia|]. intros d Hd'. apply Hd. lia.
  - intros [?|(d & Hd & Hr)]; [lia|]. case_decide as Hz; [done|].
    assert (d ≠ j) by (intros ->; done). rewrite decide_False by lia. erewrite bind_Ok by done. cbv beta.
    apply (IH (j + 1)%Z s); [lia|lia|done|]. right. exists d. split; [lia|done].
Qed.

Lemma not_prime_divisor i : (2 ≤ i)%Z → ¬ Znumtheory.prime i → ∃ d, (2 ≤ d < i)%Z ∧ Z.rem i d = 0%Z.
Proof.
  intros Hi Hn. apply not_prime_divide in Hn as (d & Hd & Hdiv); [|lia]. exists d. split; [lia|].
  apply Z.rem_divide; [lia|done].
Qed.

Lemma prime_no_divisor i d : Znumtheory.prime i → (2 ≤ d < i)%Z → Z.rem i d ≠ 0%Z.
Proof.
  intros [_ Hp]%prime_alt Hd Hr. apply (Hp d); [lia|]. by apply Z.rem_divide; [lia|].
Qed.

(** The primes from 10 on, below a bound. *)
Definition primes_below (N : Z) : list Z := filter Znumtheory.prime (seqZ 10 (N - 10)).

Definition prime_text (ps : list Z) : bytes := mjoin ((λ i, lit " " ++ fmt_d i ++ lit " ") <$> ps).

(** After the numbers up to [10 + i]. *)
Definition primes_inv (N : Z) (i : nat) (s : st) : Prop :=
  let ps := primes_below (10 + Z.of_nat i) in
  p s = Z.of_nat (length ps) ∧ out s = prime_text ps ∧
  arr s = (Some <$> ps) ++ replicate (Z.to_nat N - length ps) None.

Lemma primes_below_length N : length (primes_below N) ≤ Z.to_nat (N - 10).
Proof. unfold primes_below. etrans; [apply length_filter|]. by rewrite length_seqZ. Qed.

Lemma primes_step i :
  primes_below (10 + Z.of_nat (S i)) =
    primes_below (10 + Z.of_nat i) ++ (if decide (Znumtheory.prime (10 + Z.of_nat i)) then [(10 + Z.of_nat i)%Z] else []).
Proof.
  unfold primes_below. replace (10 + Z.of_nat (S i) - 10)%Z with (Z.of_nat (S i)) by lia.
  replace (10 + Z.of_nat i - 10)%Z with (Z.of_nat i) by lia.
  by rewrite seqZ_S, filter_app.
Qed.
Lemma prime_outer_ok N i s :
  i < Z.to_nat (N - 10) → primes_inv N i s →
  ∃ s', divisors (Z.to_nat (10 + Z.of_nat i - 2)) (10 + Z.of_nat i) 2 s = Ok (tt, s') ∧ primes_inv N (S i) s'.
Proof.
  intros Hi (Hp & Ho & Ha). set (n := (10 + Z.of_nat i)%Z) in *. set (ps := primes_below n) in *.
  assert (Hlen : length ps ≤ i).
  { pose proof (primes_below_length n). fold ps in H. lia. }
  assert (Hlp : (0 ≤ p s < Z.of_nat (length (arr s)))%Z).
  { rewrite Ha, Hp, length_app, length_fmap, length_replicate. lia. }
  destruct (divisors_ok (Z.to_nat (n - 2)) n 2 s ltac:(lia) ltac:(lia) Hlp) as [Hyes Hno].
  unfold primes_inv. rewrite primes_step. fold n. fold ps. case_decide as Hpr.
  - exists (record n s). split; [apply Hyes; [lia|]; intros d Hd; by apply prime_no_divisor|].
    unfold record. simpl. split_and!.
    + rewrite Hp, length_app. simpl. lia.
    + unfold prime_text. rewrite Ho, fmap_app. unfold prime_text. rewrite join_app. simpl. by rewrite app_nil_r.
    + rewrite Ha, Hp, Nat2Z.id, length_app, fmap_app, <- app_assoc. simpl.
      rewrite insert_app_r_alt, length_fmap, Nat.sub_diag by (by rewrite length_fmap).
      replace (Z.to_nat N - length ps) with (S (Z.to_nat N - (length ps + 1))) by lia. done.
  - exists s. rewrite app_nil_r. split; [|done]. apply Hno. right. apply not_prime_divisor; [lia|done].
Qed.

Lemma prime_ok N :
  prime N = Ok ((Some <$> primes_below N) ++ replicate (Z.to_nat N - length (primes_below N)) None,
                prime_text (primes_below N)).
Proof.
  unfold prime.
  destruct (for_up_inv (primes_inv N) (Z.to_nat (N - 10)) 10 (λ i, divisors (Z.to_nat (i - 2)) i 2)
    (St (replicate (Z.to_nat N) None) 0 [])) as (s' & H & Hp & Ho & Ha).
  - split_and!; [done|done|]. simpl. by rewrite Nat.sub_0_r.
  - intros i s Hi Hs. by apply prime_outer_ok.
  - rewrite H. change (Ok ?x ≫= ?k) with (k x). cbv beta. cbn [snd]. rewrite Ha, Ho.
    assert (primes_below (10 + Z.of_nat (Z.to_nat (N - 10))) = primes_below N) as ->; [|done].
    destruct (decide (10 ≤ N)%Z); [f_equal; lia|].
    unfold primes_below. by rewrite !seqZ_nil by lia.
Qed.

(** C34: [prime(N)] writes exactly the primes from 10 to N - 1 into the array, in order, within
    its bounds, and prints them; the rest of the array stays uninitialised. *)
Theorem prime_lists_primes N :
  prime N = Ok ((Some <$> primes_below N) ++ replicate (Z.to_nat N - length (primes_below N)) None,
                prime_text (primes_below N)) ∧
  (∀ n, n ∈ primes_below N ↔ (10 ≤ n < N)%Z ∧ Znumtheory.prime n).
Proof.
  split; [apply prime_ok|]. intros n. unfold primes_below. rewrite list_elem_of_filter, elem_of_seqZ.
  split; [|intros [? ?]; split; [done|lia]]. intros [? ?]. split; [lia|done].
Qed.
End Primes.

(** ** 2darray/arr.c *)
Module Strings.
(** [buf] with the NULLs of calloc, [cur_put], [cur_get]. *)
Record st := St { buf : list (option bytes); cur_put : nat; cur_get : nat }.

(** [put(str, buf)]: the text. *)
Definition put (str : bytes) : M st bytes := λ s,
  if decide (cur_put s < length (buf s)) then
    Ok ([NL] ++ str ++ lit " -> was placed into the buffer",
        St (<[cur_put s:=Some str]> (buf s)) (S (cur_put s)) (cur_get s))
  else Ub BadAccess.

(** [getitem(buf)]: [None] is NULL. *)
Definition getitem : M st (option bytes) := λ s,
  if decide (cur_put s ≤ cur_get s) then Ok (None, s)
  else match buf s !! cur_get s with
       | Some str => Ok (str, St (buf s) (cur_put s) (S (cur_get s)))
       | None => Ub BadAccess
       end.

(** [printf("\n%s", getitem(buffer))] *)
Definition print_item : M st bytes :=
  i ← getitem; match i with Some s => mret ([NL] ++ s) | None => fail_ub NullDeref end.

Fixpoint outputs {A} (f : A → M st bytes) (l : list A) : M st bytes :=
  match l with [] => mret [] | a :: l' => o ← f a; os ← outputs f l'; mret (o ++ os) end.

Definition init : st := St (replicate 10 None) 0 0.

(** [main]: what it prints. *)
Definition main : outcome bytes :=
  r ← (a ← outputs put [lit "String1"; lit "String2"; lit "String3"; lit "String4"; lit "String5"];
       b ← outputs (λ _ : nat, print_item) (seq 0 5);
       mret (a ++ b)) init;
  Ok r.1.

(** ** As a queue that is never emptied at its front *)
Inductive aop := APut (str : bytes) | AGet.

Definition run_aop (o : aop) : M st (list (option bytes)) :=
  match o with APut str => put str;; mret [] | AGet => i ← getitem; mret [i] end.
Fixpoint run_aops (os : list aop) : M st (list (option bytes)) :=
  match os with
  | [] => mret []
  | o :: os' => r ← run_aop o; rs ← run_aops os'; mret (r ++ rs)
  end.

(** [log]: the strings so far, [g]: how many of them were given out. *)
Fixpoint spec (os : list aop) (log : list bytes) (g : nat) : outcome (list (option bytes)) :=
  match os with
  | [] => Ok []
  | APut str :: os' => if decide (length log < 10) then spec os' (log ++ [str]) g else Ub BadAccess
  | AGet :: os' => rs ← spec os' log (if decide (g < length log) then S g else g); Ok ((log !! g) :: rs)
  end.

Definition holds (s : st) (log : list bytes) (g : nat) : Prop :=
  buf s = (Some <$> log) ++ replicate (10 - length log) None ∧ length log ≤ 10 ∧
  cur_put s = length log ∧ cur_get s = g ∧ g ≤ length log.

Lemma result_app (m : M st (list (option bytes))) r s :
  result ((rs ← m; mret (r ++ rs)) s) = (rs ← result (m s); Ok (r ++ rs)).
Proof. unfold mbind at 1, M_bind. by destruct (m s) as [[? ?]| | |]. Qed.

Lemma run_aops_spec os s log g : holds s log g → result (run_aops os s) = spec os log g.
Proof.
  revert s log g. induction os as [|o os IH]; intros s log g (Hb & Hl & Hp & Hg & Hle); [done|].
  assert (Hlen : length (buf s) = 10) by (rewrite Hb, length_app, length_fmap, length_replicate; lia).
  destruct o as [str|]; cbn [run_aops run_aop spec].
  - rewrite <- Hlen, <- Hp. case_decide as Hd.
    + rewrite <- (IH (St (<[cur_put s:=Some str]> (buf s)) (S (cur_put s)) (cur_get s)) (log ++ [str]) g).
      * erewrite bind_Ok.
        2:{ erewrite bind_Ok by (unfold put; by rewrite decide_True). cbv beta. done. }
        cbv beta. rewrite (result_app (run_aops os) []). by destruct (result _).
      * split_and!; simpl; try done; rewrite ?length_app; simpl; try lia.
        rewrite Hp, Hb, insert_app_r_alt, length_fmap, Nat.sub_diag by (by rewrite length_fmap).
        rewrite fmap_app, <- app_assoc. replace (10 - length log) with (S (10 - (length log + 1))) by lia. done.
    + unfold result. erewrite bind_Ub; [done|]. erewrite bind_Ub; [done|]. unfold put. by rewrite decide_False.
  - assert (Hget : getitem s = Ok (log !! g, if decide (g < length log) then St (buf s) (cur_put s) (S g) else s)).
    { unfold getitem. rewrite Hp, Hg. repeat case_decide; try lia; [by rewrite lookup_ge_None_2 by lia|].
      rewrite Hb, lookup_app_l, list_lookup_fmap by (rewrite length_fmap; lia).
      by destruct (lookup_lt_is_Some_2 log g ltac:(lia)) as [x ->]. }
    rewrite <- (IH (if decide (g < length log) then St (buf s) (cur_put s) (S g) else s) log
                  (if decide (g < length log) then S g else g)).
    + erewrite bind_Ok by by erewrite bind_Ok by exact Hget.
      cbv beta. apply (result_app (run_aops os) [_]).
    + case_decide; split_and!; simpl; try done; lia.
Qed.

(** [put] and [getitem] of arr.c give the strings out in the order in which they came and
    NULL when there is none; the array is for ten strings in all, not for ten that wait. *)
Theorem ten_strings_in_order os : result (run_aops os init) = spec os [] 0.
Proof. apply run_aops_spec. by split_and!; try done; simpl; lia. Qed.
End Strings.
