(* ===== verification/AddNums.v ===== *)
(** * calc/LeetCode/addNums.c

    Two numbers as lists of digits. The loop that adds them extends both lists whenever
    it reaches their ends, so that it has no way out. *)

From stdpp Require Import base list gmap fin_maps strings.
From S2P Require Import Prelude CString Text CMem.

(** [struct ListNode]: [val] is not initialised by malloc, nor is [next], which stays
    [None] there until it is set. *)
Record node := LNode { val : option Z; next : option ptr }.
Abbreviation C := (M (heap node)).

(** ** Fields *)
Definition get_val (p : ptr) : C Z :=
  b ← load p; match val b with Some v => mret v | None => fail_ub Uninit end.
Definition get_next (p : ptr) : C ptr :=
  b ← load p; match next b with Some q => mret q | None => fail_ub Uninit end.
Definition set_val (p : ptr) (v : Z) : C unit := b ← load p; store p (LNode (Some v) (next b)).
Definition set_next (p q : ptr) : C unit := b ← load p; store p (LNode (val b) (Some q)).
Definition new_node : C ptr := malloc (LNode None None).

(** ** The operations *)

(** [AddLink(val, head)] *)
Definition last_body (n : ptr) : C (ptr + ptr) :=
  nx ← get_next n; match nx with None => mret (inr n) | Some _ => mret (inl nx) end.
Definition AddLink (v : Z) (head : ptr) : C unit :=
  fuel ← live;
  n ← loop fuel last_body head;
  newNode ← new_node;
  set_next n newNode;;
  set_val newNode v;;
  set_next newNode None.

(** [AddVal(val, n)] *)
Definition AddVal (v : Z) (n : ptr) : C unit :=
  newNode ← new_node;
  set_next n newNode;;
  set_val newNode v;;
  set_next newNode None.

(** [if (n->next == NULL) { ... } else n = n->next;]: the next value of [n]. *)
Definition advance (n : ptr) : C ptr :=
  nx ← get_next n;
  match nx with
  | None =>
      q ← new_node; set_next n q;;
      set_val n 0;;
      q ← get_next n; set_next q None;;
      mret n
  | Some _ => mret nx
  end.

(** [(n == NULL) ? 0 : n->val] *)
Definition digit_of (n : ptr) : C Z := match n with None => mret 0%Z | Some _ => get_val n end.

(** The body of the loop; [cur] never moves. *)
Record vars := Vars { n1 : ptr; n2 : ptr; carry : Z; i : Z }.
Definition add_body (cur : ptr) (v : vars) : C (vars + unit) :=
  match n1 v, n2 v with
  | None, None => mret (inr tt)
  | _, _ =>
      val1 ← digit_of (n1 v);
      val2 ← digit_of (n2 v);
      sum ← lift (to_int (val1 + val2 + carry v));
      let carry := if decide (9 < sum)%Z then Z.rem sum 9 else 0%Z in
      (if decide (i v = 0%Z) then set_val cur (if decide (9 < sum)%Z then 9 else sum)
       else AddVal (if decide (9 < sum)%Z then sum - 9 else sum)%Z cur);;
      i ← lift (to_int (i v + 1));
      a ← advance (n1 v);
      b ← advance (n2 v);
      mret (inl (Vars a b carry i))
  end.

(** [addTwoNumbers(l1, l2)], with at most [fuel] rounds. *)
Definition addTwoNumbers (fuel : nat) (l1 l2 : ptr) : C ptr :=
  head ← new_node;
  loop fuel (add_body head) (Vars l1 l2 0 0);;
  mret head.

(** [ListOut(head)]: the text *)
Definition out_body (st : ptr * bytes) : C (ptr * bytes + bytes) :=
  match st.1 with
  | None => mret (inr st.2)
  | Some _ =>
      v ← get_val st.1; n ← get_next st.1;
      mret (inl (n, st.2 ++ lit " " ++ fmt_d v ++ lit " "))
  end.
Definition ListOut (head : ptr) : C bytes := fuel ← live; loop (S fuel) out_body (head, [NL]).

(** A list of one digit, then [AddLink] for the others. *)
Fixpoint links (n : nat) (v : Z) (l : ptr) : C unit :=
  match n with O => mret tt | S n' => AddLink v l;; links n' v l end.
Definition main (fuel : nat) : C (Z * bytes) :=
  l1 ← new_node;
  l2 ← new_node;
  set_val l1 9;; set_next l1 None;;
  set_val l2 9;; set_next l2 None;;
  links 5 9 l1;;
  links 3 9 l2;;
  r ← addTwoNumbers fuel l1 l2;
  out ← ListOut r;
  mret (0%Z, out).

(** ** The loop has no way out *)

Lemma get_next_ptr p q h h' : get_next p h = Ok (q, h') → p ≠ None.
Proof. intros H ->. done. Qed.

Lemma advance_not_null p q h h' : advance p h = Ok (q, h') → q ≠ None.
Proof.
  intros H. apply bind_inv in H as (nx & h1 & H1 & H2). apply get_next_ptr in H1.
  destruct nx as [x|]; [by injection H2 as <- _|].
  apply bind_inv in H2 as (? & ? & _ & H2). apply bind_inv in H2 as (? & ? & _ & H2).
  apply bind_inv in H2 as (? & ? & _ & H2). apply bind_inv in H2 as (? & ? & _ & H2).
  apply bind_inv in H2 as (? & ? & _ & H2). by injection H2 as <- _.
Qed.

Lemma add_body_goes_on cur v h r h' :
  n1 v ≠ None ∨ n2 v ≠ None → add_body cur v h = Ok (r, h') →
  ∃ v', r = inl v' ∧ n1 v' ≠ None ∧ n2 v' ≠ None.
Proof.
  intros Hv H. assert (Hg : ∃ v', r = inl v' ∧ n1 v' ≠ None ∧ n2 v' ≠ None); [|done].
  unfold add_body in H.
  destruct (n1 v), (n2 v); [| | |by destruct Hv].
  all: do 5 (apply bind_inv in H as (? & ? & _ & H); cbv beta zeta in H).
  all: apply bind_inv in H as (a & ? & Ha & H); apply bind_inv in H as (b & ? & Hb & H).
  all: apply advance_not_null in Ha, Hb; injection H as <- _; by eexists.
Qed.

Lemma add_loop_never fuel cur v h r h' :
  n1 v ≠ None ∨ n2 v ≠ None → loop fuel (add_body cur) v h ≠ Ok (r, h').
Proof.
  revert v h. induction fuel as [|fuel IH]; intros v h Hv; [done|]. cbn [loop]. intros H.
  apply bind_inv in H as (r1 & h1 & H1 & H2).
  destruct (add_body_goes_on _ _ _ _ _ Hv H1) as (v' & -> & Ha & Hb). revert H2. apply IH. by left.
Qed.

Lemma add_never fuel l1 l2 h r h' : l1 ≠ None ∨ l2 ≠ None → addTwoNumbers fuel l1 l2 h ≠ Ok (r, h').
Proof.
  intros Hl H. apply bind_inv in H as (head & h1 & _ & H). apply bind_inv in H as (u & h2 & H & _).
  revert H. by apply add_loop_never.
Qed.

Lemma main_uninitialised k : main (6 + k) empty_heap = Ub Uninit.
Proof. vm_compute. reflexivity. Qed.

(** C35: [addTwoNumbers] does not return for any numbers but two empty lists, whatever the
    memory and the number of rounds; main reads the digit of a node that it appended
    to the shorter number and never gave a value. *)
Theorem addTwoNumbers_never_returns :
  (∀ fuel l1 l2 h r h', l1 ≠ None ∨ l2 ≠ None → addTwoNumbers fuel l1 l2 h ≠ Ok (r, h')) ∧
  (∀ k, main (6 + k) empty_heap = Ub Uninit).
Proof. split; [exact add_never|exact main_uninitialised]. Qed.
