(* ===== verification/RaceCounter.v ===== *)
(** * The counter of all matches

    Every search thread of pardirlist_rev1.c and of Project2-5243528/pardirlist.c runs
    [totalMatches++] for each match that it finds, without a lock: it loads the counter, adds
    one in a register and stores the sum, and other threads run in between. *)

From stdpp Require Import base list relations.
From S2P Require Import Prelude.

(** A thread: the matches that it has still to count, and its register between the
    load and the store. *)
Record counting := Counting { left : nat; reg : option Z }.
Record race := Race { totalMatches : Z; threads : list counting }.

Inductive race_step : race → race → Prop :=
  | race_load i n t ts :
      ts !! i = Some (Counting (S n) None) →
      race_step (Race t ts) (Race t (<[i:=Counting (S n) (Some t)]> ts))
  | race_store i n r t ts :
      ts !! i = Some (Counting (S n) (Some r)) →
      race_step (Race t ts) (Race (r + 1) (<[i:=Counting n None]> ts)).

(** The threads will find [matches], and nothing has been counted. *)
Definition race_init (matches : list nat) : race := Race 0 ((λ k, Counting k None) <$> matches).
Definition race_over (s : race) : Prop := ∀ t, t ∈ threads s → left t = 0.

(** ** No more than the matches is counted *)
Definition to_count (s : race) : nat := sum_list (left <$> threads s).

Record race_inv (m : nat) (s : race) : Prop := {
  ri_left : to_count s ≤ m;
  ri_total : (0 ≤ totalMatches s ≤ Z.of_nat (m - to_count s))%Z;
  ri_some : to_count s < m → (1 ≤ totalMatches s)%Z;
  ri_regs : ∀ i t r, threads s !! i = Some t → reg t = Some r → (0 ≤ r ≤ Z.of_nat (m - to_count s))%Z;
}.

Lemma race_inv_init matches : race_inv (sum_list matches) (race_init matches).
Proof.
  assert (E : to_count (race_init matches) = sum_list matches).
  { unfold to_count, race_init. simpl. by rewrite <- list_fmap_compose, list_fmap_id. }
  constructor; rewrite ?E; simpl; try lia.
  intros i t r Hi. rewrite list_lookup_fmap in Hi. destruct (matches !! i); [|done]. by injection Hi as <-.
Qed.

Lemma race_inv_step m s s' : race_inv m s → race_step s s' → race_inv m s'.
Proof.
  intros [Hl Ht Hs Hr] Hst. destruct Hst as [i n t ts Hi|i n r t ts Hi]; unfold to_count in *; simpl in *.
  - pose proof (sum_list_fmap_insert left _ _ _ (Counting (S n) (Some t)) Hi) as E. simpl in E.
    constructor; unfold to_count; simpl; try lia.
    intros j u q Hj Hq. apply list_lookup_insert_Some in Hj as [(-> & <- & _)|[_ Hj]].
    + injection Hq as <-. lia.
    + specialize (Hr j u q Hj Hq). lia.
  - pose proof (sum_list_fmap_insert left _ _ _ (Counting n None) Hi) as E. simpl in E.
    pose proof (Hr i _ r Hi eq_refl). constructor; unfold to_count; simpl; try lia.
    intros j u q Hj Hq. apply list_lookup_insert_Some in Hj as [(-> & <- & _)|[_ Hj]]; [done|].
    specialize (Hr j u q Hj Hq). lia.
Qed.

Lemma race_inv_run m s s' : rtc race_step s s' → race_inv m s → race_inv m s'.
Proof. apply rtc_preserves. apply race_inv_step. Qed.

Lemma race_over_count s : race_over s → to_count s = 0.
Proof.
  unfold race_over, to_count. induction (threads s) as [|t ts IH]; intros Ho; [done|]. simpl.
  rewrite (Ho t) by left. apply IH. intros u Hu. apply Ho. by right.
Qed.

(** ** A thread that is not disturbed *)
Lemma race_alone j n t ts :
  ts !! j = Some (Counting n None) →
  ∀ k, k ≤ n → rtc race_step (Race t ts) (Race (t + Z.of_nat k) (<[j:=Counting (n - k) None]> ts)).
Proof.
  intros Hj. induction k as [|k IH]; intros Hk.
  - rewrite Nat.sub_0_r, Z.add_0_r, list_insert_id by done. apply rtc_refl.
  - etrans; [apply IH; lia|]. apply lookup_lt_Some in Hj as Hlt.
    replace (n - k) with (S (n - S k)) by lia. eapply rtc_l.
    { apply race_load with (i := j) (n := n - S k). by rewrite list_lookup_insert_eq. }
    rewrite list_insert_insert_eq. eapply rtc_l.
    { apply race_store with (i := j) (n := n - S k) (r := (t + Z.of_nat k)%Z). by rewrite list_lookup_insert_eq. }
    rewrite list_insert_insert_eq. replace (t + Z.of_nat (S k))%Z with (t + Z.of_nat k + 1)%Z by lia.
    apply rtc_refl.
Qed.

(** One thread after the other. *)
Lemma race_in_turn pre ks t :
  rtc race_step (Race t (pre ++ ((λ k, Counting k None) <$> ks)))
    (Race (t + Z.of_nat (sum_list ks)) (pre ++ replicate (length ks) (Counting 0 None))).
Proof.
  revert pre t. induction ks as [|k ks IH]; intros pre t; simpl.
  - rewrite Z.add_0_r. apply rtc_refl.
  - etrans.
    { apply (race_alone (length pre) k) with (k := k); [|done].
      by rewrite lookup_app_r, Nat.sub_diag. }
    rewrite Nat.sub_diag, insert_app_r_alt, Nat.sub_diag by done. simpl.
    specialize (IH (pre ++ [Counting 0 None]) (t + Z.of_nat k)%Z). rewrite <- !app_assoc in IH. simpl in IH.
    replace (t + Z.of_nat (k + sum_list ks))%Z with (t + Z.of_nat k + Z.of_nat (sum_list ks))%Z by lia.
    exact IH.
Qed.

(** Two threads with [k + 2] matches each: the first loads 0 and waits for all but one of
    the other's matches; that one loads 1 and waits for all of the first's. *)
Lemma race_loses k :
  rtc race_step (race_init [S (S k); S (S k)]) (Race 2 [Counting 0 None; Counting 0 None]).
Proof.
  unfold race_init. simpl. eapply rtc_l; [by apply (race_load 0 (S k))|]. simpl.
  etrans; [apply (race_alone 1 (S (S k))) with (k := S k); [done|lia]|]. simpl.
  replace (S k - k) with 1 by lia. eapply rtc_l; [by apply (race_store 0 (S k) 0)|]. simpl.
  eapply rtc_l; [by apply (race_load 1 0)|]. simpl.
  etrans; [apply (race_alone 0 (S k)) with (k := S k); [done|lia]|]. simpl.
  rewrite Nat.sub_diag. eapply rtc_l; [by apply (race_store 1 0 1)|]. apply rtc_refl.
Qed.

(** C36: when all threads have ended, the counter of matches is at most their number, and at
    least one if there was a match; it is exact when the threads run one after the
    other; two threads with two or more matches each can leave 2. *)
Theorem matches_can_be_lost matches :
  (∀ s, rtc race_step (race_init matches) s → race_over s →
     (totalMatches s ≤ Z.of_nat (sum_list matches))%Z ∧ (0 < sum_list matches → (1 ≤ totalMatches s)%Z)) ∧
  (∃ s, rtc race_step (race_init matches) s ∧ race_over s ∧ totalMatches s = Z.of_nat (sum_list matches)) ∧
  (∀ k, matches = [S (S k); S (S k)] → ∃ s, rtc race_step (race_init matches) s ∧ race_over s ∧
     totalMatches s = 2%Z).
Proof.
  split_and!.
  - intros s Hr Ho. pose proof (race_inv_run _ _ _ Hr (race_inv_init matches)) as [Hl Ht Hs _].
    rewrite (race_over_count _ Ho) in *. split; [lia|]. intros H. apply Hs. lia.
  - eexists. split; [exact (race_in_turn [] matches 0)|]. split; [|done]. intros t Ht. simpl in Ht.
    by apply elem_of_replicate in Ht as [-> _].
  - intros k ->. eexists. split; [apply race_loses|]. split; [|done]. intros t Ht. simpl in Ht.
    set_unfold in Ht. naive_solver.
Qed.
