(* ===== verification/Tax.v ===== *)
(** * calc/main.c

    The tax calculator, on the IEEE double precision numbers of the Standard Library's
    specification of floating point. *)

From stdpp Require Import base list strings.
From Stdlib Require Import Ascii SpecFloat.
From S2P Require Import Prelude CString Text.

(** ** Doubles *)
Abbreviation double := spec_float.
Definition add : double → double → double := SFadd 53 1024.
Definition sub : double → double → double := SFsub 53 1024.
Definition mul : double → double → double := SFmul 53 1024.
Definition div : double → double → double := SFdiv 53 1024.
(** [x > y] *)
Definition gt (x y : double) : bool := SFltb y x.
Definition of_Z (n : Z) : double := binary_normalize 53 1024 n 0 false.
(** The literal with the decimal value [n / d]. *)
Definition dec (n d : Z) : double := div (of_Z n) (of_Z d).

(** ** The program *)
Definition StandardDeduction : double := of_Z 12550.

(** [FedTaxBracket]: tax rate and bracket start. *)
Definition FedTaxBracket : list (double * double) :=
  [(dec 10 100, of_Z 0); (dec 12 100, of_Z 10275); (dec 22 100, of_Z 41775); (dec 24 100, of_Z 89075);
   (dec 32 100, of_Z 170050); (dec 35 100, of_Z 215950); (dec 37 100, of_Z 539900)].
Definition bracket (i : nat) : double * double := default (S754_nan, S754_nan) (FedTaxBracket !! i).

(** [if (cur > FedTaxBracket[i][1]) { taxAmt += ...; cur = FedTaxBracket[i][1]; }] *)
Definition tax_step (i : nat) (st : double * double) : double * double :=
  let '(cur, taxAmt) := st in
  if gt cur (bracket i).2 then
    ((bracket i).2, add taxAmt (mul (sub cur (bracket i).2) (bracket i).1))
  else (cur, taxAmt).

Definition FederalTax (BaseSal : double) : double :=
  let st := (sub BaseSal StandardDeduction, of_Z 0) in
  let st := tax_step 6 st in
  let st := tax_step 5 st in
  let st := tax_step 4 st in
  let st := tax_step 3 st in
  let st := tax_step 2 st in
  let st := tax_step 1 st in
  let st := tax_step 0 st in
  st.2.

Definition StateTax (BaseSal : double) : double := mul (dec 5 100) BaseSal.
Definition FICATax (BaseSal : double) : double := mul (dec 765 10000) BaseSal.
Definition NetTax (BaseSal : double) : double :=
  add (add (FederalTax BaseSal) (FICATax BaseSal)) (StateTax BaseSal).
Definition HourlyToBaseSal (perHour : double) : double := mul (mul perHour (of_Z 40)) (of_Z 52).
Definition BaseSalToHourly (BaseSal : double) : double := div BaseSal (of_Z (40 * 52)).

(** [mul = 1; for (j = l; j > i + 1; j--) mul = mul * 10;] *)
Fixpoint power (n : nat) (m : double) : double :=
  match n with O => m | S n' => power n' (mul m (of_Z 10)) end.

(** [StringToDouble(str)]: [val] has no value before it is added to. *)
Fixpoint digits_loop (l i : nat) (rest : bytes) (val : option double) : outcome (option double) :=
  match rest with
  | [] => Ok val
  | c :: rest' =>
      let cur := mul (of_Z (Z.of_nat (nat_of_ascii c) - 48)) (power (l - (i + 1)) (of_Z 1)) in
      match val with
      | None => Ub Uninit
      | Some v => digits_loop l (S i) rest' (Some (add v cur))
      end
  end.
Definition StringToDouble (str : bytes) : outcome double :=
  val ← digits_loop (length str) 0 str None;
  match val with Some v => Ok v | None => Ub Uninit end.

(** [main]: the amounts that it prints. *)
Definition main (args : list bytes) : outcome (list double) :=
  if decide (length args < 2) then Exits (-1)
  else
    input ← match args !! 1 with Some a => Ok a | None => Ub BadAccess end;
    BaseSal ← StringToDouble input;
    Ok [BaseSal; BaseSalToHourly BaseSal; NetTax BaseSal; sub BaseSal (NetTax BaseSal);
        div (sub BaseSal (NetTax BaseSal)) (of_Z 12); div (sub BaseSal (NetTax BaseSal)) (of_Z 52);
        BaseSalToHourly (sub BaseSal (NetTax BaseSal))].

(** ** The tax by brackets *)

(** The tax on the whole of bracket [i]. *)
Definition whole (i : nat) : double :=
  mul (sub (bracket (S i)).2 (bracket i).2) (bracket i).1.

(** What the brackets below [i] add, from the top. *)
Fixpoint below (i : nat) (taxAmt : double) : double :=
  match i with O => taxAmt | S i' => below i' (add taxAmt (whole i')) end.

(** The tax on [cur] when [i] is the highest bracket that can be reached. *)
Fixpoint from_bracket (i : nat) (cur : double) : double :=
  if gt cur (bracket i).2 then
    below i (add (of_Z 0) (mul (sub cur (bracket i).2) (bracket i).1))
  else match i with O => of_Z 0 | S i' => from_bracket i' cur end.

Lemma bracket_starts : Forall (λ i, gt (bracket (S i)).2 (bracket i).2 = true) (seq 0 6).
Proof. repeat constructor. Qed.

(** The steps from [i] down. *)
Fixpoint steps (i : nat) (st : double * double) : double * double :=
  match i with O => tax_step 0 st | S i' => steps i' (tax_step i st) end.

Lemma steps_below i t : i < 6 → (steps i ((bracket (S i)).2, t)).2 = below (S i) t.
Proof.
  revert t. induction i as [|i IH]; intros t Hi;
    pose proof (proj1 (Forall_forall _ _) bracket_starts) as Hg.
  - cbn [steps]. unfold tax_step. by rewrite (Hg 0) by (apply elem_of_seq; lia).
  - cbn [steps]. unfold tax_step. rewrite (Hg (S i)) by (apply elem_of_seq; lia).
    rewrite IH by lia. done.
Qed.

Lemma steps_from i cur : i < 7 → (steps i (cur, of_Z 0)).2 = from_bracket i cur.
Proof.
  induction i as [|i IH]; intros Hi; cbn [steps from_bracket]; unfold tax_step.
  - by destruct (gt cur _).
  - destruct (gt cur _); [|apply IH; lia]. by rewrite steps_below by lia.
Qed.

Lemma FederalTax_from BaseSal :
  FederalTax BaseSal = from_bracket 6 (sub BaseSal StandardDeduction).
Proof. exact (steps_from 6 _ ltac:(lia)). Qed.

(** What is above the start of a bracket is above zero. *)
Lemma above_start_positive i x : i < 7 → gt x (bracket i).2 = true → gt x (of_Z 0) = true.
Proof.
  intros Hi. do 7 (destruct i as [|i]; [by destruct x as [[]|[]| |[] m e]|]). lia.
Qed.

Lemma from_bracket_zero i x : i < 7 → gt x (of_Z 0) = false → from_bracket i x = of_Z 0.
Proof.
  intros Hi Hx.
  assert (Hg : ∀ j, j < 7 → gt x (bracket j).2 = false).
  { intros j Hj. apply not_true_is_false. intros H%above_start_positive; [congruence|done]. }
  induction i as [|i IH]; cbn [from_bracket]; rewrite Hg by done; [done|]. apply IH. lia.
Qed.

Lemma StringToDouble_uninit str : StringToDouble str = Ub Uninit.
Proof. by destruct str. Qed.

(** C37: the federal tax is the part of the taxable income above the start of its bracket at
    the rate of that bracket, and then every lower bracket in full, from the top; it is zero
    when the salary does not exceed the deduction. Of this main shows nothing: the salary that
    it reads from its argument is computed from an uninitialised value. *)
Theorem tax_by_brackets :
  (∀ BaseSal, FederalTax BaseSal = from_bracket 6 (sub BaseSal StandardDeduction)) ∧
  (∀ BaseSal, gt (sub BaseSal StandardDeduction) (of_Z 0) = false → FederalTax BaseSal = of_Z 0) ∧
  (∀ args, main args = if decide (length args < 2) then Exits (-1) else Ub Uninit).
Proof.
  split_and!.
  - exact FederalTax_from.
  - intros x Hx. rewrite FederalTax_from. by apply from_bracket_zero; [lia|].
  - intros args. unfold main. case_decide as H; [done|].
    destruct (lookup_lt_is_Some_2 args 1 ltac:(lia)) as [a ->]. simpl. by rewrite StringToDouble_uninit.
Qed.

(** The salaries of a few brackets. *)
Example tax_of_12550 : FederalTax (of_Z 12550) = of_Z 0.
Proof. vm_compute. reflexivity. Qed.
Example tax_of_112550 : FederalTax (of_Z 112550) = dec 1783550 100.
Proof. vm_compute. reflexivity. Qed.
