(* ===== verification/Lecture.v ===== *)
(** * The examples of the lecture

    LectureExample/pThreads: a thread that sums; SharedMemory: a producer and a consumer that
    share a named object; SystemMessages: a sender and a receiver at a message queue. *)

From stdpp Require Import base list strings gmap.
From Stdlib Require Import Ascii.
From S2P Require Import Prelude CString Text Numerals Segment.

(** What a program leaves: its exit status, and what it wrote to stdout and stderr. *)
Record finished := Fin { f_status : Z; f_out : bytes; f_err : bytes }.

(** ** thrd-posix.c *)
Module ThrdPosix.

(** The loop of runner at [i]; the state is [sum], which all threads share. *)
Definition runner_body (upper i : Z) : M Z (Z + unit) :=
  if decide (i ≤ upper)%Z then
    sum ← get_state;
    sum' ← lift (to_int (sum + i));
    put_state sum';;
    i' ← lift (to_int (i + 1));
    mret (inl i')
  else mret (inr tt).

Definition runner (param : bytes) : M Z unit :=
  upper ← lift (atoi param);
  put_state 0%Z;;
  if decide (0 < upper)%Z then loop (S (Z.to_nat upper)) (runner_body upper) 1%Z else mret tt.

(** main waits for the thread right after it was created. *)
Definition main (args : list bytes) : M Z finished :=
  match args with
  | [_; arg] =>
      n ← lift (atoi arg);
      if decide (n < 0)%Z then
        mret (Fin (-1) [] (lit "Argument " ++ fmt_d n ++ lit " must be non-negative" ++ [NL]))
      else
        runner arg;;
        sum ← get_state;
        mret (Fin 0 (lit "sum = " ++ fmt_d sum ++ [NL]) [])
  | _ => mret (Fin (-1) [] (lit "usage: thrd-posix <integer value>" ++ [NL]))
  end.

(** The sum of 1 to [n]. *)
Definition triangle (n : Z) : Z := (n * (n + 1) / 2)%Z.

Lemma triangle_succ n : triangle (n + 1) = (triangle n + (n + 1))%Z.
Proof.
  unfold triangle. replace ((n + 1) * (n + 1 + 1))%Z with (n * (n + 1) + (n + 1) * 2)%Z by lia.
  by rewrite Z.div_add by lia.
Qed.

Lemma triangle_mono n m : (0 ≤ n ≤ m)%Z → (triangle n ≤ triangle m)%Z.
Proof. intros H. unfold triangle. apply Z.div_le_mono; nia. Qed.

Lemma triangle_nonneg n : (0 ≤ n)%Z → (0 ≤ triangle n)%Z.
Proof. intros H. apply Z.div_pos; nia. Qed.

(** 65535 is the last number whose sum is an [int]. *)
Lemma triangle_int n : (0 ≤ n)%Z → (triangle n ≤ int_max)%Z ↔ (n ≤ 65535)%Z.
Proof.
  intros H. split; intros Hn.
  - destruct (decide (n ≤ 65535)%Z); [done|]. pose proof (triangle_mono 65536 n ltac:(lia)) as Hm.
    change (triangle 65536) with 2147516416%Z in Hm. unfold int_max in Hn. lia.
  - pose proof (triangle_mono n 65535 ltac:(lia)) as Hm. change (triangle 65535) with 2147450880%Z in Hm.
    unfold int_max. lia.
Qed.

(** A round of the loop. *)
Lemma runner_round upper i sum :
  (0 ≤ i ≤ upper)%Z → (0 ≤ sum)%Z →
  runner_body upper i sum =
    if decide (sum + i ≤ int_max)%Z then (i' ← to_int (i + 1); Ok (inl i', sum + i)%Z) else Ub IntOverflow.
Proof.
  intros Hi Hs. unfold runner_body. rewrite decide_True by lia. erewrite bind_Ok by done. cbv beta.
  case_decide as Hle.
  - erewrite bind_Ok by (apply lift_Ok; unfold to_int; rewrite decide_True by (unfold int_min; lia); done).
    cbv beta. erewrite bind_Ok by done. cbv beta. unfold mbind at 1, M_bind, lift. by destruct (to_int (i + 1)).
  - apply bind_Ub. unfold lift, to_int. by rewrite decide_False by lia.
Qed.

(** The loop from the round [k + 1] on. *)
Lemma runner_from fuel k upper :
  (0 ≤ k ≤ upper)%Z → (k ≤ 65535)%Z → Z.to_nat (upper - k) < fuel →
  loop fuel (runner_body upper) (k + 1)%Z (triangle k) =
    if decide (upper ≤ 65535)%Z then Ok (tt, triangle upper) else Ub IntOverflow.
Proof.
  revert k. induction fuel as [|fuel IH]; intros k Hk Hk2 Hf; [lia|].
  destruct (decide (k = upper)) as [->|Hne].
  - rewrite decide_True by done. apply loop_done. unfold runner_body. by rewrite decide_False by lia.
  - pose proof (runner_round upper (k + 1) (triangle k) ltac:(lia) (triangle_nonneg k ltac:(lia))) as Hr.
    rewrite <- triangle_succ in Hr. destruct (decide (k + 1 ≤ 65535)%Z) as [Hle|Hgt].
    + rewrite decide_True in Hr by (apply triangle_int; lia).
      unfold to_int in Hr. rewrite decide_True in Hr by (unfold int_min, int_max; lia).
      erewrite loop_step by exact Hr. apply IH; lia.
    + rewrite decide_False in Hr by (rewrite triangle_int by lia; lia).
      rewrite decide_False by lia. cbn [loop]. by apply bind_Ub.
Qed.

Lemma runner_ok n sum :
  (0 ≤ n ≤ int_max)%Z →
  runner (fmt_d n) sum = if decide (n ≤ 65535)%Z then Ok (tt, triangle n) else Ub IntOverflow.
Proof.
  intros Hn. unfold runner.
  erewrite bind_Ok by (apply lift_Ok, atoi_fmt_d; unfold int_min, int_max in *; lia). cbv beta.
  erewrite bind_Ok by done. cbv beta. case_decide as Hpos.
  - apply (runner_from (S (Z.to_nat n)) 0 n); lia.
  - assert (n = 0%Z) as -> by lia. by rewrite decide_True by lia.
Qed.

(** C38: main of thrd-posix.c prints the sum of the numbers up to its argument, for the arguments up
    to 65535; the sum of the greater ones overflows, and negative ones are refused. *)
Theorem main_prints_the_sum name n sum :
  (int_min ≤ n ≤ int_max)%Z →
  result (main [name; fmt_d n] sum) =
    if decide (n < 0)%Z then
      Ok (Fin (-1) [] (lit "Argument " ++ fmt_d n ++ lit " must be non-negative" ++ [NL]))
    else if decide (n ≤ 65535)%Z then Ok (Fin 0 (lit "sum = " ++ fmt_d (n * (n + 1) / 2) ++ [NL]) [])
    else Ub IntOverflow.
Proof.
  intros Hn. unfold main, result. pose proof (atoi_fmt_d n Hn) as Ha.
  erewrite bind_Ok by (by apply lift_Ok). cbv beta. case_decide; [done|].
  pose proof (runner_ok n sum ltac:(lia)) as Hr. case_decide.
  - by erewrite bind_Ok by exact Hr.
  - by erewrite bind_Ub by exact Hr.
Qed.

Lemma main_prints_the_sum_witness :
  result (main [lit "thrd-posix"; fmt_d 65535] 7%Z) = Ok (Fin 0 (lit "sum = 2147450880" ++ [NL]) []) ∧
  result (main [lit "thrd-posix"; fmt_d 65536] 7%Z) = Ub IntOverflow.
Proof.
  split; rewrite (main_prints_the_sum (lit "thrd-posix")) by (apply (bool_decide_unpack _); vm_compute; exact I);
    vm_compute; reflexivity.
Defined.
End ThrdPosix.

(** ** shm-posix-producer.c, shm-posix-consumer.c *)
Module ShmPosix.
Definition SIZE : nat := Z.to_nat 4096.
Definition name : bytes := lit "OS".
Definition message0 : bytes := lit "Studying ".
Definition message1 : bytes := lit "Operating Systems ".
Definition message2 : bytes := lit "Is Fun!" ++ [NL].

(** The shared memory objects of the system. *)
Abbreviation objects := (gmap bytes bytes).

(** [ftruncate(fd, n)]: a longer object is cut, a shorter one filled with zeros. What mmap shows
    of an object that ends within its only page is the same. *)
Definition resize (n : nat) (c : bytes) : bytes := take n c ++ replicate (n - length c) NUL.

(** [sprintf(ptr, "%s", str)] where [ptr] is at [i] *)
Definition sprintf (i : nat) (str : bytes) : Sg unit := memcpy i (str ++ [NUL]).

Definition put_messages : Sg unit :=
  sprintf 0 message0;;
  let ptr := length message0 in
  sprintf ptr message1;;
  let ptr := ptr + length message1 in
  sprintf ptr message2.

(** Whether shm_open and mmap succeed is up to the system; the result of shm_open is not looked at. *)
Definition producer (can_open can_map : bool) : M objects finished := λ objs,
  let objs := if can_open then <[name := resize SIZE (default [] (objs !! name))]> objs else objs in
  if can_open && can_map then
    p ← put_messages (default [] (objs !! name));
    Ok (Fin 0 [] [], <[name := p.2]> objs)
  else Ok (Fin (-1) (lit "Map failed" ++ [NL]) [], objs).

(** [printf("%s", ptr)] needs a NUL in the page; an empty object has none. *)
Definition consumer (can_map can_unlink : bool) : M objects finished := λ objs,
  match objs !! name with
  | None => Ok (Fin (-1) (lit "shared memory failed" ++ [NL]) [], objs)
  | Some c =>
      if can_map then
        if decide (c ≠ [] ∧ NUL ∈ resize SIZE c) then
          let text := c_str (resize SIZE c) in
          if can_unlink then Ok (Fin 0 text [], delete name objs)
          else Ok (Fin (-1) (text ++ lit "Error removing " ++ name ++ [NL]) [], objs)
        else Ub BadAccess
      else Ok (Fin (-1) (lit "Map failed" ++ [NL]) [], objs)
  end.

Definition message : bytes := message0 ++ message1 ++ message2.

Lemma length_resize n c : length (resize n c) = n.
Proof. unfold resize. rewrite length_app, length_take, length_replicate. lia. Qed.

Lemma resize_id c : length c = SIZE → resize SIZE c = c.
Proof. intros H. unfold resize. rewrite take_ge by lia. by rewrite H, Nat.sub_diag, app_nil_r. Qed.

(** What a sprintf leaves behind its text begins with a NUL. *)
Lemma sprintf_ok pre str rest :
  length str < length rest →
  ∃ post, sprintf (length pre) str (pre ++ rest) = Ok (tt, (pre ++ str) ++ NUL :: post) ∧
    length rest = length str + S (length post).
Proof.
  intros Hl. exists (drop (S (length str)) rest). split; [|rewrite length_drop; lia].
  unfold sprintf. rewrite <- (take_drop (S (length str)) rest) at 1.
  rewrite memcpy_ok by (rewrite length_take, length_app; cbn [length]; lia).
  by rewrite <- !app_assoc.
Qed.

(** The three messages end to end, whatever was there. *)
Lemma put_messages_ok c :
  length message < length c →
  ∃ post, put_messages c = Ok (tt, message ++ NUL :: post) ∧ length (message ++ NUL :: post) = length c.
Proof.
  intros Hl. unfold message in Hl. rewrite !length_app in Hl. unfold put_messages.
  destruct (sprintf_ok [] message0 c) as (p0 & E0 & L0); [lia|]. erewrite bind_Ok by exact E0. cbv beta zeta.
  destruct (sprintf_ok message0 message1 (NUL :: p0)) as (p1 & E1 & L1); [rewrite length_cons; lia|].
  erewrite bind_Ok by exact E1. cbv beta zeta.
  destruct (sprintf_ok (message0 ++ message1) message2 (NUL :: p1)) as (p2 & E2 & L2); [rewrite length_cons in *; lia|].
  rewrite <- length_app. exists p2. rewrite E2. unfold message. rewrite (app_assoc message0).
  split; [done|]. rewrite !length_app, !length_cons in *. lia.
Qed.

Lemma message_fits : length message < SIZE ∧ NUL ∉ message.
Proof. split; apply (bool_decide_unpack _); vm_compute; exact I. Qed.

(** What the producer has written, whatever object there was before. *)
Lemma consumer_after_producer objs :
  ∃ objs', producer true true objs = Ok (Fin 0 [] [], objs') ∧
    consumer true true objs' = Ok (Fin 0 (lit "Studying Operating Systems Is Fun!" ++ [NL]) [], delete name objs).
Proof.
  destruct message_fits as [Hfit Hno].
  destruct (put_messages_ok (resize SIZE (default [] (objs !! name)))) as (post & E & Hl);
    [by rewrite length_resize|]. rewrite length_resize in Hl.
  eexists. split.
  - unfold producer. cbn [andb]. rewrite lookup_insert_eq. change (default [] (Some ?x)) with x. by rewrite E.
  - unfold consumer. rewrite lookup_insert_eq. cbn [snd]. rewrite resize_id by done.
    rewrite decide_True.
    2:{ split; [by destruct message|]. apply elem_of_app. right. left. }
    rewrite c_str_app by done. by rewrite delete_insert_eq, delete_insert_eq.
Qed.

(** *** The consumer comes too early *)

(** The bytes that are stored, one after the other. *)
Fixpoint stores (i : nat) (str : bytes) : list (nat * ascii) :=
  match str with [] => [] | c :: str' => (i, c) :: stores (S i) str' end.

(** For texts that are put end to end with sprintf. *)
Fixpoint text_stores (i : nat) (texts : list bytes) : list (nat * ascii) :=
  match texts with
  | [] => []
  | str :: texts' => stores i (str ++ [NUL]) ++ text_stores (i + length str) texts'
  end.

Definition stored (c : bytes) (ws : list (nat * ascii)) : bytes := foldl (λ c w, <[w.1:=w.2]> c) c ws.

Lemma stored_app c ws ws' : stored c (ws ++ ws') = stored (stored c ws) ws'.
Proof. apply foldl_app. Qed.

Lemma stored_length c ws : length (stored c ws) = length c.
Proof. revert c. induction ws as [|w ws IH]; intros c; [done|]. simpl. by rewrite IH, length_insert. Qed.

Lemma memcpy_stores i str c :
  i + length str ≤ length c → memcpy i str c = Ok (tt, stored c (stores i str)).
Proof.
  revert i c. induction str as [|x str IH]; intros i c Hl; [done|]. simpl in *.
  erewrite bind_Ok by (apply wr_ok; lia). cbv beta. apply IH. rewrite length_insert. lia.
Qed.

Lemma put_messages_stores c :
  length message < length c →
  put_messages c = Ok (tt, stored c (text_stores 0 [message0; message1; message2])).
Proof.
  unfold message. rewrite !length_app. intros Hl. unfold put_messages, sprintf.
  erewrite bind_Ok by (apply memcpy_stores; rewrite length_app; cbn [length]; lia). cbv beta zeta.
  erewrite bind_Ok by (apply memcpy_stores; rewrite stored_length, length_app; cbn [length]; lia). cbv beta zeta.
  rewrite memcpy_stores by (rewrite !stored_length, length_app; cbn [length]; lia).
  rewrite <- !stored_app. cbn [text_stores]. by rewrite app_nil_r.
Qed.

(** A text that is being put into zeros. *)
Lemma stored_text p str r k :
  length str < r →
  ∃ m, m ≤ length str ∧ (k = S (length str) → m = length str) ∧
    stored (p ++ replicate r NUL) (take k (stores (length p) (str ++ [NUL]))) =
      p ++ take m str ++ replicate (r - m) NUL.
Proof.
  revert p r k. induction str as [|c str IH]; intros p r k Hr; destruct k as [|k]; simpl in *.
  - exists 0. by rewrite Nat.sub_0_r.
  - exists 0. split; [done|]. split; [done|]. rewrite take_nil. simpl. rewrite Nat.sub_0_r.
    destruct r as [|r]; [lia|]. simpl. by rewrite <- (Nat.add_0_r (length p)), insert_app_r.
  - exists 0. rewrite Nat.sub_0_r. split; [lia|]. by split.
  - destruct r as [|r]; [lia|]. destruct (IH (p ++ [c]) r k ltac:(lia)) as (m & Hm & Hk & E).
    exists (S m). split; [lia|]. split; [intros [= ->]; by rewrite Hk|].
    simpl. rewrite <- (Nat.add_0_r (length p)) at 1. rewrite insert_app_r. simpl.
    rewrite length_app, Nat.add_1_r in E. rewrite <- !app_assoc in E. exact E.
Qed.

Lemma stored_texts texts p r k :
  length (mjoin texts) < r →
  ∃ m, m ≤ length (mjoin texts) ∧ stored (p ++ replicate r NUL) (take k (text_stores (length p) texts)) =
    p ++ take m (mjoin texts) ++ replicate (r - m) NUL.
Proof.
  revert p r k. induction texts as [|str texts IH]; intros p r k Hr.
  - exists 0. split; [done|]. simpl. by rewrite take_nil, Nat.sub_0_r.
  - rewrite mjoin_cons, length_app in Hr. cbn [text_stores]. rewrite mjoin_cons, take_app, stored_app.
    assert (Hlen : length (stores (length p) (str ++ [NUL])) = S (length str)).
    { assert (Hs : ∀ i s, length (stores i s) = length s)
        by (intros i s; revert i; induction s as [|x s IHs]; intros i; simpl; [done|by rewrite IHs]).
      rewrite Hs, length_app. simpl. lia. }
    destruct (decide (k < S (length str))) as [Hk|Hk].
    + destruct (stored_text p str r k) as (m & Hm & _ & E); [lia|]. rewrite E. exists m.
      split; [rewrite length_app; lia|]. rewrite Hlen. replace (k - S (length str)) with 0 by lia. simpl. by rewrite take_app_le by lia.
    + destruct (stored_text p str r (S (length str))) as (m & Hm & Hfull & E); [lia|].
      rewrite (take_ge _ k), <- (take_ge (stores _ _) (S (length str))), E by lia. rewrite Hfull, (take_ge str) by lia.
      rewrite app_assoc, <- length_app. destruct (IH (p ++ str) (r - length str) (k - S (length str))) as (n & Hn & En); [lia|].
      rewrite (take_ge (stores _ _)), Hlen, En by lia. exists (length str + n).
      split; [rewrite length_app; lia|]. rewrite take_app_add.
      by rewrite <- !app_assoc, Nat.sub_add_distr.
Qed.

(** A consumer that runs after [k] of the stores to a new object. *)
Lemma consumer_meanwhile k :
  ∃ m, consumer true true {[name := stored (replicate SIZE NUL) (take k (text_stores 0 [message0; message1; message2]))]} =
    Ok (Fin 0 (take m message) [], ∅).
Proof.
  destruct message_fits as [Hfit Hno].
  set (texts := [message0; message1; message2]).
  assert (Ht : mjoin texts = message) by (subst texts; unfold message; by rewrite !mjoin_cons, app_nil_r).
  destruct (stored_texts texts [] SIZE k) as (m & Hm & E); [by rewrite Ht|].
  rewrite Ht in Hm, E. cbn [app length] in E. exists m. unfold consumer. rewrite lookup_singleton_eq.
  rewrite resize_id by by rewrite stored_length, length_replicate.
  rewrite E, decide_True.
  - assert (∃ n, SIZE - m = S n) as [n ->] by (exists (pred (SIZE - m)); lia). simpl.
    rewrite c_str_app; [by rewrite delete_singleton_eq|]. intros Hin. apply Hno.
    rewrite <- (take_drop m message). apply elem_of_app. by left.
  - split.
    + intros E0. apply (f_equal length) in E0. rewrite length_app, length_take, length_replicate in E0. simpl in E0. lia.
    + apply elem_of_app. right. apply elem_of_replicate. split; [done|lia].
Qed.

(** C39: the consumer prints the message of a producer that has ended, whatever object there was
    before, and removes the object. It waits for nobody: while the producer stores the message
    in a new object, a character at a time, the consumer prints a prefix of it. *)
Theorem consumer_prints_the_message objs k :
  let stores := text_stores 0 [message0; message1; message2] in
  (∃ objs', producer true true objs = Ok (Fin 0 [] [], objs') ∧
    consumer true true objs' = Ok (Fin 0 (lit "Studying Operating Systems Is Fun!" ++ [NL]) [], delete name objs)) ∧
  put_messages (replicate SIZE NUL) = Ok (tt, stored (replicate SIZE NUL) stores) ∧
  ∃ m, consumer true true {[name := stored (replicate SIZE NUL) (take k stores)]} =
    Ok (Fin 0 (take m message) [], ∅).
Proof.
  split; [apply consumer_after_producer|]. split; [|apply consumer_meanwhile].
  apply put_messages_stores. rewrite length_replicate. by destruct message_fits.
Qed.
End ShmPosix.

(** ** sender.c, receiver.c *)
Module Messages.
Definition MESSAGESIZE : nat := 128.

(** The message queues of the system by their keys: for each message its type and its bytes. *)
Abbreviation queues := (gmap Z (list (Z * bytes))).

Section system.
(** The key that ftok gives for sender.c, if it finds the file; whether the system lets the program
    make, use and remove a queue; how many bytes a queue can hold; what the array of a new struct
    message_s holds; the text that perror has for the error. *)
Context (ftok : option Z) (can_get can_use can_remove : bool) (qbytes : nat) (junk : bytes) (strerror : bytes).

Definition perror (s : bytes) : bytes := s ++ lit ": " ++ strerror ++ [NL].

(** [exit(1)] after perror *)
Definition failed (s : bytes) : finished := Fin 1 [] (perror s).

(** [strcpy(message.content, s)] *)
Definition strcpy (content s : bytes) : outcome bytes :=
  if decide (length s < length content) then Ok (s ++ NUL :: drop (S (length s)) content) else Ub Overflow.

(** [if (msgsnd(id, &message, MESSAGESIZE, 0) == -1) perror("Error in msgsnd");] what it writes to
    stderr. msgsnd waits while the queue has no room. *)
Definition msgsnd (key type : Z) (content : bytes) : M queues bytes := λ qs,
  let msgs := default [] (qs !! key) in
  if can_use then
    if decide (sum_list (length ∘ snd <$> msgs) + length content ≤ qbytes) then
      Ok ([], <[key := msgs ++ [(type, content)]]> qs)
    else NoFuel
  else Ok (perror (lit "Error in msgsnd"), qs).

Definition sender : M queues finished :=
  match ftok with
  | None => mret (failed (lit "ftok"))
  | Some key =>
      if can_get then
        (λ qs, Ok (tt, <[key := default [] (qs !! key)]> qs));;
        content ← lift (strcpy junk (lit "Studying Operating Systems Is Fun!" ++ [NL]));
        err1 ← msgsnd key 1 content;
        content ← lift (strcpy content (lit "Just not at Speed School" ++ [NL]));
        err2 ← msgsnd key 1 content;
        mret (Fin 0 [] (err1 ++ err2))
      else mret (failed (lit "msgget"))
  end.

(** [msgrcv] of any type waits for a message, and refuses one that is too long; the queue is
    removed with what is left in it. *)
Definition receiver : M queues finished := λ qs,
  match ftok with
  | None => Ok (failed (lit "ftok"), qs)
  | Some key =>
      match (if can_get then qs !! key else None) with
      | None => Ok (failed (lit "msgget"), qs)
      | Some msgs =>
          if can_use then
            match msgs with
            | [] => NoFuel
            | (_, text) :: msgs' =>
                if decide (length text ≤ MESSAGESIZE) then
                  let content := text ++ drop (length text) junk in
                  if decide (NUL ∈ content) then
                    if can_remove then Ok (Fin 0 (c_str content) [], delete key qs)
                    else Ok (Fin 1 (c_str content) (perror (lit "msgctl")), <[key := msgs']> qs)
                  else Ub BadAccess
                else Ok (failed (lit "msgrcv"), qs)
            end
          else Ok (failed (lit "msgrcv"), qs)
      end
  end.
End system.

Lemma msgsnd_ok strerror qbytes key t c msgs qs n :
  sum_list (length ∘ snd <$> msgs) = n → n + length c ≤ qbytes →
  msgsnd true qbytes strerror key t c (<[key := msgs]> qs) = Ok ([], <[key := msgs ++ [(t, c)]]> qs).
Proof.
  intros <- Hq. unfold msgsnd. rewrite lookup_insert_eq. change (default [] (Some ?x)) with x.
  by rewrite decide_True, insert_insert_eq by done.
Qed.

(** The first message arrives, and the second is lost: the receiver removes the queue, and the
    next receiver finds none. *)
Theorem second_message_is_lost key qbytes junk strerror qs :
  qs !! key = None → length junk = MESSAGESIZE → 2 * MESSAGESIZE ≤ qbytes →
  ∃ qs', sender (Some key) true true qbytes junk strerror qs = Ok (Fin 0 [] [], qs') ∧
    length (default [] (qs' !! key)) = 2 ∧
    receiver (Some key) true true true junk strerror qs' = Ok (Fin 0 (lit "Studying Operating Systems Is Fun!" ++ [NL]) [], qs) ∧
    receiver (Some key) true true true junk strerror qs = Ok (failed strerror (lit "msgget"), qs).
Proof.
  intros Hk Hj Hq. unfold MESSAGESIZE in *.
  set (m1 := lit "Studying Operating Systems Is Fun!" ++ [NL]).
  set (m2 := lit "Just not at Speed School" ++ [NL]).
  assert (L1 : length m1 = 35) by reflexivity. assert (L2 : length m2 = 25) by reflexivity.
  assert (N1 : NUL ∉ m1) by (apply (bool_decide_unpack _); vm_compute; exact I).
  assert (Hcpy : ∀ c s, length c = 128 → length s < 128 →
    strcpy c s = Ok (s ++ NUL :: drop (S (length s)) c) ∧ length (s ++ NUL :: drop (S (length s)) c) = 128).
  { intros c s Hc Hs. unfold strcpy. rewrite decide_True by lia.
    split; [done|]. rewrite length_app, length_cons, length_drop. lia. }
  destruct (Hcpy junk m1 Hj ltac:(lia)) as [E1 C1].
  destruct (Hcpy (m1 ++ NUL :: drop (S (length m1)) junk) m2 C1 ltac:(lia)) as [E2 C2].
  set (c1 := m1 ++ NUL :: drop (S (length m1)) junk) in *.
  set (c2 := m2 ++ NUL :: drop (S (length m2)) c1) in *.
  exists (<[key := [(1%Z, c1); (1%Z, c2)]]> qs). split_and!.
  - unfold sender. erewrite bind_Ok by done. cbv beta. erewrite bind_Ok by (by apply lift_Ok). cbv beta.
    rewrite Hk. change (default [] None) with (@nil (Z * bytes)).
    erewrite bind_Ok by (by apply (msgsnd_ok _ _ _ _ _ _ _ 0); [|lia]). cbv beta.
    erewrite bind_Ok by (by apply lift_Ok). cbv beta.
    by erewrite bind_Ok by (by apply (msgsnd_ok _ _ _ _ _ _ _ (length c1 + 0)); [|lia]).
  - by rewrite lookup_insert_eq.
  - unfold receiver. rewrite lookup_insert_eq. unfold MESSAGESIZE. rewrite decide_True by lia.
    rewrite drop_ge, app_nil_r by lia. subst c1. rewrite decide_True by (apply elem_of_app; right; left).
    rewrite c_str_app by done. by rewrite delete_insert_id.
  - unfold receiver. by rewrite Hk.
Qed.

Lemma second_message_is_lost_witness :
  ∃ qs', sender (Some 7%Z) true true 4096 (replicate 128 "?"%char) (lit "No such file") ∅ = Ok (Fin 0 [] [], qs') ∧
    length (default [] (qs' !! 7%Z)) = 2 ∧
    receiver (Some 7%Z) true true true (replicate 128 "?"%char) (lit "No such file") qs' =
      Ok (Fin 0 (lit "Studying Operating Systems Is Fun!" ++ [NL]) [], ∅) ∧
    receiver (Some 7%Z) true true true (replicate 128 "?"%char) (lit "No such file") ∅ =
      Ok (failed (lit "No such file") (lit "msgget"), ∅).
Proof.
  apply second_message_is_lost; [reflexivity|reflexivity|]. apply (bool_decide_unpack _). vm_compute. exact I.
Defined.
End Messages.
