(* ===== verification/Forks.v ===== *)
(** * Programs that fork

    LectureExample/Quiz4/quiz4.c, ProcessCreation/process-ex1.c and newproc-posix.c: what the
    processes do, as trees of system calls, and a pool in which they run in any order. *)

From stdpp Require Import base list relations strings.
From Stdlib Require Import Ascii.
From S2P Require Import Prelude.

(** ** Processes *)

(** What a process does next, until it ends or comes to something that C gives no meaning. *)
Inductive prog :=
  | Exit (status : Z)
  | Undefined (u : ub)
  | Printf (text : bytes) (k : prog)
  | Fork (k : Z → prog)
  | Wait (k : prog).

(** [p_parent] is the place of the parent in the pool; [p_reaped]: the parent has waited for it. *)
Record process := Proc { p_pid : Z; p_parent : option nat; p_reaped : bool; p_code : prog }.

(** The lines on the terminal with the process that wrote them, a line at a time. *)
Record pool := Pool { procs : list process; terminal : list (Z * bytes) }.

Definition become (p : process) (code : prog) : process := Proc (p_pid p) (p_parent p) (p_reaped p) code.

Definition ended (p : process) : Prop := match p_code p with Exit _ | Undefined _ => True | _ => False end.
#[export] Instance ended_dec p : Decision (ended p).
Proof. unfold ended. destruct (p_code p); apply _. Defined.

Section pool.
(** Whether fork can fail. *)
Context (may_fail : Prop).

Inductive fstep : pool → pool → Prop :=
  | f_printf i p text k ps out :
      ps !! i = Some p → p_code p = Printf text k →
      fstep (Pool ps out) (Pool (<[i:=become p k]> ps) (out ++ [(p_pid p, text)]))
  | f_fork i p k pid ps out :
      ps !! i = Some p → p_code p = Fork k → (0 < pid)%Z → pid ∉ p_pid <$> ps →
      fstep (Pool ps out) (Pool (<[i:=become p (k pid)]> ps ++ [Proc pid (Some i) false (k 0%Z)]) out)
  | f_fork_fails i p k ps out :
      ps !! i = Some p → p_code p = Fork k → may_fail →
      fstep (Pool ps out) (Pool (<[i:=become p (k (-1)%Z)]> ps) out)
  | f_wait i j p q k ps out :
      ps !! i = Some p → p_code p = Wait k →
      ps !! j = Some q → p_parent q = Some i → p_reaped q = false → ended q → i ≠ j →
      fstep (Pool ps out)
        (Pool (<[i:=become p k]> (<[j:=Proc (p_pid q) (p_parent q) true (p_code q)]> ps)) out)
  | f_wait_nobody i p k ps out :
      ps !! i = Some p → p_code p = Wait k →
      (∀ j q, ps !! j = Some q → p_parent q = Some i → p_reaped q = true) →
      fstep (Pool ps out) (Pool (<[i:=become p k]> ps) out).

(** One process, which the shell has started. *)
Definition started (pid : Z) (code : prog) : pool := Pool [Proc pid None false code] [].
End pool.

(** A number for a new process. *)
Definition next_pid (ps : list process) : Z := (foldr Z.max 0 (p_pid <$> ps) + 1)%Z.

Lemma next_pid_fresh ps : (0 < next_pid ps)%Z ∧ next_pid ps ∉ p_pid <$> ps.
Proof.
  unfold next_pid. assert (H : ∀ l x, x ∈ l → (x ≤ foldr Z.max 0 l)%Z).
  { induction l as [|y l IH]; intros x; [by intros ?%elem_of_nil|]. simpl.
    intros [->|Hx]%elem_of_cons; [lia|]. specialize (IH x Hx). lia. }
  split; [|intros Hin%H; lia].
  induction (p_pid <$> ps) as [|y l IH]; simpl; lia.
Qed.

(** A schedule: the places of the processes that make a step, if they do not wait. *)
Definition fsched_step (i : nat) (s : pool) : option pool :=
  p ← procs s !! i;
  match p_code p with
  | Printf text k => Some (Pool (<[i:=become p k]> (procs s)) (terminal s ++ [(p_pid p, text)]))
  | Fork k =>
      let pid := next_pid (procs s) in
      Some (Pool (<[i:=become p (k pid)]> (procs s) ++ [Proc pid (Some i) false (k 0%Z)]) (terminal s))
  | _ => None
  end.

Fixpoint fsched (places : list nat) (s : pool) : option pool :=
  match places with [] => Some s | i :: places' => s' ← fsched_step i s; fsched places' s' end.

Lemma fsched_ok may_fail places s s' : fsched places s = Some s' → rtc (fstep may_fail) s s'.
Proof.
  revert s. induction places as [|i places IH]; intros [ps out]; simpl; [by intros [= <-]; apply rtc_refl|].
  unfold fsched_step. simpl. destruct (ps !! i) as [p|] eqn:Hi; [|done]. simpl.
  destruct (p_code p) as [| |text k|k|] eqn:Hc; try done; simpl; intros H%IH; (eapply rtc_l; [|exact H]).
  - by eapply f_printf.
  - destruct (next_pid_fresh ps). by eapply f_fork.
Qed.

(** ** The programs *)

(** [printf("<name> = %d \t%d\n", value, count)] *)
Definition count_line (name : string) (value count : Z) : bytes :=
  lit name ++ lit " = " ++ fmt_d value ++ lit " " ++ ["009"%char] ++ fmt_d count ++ ["010"%char].

(** quiz4.c *)
Definition quiz4_rest (x y z : Z) : prog :=
  Printf (count_line "x" x 1) (Printf (count_line "y" y 2) (Printf (count_line "z" z 3) (Exit 0))).

Definition quiz4 : prog :=
  Fork (λ x,
    if decide (x = 0%Z) then Fork (λ y, Fork (λ z, quiz4_rest x y z))
    else Fork (λ z, quiz4_rest x 0 z)).

(** process-ex1.c *)
Definition pid_line (name : string) (value : Z) : bytes :=
  lit name ++ lit " = " ++ fmt_d value ++ ["010"%char].

Definition process_rest (x y : Z) : prog :=
  Printf (pid_line "x" x) (Printf (pid_line "y" y) (Exit 0)).

Definition process_ex1 : prog :=
  Fork (λ x, if decide (x = 0%Z) then Fork (λ y, process_rest x y) else process_rest x 0).

(** newproc-posix.c, for a process with the number [pid]. The child prints [m] before it has a
    value, so that nothing is said of what it does then. *)
Definition newproc (pid : Z) : prog :=
  Fork (λ n,
    if decide (n < 0)%Z then Exit (-1)
    else if decide (n = 0%Z) then Undefined Uninit
    else
      Printf (lit "I am the parent with pid = " ++ fmt_d pid ++ lit ", n = " ++ fmt_d n ++ ["010"%char])
        (Wait (Printf (lit "Child Complete" ++ ["010"%char]) (Exit 0)))).

(** ** What a family of processes can do *)

(** At most [n] steps are left, whatever fork returns. *)
Fixpoint bounded (P : prog) (n : nat) : Prop :=
  match P with
  | Exit _ | Undefined _ => True
  | Printf _ k | Wait k => match n with O => False | S n' => bounded k n' end
  | Fork k => ∃ m, 2 * m < n ∧ ∀ r, bounded (k r) m
  end.

(** If fork always succeeds, [np] processes will be born and [nl] lines printed. *)
Fixpoint totals (P : prog) (np nl : nat) : Prop :=
  match P with
  | Exit _ | Undefined _ => np = 0 ∧ nl = 0
  | Printf _ k => match nl with O => False | S nl' => totals k np nl' end
  | Wait k => totals k np nl
  | Fork k => ∃ np0 nl0 np1 nl1, np = S (np0 + np1) ∧ nl = nl0 + nl1 ∧
      totals (k 0%Z) np0 nl0 ∧ ∀ r, (0 < r)%Z → totals (k r) np1 nl1
  end.

(** Every process of the family comes to its end, with [Q] of its status and the lines it has printed; this one
    has printed [said]. *)
Fixpoint lives (Q : Z → list bytes → Prop) (P : prog) (said : list bytes) : Prop :=
  match P with
  | Exit status => Q status said
  | Undefined _ => False
  | Printf text k => lives Q k (said ++ [text])
  | Wait k => lives Q k said
  | Fork k => lives Q (k 0%Z) [] ∧ ∀ r, r ≠ 0%Z → lives Q (k r) said
  end.

(** Every process that is born has [R]. *)
Fixpoint newborns (R : prog → Prop) (P : prog) : Prop :=
  match P with
  | Exit _ | Undefined _ => True
  | Printf _ k | Wait k => newborns R k
  | Fork k => R (k 0%Z) ∧ ∀ r, r ≠ 0%Z → newborns R (k r)
  end.

(** ** Runs *)

Section runs.
Context (may_fail : Prop).

(** Something that is said of each process by its code. *)
Definition by_code {A} (R : prog → A → Prop) (ps : list process) (xs : list A) : Prop :=
  Forall2 (λ p x, R (p_code p) x) ps xs.

Lemma by_code_become {A} (R : prog → A → Prop) ps xs i p code x :
  by_code R ps xs → ps !! i = Some p → R code x → by_code R (<[i:=become p code]> ps) (<[i:=x]> xs).
Proof. intros H Hi Hx. by apply Forall2_insert. Qed.

(** To be waited for changes nothing. *)
Lemma by_code_reaped {A} (R : prog → A → Prop) ps xs j q :
  by_code R ps xs → ps !! j = Some q →
  by_code R (<[j:=Proc (p_pid q) (p_parent q) true (p_code q)]> ps) xs.
Proof.
  intros H Hj. destruct (Forall2_lookup_l _ _ _ _ _ H Hj) as (x & Hx & Hr).
  rewrite <- (list_insert_id xs j x Hx). by apply Forall2_insert.
Qed.

Lemma bounded_step s s' ns :
  fstep may_fail s s' → by_code bounded (procs s) ns →
  ∃ ns', by_code bounded (procs s') ns' ∧ sum_list ns' < sum_list ns.
Proof.
  intros Hst Hb. destruct Hst as [i p text k ps out Hi Hc|i p k pid ps out Hi Hc Hpid Hnew|i p k ps out Hi Hc Hm|
    i j p q k ps out Hi Hc Hj Hq Hr He Hne|i p k ps out Hi Hc Hall]; simpl in *;
    destruct (Forall2_lookup_l _ _ _ _ _ Hb Hi) as (n & Hn & Hx); rewrite Hc in Hx; simpl in Hx.
  - destruct n as [|n]; [done|]. exists (<[i:=n]> ns). split; [by apply by_code_become|].
    pose proof (sum_list_insert ns i (S n) n Hn). lia.
  - destruct Hx as (m & Hlt & Hk). exists (<[i:=m]> ns ++ [m]). split.
    + apply Forall2_app; [by apply by_code_become|].
      constructor; [apply Hk|constructor].
    + rewrite sum_list_with_app. simpl. pose proof (sum_list_insert ns i n m Hn). lia.
  - destruct Hx as (m & Hlt & Hk). exists (<[i:=m]> ns). split; [by apply by_code_become|].
    pose proof (sum_list_insert ns i n m Hn). lia.
  - destruct n as [|n]; [done|]. exists (<[i:=n]> ns). split.
    + apply by_code_become; [by apply by_code_reaped|by rewrite list_lookup_insert_ne|done].
    + pose proof (sum_list_insert ns i (S n) n Hn). lia.
  - destruct n as [|n]; [done|]. exists (<[i:=n]> ns). split; [by apply by_code_become|].
    pose proof (sum_list_insert ns i (S n) n Hn). lia.
Qed.

(** A family with a bound comes to its end. *)
Lemma families_end s ns : by_code bounded (procs s) ns → Acc (λ s2 s1, fstep may_fail s1 s2) s.
Proof.
  remember (sum_list ns) as n eqn:En. revert s ns En.
  induction (lt_wf n) as [n _ IH]. intros s ns -> Hb. constructor. intros s2 Hst.
  destruct (bounded_step _ _ _ Hst Hb) as (ns' & Hb' & Hlt). by eapply (IH _ Hlt).
Qed.

(** A child stands behind its parent in the pool. *)
Definition in_order (ps : list process) : Prop := ∀ j q i, ps !! j = Some q → p_parent q = Some i → i < j.

Lemma in_order_become ps i p code : in_order ps → ps !! i = Some p → in_order (<[i:=become p code]> ps).
Proof.
  intros Ho Hi j q k Hj Hk. apply list_lookup_insert_Some in Hj as [(-> & <- & _)|[_ Hj]].
  - by eapply (Ho j p).
  - by eapply Ho.
Qed.

Lemma in_order_step s s' : fstep may_fail s s' → in_order (procs s) → in_order (procs s').
Proof.
  intros Hst Ho. destruct Hst as [| i p k pid ps out Hi Hc Hpid Hnew| |i j p q k ps out Hi Hc Hj Hq Hr He Hne|];
    simpl in *; try by apply in_order_become.
  - intros l r m Hl Hm. apply lookup_app_Some in Hl as [Hl|[Hge Hl]].
    + by eapply (in_order_become ps i p).
    + apply list_lookup_singleton_Some in Hl as [El <-]. injection Hm as <-.
      rewrite length_insert in *. apply lookup_lt_Some in Hi. lia.
  - apply in_order_become; [|by rewrite list_lookup_insert_ne].
    intros l r m Hl Hm. apply list_lookup_insert_Some in Hl as [(-> & <- & _)|[_ Hl]]; [by eapply (Ho _ q)|by eapply Ho].
Qed.

(** A process goes on, if the ones behind it have ended. *)
Lemma process_steps ps out i p :
  in_order ps → ps !! i = Some p → ¬ ended p → (∀ j q, i < j → ps !! j = Some q → ended q) →
  ∃ s', fstep may_fail (Pool ps out) s'.
Proof.
  intros Ho Hi Hp Hrest. unfold ended in Hp. destruct (p_code p) as [|u|text k|k|k] eqn:Hc; try tauto.
  - eexists. by eapply f_printf.
  - destruct (next_pid_fresh ps) as [? ?]. eexists. by eapply (f_fork _ _ _ _ (next_pid ps)).
  - destruct (decide (Exists (λ q, p_parent q = Some i ∧ p_reaped q = false) ps)) as [He|Hno].
    + apply Exists_exists in He as (q & Hin & Hq & Hr). apply list_elem_of_lookup in Hin as [j Hj].
      pose proof (Ho j q i Hj Hq). eexists. eapply (f_wait _ i j); [done..|by apply (Hrest j)|lia].
    + eexists. eapply f_wait_nobody; [done..|]. intros j q Hj Hq. destruct (p_reaped q) eqn:Hr; [done|].
      exfalso. apply Hno, Exists_exists. exists q. split; [by eapply list_elem_of_lookup_2|done].
Qed.

Lemma pool_progress s :
  in_order (procs s) → (∃ s', fstep may_fail s s') ∨ ∀ p, p ∈ procs s → ended p.
Proof.
  destruct s as [ps out]. simpl. intros Ho.
  assert (H : ∀ n, (∃ s', fstep may_fail (Pool ps out) s') ∨
    ∀ i p, length ps - n ≤ i → ps !! i = Some p → ended p).
  { induction n as [|n [?|IH]]; [|by left|].
    - right. intros i p Hn Hi%lookup_lt_Some. lia.
    - destruct (ps !! (length ps - S n)) as [p|] eqn:Hi.
      + destruct (decide (ended p)) as [He|He].
        * right. intros i q Hn Hq. destruct (decide (i = length ps - S n)) as [->|]; [congruence|]. apply (IH i); [lia|done].
        * left. eapply process_steps; [done..|]. intros j q Hj. apply IH. lia.
      + right. intros i q Hn Hq. apply (IH i); [|done]. apply lookup_ge_None in Hi. apply lookup_lt_Some in Hq. lia. }
  destruct (H (length ps)) as [?|Hall]; [by left|]. right. intros p Hin.
  apply list_elem_of_lookup in Hin as [i Hi]. apply (Hall i); [lia|done].
Qed.

(** *** How many processes and lines *)
Definition counted (P : prog) (n : nat * nat) : Prop := totals P n.1 n.2.

Definition counting (np nl : nat) (s : pool) : Prop :=
  ∃ ns, by_code counted (procs s) ns ∧
    length (procs s) + sum_list ns.*1 = np ∧ length (terminal s) + sum_list ns.*2 = nl.

Lemma counting_step np nl s s' :
  ¬ may_fail → fstep may_fail s s' → counting np nl s → counting np nl s'.
Proof.
  intros Hno Hst (ns & Hb & Hp & Hl).
  destruct Hst as [i p text k ps out Hi Hc|i p k pid ps out Hi Hc Hpid Hnew|i p k ps out Hi Hc Hm|
    i j p q k ps out Hi Hc Hj Hq Hr He Hne|i p k ps out Hi Hc Hall]; simpl in *; try done;
    destruct (Forall2_lookup_l _ _ _ _ _ Hb Hi) as ([a b] & Hn & Hx); unfold counted in Hx; rewrite Hc in Hx; simpl in Hx.
  - destruct b as [|b]; [done|]. exists (<[i:=(a, b)]> ns). simpl.
    pose proof (sum_list_fmap_insert fst ns i _ (a, b) Hn). pose proof (sum_list_fmap_insert snd ns i _ (a, b) Hn).
    split; [by apply by_code_become|]. rewrite length_insert, length_app. simpl in *. lia.
  - destruct Hx as (np0 & nl0 & np1 & nl1 & -> & -> & H0 & H1). exists (<[i:=(np1, nl1)]> ns ++ [(np0, nl0)]). simpl.
    pose proof (sum_list_fmap_insert fst ns i _ (np1, nl1) Hn).
    pose proof (sum_list_fmap_insert snd ns i _ (np1, nl1) Hn). split.
    + apply Forall2_app; [apply by_code_become; [done..|by apply H1]|]. constructor; [done|constructor].
    + rewrite !fmap_app, !sum_list_with_app, length_app, length_insert. simpl in *. lia.
  - exists (<[i:=(a, b)]> ns). simpl. rewrite !length_insert, (list_insert_id ns i (a, b) Hn). split; [|by split].
    rewrite <- (list_insert_id ns i (a, b) Hn).
    apply by_code_become; [by apply by_code_reaped|by rewrite list_lookup_insert_ne|done].
  - exists (<[i:=(a, b)]> ns). simpl. rewrite !length_insert, (list_insert_id ns i (a, b) Hn). split; [|by split].
    rewrite <- (list_insert_id ns i (a, b) Hn). by apply by_code_become.
Qed.

(** *** What each process prints *)
Record living (Q : Z → list bytes → Prop) (s : pool) : Prop := {
  li_pids : NoDup (p_pid <$> procs s);
  li_out : Forall (λ o, o.1 ∈ p_pid <$> procs s) (terminal s);
  li_lives : ∀ i p, procs s !! i = Some p → lives Q (p_code p) (by_key (p_pid p) (terminal s));
}.

Lemma pids_insert (ps : list process) i p q : ps !! i = Some p → p_pid q = p_pid p → p_pid <$> <[i:=q]> ps = p_pid <$> ps.
Proof. intros Hi Hq. by rewrite list_fmap_insert, Hq, list_insert_id by by rewrite list_lookup_fmap, Hi. Qed.

Lemma silent (out : list (Z * bytes)) (pids : list Z) pid : Forall (λ o, o.1 ∈ pids) out → pid ∉ pids → by_key pid out = [].
Proof.
  intros H Hn. unfold by_key. induction H as [|o out Ho _ IH]; [done|].
  rewrite filter_cons_False; [done|]. intros E. apply Hn. by rewrite <- E.
Qed.

(** A process moves on without a word. *)
Lemma living_become Q ps out i p code :
  living Q (Pool ps out) → ps !! i = Some p → lives Q code (by_key (p_pid p) out) →
  living Q (Pool (<[i:=become p code]> ps) out).
Proof.
  intros [Hn Ho Hl] Hi Hc. constructor; simpl in *.
  - by rewrite (pids_insert _ _ p).
  - by rewrite (pids_insert _ _ p).
  - intros j q Hj. apply list_lookup_insert_Some in Hj as [(-> & <- & _)|[_ Hj]]; [done|by eapply Hl].
Qed.

Lemma living_step Q s s' : fstep may_fail s s' → living Q s → living Q s'.
Proof.
  intros Hst Hliv. destruct Hst as [i p text k ps out Hi Hc|i p k pid ps out Hi Hc Hpid Hnew|i p k ps out Hi Hc Hm|
    i j p q k ps out Hi Hc Hj Hq Hr He Hne|i p k ps out Hi Hc Hall];
    pose proof (li_lives _ _ Hliv i p Hi) as Hp; rewrite Hc in Hp; simpl in Hp.
  - destruct Hliv as [Hn Ho Hl]. constructor; simpl in *; rewrite ?(pids_insert _ _ p) by done; [done| |].
    + apply Forall_app. split; [done|]. apply Forall_singleton. simpl.
      apply list_elem_of_fmap. exists p. split; [done|by eapply list_elem_of_lookup_2].
    + intros j q Hj. rewrite by_key_snoc. apply list_lookup_insert_Some in Hj as [(-> & <- & _)|[Hne Hj]].
      * simpl. by rewrite decide_True.
      * rewrite decide_False; [rewrite app_nil_r; by eapply Hl|]. intros E. apply Hne.
        apply (NoDup_lookup (p_pid <$> ps) i j (p_pid p)); [done|by rewrite list_lookup_fmap, Hi|].
        by rewrite list_lookup_fmap, Hj, E.
  - destruct Hp as [H0 H1]. pose proof Hliv as [Hn Ho _]. simpl in Hn, Ho.
    pose proof (living_become Q ps out i p (k pid) Hliv Hi (H1 pid ltac:(lia))) as [Hn' Ho' Hl'].
    constructor; simpl in *; rewrite ?fmap_app, ?(pids_insert _ _ p) in * by done; simpl.
    + apply NoDup_app. split; [done|]. split; [|apply NoDup_singleton].
      intros x Hx ->%list_elem_of_singleton. done.
    + eapply Forall_impl; [exact Ho|]. intros o Hin. apply elem_of_app. by left.
    + intros j q Hj. apply lookup_app_Some in Hj as [Hj|[_ Hj]]; [by eapply Hl'|].
      apply list_lookup_singleton_Some in Hj as [_ <-]. simpl. by rewrite (silent _ _ _ Ho Hnew).
  - destruct Hp as [_ H1]. apply living_become; [done..|by apply H1].
  - apply living_become; [|by rewrite list_lookup_insert_ne|done].
    destruct Hliv as [Hn Ho Hl]. constructor; simpl in *; rewrite ?(pids_insert _ _ q) by done; [done..|].
    intros l r Hlr. apply list_lookup_insert_Some in Hlr as [(-> & <- & _)|[_ Hlr]]; [by apply (Hl l q)|by eapply Hl].
  - by apply living_become.
Qed.

(** All of it, from the start. *)
Lemma family_runs P n np nl Q pid s :
  bounded P n → totals P np nl → lives Q P [] → rtc (fstep may_fail) (started pid P) s →
  Acc (λ s2 s1, fstep may_fail s1 s2) s ∧
  ((∀ s', ¬ fstep may_fail s s') →
    (¬ may_fail → length (procs s) = S np ∧ length (terminal s) = nl) ∧
    ∀ p, p ∈ procs s → ∃ status, p_code p = Exit status ∧ Q status (by_key (p_pid p) (terminal s))).
Proof.
  intros Hb Ht Hl Hr. split.
  - assert (∃ ns, by_code bounded (procs s) ns) as [ns Hns]; [|by eapply families_end].
    eapply (rtc_preserves _ (λ s, ∃ ns, by_code bounded (procs s) ns)); [|exact Hr|].
    + intros s1 s2 [ns Hns] Hst. destruct (bounded_step _ _ _ Hst Hns) as (ns' & ? & _). by exists ns'.
    + exists [n]. by constructor.
  - intros Hstuck. assert (Ho : in_order (procs s)).
    { eapply (rtc_preserves _ (λ s, in_order (procs s))); [|exact Hr|].
      - intros s1 s2 H1 Hst. by eapply in_order_step.
      - intros j q i Hj Hq. apply list_lookup_singleton_Some in Hj as [_ <-]. done. }
    destruct (pool_progress s Ho) as [[s' ?]|Hall]; [by destruct (Hstuck s')|].
    assert (Hliv : living Q s).
    { eapply (rtc_preserves _ (living Q)); [|exact Hr|].
      - intros s1 s2 H1 Hst. by eapply living_step.
      - constructor; simpl; [apply NoDup_singleton|done|].
        intros i p Hi. apply list_lookup_singleton_Some in Hi as [_ <-]. done. }
    assert (Hend : ∀ p, p ∈ procs s → ∃ status, p_code p = Exit status ∧ Q status (by_key (p_pid p) (terminal s))).
    { intros p Hin. specialize (Hall p Hin). apply list_elem_of_lookup in Hin as [i Hi].
      pose proof (li_lives _ _ Hliv i p Hi) as Hp. unfold ended in Hall.
      destruct (p_code p); try done. by eexists. }
    split; [|exact Hend]. intros Hno.
    assert (Hc : counting (S np) nl s).
    { eapply (rtc_preserves _ (counting (S np) nl)); [|exact Hr|].
      - intros s1 s2 H1 Hst. by eapply counting_step.
      - exists [(np, nl)]. split; [by constructor|]. simpl. lia. }
    destruct Hc as (ns & Hns & Hp & Hln).
    assert (H0 : sum_list ns.*1 = 0 ∧ sum_list ns.*2 = 0); [|lia].
    clear Hp Hln Hliv Ho Hstuck Hr Hall. revert Hend. induction Hns as [|p [a b] ps ns Hx _ IH]; intros Hend; [done|].
    destruct (IH (λ q Hq, Hend q ltac:(by right))) as [E1 E2].
    destruct (Hend p ltac:(by left)) as (st & Hst & _). unfold counted in Hx. rewrite Hst in Hx. simpl in Hx. destruct Hx as [-> ->]. done.
Qed.

Lemma newborns_run R P pid s :
  newborns R P → (∀ c, R c → ∃ u, c = Undefined u) → rtc (fstep may_fail) (started pid P) s →
  ∀ i p, procs s !! S i = Some p → R (p_code p).
Proof.
  intros HP HR Hr. set (born := λ s, ∀ i p, procs s !! i = Some p →
    match i with O => newborns R (p_code p) | S _ => R (p_code p) end).
  assert (Hs : born s); [|by intros i p; apply (Hs (S i))].
  eapply (rtc_preserves _ born); [|exact Hr|].
  2:{ intros i p Hi. apply list_lookup_singleton_Some in Hi as [-> <-]. exact HP. }
  assert (Hmove : ∀ ps out i p code, born (Pool ps out) → ps !! i = Some p → ¬ ended p →
    (newborns R (p_code p) → newborns R code) → ∀ out', born (Pool (<[i:=become p code]> ps) out')).
  { intros ps out i p code Hb Hi He Hc out' j q Hj. simpl in Hj.
    apply list_lookup_insert_Some in Hj as [(-> & <- & _)|[_ Hj]]; [|by apply (Hb j q)].
    specialize (Hb j p Hi). destruct j as [|j]; [by apply Hc|]. destruct (HR _ Hb) as [u Hu].
    unfold ended in He. by rewrite Hu in He. }
  intros s1 s2 Hb Hst. destruct Hst as [i p text k ps out Hi Hc|i p k q ps out Hi Hc Hpid Hnew|i p k ps out Hi Hc Hm|
    i j p q k ps out Hi Hc Hj Hq Hrp He Hne|i p k ps out Hi Hc Hall];
    (assert (Hp : ¬ ended p) by (unfold ended; rewrite Hc; tauto)).
  - apply (Hmove ps out); [done..|]. by rewrite Hc.
  - intros j r Hj. simpl in Hj. apply lookup_app_Some in Hj as [Hj|[Hge Hj]].
    + apply (Hmove ps out i p (k q) Hb Hi Hp) with (out' := out); [|done]. rewrite Hc. intros [_ H]. apply H. lia.
    + apply list_lookup_singleton_Some in Hj as [Ej <-]. apply lookup_lt_Some in Hi as Hlt.
      rewrite length_insert in *. specialize (Hb i p Hi). destruct j as [|j]; [lia|]. rewrite Hc in Hb.
      destruct i; [by destruct Hb|]. by destruct (HR _ Hb).
  - apply (Hmove ps out); [done..|]. rewrite Hc. intros [_ H]. by apply H.
  - apply (Hmove (<[j:=Proc (p_pid q) (p_parent q) true (p_code q)]> ps) out); [|by rewrite list_lookup_insert_ne|done|].
    + intros l r Hl. simpl in Hl. apply list_lookup_insert_Some in Hl as [(-> & <- & _)|[_ Hl]]; [by apply (Hb l q)|by apply Hb].
    + by rewrite Hc.
  - apply (Hmove ps out); [done..|]. by rewrite Hc.
Qed.
End runs.

(** ** The properties *)

(** Three lines, numbered from 1: the count is a variable of each process. *)
Definition quiz4_lines (status : Z) (L : list bytes) : Prop :=
  status = 0%Z ∧ ∃ x y z, L = [count_line "x" x 1; count_line "y" y 2; count_line "z" z 3].

(** C40: quiz4.c, where fork does not fail: every run ends, and in the end there were six processes,
    which have printed 18 lines, each its three, with the counts 1, 2 and 3. *)
Theorem quiz4_six_processes pid s :
  rtc (fstep False) (started pid quiz4) s →
  Acc (λ s2 s1, fstep False s1 s2) s ∧
  ((∀ s', ¬ fstep False s s') →
    length (procs s) = 6 ∧ length (terminal s) = 18 ∧
    ∀ p, p ∈ procs s → ∃ status, p_code p = Exit status ∧ quiz4_lines status (by_key (p_pid p) (terminal s))).
Proof.
  intros Hr. destruct (family_runs False quiz4 31 5 18 quiz4_lines pid s) as [Hend Hstuck]; [..|done|].
  - exists 15. split; [lia|]. intros x. case_decide; [exists 7; split; [lia|]; intros y|];
      (exists 3; split; [lia|]; by intros z).
  - assert (Hz : ∀ x y, totals (Fork (λ z, quiz4_rest x y z)) 1 6) by (intros x y; by exists 0, 3, 0, 3).
    exists 3, 12, 1, 6. split; [done|]. split; [done|]. split.
    + exists 1, 6, 1, 6. split; [done|]. split; [done|]. split; [apply Hz|]. intros y _. apply Hz.
    + intros x Hx. rewrite decide_False by lia. apply Hz.
  - assert (Hrest : ∀ x y z, lives quiz4_lines (quiz4_rest x y z) []) by (intros x y z; simpl; split; [done|by eexists _, _, _]).
    assert (Hz : ∀ x y, lives quiz4_lines (Fork (λ z, quiz4_rest x y z)) [])
      by (intros x y; split; [apply Hrest|by intros r _; apply Hrest]).
    split; [split; [apply Hz|by intros r _; apply Hz]|]. intros x Hx. rewrite decide_False by done. apply Hz.
  - split; [done|]. intros Hno. destruct (Hstuck Hno) as [Hc Hall]. destruct (Hc id) as [H1 H2]. done.
Qed.

Definition process_lines (status : Z) (L : list bytes) : Prop :=
  status = 0%Z ∧ ∃ x y, L = [pid_line "x" x; pid_line "y" y].

(** process-ex1.c, where fork does not fail: three processes with two lines each. *)
Theorem process_ex1_three_processes pid s :
  rtc (fstep False) (started pid process_ex1) s →
  Acc (λ s2 s1, fstep False s1 s2) s ∧
  ((∀ s', ¬ fstep False s s') →
    length (procs s) = 3 ∧ length (terminal s) = 6 ∧
    ∀ p, p ∈ procs s → ∃ status, p_code p = Exit status ∧ process_lines status (by_key (p_pid p) (terminal s))).
Proof.
  intros Hr. destruct (family_runs False process_ex1 11 2 6 process_lines pid s) as [Hend Hstuck]; [..|done|].
  - exists 5. split; [lia|]. intros x. case_decide; [exists 2; split; [lia|]; by intros y|done].
  - exists 1, 4, 0, 2. split; [done|]. split; [done|]. split; [by exists 0, 2, 0, 2|].
    intros x Hx. rewrite decide_False by lia. done.
  - assert (Hrest : ∀ x y, lives process_lines (process_rest x y) [])
      by (intros x y; simpl; split; [done|by eexists _, _]).
    split; [split; [apply Hrest|by intros r _; apply Hrest]|].
    intros x Hx. rewrite decide_False by done. apply Hrest.
  - split; [done|]. intros Hno. destruct (Hstuck Hno) as [Hc Hall]. destruct (Hc id) as [H1 H2]. done.
Qed.

(** newproc-posix.c: a run in which fork succeeds has no defined behaviour. *)
Theorem newproc_child_undefined may_fail pid s :
  rtc (fstep may_fail) (started pid (newproc pid)) s →
  ∀ i p, procs s !! S i = Some p → p_code p = Undefined Uninit.
Proof.
  intros Hr. apply (newborns_run may_fail (λ c, c = Undefined Uninit) (newproc pid) pid s).
  - split; [done|]. intros n Hn. case_decide; [done|]. by rewrite decide_False by done.
  - intros c ->. by eexists.
  - exact Hr.
Qed.

(** ** Examples *)

(** The six processes one after the other. *)
Definition quiz4_run : list nat := 
  replicate 5 0 ++ replicate 5 1 ++ replicate 3 2 ++ replicate 4 3 ++ replicate 3 4 ++ replicate 3 5.

Lemma quiz4_six_processes_witness :
  ∃ s, fsched quiz4_run (started 100 quiz4) = Some s ∧
    (λ p, (p_pid p, p_code p)) <$> procs s = (λ n, (n, Exit 0)) <$> [100; 101; 102; 103; 104; 105]%Z ∧
    Acc (λ s2 s1, fstep False s1 s2) s ∧
    ((∀ s', ¬ fstep False s s') →
      length (procs s) = 6 ∧ length (terminal s) = 18 ∧
      ∀ p, p ∈ procs s → ∃ status, p_code p = Exit status ∧ quiz4_lines status (by_key (p_pid p) (terminal s))).
Proof.
  eexists. split; [vm_compute; reflexivity|]. split; [vm_compute; reflexivity|].
  apply (quiz4_six_processes 100). apply (fsched_ok False quiz4_run). vm_compute. reflexivity.
Defined.
